(** * The riscv-reboot instruction sequencer: a shallow embedding

    The sequencer is written in nMigen, a hardware description language
    embedded in Python.  A design is a list of guarded assignments to
    signals:  [m.d.comb += s.eq(v)] drives a combinational signal, and
    [m.d.ph1 += r.eq(v)] / [m.d.ph2 += r.eq(v)] load a register on the next
    rising edge of the clock [ph1] / [ph2].  When several active assignments
    target the same signal, the one that comes last in program order wins; a
    signal nobody drives has its reset value.

    The embedding keeps that shape.  Every handler of the source becomes a
    function returning the list of the assignments that are active for the
    current registers and inputs, in program order; [comb_of] reads a
    combinational signal off such a list, and [tick] loads the registers of
    one clock domain from it.  All signals are unsigned bit vectors, held as
    [Z] and truncated to their width when assigned. *)

From Stdlib Require Import ZArith List Bool Lia.
Import ListNotations.
Local Open Scope Z_scope.

(** ** Bit vectors *)

(** Python slice [x[lo:hi]] of a signal. *)
Definition bits (lo hi x : Z) : Z := Z.land (Z.shiftr x lo) (Z.ones (hi - lo)).

(** Single bit [x[i]], as a one-bit signal. *)
Definition bit (i x : Z) : Z := Z.b2z (Z.testbit x i).

(** Assignment to a signal of width [w] keeps the low [w] bits. *)
Definition trunc (w x : Z) : Z := x mod 2 ^ w.

(** Value of a [Signal(signed(w))] holding the bit pattern [x]. *)
Definition as_signed (w x : Z) : Z :=
  if Z.testbit x (w - 1) then x - 2 ^ w else x.

(** Replace bits [lo, hi) of [old] by the low bits of [v]
    ([r[lo:hi].eq(v)]). *)
Definition set_bits (lo hi old v : Z) : Z :=
  Z.lor (Z.land old (Z.lnot (Z.shiftl (Z.ones (hi - lo)) lo)))
        (Z.shiftl (Z.land v (Z.ones (hi - lo))) lo).

(** [s.bool()]: a signal is true when it is not zero. *)
Definition truthy (x : Z) : bool := negb (x =? 0).

(** [all_true] of the source: the conjunction of its arguments. *)
Definition all_true (args : list bool) : bool := forallb (fun b => b) args.

(** ** consts.py *)

Module Instr.
Definition MRET := 0x30200073.
Definition ECALL := 0x00000073.
Definition EBREAK := 0x00100073.
End Instr.

Module Opcode.
Definition LOAD := 0x03.
Definition OP_IMM := 0x13.
Definition STORE := 0x23.
Definition OP := 0x33.
Definition BRANCH := 0x63.
Definition SYSTEM := 0x73.
Definition LUI := 0x37.
Definition JALR := 0x67.
Definition MISC_MEM := 0x0F.
Definition AUIPC := 0x17.
Definition JAL := 0x6F.
End Opcode.

Module OpcodeSelect.
Definition NONE := 0.
Definition LOAD := 1.
Definition STORE := 2.
Definition OP := 3.
Definition BRANCH := 4.
Definition CSRS := 5.
Definition LUI := 6.
Definition JALR := 7.
Definition AUIPC := 8.
Definition JAL := 9.
Definition OP_IMM := 10.
Definition MRET := 11.
Definition ECALL := 12.
Definition EBREAK := 13.
End OpcodeSelect.

Module OpcodeFormat.
Definition R := 0.
Definition I := 1.
Definition U := 2.
Definition S := 3.
Definition B := 4.
Definition J := 5.
Definition SYS := 6.
End OpcodeFormat.

Module BranchCond.
Definition EQ := 0.
Definition NE := 1.
Definition LT := 4.
Definition GE := 5.
Definition LTU := 6.
Definition GEU := 7.
End BranchCond.

Module MemAccessWidth.
Definition B := 0.
Definition H := 1.
Definition W := 2.
Definition BU := 4.
Definition HU := 5.
End MemAccessWidth.

Module AluOp.
Definition NONE := 0.
Definition ADD := 1.
Definition SUB := 2.
Definition SLL := 3.
Definition SLT := 4.
Definition SLTU := 5.
Definition XOR := 6.
Definition SRL := 7.
Definition SRA := 8.
Definition OR := 9.
Definition AND := 10.
Definition X := 11.
Definition Y := 12.
Definition AND_NOT := 13.
End AluOp.

Module AluFunc.
Definition ADD := 0.
Definition SUB := 8.
Definition SLL := 1.
Definition SLT := 2.
Definition SLTU := 11.
Definition XOR := 4.
Definition SRL := 5.
Definition SRA := 13.
Definition OR := 6.
Definition AND := 7.
End AluFunc.

Module SystemFunc.
Definition PRIV := 0.
Definition CSRRW := 1.
Definition CSRRS := 2.
Definition CSRRC := 3.
Definition CSRRWI := 5.
Definition CSRRSI := 6.
Definition CSRRCI := 7.
End SystemFunc.

Module PrivFunc.
Definition ECALL := 0.
Definition EBREAK := 1.
Definition URET := 2.
Definition SRET := 0x102.
Definition MRET := 0x302.
Definition WFI := 0x105.
End PrivFunc.

Module TrapCause.
Definition INT_MACH_TIMER := 0x80000007.
Definition INT_MACH_EXTERNAL := 0x8000000B.
Definition EXC_INSTR_ADDR_MISALIGN := 0x00000000.
Definition EXC_ILLEGAL_INSTR := 0x00000002.
Definition EXC_BREAKPOINT := 0x00000003.
Definition EXC_LOAD_ADDR_MISALIGN := 0x00000004.
Definition EXC_STORE_AMO_ADDR_MISALIGN := 0x00000006.
Definition EXC_ECALL_FROM_MACH_MODE := 0x0000000B.
End TrapCause.

Module ConstSelect.
Definition EXC_INSTR_ADDR_MISALIGN := 0.
Definition EXC_ILLEGAL_INSTR := 1.
Definition EXC_BREAKPOINT := 2.
Definition EXC_LOAD_ADDR_MISALIGN := 3.
Definition EXC_STORE_AMO_ADDR_MISALIGN := 4.
Definition EXC_ECALL_FROM_MACH_MODE := 5.
Definition INT_MACH_EXTERNAL := 6.
Definition INT_MACH_TIMER := 7.
Definition SHAMT_0 := 8.
Definition SHAMT_4 := 9.
Definition SHAMT_8 := 10.
Definition SHAMT_16 := 11.
Definition SHAMT_24 := 12.
End ConstSelect.

Module CSRAddr.
Definition MSTATUS := 0x300.
Definition MIE := 0x304.
Definition MTVEC := 0x305.
Definition MEPC := 0x341.
Definition MCAUSE := 0x342.
Definition MTVAL := 0x343.
Definition MIP := 0x344.
Definition LAST := 0xFFF.
End CSRAddr.

Module MStatus.
Definition MIE := 3.
Definition MPIE := 7.
End MStatus.

Module InstrReg.
Definition ZERO := 0.
Definition RS1 := 1.
Definition RS2 := 2.
Definition RD := 3.
End InstrReg.

Module SeqMuxSelect.
Definition MEMDATA_WR := 0.
Definition MEMDATA_RD := 1.
Definition MEMADDR := 2.
Definition MEMADDR_LSB_MASKED := 3.
Definition PC := 4.
Definition PC_PLUS_4 := 5.
Definition MTVEC := 6.
Definition MTVEC_LSR2 := 7.
Definition TMP := 8.
Definition IMM := 9.
Definition INSTR := 10.
Definition X := 11.
Definition Y := 12.
Definition Z := 13.
Definition Z_LSL2 := 14.
Definition CONST := 15.
End SeqMuxSelect.

(** ** sequencer_card.py *)

Module SequencerCard.

(** *** SequencerState: the registers of the sequencer card *)

Inductive Reg :=
| _pc | _instr_phase | _instr
| _stored_alu_eq | _stored_alu_lt | _stored_alu_ltu
| memaddr | memdata_wr | _tmp | reg_page
| _reg_time_irq | _reg_ext_irq
| trap | _trap_svc | _exception | _trap_cause
| _mtvec | _mcause | _mepc | _mtval | _mstatus.

Scheme Equality for Reg.

(** Width of each register, from [SequencerState.__init__]. *)
Definition reg_width (r : Reg) : Z :=
  match r with
  | _pc | _instr | memaddr | memdata_wr | _tmp | _trap_cause
  | _mtvec | _mcause | _mepc | _mtval | _mstatus => 32
  | _instr_phase => 2
  | _ => 1
  end.

(** A snapshot of the registers. *)
Definition SequencerState := Reg -> Z.

Definition all_regs : list Reg :=
  [ _pc; _instr_phase; _instr; _stored_alu_eq; _stored_alu_lt;
    _stored_alu_ltu; memaddr; memdata_wr; _tmp; reg_page; _reg_time_irq;
    _reg_ext_irq; trap; _trap_svc; _exception; _trap_cause; _mtvec; _mcause;
    _mepc; _mtval; _mstatus ].

Definition reg_index (r : Reg) : nat :=
  match r with
  | _pc => 0 | _instr_phase => 1 | _instr => 2 | _stored_alu_eq => 3
  | _stored_alu_lt => 4 | _stored_alu_ltu => 5 | memaddr => 6
  | memdata_wr => 7 | _tmp => 8 | reg_page => 9 | _reg_time_irq => 10
  | _reg_ext_irq => 11 | trap => 12 | _trap_svc => 13 | _exception => 14
  | _trap_cause => 15 | _mtvec => 16 | _mcause => 17 | _mepc => 18
  | _mtval => 19 | _mstatus => 20
  end%nat.

(** The registers [f] describes, each evaluated once and stored. *)
Definition snapshot (f : Reg -> Z) : SequencerState :=
  let t := map f all_regs in fun r => nth (reg_index r) t 0.

(** *** Signals driven combinationally by the card *)

Inductive Sig :=
| _next_instr_phase
| reg_to_x | _pc_to_x | _memdata_to_x
| reg_to_y | _imm_to_y | _shamt_to_y
| alu_op_to_z | _pc_plus_4_to_z | _tmp_to_z
| _pc_plus_4_to_pc | _x_to_pc | _z_to_pc | _memaddr_to_pc | _memdata_to_pc
| _x_to_tmp
| _pc_plus_4_to_memaddr | _x_to_memaddr | _z_to_memaddr | _memdata_to_memaddr
| _z_to_memdata
| mem_rd | _load_instr | mem_wr | mem_wr_mask
| _shamt
| data_x_out | data_y_out | data_z_out
| _is_last_instr_cycle | instr_complete
| csr_to_x | z_to_csr
| x_reg | y_reg | z_reg
| _funct12_to_csr_num | _mepc_num_to_csr_num | csr_num
| _next_reg_page
| _imm_format
| fatal.

Scheme Equality for Sig.

(** Width of each signal, from [SequencerCard.__init__]. *)
Definition sig_width (s : Sig) : Z :=
  match s with
  | data_x_out | data_y_out | data_z_out => 32
  | csr_num => 12
  | x_reg | y_reg | z_reg | _shamt => 5
  | alu_op_to_z | mem_wr_mask => 4
  | _imm_format => 3
  | _next_instr_phase => 2
  | _ => 1
  end.

(** Reset value of a signal: what it carries when nothing drives it. *)
Definition sig_reset (s : Sig) : Z :=
  match s with
  | mem_rd | _load_instr => 1
  | _ => 0
  end.

(** *** Inputs of the card: the buses, the ALU flags, the interrupt lines *)

Record Inputs := {
  alu_eq : Z;
  alu_lt : Z;
  alu_ltu : Z;
  time_irq : Z;
  ext_irq : Z;
  data_x_in : Z;
  data_y_in : Z;
  data_z_in : Z;
  memdata_rd : Z;
  mcycle_end : Z
}.

(** *** Assignments *)

Inductive Domain := Dph1 | Dph2.

Scheme Equality for Domain.

Inductive Stmt :=
| comb (s : Sig) (v : Z)                          (* m.d.comb += s.eq(v) *)
| sync (d : Domain) (r : Reg) (v : Z)             (* m.d.<d> += r.eq(v) *)
| sync_bit (d : Domain) (r : Reg) (i : Z) (v : Z) (* m.d.<d> += r[i].eq(v) *).

Definition ph1 := sync Dph1.
Definition ph2 := sync Dph2.
Definition ph1_bit := sync_bit Dph1.

(** The value of combinational signal [s] under the active assignments [l]:
    the last assignment to [s] wins. *)
Definition comb_of (l : list Stmt) (s : Sig) : Z :=
  fold_left
    (fun acc stmt =>
       match stmt with
       | comb s' v => if Sig_beq s s' then trunc (sig_width s) v else acc
       | _ => acc
       end) l (sig_reset s).

(** The value register [r] holds after the next rising edge of clock [d],
    when [l] are the active assignments and [old] is its current value. *)
Definition next_of (d : Domain) (l : list Stmt) (r : Reg) (old : Z) : Z :=
  fold_left
    (fun acc stmt =>
       match stmt with
       | sync d' r' v =>
           if Domain_beq d d' && Reg_beq r r' then trunc (reg_width r) v
           else acc
       | sync_bit d' r' i v =>
           if Domain_beq d d' && Reg_beq r r' then set_bits i (i + 1) acc v
           else acc
       | comb _ _ => acc
       end) l old.

(** *** Instruction decoding (the "Decode instruction" block of [elaborate]) *)

Definition opcode_of (instr : Z) : Z := bits 0 7 instr.
Definition rs1_of (instr : Z) : Z := bits 15 20 instr.
Definition rs2_of (instr : Z) : Z := bits 20 25 instr.
Definition rd_of (instr : Z) : Z := bits 7 12 instr.
Definition funct3_of (instr : Z) : Z := bits 12 15 instr.
Definition funct7_of (instr : Z) : Z := bits 25 32 instr.
Definition funct12_of (instr : Z) : Z := bits 20 32 instr.
(** [_alu_func[:3] = _funct3], [_alu_func[3] = _funct7[5]]. *)
Definition alu_func_of (instr : Z) : Z :=
  Z.lor (funct3_of instr) (Z.shiftl (bit 5 (funct7_of instr)) 3).

(** [decode_imm]: the immediate for each [_imm_format].  The signed
    temporaries of the source are sign-extended by the assignment to the
    32-bit [_imm]. *)
Definition decode_imm (imm_format instr : Z) : Z :=
  if imm_format =? OpcodeFormat.I then
    trunc 32 (as_signed 12 (bits 20 32 instr))
  else if imm_format =? OpcodeFormat.S then
    trunc 32 (as_signed 12
      (Z.lor (bits 7 12 instr) (Z.shiftl (bits 25 32 instr) 5)))
  else if imm_format =? OpcodeFormat.R then 0
  else if imm_format =? OpcodeFormat.U then
    Z.shiftl (bits 12 32 instr) 12
  else if imm_format =? OpcodeFormat.B then
    trunc 32 (as_signed 13
      (Z.lor (Z.shiftl (bit 31 instr) 12)
      (Z.lor (Z.shiftl (bit 7 instr) 11)
      (Z.lor (Z.shiftl (bits 25 31 instr) 5)
             (Z.shiftl (bits 8 12 instr) 1)))))
  else if imm_format =? OpcodeFormat.J then
    trunc 32 (as_signed 21
      (Z.lor (Z.shiftl (bit 31 instr) 20)
      (Z.lor (Z.shiftl (bits 12 20 instr) 12)
      (Z.lor (Z.shiftl (bit 20 instr) 11)
             (Z.shiftl (bits 21 31 instr) 1)))))
  else if imm_format =? OpcodeFormat.SYS then
    bits 15 32 instr mod 2 ^ 5
  else 0.

(** *** The handlers

    Each handler returns its active assignments for the registers [st], the
    inputs [i] and the decoded immediate [imm]. *)

Section Handlers.

Variable st : SequencerState.
Variable i : Inputs.
Variable imm : Z.

Let _opcode := opcode_of (st _instr).
Let _rs1 := rs1_of (st _instr).
Let _rs2 := rs2_of (st _instr).
Let _rd := rd_of (st _instr).
Let _funct3 := funct3_of (st _instr).
Let _funct12 := funct12_of (st _instr).
Let _alu_func := alu_func_of (st _instr).

Definition set_exception (exc mtval : Z) : list Stmt :=
  [ ph2 _exception 1;
    ph2 _trap_cause exc;
    ph1 _mtval mtval;
    ph1 _mepc (st _pc);
    ph1 trap 1;
    comb _next_instr_phase 0 ].

Definition handle_illegal_instr : list Stmt :=
  set_exception TrapCause.EXC_ILLEGAL_INSTR (st _instr).

Definition handle_trap : list Stmt :=
  if st _instr_phase =? 0 then
    (if st _exception =? 0 then
       (if truthy (st _reg_time_irq) then
          [ ph2 _trap_cause TrapCause.INT_MACH_TIMER ]
        else if truthy (st _reg_ext_irq) then
          [ ph2 _trap_cause TrapCause.INT_MACH_EXTERNAL ]
        else []) ++
       [ ph1 _mepc (st _pc) ]
     else []) ++
    [ ph1 _mcause (st _trap_cause) ] ++
    (* Clear the registered irqs. *)
    (if truthy (st _reg_time_irq) then [ ph1 _reg_time_irq 0 ]
     else if truthy (st _reg_ext_irq) then [ ph1 _reg_ext_irq 0 ]
     else []) ++
    (let is_int := bit 31 (st _trap_cause) in
     let vec_mode := bits 0 2 (st _mtvec) in
     [ comb data_x_out (Z.land (st _mtvec) 0xFFFFFFFC) ] ++
     (if all_true [truthy is_int; vec_mode =? 1] then
        (* data_y_out[2:] = _trap_cause[:30], data_y_out[0:2] = 0 *)
        [ comb data_y_out (Z.shiftl (bits 0 30 (st _trap_cause)) 2) ]
      else
        [ comb data_y_out 0 ]) ++
     [ comb alu_op_to_z AluOp.ADD;
       comb _z_to_memaddr 1;
       comb _next_instr_phase 1 ])
  else
    if truthy (st _exception) then
      [ comb _next_instr_phase 1;
        comb fatal 1 ]
    else
      [ comb mem_rd 1;
        comb _memdata_to_pc 1;
        comb _memdata_to_memaddr 1;
        ph2 _exception 0;
        ph2 _trap_cause 0;
        ph1 trap 0;
        ph1 _trap_svc 1;
        ph1_bit _mstatus MStatus.MPIE (bit MStatus.MIE (st _mstatus));
        ph1_bit _mstatus MStatus.MIE 0 ].

Definition handle_lui : list Stmt :=
  [ comb _imm_format OpcodeFormat.U;
    comb reg_to_x 1;
    comb x_reg 0;
    comb _imm_to_y 1;
    comb alu_op_to_z AluOp.ADD;
    comb z_reg _rd;
    comb _is_last_instr_cycle 1 ].

Definition handle_auipc : list Stmt :=
  [ comb _imm_format OpcodeFormat.U;
    comb _pc_to_x 1;
    comb _imm_to_y 1;
    comb alu_op_to_z AluOp.ADD;
    comb z_reg _rd;
    comb _is_last_instr_cycle 1 ].

(** The [Switch(self._alu_func)] shared by [handle_op_imm] and
    [handle_op]. *)
Definition alu_func_switch : list Stmt :=
  if _alu_func =? AluFunc.ADD then [ comb alu_op_to_z AluOp.ADD ]
  else if _alu_func =? AluFunc.SUB then [ comb alu_op_to_z AluOp.SUB ]
  else if _alu_func =? AluFunc.SLL then [ comb alu_op_to_z AluOp.SLL ]
  else if _alu_func =? AluFunc.SLT then [ comb alu_op_to_z AluOp.SLT ]
  else if _alu_func =? AluFunc.SLTU then [ comb alu_op_to_z AluOp.SLTU ]
  else if _alu_func =? AluFunc.XOR then [ comb alu_op_to_z AluOp.XOR ]
  else if _alu_func =? AluFunc.SRL then [ comb alu_op_to_z AluOp.SRL ]
  else if _alu_func =? AluFunc.SRA then [ comb alu_op_to_z AluOp.SRA ]
  else if _alu_func =? AluFunc.OR then [ comb alu_op_to_z AluOp.OR ]
  else if _alu_func =? AluFunc.AND then [ comb alu_op_to_z AluOp.AND ]
  else handle_illegal_instr.

Definition handle_op_imm : list Stmt :=
  [ comb _imm_format OpcodeFormat.I;
    comb reg_to_x 1;
    comb x_reg _rs1;
    comb _imm_to_y 1;
    comb z_reg _rd ] ++
  alu_func_switch ++
  [ comb _is_last_instr_cycle 1 ].

Definition handle_op : list Stmt :=
  [ comb _imm_format OpcodeFormat.R;
    comb reg_to_x 1;
    comb x_reg _rs1;
    comb reg_to_y 1;
    comb y_reg _rs2;
    comb z_reg _rd ] ++
  alu_func_switch ++
  [ comb _is_last_instr_cycle 1 ].

Definition handle_jal : list Stmt :=
  [ comb _imm_format OpcodeFormat.J ] ++
  if st _instr_phase =? 0 then
    [ comb _pc_to_x 1;
      comb _imm_to_y 1;
      comb alu_op_to_z AluOp.ADD;
      comb _z_to_memaddr 1;
      comb _next_instr_phase 1 ]
  else
    [ comb _pc_plus_4_to_z 1;
      comb z_reg _rd;
      comb _memaddr_to_pc 1 ] ++
    if negb (bit 1 (st memaddr) =? 0) then
      set_exception TrapCause.EXC_INSTR_ADDR_MISALIGN (st memaddr) ++
      [ comb _memaddr_to_pc 0 ]  (* Cancel updating the PC *)
    else
      [ comb _is_last_instr_cycle 1 ].

Definition handle_jalr : list Stmt :=
  [ comb _imm_format OpcodeFormat.J ] ++
  if st _instr_phase =? 0 then
    [ comb reg_to_x 1;
      comb x_reg _rs1;
      comb _imm_to_y 1;
      comb alu_op_to_z AluOp.ADD;
      comb _z_to_memaddr 1;
      comb _next_instr_phase 1 ]
  else
    [ comb _pc_plus_4_to_z 1;
      comb z_reg _rd;
      comb _memaddr_to_pc 1 ] ++
    if negb (bit 1 (st memaddr) =? 0) then
      set_exception TrapCause.EXC_INSTR_ADDR_MISALIGN
                    (Z.land (st memaddr) 0xFFFFFFFE) ++
      [ comb _memaddr_to_pc 0 ]  (* Cancel updating the PC *)
    else
      [ comb _is_last_instr_cycle 1 ].

(** The local signal [cond] of [handle_branch]; it stays 0 when [_funct3]
    is none of the six branch conditions. *)
Definition branch_cond : bool :=
  if _funct3 =? BranchCond.EQ then st _stored_alu_eq =? 1
  else if _funct3 =? BranchCond.NE then st _stored_alu_eq =? 0
  else if _funct3 =? BranchCond.LT then st _stored_alu_lt =? 1
  else if _funct3 =? BranchCond.GE then st _stored_alu_lt =? 0
  else if _funct3 =? BranchCond.LTU then st _stored_alu_ltu =? 1
  else if _funct3 =? BranchCond.GEU then st _stored_alu_ltu =? 0
  else false.

Definition is_branch_cond (f3 : Z) : bool :=
  (f3 =? BranchCond.EQ) || (f3 =? BranchCond.NE) || (f3 =? BranchCond.LT)
  || (f3 =? BranchCond.GE) || (f3 =? BranchCond.LTU) || (f3 =? BranchCond.GEU).

Definition handle_branch : list Stmt :=
  [ comb _imm_format OpcodeFormat.B ] ++
  if st _instr_phase =? 0 then
    [ comb reg_to_x 1;
      comb x_reg _rs1;
      comb reg_to_y 1;
      comb y_reg _rs2;
      comb alu_op_to_z AluOp.SUB;
      comb _next_instr_phase 1 ]
  else
    (if is_branch_cond _funct3 then [] else handle_illegal_instr) ++
    (if branch_cond then [ comb _imm_to_y 1 ]
     else [ comb _shamt 4; comb _shamt_to_y 1 ]) ++
    [ comb _pc_to_x 1;
      comb alu_op_to_z AluOp.ADD;
      comb _z_to_pc 1;
      comb _z_to_memaddr 1 ] ++
    if negb (bits 0 2 (data_z_in i) =? 0) then
      set_exception TrapCause.EXC_INSTR_ADDR_MISALIGN (data_z_in i) ++
      [ comb _z_to_pc 0 ]  (* Cancel updating the PC *)
    else
      [ comb _is_last_instr_cycle 1 ].

Definition handle_load : list Stmt :=
  [ comb _imm_format OpcodeFormat.I ] ++
  if st _instr_phase =? 0 then
    [ comb reg_to_x 1;
      comb x_reg _rs1;
      comb _imm_to_y 1;
      comb alu_op_to_z AluOp.ADD;
      comb _z_to_memaddr 1;
      comb _next_instr_phase 1 ]
  else if st _instr_phase =? 1 then
    [ comb mem_rd 1;
      comb _memdata_to_x 1;
      comb _shamt_to_y 1;
      comb alu_op_to_z AluOp.SLL;
      comb z_reg _rd;
      comb _next_instr_phase 2 ] ++
    let lsb := bits 0 2 (st memaddr) in
    if (_funct3 =? MemAccessWidth.B) || (_funct3 =? MemAccessWidth.BU) then
      if lsb =? 0 then [ comb _shamt 24 ]
      else if lsb =? 1 then [ comb _shamt 16 ]
      else if lsb =? 2 then [ comb _shamt 8 ]
      else if lsb =? 3 then [ comb _shamt 0 ]
      else []
    else if (_funct3 =? MemAccessWidth.H) || (_funct3 =? MemAccessWidth.HU) then
      if lsb =? 0 then [ comb _shamt 16 ]
      else if lsb =? 2 then [ comb _shamt 0 ]
      else set_exception TrapCause.EXC_LOAD_ADDR_MISALIGN (st memaddr)
    else if _funct3 =? MemAccessWidth.W then
      if lsb =? 0 then [ comb _shamt 0 ]
      else set_exception TrapCause.EXC_LOAD_ADDR_MISALIGN (st memaddr)
    else handle_illegal_instr
  else
    [ comb reg_to_x 1;
      comb x_reg _rd;
      comb _shamt_to_y 1;
      comb z_reg _rd ] ++
    (if _funct3 =? MemAccessWidth.B then
       [ comb _shamt 24; comb alu_op_to_z AluOp.SRA ]
     else if _funct3 =? MemAccessWidth.BU then
       [ comb _shamt 24; comb alu_op_to_z AluOp.SRL ]
     else if _funct3 =? MemAccessWidth.H then
       [ comb _shamt 16; comb alu_op_to_z AluOp.SRA ]
     else if _funct3 =? MemAccessWidth.HU then
       [ comb _shamt 16; comb alu_op_to_z AluOp.SRL ]
     else if _funct3 =? MemAccessWidth.W then
       [ comb _shamt 0; comb alu_op_to_z AluOp.SRL ]
     else []) ++
    [ comb _is_last_instr_cycle 1 ].

Definition handle_store : list Stmt :=
  [ comb _imm_format OpcodeFormat.S ] ++
  if st _instr_phase =? 0 then
    [ comb reg_to_x 1;
      comb x_reg _rs1;
      comb _imm_to_y 1;
      comb alu_op_to_z AluOp.ADD;
      comb _z_to_memaddr 1;
      comb _next_instr_phase 1 ]
  else if st _instr_phase =? 1 then
    [ comb reg_to_x 1;
      comb x_reg _rs2;
      comb _shamt_to_y 1;
      comb alu_op_to_z AluOp.SLL;
      comb _z_to_memdata 1;
      comb _next_instr_phase 2 ] ++
    let lsb := bits 0 2 (st memaddr) in
    if _funct3 =? MemAccessWidth.B then
      if lsb =? 0 then [ comb _shamt 0 ]
      else if lsb =? 1 then [ comb _shamt 8 ]
      else if lsb =? 2 then [ comb _shamt 16 ]
      else if lsb =? 3 then [ comb _shamt 24 ]
      else []
    else if _funct3 =? MemAccessWidth.H then
      if lsb =? 0 then [ comb _shamt 0 ]
      else if lsb =? 2 then [ comb _shamt 16 ]
      else set_exception TrapCause.EXC_STORE_AMO_ADDR_MISALIGN (st memaddr)
    else if _funct3 =? MemAccessWidth.W then
      if lsb =? 0 then [ comb _shamt 0 ]
      else set_exception TrapCause.EXC_STORE_AMO_ADDR_MISALIGN (st memaddr)
    else handle_illegal_instr
  else
    (let lsb := bits 0 2 (st memaddr) in
     if _funct3 =? MemAccessWidth.B then
       if lsb =? 0 then [ comb mem_wr_mask 1 ]
       else if lsb =? 1 then [ comb mem_wr_mask 2 ]
       else if lsb =? 2 then [ comb mem_wr_mask 4 ]
       else if lsb =? 3 then [ comb mem_wr_mask 8 ]
       else []
     else if _funct3 =? MemAccessWidth.H then
       if lsb =? 0 then [ comb mem_wr_mask 3 ]
       else if lsb =? 2 then [ comb mem_wr_mask 12 ]
       else []
     else if _funct3 =? MemAccessWidth.W then
       if lsb =? 0 then [ comb mem_wr_mask 15 ]
       else []
     else []) ++
    [ comb mem_wr 1;
      comb _is_last_instr_cycle 1 ].

(** Phase 1 of every CSR instruction: [tmp] goes to [rd]. *)
Definition csr_phase1 : list Stmt :=
  [ comb _tmp_to_z 1;
    comb z_reg _rd;
    comb _is_last_instr_cycle 1 ].

Definition handle_CSRRW : list Stmt :=
  [ comb _funct12_to_csr_num 1 ] ++
  if st _instr_phase =? 0 then
    (if _rd =? 0 then [ comb x_reg 0; comb reg_to_x 1 ]
     else [ comb csr_to_x 1 ]) ++
    [ comb y_reg _rs1;
      comb reg_to_y 1;
      comb alu_op_to_z AluOp.Y;
      comb z_to_csr 1;
      comb _x_to_tmp 1;
      comb _next_instr_phase 1 ]
  else csr_phase1.

Definition handle_CSRRWI : list Stmt :=
  [ comb _funct12_to_csr_num 1 ] ++
  if st _instr_phase =? 0 then
    (if _rd =? 0 then [ comb x_reg 0; comb reg_to_x 1 ]
     else [ comb csr_to_x 1 ]) ++
    [ comb _imm_to_y 1;
      comb alu_op_to_z AluOp.Y;
      comb z_to_csr 1;
      comb _x_to_tmp 1;
      comb _next_instr_phase 1 ]
  else csr_phase1.

Definition handle_CSRRS : list Stmt :=
  [ comb _funct12_to_csr_num 1 ] ++
  if st _instr_phase =? 0 then
    [ comb csr_to_x 1;
      comb y_reg _rs1;
      comb reg_to_y 1;
      comb alu_op_to_z AluOp.OR;
      comb z_to_csr (Z.b2z (negb (_rs1 =? 0)));
      comb _x_to_tmp 1;
      comb _next_instr_phase 1 ]
  else csr_phase1.

Definition handle_CSRRSI : list Stmt :=
  [ comb _funct12_to_csr_num 1 ] ++
  if st _instr_phase =? 0 then
    [ comb csr_to_x 1;
      comb _imm_to_y 1;
      comb alu_op_to_z AluOp.OR;
      comb z_to_csr (Z.b2z (negb (imm =? 0)));
      comb _x_to_tmp 1;
      comb _next_instr_phase 1 ]
  else csr_phase1.

Definition handle_CSRRC : list Stmt :=
  [ comb _funct12_to_csr_num 1 ] ++
  if st _instr_phase =? 0 then
    [ comb csr_to_x 1;
      comb y_reg _rs1;
      comb reg_to_y 1;
      comb alu_op_to_z AluOp.AND_NOT;
      comb z_to_csr (Z.b2z (negb (_rs1 =? 0)));
      comb _x_to_tmp 1;
      comb _next_instr_phase 1 ]
  else csr_phase1.

Definition handle_CSRRCI : list Stmt :=
  [ comb _funct12_to_csr_num 1 ] ++
  if st _instr_phase =? 0 then
    [ comb csr_to_x 1;
      comb _imm_to_y 1;
      comb alu_op_to_z AluOp.AND_NOT;
      comb z_to_csr (Z.b2z (negb (imm =? 0)));
      comb _x_to_tmp 1;
      comb _next_instr_phase 1 ]
  else csr_phase1.

Definition handle_MRET : list Stmt :=
  [ comb _mepc_num_to_csr_num 1;
    comb csr_to_x 1;
    comb _x_to_pc 1;
    comb _is_last_instr_cycle 1;
    ph1_bit _mstatus MStatus.MIE (bit MStatus.MPIE (st _mstatus));
    ph1_bit _mstatus MStatus.MPIE 1 ].

Definition handle_PRIV : list Stmt :=
  if _funct12 =? PrivFunc.MRET then
    if (_rd =? 0) && (_rs1 =? 0) then handle_MRET
    else handle_illegal_instr
  else handle_illegal_instr.

Definition handle_system : list Stmt :=
  [ comb _imm_format OpcodeFormat.SYS ] ++
  if _funct3 =? SystemFunc.CSRRW then handle_CSRRW
  else if _funct3 =? SystemFunc.CSRRWI then handle_CSRRWI
  else if _funct3 =? SystemFunc.CSRRS then handle_CSRRS
  else if _funct3 =? SystemFunc.CSRRSI then handle_CSRRSI
  else if _funct3 =? SystemFunc.CSRRC then handle_CSRRC
  else if _funct3 =? SystemFunc.CSRRCI then handle_CSRRCI
  else if _funct3 =? SystemFunc.PRIV then handle_PRIV
  else handle_illegal_instr.

(** [instr_misalign] of [elaborate]: the PC must be 32-bit aligned. *)
Definition instr_misalign : bool :=
  all_true [negb (bits 0 2 (st _pc) =? 0); st trap =? 0].

(** The last block of [elaborate]: "Handle the trap", else decode and
    dispatch on the opcode. *)
Definition dispatch : list Stmt :=
  if truthy (st trap) then handle_trap
  else if negb instr_misalign then
    if bits 0 16 (st _instr) =? 0 then handle_illegal_instr
    else if st _instr =? 0xFFFFFFFF then handle_illegal_instr
    else if _opcode =? Opcode.LUI then handle_lui
    else if _opcode =? Opcode.AUIPC then handle_auipc
    else if _opcode =? Opcode.OP_IMM then handle_op_imm
    else if _opcode =? Opcode.OP then handle_op
    else if _opcode =? Opcode.JAL then handle_jal
    else if _opcode =? Opcode.JALR then handle_jalr
    else if _opcode =? Opcode.BRANCH then handle_branch
    else if _opcode =? Opcode.LOAD then handle_load
    else if _opcode =? Opcode.STORE then handle_store
    else if _opcode =? Opcode.SYSTEM then handle_system
    else handle_illegal_instr
  else [].

End Handlers.

(** *** [elaborate]

    The blocks of [elaborate], in the order of the source.  A block that
    tests a control line reads the value the line settles to; the control
    lines tested are driven by the handlers only, so they are read off the
    handlers' assignments ([ctl]). *)

Section Elaborate.

Variable st : SequencerState.
Variable i : Inputs.

Definition defaults : list Stmt :=
  [ comb _next_instr_phase 0;
    comb reg_to_x 0;
    comb _pc_to_x 0;
    comb _memdata_to_x 0;
    comb reg_to_y 0;
    comb _imm_to_y 0;
    comb _shamt_to_y 0;
    comb alu_op_to_z AluOp.NONE;
    comb _pc_plus_4_to_z 0;
    comb _tmp_to_z 0;
    comb _pc_plus_4_to_pc 0;
    comb _x_to_pc 0;
    comb _z_to_pc 0;
    comb _memaddr_to_pc 0;
    comb _memdata_to_pc 0;
    comb _x_to_tmp 0;
    comb _pc_plus_4_to_memaddr 0;
    comb _x_to_memaddr 0;
    comb _z_to_memaddr 0;
    comb _memdata_to_memaddr 0;
    comb _z_to_memdata 0;
    comb mem_rd 0;
    comb _load_instr 0;
    comb mem_wr 0;
    comb mem_wr_mask 0;
    comb _shamt 0;
    comb data_x_out 0;
    comb data_y_out 0;
    comb data_z_out 0;
    comb _is_last_instr_cycle 0;
    comb instr_complete 0;
    comb csr_to_x 0;
    comb z_to_csr 0;
    comb z_reg 0;
    comb _funct12_to_csr_num 0;
    comb _mepc_num_to_csr_num 0;
    comb csr_num 0;
    comb _next_reg_page (st reg_page) ].

Definition _pc_plus_4 : Z := trunc 32 (st _pc + 4).

(** [_imm_format] is driven by the handlers and does not depend on [_imm];
    [_imm] is decoded from it. *)
Definition _imm : Z :=
  decode_imm (comb_of (dispatch st i 0) _imm_format) (st _instr).

(** The assignments of the handler selected for this cycle. *)
Definition handlers : list Stmt := dispatch st i _imm.

(** The control lines as the handlers drive them. *)
Definition ctl : Sig -> Z := comb_of (defaults ++ handlers).

(** "Latch the time and ext irqs". *)
Definition irq_latch : list Stmt :=
  if st trap =? 0 then
    if truthy (bit MStatus.MIE (st _mstatus)) then
      (if st _reg_time_irq =? 0 then [ ph1 _reg_time_irq (time_irq i) ]
       else []) ++
      (if st _reg_ext_irq =? 0 then [ ph1 _reg_ext_irq (ext_irq i) ]
       else [])
    else
      [ ph1 _reg_time_irq 0;
        ph1 _reg_ext_irq 0 ]
  else [].

(** [with m.If(self._is_last_instr_cycle)]. *)
Definition last_cycle : list Stmt :=
  if truthy (ctl _is_last_instr_cycle) then
    [ comb instr_complete (mcycle_end i) ] ++
    (if (ctl _x_to_pc =? 0) && (ctl _z_to_pc =? 0)
        && (ctl _memaddr_to_pc =? 0) && (ctl _memdata_to_pc =? 0)
     then [ comb _pc_plus_4_to_pc 1 ] else []) ++
    (if (ctl _x_to_memaddr =? 0) && (ctl _z_to_memaddr =? 0)
        && (ctl _memdata_to_memaddr =? 0)
     then [ comb _pc_plus_4_to_memaddr 1 ] else [])
  else [].

Definition is_interrupted : bool :=
  all_true [ truthy (comb_of (defaults ++ last_cycle) instr_complete);
             st trap =? 0;
             st _trap_svc =? 0;
             truthy (Z.lor (time_irq i) (ext_irq i));
             truthy (bit MStatus.MIE (st _mstatus)) ].

(** Misaligned PC, else interrupt, else "Load the instruction on
    instruction phase 0". *)
Definition fetch : list Stmt :=
  if instr_misalign st then
    set_exception st TrapCause.EXC_INSTR_ADDR_MISALIGN (st _pc)
  else if is_interrupted then
    [ ph1 _mtval (st _pc);
      comb _next_instr_phase 0;
      ph1 trap 1 ]
  else if all_true [st _instr_phase =? 0; st trap =? 0] then
    [ comb _load_instr 1;
      comb mem_rd 1 ]
  else [].

(** [csr_num] multiplexer. *)
Definition csr_num_mux : list Stmt :=
  if truthy (ctl _funct12_to_csr_num) then
    [ comb csr_num (funct12_of (st _instr)) ]
  else if truthy (ctl _mepc_num_to_csr_num) then
    [ comb csr_num CSRAddr.MEPC ]
  else [].

(** [with m.Switch(self.csr_num)] under [csr_to_x]: the CSR read routing. *)
Definition csr_read (num : Z) : list Stmt :=
  if num =? CSRAddr.MCAUSE then [ comb data_x_out (st _mcause) ]
  else if num =? CSRAddr.MTVEC then [ comb data_x_out (st _mtvec) ]
  else if num =? CSRAddr.MEPC then [ comb data_x_out (st _mepc) ]
  else if num =? CSRAddr.MTVAL then [ comb data_x_out (st _mtval) ]
  else if num =? CSRAddr.MSTATUS then [ comb data_x_out (st _mstatus) ]
  else [].

(** [with m.Switch(self.csr_num)] under [z_to_csr]: the CSR write routing. *)
Definition csr_write (num : Z) : list Stmt :=
  if num =? CSRAddr.MCAUSE then [ ph1 _mcause (data_z_in i) ]
  else if num =? CSRAddr.MTVEC then [ ph1 _mtvec (data_z_in i) ]
  else if num =? CSRAddr.MEPC then [ ph1 _mepc (data_z_in i) ]
  else if num =? CSRAddr.MTVAL then [ ph1 _mtval (data_z_in i) ]
  else if num =? CSRAddr.MSTATUS then [ ph1 _mstatus (data_z_in i) ]
  else [].

(** "Updates to multiplexers": one chain per bus. *)
Definition x_mux : list Stmt :=
  if truthy (ctl _pc_to_x) then [ comb data_x_out (st _pc) ]
  else if truthy (ctl _memdata_to_x) then [ comb data_x_out (memdata_rd i) ]
  else if truthy (ctl csr_to_x) then
    csr_read (comb_of (defaults ++ csr_num_mux) csr_num)
  else [].

Definition y_mux : list Stmt :=
  if truthy (ctl _imm_to_y) then [ comb data_y_out _imm ]
  else if truthy (ctl _shamt_to_y) then [ comb data_y_out (ctl _shamt) ]
  else [].

Definition z_mux : list Stmt :=
  if truthy (ctl _pc_plus_4_to_z) then [ comb data_z_out _pc_plus_4 ]
  else if truthy (ctl _tmp_to_z) then [ comb data_z_out (st _tmp) ]
  else [].

Definition muxes : list Stmt := x_mux ++ y_mux ++ z_mux ++ csr_num_mux.

(** What every combinational signal settles to in this cycle. *)
Definition settled : Sig -> Z :=
  comb_of (defaults ++ last_cycle ++ fetch ++ muxes ++ handlers).

(** "Updates to registers": the unconditional ones, then one conditional
    chain per register. *)
Definition phase_update : list Stmt :=
  [ ph1 _instr_phase (settled _next_instr_phase);
    ph1 reg_page (settled _next_reg_page);
    ph1 _stored_alu_eq (alu_eq i);
    ph1 _stored_alu_lt (alu_lt i);
    ph1 _stored_alu_ltu (alu_ltu i) ].

Definition pc_update : list Stmt :=
  if truthy (settled _pc_plus_4_to_pc) then [ ph1 _pc _pc_plus_4 ]
  else if truthy (settled _x_to_pc) then [ ph1 _pc (data_x_in i) ]
  else if truthy (settled _z_to_pc) then [ ph1 _pc (data_z_in i) ]
  else if truthy (settled _memaddr_to_pc) then
    (* _pc[1:] = memaddr[1:], _pc[0] = 0 *)
    [ ph1 _pc (Z.shiftl (bits 1 32 (st memaddr)) 1) ]
  else if truthy (settled _memdata_to_pc) then [ ph1 _pc (memdata_rd i) ]
  else [].

Definition memaddr_update : list Stmt :=
  if truthy (settled _pc_plus_4_to_memaddr) then [ ph1 memaddr _pc_plus_4 ]
  else if truthy (settled _x_to_memaddr) then [ ph1 memaddr (data_x_in i) ]
  else if truthy (settled _z_to_memaddr) then [ ph1 memaddr (data_z_in i) ]
  else if truthy (settled _memdata_to_memaddr) then
    [ ph1 memaddr (memdata_rd i) ]
  else [].

Definition memdata_wr_update : list Stmt :=
  if truthy (settled _z_to_memdata) then [ ph1 memdata_wr (data_z_in i) ]
  else [].

Definition tmp_update : list Stmt :=
  if truthy (settled _x_to_tmp) then [ ph1 _tmp (data_x_in i) ] else [].

Definition csr_update : list Stmt :=
  if truthy (settled z_to_csr) then csr_write (settled csr_num) else [].

Definition registers : list Stmt :=
  phase_update ++ pc_update ++ memaddr_update ++ memdata_wr_update
  ++ tmp_update ++ csr_update.

(** All the active assignments of [elaborate], in program order. *)
Definition elaborate : list Stmt :=
  defaults ++ irq_latch ++ last_cycle ++ fetch ++ registers ++ muxes
  ++ handlers.

End Elaborate.

(** *** Clocking

    A machine cycle has a read half ([ph1] high) and a write half; [ph2]
    rises once in the middle of each half and [ph1] rises at the end of the
    cycle, where [mcycle_end] is high.  The instruction latch is transparent
    during the read pulse when [_load_instr] is set.  The inputs are taken
    stable over the cycle. *)

Definition tick (d : Domain) (st : SequencerState) (i : Inputs)
  : SequencerState :=
  let l := elaborate st i in snapshot (fun r => next_of d l r (st r)).

Definition instr_latch (st : SequencerState) (i : Inputs) : SequencerState :=
  snapshot (fun r =>
    match r with
    | _instr =>
        if truthy (settled st i _load_instr) then trunc 32 (memdata_rd i)
        else st _instr
    | _ => st r
    end).

Definition with_mcycle_end (e : Z) (i : Inputs) : Inputs :=
  {| alu_eq := alu_eq i; alu_lt := alu_lt i; alu_ltu := alu_ltu i;
     time_irq := time_irq i; ext_irq := ext_irq i;
     data_x_in := data_x_in i; data_y_in := data_y_in i;
     data_z_in := data_z_in i; memdata_rd := memdata_rd i;
     mcycle_end := e |}.

(** The registers in the middle of the write half: after the read pulse and
    the two rising edges of [ph2]. *)
Definition write_half (st : SequencerState) (i : Inputs) : SequencerState :=
  let i0 := with_mcycle_end 0 i in
  tick Dph2 (tick Dph2 (instr_latch st i0) i0) i0.

(** One machine cycle. *)
Definition machine_cycle (st : SequencerState) (i : Inputs)
  : SequencerState :=
  tick Dph1 (write_half st i) (with_mcycle_end 1 i).

(** The outputs at the end of the cycle, when the registers are loaded. *)
Definition outputs (st : SequencerState) (i : Inputs) : Sig -> Z :=
  settled (write_half st i) (with_mcycle_end 1 i).

End SequencerCard.

(** ** sequencer_rom.py

    The ROM is purely combinational: its address lines are the inputs, its
    data lines the outputs. *)

Module SequencerROM.

Inductive Sig :=
| set_instr_complete | save_trap_csrs
| csr_to_x | z_to_csr
| mem_rd | mem_wr | mem_wr_mask
| _next_instr_phase
| _x_reg_select | _y_reg_select | _z_reg_select
| x_mux_select | reg_to_x
| y_mux_select | reg_to_y
| z_mux_select | alu_op_to_z
| pc_mux_select | tmp_mux_select
| _funct12_to_csr_num | _mepc_num_to_csr_num | _mcause_to_csr_num
| memaddr_mux_select | memdata_wr_mux_select
| _const
| enter_trap | exit_trap
| load_trap | next_trap | load_exception | next_exception | next_fatal.

Scheme Equality for Sig.

Definition sig_width (s : Sig) : Z :=
  match s with
  | mem_wr_mask | alu_op_to_z | _const
  | x_mux_select | y_mux_select | z_mux_select | pc_mux_select
  | tmp_mux_select | memaddr_mux_select | memdata_wr_mux_select => 4
  | _next_instr_phase | _x_reg_select | _y_reg_select | _z_reg_select => 2
  | _ => 1
  end.

Definition sig_reset (s : Sig) : Z :=
  match s with
  | mem_rd => 1
  | _ => 0
  end.

(** The address lines of the ROM. *)
Record Inputs := {
  enable_sequencer_rom : Z;
  memaddr_2_lsb : Z;
  branch_cond : Z;
  _instr_phase : Z;
  data_z_in_2_lsb0 : Z;
  imm0 : Z;
  rd0 : Z;
  rs1_0 : Z;
  opcode_select : Z;
  _funct3 : Z;
  _alu_func : Z
}.

Inductive Stmt :=
| comb (s : Sig) (v : Z).

Definition comb_of (l : list Stmt) (s : Sig) : Z :=
  fold_left
    (fun acc stmt =>
       match stmt with
       | comb s' v => if Sig_beq s s' then trunc (sig_width s) v else acc
       end) l (sig_reset s).

(** [NextPC] is a Python-level argument of [next_instr], not a signal. *)
Inductive NextPC := PC_PLUS_4 | MEMADDR | NPC_Z | NPC_X | MEMADDR_NO_LSB.

(** [s.matches(v1, ..., vn)]. *)
Definition matches (x : Z) (vs : list Z) : bool := existsb (Z.eqb x) vs.

Section Handlers.

Variable i : Inputs.

Definition defaults : list Stmt :=
  [ comb _next_instr_phase 0;
    comb reg_to_x 0;
    comb reg_to_y 0;
    comb alu_op_to_z AluOp.NONE;
    comb mem_rd 0;
    comb mem_wr 0;
    comb mem_wr_mask 0;
    comb csr_to_x 0;
    comb z_to_csr 0;
    comb _funct12_to_csr_num 0;
    comb _mepc_num_to_csr_num 0;
    comb _mcause_to_csr_num 0;
    comb _x_reg_select 0;
    comb _y_reg_select 0;
    comb _z_reg_select 0;
    comb enter_trap 0;
    comb exit_trap 0;
    comb save_trap_csrs 0;
    comb pc_mux_select SeqMuxSelect.PC;
    comb memaddr_mux_select SeqMuxSelect.MEMADDR;
    comb memdata_wr_mux_select SeqMuxSelect.MEMDATA_WR;
    comb tmp_mux_select SeqMuxSelect.TMP;
    comb x_mux_select SeqMuxSelect.X;
    comb y_mux_select SeqMuxSelect.Y;
    comb z_mux_select SeqMuxSelect.Z;
    comb _const 0;
    comb load_trap 0;
    comb next_trap 0;
    comb load_exception 0;
    comb next_exception 0;
    comb next_fatal 0 ].

Definition next_instr (next_pc : NextPC) : list Stmt :=
  [ comb set_instr_complete 1 ] ++
  match next_pc with
  | PC_PLUS_4 =>
      [ comb pc_mux_select SeqMuxSelect.PC_PLUS_4;
        comb memaddr_mux_select SeqMuxSelect.PC_PLUS_4 ]
  | MEMADDR =>
      [ comb pc_mux_select SeqMuxSelect.MEMADDR ]
  | MEMADDR_NO_LSB =>
      [ comb pc_mux_select SeqMuxSelect.MEMADDR_LSB_MASKED ]
  | NPC_Z =>
      [ comb pc_mux_select SeqMuxSelect.Z;
        comb memaddr_mux_select SeqMuxSelect.Z ]
  | NPC_X =>
      [ comb pc_mux_select SeqMuxSelect.X;
        comb memaddr_mux_select SeqMuxSelect.X ]
  end.

(** [set_exception(m, exc, mtval, fatal=True)]. *)
Definition set_exception (exc mtval : Z) (is_fatal : bool) : list Stmt :=
  [ comb load_exception 1;
    comb next_exception 1;
    comb next_fatal (if is_fatal then 1 else 0);
    comb _const exc;
    comb x_mux_select SeqMuxSelect.CONST;
    comb z_mux_select mtval;
    comb y_mux_select
         (if is_fatal then SeqMuxSelect.PC else SeqMuxSelect.PC_PLUS_4);
    (* X -> MCAUSE, Y -> MEPC, Z -> MTVAL *)
    comb save_trap_csrs 1;
    comb load_trap 1;
    comb next_trap 1;
    comb _next_instr_phase 0 ].

Definition handle_illegal_instr : list Stmt :=
  set_exception ConstSelect.EXC_ILLEGAL_INSTR SeqMuxSelect.INSTR true.

Definition handle_lui : list Stmt :=
  [ comb reg_to_x 1;
    comb _x_reg_select InstrReg.ZERO;
    comb y_mux_select SeqMuxSelect.IMM;
    comb alu_op_to_z AluOp.ADD;
    comb _z_reg_select InstrReg.RD ] ++
  next_instr PC_PLUS_4.

Definition handle_auipc : list Stmt :=
  [ comb x_mux_select SeqMuxSelect.PC;
    comb y_mux_select SeqMuxSelect.IMM;
    comb alu_op_to_z AluOp.ADD;
    comb _z_reg_select InstrReg.RD ] ++
  next_instr PC_PLUS_4.

Definition alu_funcs : list Z :=
  [ AluFunc.ADD; AluFunc.SUB; AluFunc.SLL; AluFunc.SLT; AluFunc.SLTU;
    AluFunc.XOR; AluFunc.SRL; AluFunc.SRA; AluFunc.OR; AluFunc.AND ].

(** The [Switch(self._alu_func)] shared by [handle_op_imm] and
    [handle_op]. *)
Definition alu_func_switch : list Stmt :=
  let f := _alu_func i in
  if f =? AluFunc.ADD then [ comb alu_op_to_z AluOp.ADD ]
  else if f =? AluFunc.SUB then [ comb alu_op_to_z AluOp.SUB ]
  else if f =? AluFunc.SLL then [ comb alu_op_to_z AluOp.SLL ]
  else if f =? AluFunc.SLT then [ comb alu_op_to_z AluOp.SLT ]
  else if f =? AluFunc.SLTU then [ comb alu_op_to_z AluOp.SLTU ]
  else if f =? AluFunc.XOR then [ comb alu_op_to_z AluOp.XOR ]
  else if f =? AluFunc.SRL then [ comb alu_op_to_z AluOp.SRL ]
  else if f =? AluFunc.SRA then [ comb alu_op_to_z AluOp.SRA ]
  else if f =? AluFunc.OR then [ comb alu_op_to_z AluOp.OR ]
  else if f =? AluFunc.AND then [ comb alu_op_to_z AluOp.AND ]
  else [].

Definition handle_op_imm : list Stmt :=
  if negb (matches (_alu_func i) alu_funcs) then handle_illegal_instr
  else
    [ comb reg_to_x 1;
      comb _x_reg_select InstrReg.RS1;
      comb y_mux_select SeqMuxSelect.IMM;
      comb _z_reg_select InstrReg.RD ] ++
    alu_func_switch ++
    next_instr PC_PLUS_4.

Definition handle_op : list Stmt :=
  if negb (matches (_alu_func i) alu_funcs) then handle_illegal_instr
  else
    [ comb reg_to_x 1;
      comb _x_reg_select InstrReg.RS1;
      comb reg_to_y 1;
      comb _y_reg_select InstrReg.RS2;
      comb _z_reg_select InstrReg.RD ] ++
    alu_func_switch ++
    next_instr PC_PLUS_4.

Definition handle_jal : list Stmt :=
  if _instr_phase i =? 0 then
    [ comb x_mux_select SeqMuxSelect.PC;
      comb y_mux_select SeqMuxSelect.IMM;
      comb alu_op_to_z AluOp.ADD;
      comb memaddr_mux_select SeqMuxSelect.Z;
      comb _next_instr_phase 1 ]
  else
    if negb (bit 1 (memaddr_2_lsb i) =? 0) then
      set_exception ConstSelect.EXC_INSTR_ADDR_MISALIGN
                    SeqMuxSelect.MEMADDR true
    else
      [ comb z_mux_select SeqMuxSelect.PC_PLUS_4;
        comb _z_reg_select InstrReg.RD ] ++
      next_instr MEMADDR_NO_LSB.

Definition handle_jalr : list Stmt :=
  if _instr_phase i =? 0 then
    [ comb reg_to_x 1;
      comb _x_reg_select InstrReg.RS1;
      comb y_mux_select SeqMuxSelect.IMM;
      comb alu_op_to_z AluOp.ADD;
      comb memaddr_mux_select SeqMuxSelect.Z;
      comb _next_instr_phase 1 ]
  else
    if negb (bit 1 (memaddr_2_lsb i) =? 0) then
      set_exception ConstSelect.EXC_INSTR_ADDR_MISALIGN
                    SeqMuxSelect.MEMADDR_LSB_MASKED true
    else
      [ comb z_mux_select SeqMuxSelect.PC_PLUS_4;
        comb _z_reg_select InstrReg.RD ] ++
      next_instr MEMADDR_NO_LSB.

Definition branch_conds : list Z :=
  [ BranchCond.EQ; BranchCond.NE; BranchCond.LT; BranchCond.GE;
    BranchCond.LTU; BranchCond.GEU ].

Definition handle_branch : list Stmt :=
  if _instr_phase i =? 0 then
    [ comb reg_to_x 1;
      comb _x_reg_select InstrReg.RS1;
      comb reg_to_y 1;
      comb _y_reg_select InstrReg.RS2;
      comb alu_op_to_z AluOp.SUB;
      comb _next_instr_phase 1 ]
  else if _instr_phase i =? 1 then
    if negb (matches (_funct3 i) branch_conds) then handle_illegal_instr
    else
      (if truthy (branch_cond i) then
         [ comb y_mux_select SeqMuxSelect.IMM ]
       else
         [ comb _const ConstSelect.SHAMT_4;
           comb y_mux_select SeqMuxSelect.CONST ]) ++
      [ comb x_mux_select SeqMuxSelect.PC;
        comb alu_op_to_z AluOp.ADD ] ++
      (if truthy (data_z_in_2_lsb0 i) then next_instr NPC_Z
       else
         [ comb _next_instr_phase 2;
           comb tmp_mux_select SeqMuxSelect.Z ])
  else
    set_exception ConstSelect.EXC_INSTR_ADDR_MISALIGN SeqMuxSelect.TMP true.

Definition handle_load : list Stmt :=
  let f3 := _funct3 i in
  let lsb := memaddr_2_lsb i in
  if _instr_phase i =? 0 then
    [ comb reg_to_x 1;
      comb _x_reg_select InstrReg.RS1;
      comb y_mux_select SeqMuxSelect.IMM;
      comb alu_op_to_z AluOp.ADD;
      comb memaddr_mux_select SeqMuxSelect.Z;
      comb _next_instr_phase 1 ]
  else if _instr_phase i =? 1 then
    (* Check for exception conditions first *)
    if matches f3 [MemAccessWidth.H; MemAccessWidth.HU]
       && truthy (bit 0 lsb) then
      set_exception ConstSelect.EXC_LOAD_ADDR_MISALIGN
                    SeqMuxSelect.MEMADDR true
    else if (f3 =? MemAccessWidth.W) && negb (lsb =? 0) then
      set_exception ConstSelect.EXC_LOAD_ADDR_MISALIGN
                    SeqMuxSelect.MEMADDR true
    else if negb (matches f3 [MemAccessWidth.B; MemAccessWidth.BU;
                              MemAccessWidth.H; MemAccessWidth.HU;
                              MemAccessWidth.W]) then
      handle_illegal_instr
    else
      [ comb mem_rd 1;
        comb x_mux_select SeqMuxSelect.MEMDATA_RD;
        comb y_mux_select SeqMuxSelect.CONST;
        comb alu_op_to_z AluOp.SLL;
        comb _z_reg_select InstrReg.RD;
        comb _next_instr_phase 2 ] ++
      if matches f3 [MemAccessWidth.B; MemAccessWidth.BU] then
        if lsb =? 0 then [ comb _const ConstSelect.SHAMT_24 ]
        else if lsb =? 1 then [ comb _const ConstSelect.SHAMT_16 ]
        else if lsb =? 2 then [ comb _const ConstSelect.SHAMT_8 ]
        else if lsb =? 3 then [ comb _const ConstSelect.SHAMT_0 ]
        else []
      else if matches f3 [MemAccessWidth.H; MemAccessWidth.HU] then
        if lsb =? 0 then [ comb _const ConstSelect.SHAMT_16 ]
        else if lsb =? 2 then [ comb _const ConstSelect.SHAMT_0 ]
        else []
      else if f3 =? MemAccessWidth.W then
        [ comb _const ConstSelect.SHAMT_0 ]
      else []
  else
    [ comb reg_to_x 1;
      comb _x_reg_select InstrReg.RD;
      comb y_mux_select SeqMuxSelect.CONST;
      comb _z_reg_select InstrReg.RD ] ++
    (if f3 =? MemAccessWidth.B then
       [ comb _const ConstSelect.SHAMT_24; comb alu_op_to_z AluOp.SRA ]
     else if f3 =? MemAccessWidth.BU then
       [ comb _const ConstSelect.SHAMT_24; comb alu_op_to_z AluOp.SRL ]
     else if f3 =? MemAccessWidth.H then
       [ comb _const ConstSelect.SHAMT_16; comb alu_op_to_z AluOp.SRA ]
     else if f3 =? MemAccessWidth.HU then
       [ comb _const ConstSelect.SHAMT_16; comb alu_op_to_z AluOp.SRL ]
     else if f3 =? MemAccessWidth.W then
       [ comb _const ConstSelect.SHAMT_0; comb alu_op_to_z AluOp.SRL ]
     else []) ++
    next_instr PC_PLUS_4.

Definition handle_store : list Stmt :=
  let f3 := _funct3 i in
  let lsb := memaddr_2_lsb i in
  if _instr_phase i =? 0 then
    [ comb reg_to_x 1;
      comb _x_reg_select InstrReg.RS1;
      comb y_mux_select SeqMuxSelect.IMM;
      comb alu_op_to_z AluOp.ADD;
      comb memaddr_mux_select SeqMuxSelect.Z;
      comb _next_instr_phase 1 ]
  else if _instr_phase i =? 1 then
    (* Check for exception conditions first *)
    if (f3 =? MemAccessWidth.H) && truthy (bit 0 lsb) then
      set_exception ConstSelect.EXC_STORE_AMO_ADDR_MISALIGN
                    SeqMuxSelect.MEMADDR true
    else if (f3 =? MemAccessWidth.W) && negb (lsb =? 0) then
      set_exception ConstSelect.EXC_STORE_AMO_ADDR_MISALIGN
                    SeqMuxSelect.MEMADDR true
    else if negb (matches f3 [MemAccessWidth.B; MemAccessWidth.H;
                              MemAccessWidth.W]) then
      handle_illegal_instr
    else
      [ comb reg_to_x 1;
        comb _x_reg_select InstrReg.RS2;
        comb y_mux_select SeqMuxSelect.CONST;
        comb alu_op_to_z AluOp.SLL;
        comb memdata_wr_mux_select SeqMuxSelect.Z;
        comb _next_instr_phase 2 ] ++
      if f3 =? MemAccessWidth.B then
        if lsb =? 0 then [ comb _const ConstSelect.SHAMT_0 ]
        else if lsb =? 1 then [ comb _const ConstSelect.SHAMT_8 ]
        else if lsb =? 2 then [ comb _const ConstSelect.SHAMT_16 ]
        else if lsb =? 3 then [ comb _const ConstSelect.SHAMT_24 ]
        else []
      else if f3 =? MemAccessWidth.H then
        if lsb =? 0 then [ comb _const ConstSelect.SHAMT_0 ]
        else if lsb =? 2 then [ comb _const ConstSelect.SHAMT_16 ]
        else []
      else if f3 =? MemAccessWidth.W then
        [ comb _const ConstSelect.SHAMT_0 ]
      else []
  else
    (if f3 =? MemAccessWidth.B then
       if lsb =? 0 then [ comb mem_wr_mask 1 ]
       else if lsb =? 1 then [ comb mem_wr_mask 2 ]
       else if lsb =? 2 then [ comb mem_wr_mask 4 ]
       else if lsb =? 3 then [ comb mem_wr_mask 8 ]
       else []
     else if f3 =? MemAccessWidth.H then
       if lsb =? 0 then [ comb mem_wr_mask 3 ]
       else if lsb =? 2 then [ comb mem_wr_mask 12 ]
       else []
     else if f3 =? MemAccessWidth.W then
       [ comb mem_wr_mask 15 ]
     else []) ++
    [ comb mem_wr 1 ] ++
    next_instr PC_PLUS_4.

(** Phase 1 of every CSR instruction: [tmp] goes to [rd]. *)
Definition csr_phase1 : list Stmt :=
  [ comb z_mux_select SeqMuxSelect.TMP;
    comb _z_reg_select InstrReg.RD ] ++
  next_instr PC_PLUS_4.

Definition handle_CSRRW : list Stmt :=
  [ comb _funct12_to_csr_num 1 ] ++
  if _instr_phase i =? 0 then
    (if truthy (rd0 i) then
       [ comb _x_reg_select InstrReg.ZERO; comb reg_to_x 1 ]
     else [ comb csr_to_x 1 ]) ++
    [ comb _y_reg_select InstrReg.RS1;
      comb reg_to_y 1;
      comb alu_op_to_z AluOp.Y;
      comb z_to_csr 1;
      comb tmp_mux_select SeqMuxSelect.X;
      comb _next_instr_phase 1 ]
  else csr_phase1.

Definition handle_CSRRWI : list Stmt :=
  [ comb _funct12_to_csr_num 1 ] ++
  if _instr_phase i =? 0 then
    (if truthy (rd0 i) then
       [ comb _x_reg_select InstrReg.ZERO; comb reg_to_x 1 ]
     else [ comb csr_to_x 1 ]) ++
    [ comb y_mux_select SeqMuxSelect.IMM;
      comb alu_op_to_z AluOp.Y;
      comb z_to_csr 1;
      comb tmp_mux_select SeqMuxSelect.X;
      comb _next_instr_phase 1 ]
  else csr_phase1.

Definition handle_CSRRS : list Stmt :=
  [ comb _funct12_to_csr_num 1 ] ++
  if _instr_phase i =? 0 then
    [ comb csr_to_x 1;
      comb _y_reg_select InstrReg.RS1;
      comb reg_to_y 1;
      comb alu_op_to_z AluOp.OR;
      comb z_to_csr (Z.lnot (rs1_0 i));
      comb tmp_mux_select SeqMuxSelect.X;
      comb _next_instr_phase 1 ]
  else csr_phase1.

Definition handle_CSRRSI : list Stmt :=
  [ comb _funct12_to_csr_num 1 ] ++
  if _instr_phase i =? 0 then
    [ comb csr_to_x 1;
      comb y_mux_select SeqMuxSelect.IMM;
      comb alu_op_to_z AluOp.OR;
      comb z_to_csr (Z.lnot (imm0 i));
      comb tmp_mux_select SeqMuxSelect.X;
      comb _next_instr_phase 1 ]
  else csr_phase1.

Definition handle_CSRRC : list Stmt :=
  [ comb _funct12_to_csr_num 1 ] ++
  if _instr_phase i =? 0 then
    [ comb csr_to_x 1;
      comb _y_reg_select InstrReg.RS1;
      comb reg_to_y 1;
      comb alu_op_to_z AluOp.AND_NOT;
      comb z_to_csr (Z.lnot (rs1_0 i));
      comb tmp_mux_select SeqMuxSelect.X;
      comb _next_instr_phase 1 ]
  else csr_phase1.

Definition handle_CSRRCI : list Stmt :=
  [ comb _funct12_to_csr_num 1 ] ++
  if _instr_phase i =? 0 then
    [ comb csr_to_x 1;
      comb y_mux_select SeqMuxSelect.IMM;
      comb alu_op_to_z AluOp.AND_NOT;
      comb z_to_csr (Z.lnot (imm0 i));
      comb tmp_mux_select SeqMuxSelect.X;
      comb _next_instr_phase 1 ]
  else csr_phase1.

Definition handle_csrs : list Stmt :=
  let f3 := _funct3 i in
  if f3 =? SystemFunc.CSRRW then handle_CSRRW
  else if f3 =? SystemFunc.CSRRWI then handle_CSRRWI
  else if f3 =? SystemFunc.CSRRS then handle_CSRRS
  else if f3 =? SystemFunc.CSRRSI then handle_CSRRSI
  else if f3 =? SystemFunc.CSRRC then handle_CSRRC
  else if f3 =? SystemFunc.CSRRCI then handle_CSRRCI
  else handle_illegal_instr.

Definition handle_MRET : list Stmt :=
  [ comb _mepc_num_to_csr_num 1;
    comb csr_to_x 1;
    comb exit_trap 1 ] ++
  next_instr NPC_X.

Definition handle_ECALL : list Stmt :=
  set_exception ConstSelect.EXC_ECALL_FROM_MACH_MODE SeqMuxSelect.PC false.

Definition handle_EBREAK : list Stmt :=
  set_exception ConstSelect.EXC_BREAKPOINT SeqMuxSelect.PC false.

(** All the active assignments of [elaborate], in program order. *)
Definition elaborate : list Stmt :=
  defaults ++
  if truthy (enable_sequencer_rom i) then
    let op := opcode_select i in
    if op =? OpcodeSelect.LUI then handle_lui
    else if op =? OpcodeSelect.AUIPC then handle_auipc
    else if op =? OpcodeSelect.OP_IMM then handle_op_imm
    else if op =? OpcodeSelect.OP then handle_op
    else if op =? OpcodeSelect.JAL then handle_jal
    else if op =? OpcodeSelect.JALR then handle_jalr
    else if op =? OpcodeSelect.BRANCH then handle_branch
    else if op =? OpcodeSelect.LOAD then handle_load
    else if op =? OpcodeSelect.STORE then handle_store
    else if op =? OpcodeSelect.CSRS then handle_csrs
    else if op =? OpcodeSelect.MRET then handle_MRET
    else if op =? OpcodeSelect.ECALL then handle_ECALL
    else if op =? OpcodeSelect.EBREAK then handle_EBREAK
    else handle_illegal_instr
  else [].

(** The data lines of the ROM for the address lines [i]. *)
Definition outputs : Sig -> Z := comb_of elaborate.

End Handlers.

End SequencerROM.

(** * Predicates, footprints and sample states *)

(** The number of bytes a [MemAccessWidth] names. *)
Definition access_bytes (f3 : Z) : Z :=
  if (f3 =? MemAccessWidth.B) || (f3 =? MemAccessWidth.BU) then 1
  else if (f3 =? MemAccessWidth.H) || (f3 =? MemAccessWidth.HU) then 2
  else 4.

(** ** For the card *)

Module CardScenarios.
Import SequencerCard.

(** Statement [x] drives signal [s]; statement [x] loads register [r] on
    clock [d]. *)
Definition drives (s : Sig) (x : Stmt) : bool :=
  match x with
  | comb s' _ => Sig_beq s s'
  | _ => false
  end.

Definition loads (d : Domain) (r : Reg) (x : Stmt) : bool :=
  match x with
  | sync d' r' _ | sync_bit d' r' _ _ => Domain_beq d d' && Reg_beq r r'
  | comb _ _ => false
  end.

(** What a handler may touch: any control line but the ones owned by the
    top level of [elaborate]; on [ph2] the exception flag and the trap
    cause; on [ph1] the trap CSRs, the trap flags and the interrupt
    latches, [_trap_svc] being loaded with 1 only. *)
Definition handler_stmt (x : Stmt) : bool :=
  match x with
  | comb s _ =>
      match s with
      | _load_instr | instr_complete | _pc_plus_4_to_pc
      | _pc_plus_4_to_memaddr | csr_num | data_z_out | _next_reg_page => false
      | _ => true
      end
  | sync Dph2 r _ =>
      match r with _exception | _trap_cause => true | _ => false end
  | sync Dph1 r v =>
      match r with
      | _mtval | _mepc | trap | _mcause | _reg_time_irq | _reg_ext_irq => true
      | _trap_svc => v =? 1   (* [_trap_svc] is only ever set *)
      | _ => false
      end
  | sync_bit Dph1 r _ _ => match r with _mstatus => true | _ => false end
  | sync_bit Dph2 _ _ _ => false
  end.

(** Only the exception flag and the trap cause live on [ph2]. *)
Definition ph2_stmt (x : Stmt) : bool :=
  match x with
  | sync Dph2 r _ =>
      match r with _exception | _trap_cause => true | _ => false end
  | sync_bit Dph2 _ _ _ => false
  | _ => true
  end.

(** The instruction latch opens in phase 0 of an instruction, outside trap
    entry, when the PC is aligned. *)
Definition fetching (st : SequencerState) : bool :=
  (st _instr_phase =? 0) && (st trap =? 0) && (bits 0 2 (st _pc) =? 0).

Definition not_load_instr (x : Stmt) : bool := negb (drives _load_instr x).

(** A statement stays within the signals [cs], the [ph1] registers [r1] and
    the [ph2] registers [r2]. *)
Definition footprint (cs : list Sig) (r1 r2 : list Reg) (x : Stmt) : bool :=
  match x with
  | comb s _ => existsb (Sig_beq s) cs
  | sync Dph1 r _ | sync_bit Dph1 r _ _ => existsb (Reg_beq r) r1
  | sync Dph2 r _ | sync_bit Dph2 r _ _ => existsb (Reg_beq r) r2
  end.

Definition irq_regs : list Reg := [_reg_time_irq; _reg_ext_irq].

Definition last_cycle_sigs : list Sig :=
  [instr_complete; _pc_plus_4_to_pc; _pc_plus_4_to_memaddr].

Definition fetch_sigs : list Sig := [_next_instr_phase; _load_instr; mem_rd].

Definition fetch_regs : list Reg := [_mtval; _mepc; trap].

Definition ph2_regs : list Reg := [_exception; _trap_cause].

Definition registers_regs : list Reg :=
  [ _instr_phase; reg_page; _stored_alu_eq; _stored_alu_lt; _stored_alu_ltu;
    _pc; memaddr; memdata_wr; _tmp;
    _mcause; _mtvec; _mepc; _mtval; _mstatus ].

Definition mux_sigs : list Sig := [data_x_out; data_y_out; data_z_out; csr_num].

Definition handler_sigs : list Sig :=
  [ _next_instr_phase; reg_to_x; _pc_to_x; _memdata_to_x; reg_to_y;
    _imm_to_y; _shamt_to_y; alu_op_to_z; _pc_plus_4_to_z; _tmp_to_z;
    _x_to_pc; _z_to_pc; _memaddr_to_pc; _memdata_to_pc; _x_to_tmp;
    _x_to_memaddr; _z_to_memaddr; _memdata_to_memaddr; _z_to_memdata;
    mem_rd; mem_wr; mem_wr_mask; _shamt; data_x_out; data_y_out;
    _is_last_instr_cycle; csr_to_x; z_to_csr; x_reg; y_reg; z_reg;
    _funct12_to_csr_num; _mepc_num_to_csr_num; _imm_format; fatal ].

Definition handler_regs : list Reg :=
  [ _mtval; _mepc; trap; _mcause; _reg_time_irq; _reg_ext_irq; _trap_svc;
    _mstatus ].

Definition csr_regs : list Reg := [_mcause; _mtvec; _mepc; _mtval; _mstatus].

(** The registers listed in [l], every other register being 0. *)
Definition regs_of (l : list (Reg * Z)) : SequencerState :=
  fun r =>
    match find (fun p => Reg_beq r (fst p)) l with
    | Some p => snd p
    | None => 0
    end.

(** Inputs with [x], [z] on the X and Z buses and [m] on the memory bus;
    no interrupt, ALU flags low. *)
Definition buses (x z m : Z) : Inputs :=
  {| alu_eq := 0; alu_lt := 0; alu_ltu := 0; time_irq := 0; ext_irq := 0;
     data_x_in := x; data_y_in := 0; data_z_in := z; memdata_rd := m;
     mcycle_end := 0 |}.

(** A timer interrupt entering through a vectored [mtvec] of 0x80: the
    vector address is 0x80 + 4 * 7. *)
Definition timer_entry : SequencerState :=
  regs_of [(trap, 1); (_reg_time_irq, 1); (_mtvec, 0x81); (_pc, 0x104);
           (_mstatus, 8)].

(** Phase 1 of trap entry with the exception flag set. *)
Definition exception_entry : SequencerState :=
  regs_of [(trap, 1); (_instr_phase, 1); (_exception, 1);
           (_trap_cause, TrapCause.EXC_LOAD_ADDR_MISALIGN);
           (_mcause, TrapCause.EXC_LOAD_ADDR_MISALIGN);
           (_mtvec, 0x80); (memaddr, 0x80); (_pc, 0x104)].

(** A handler about to return: [_trap_svc] is set, [mepc] holds the return
    address, interrupts were enabled before the trap. *)
Definition in_handler : SequencerState :=
  regs_of [(_pc, 0x100); (memaddr, 0x100); (_mepc, 0x444); (_mstatus, 0x80);
           (_trap_svc, 1)].

(** JALR x0, 4(x1) at PC 0x200. *)
Definition jalr_x0_4_x1 : Z := 0x00408067.

(** The access of width [f3] at address [addr] is misaligned: a halfword
    with [addr[0]] set, a word with [addr[1:0]] nonzero. *)
Definition misaligned_load (f3 addr : Z) : bool :=
  (((f3 =? MemAccessWidth.H) || (f3 =? MemAccessWidth.HU))
   && Z.testbit addr 0)
  || ((f3 =? MemAccessWidth.W) && negb (bits 0 2 addr =? 0)).

Definition misaligned_store (f3 addr : Z) : bool :=
  ((f3 =? MemAccessWidth.H) && Z.testbit addr 0)
  || ((f3 =? MemAccessWidth.W) && negb (bits 0 2 addr =? 0)).

(** The register file writes [rd] when the card puts a nonzero register
    number on [z_reg]: the card has no other write enable. *)
Definition writes_register (o : Sig -> Z) : bool := negb (o z_reg =? 0).

(** The registers before the second rising edge of [ph2]. *)
Definition read_half (st : SequencerState) (i : Inputs) : SequencerState :=
  tick Dph2 (instr_latch st (with_mcycle_end 0 i)) (with_mcycle_end 0 i).

(** LH x5, 0(x1). *)
Definition lh_x5_x1 : Z := 0x00009283.

(** The word is a CSRRS or CSRRC whose [rs1] is x0, or a CSRRSI or CSRRCI
    whose zero-extended immediate is 0. *)
Definition zero_source (w : Z) : bool :=
  let f3 := funct3_of w in
  (((f3 =? SystemFunc.CSRRS) || (f3 =? SystemFunc.CSRRC))
   && (rs1_of w =? 0))
  || (((f3 =? SystemFunc.CSRRSI) || (f3 =? SystemFunc.CSRRCI))
      && (decode_imm OpcodeFormat.SYS w =? 0)).

(** The value the CSR read routing puts on X for CSR number [num]. *)
Definition csr_file (st : SequencerState) (num : Z) : Z :=
  comb_of (defaults st ++ csr_read st num) data_x_out.

(** An interrupt is taken at the end of the last cycle of an instruction:
    not inside a handler, a line raised, interrupts enabled. *)
Definition interrupt_taken (st : SequencerState) (i : Inputs) : bool :=
  (st _trap_svc =? 0) && truthy (Z.lor (time_irq i) (ext_irq i))
  && truthy (bit MStatus.MIE (st _mstatus)).

(** The four instructions, as [funct3] tells them apart. *)
Definition is_csr_imm (f3 : Z) : bool :=
  (f3 =? SystemFunc.CSRRSI) || (f3 =? SystemFunc.CSRRCI).

Definition is_csr_set (f3 : Z) : bool :=
  (f3 =? SystemFunc.CSRRS) || (f3 =? SystemFunc.CSRRSI).

(** CSRRW x0, mie, x1 and CSRRS x5, mie, x0. *)
Definition csrrw_mie_x1 : Z := 0x30409073.

Definition csrrs_x5_mie : Z := 0x304022F3.

(** A timer and an external interrupt pending together at trap entry. *)
Definition both_pending : SequencerState :=
  regs_of [(trap, 1); (_reg_time_irq, 1); (_reg_ext_irq, 1); (_mtvec, 0x80);
           (_pc, 0x104); (_mstatus, 8)].

(** LH x5, 0(x1) in phase 1, the address 0x1001 in [memaddr]. *)
Definition lh_misaligned : SequencerState :=
  regs_of [(_instr_phase, 1); (_instr, lh_x5_x1); (memaddr, 0x1001);
           (_pc, 0x100); (_mtvec, 0x80)].

(** The trap entered with the exception flag set by a misaligned load. *)
Definition load_trap_entry : SequencerState :=
  regs_of [(trap, 1); (_instr_phase, 1); (_exception, 1);
           (_trap_cause, TrapCause.EXC_LOAD_ADDR_MISALIGN);
           (_mcause, TrapCause.EXC_LOAD_ADDR_MISALIGN);
           (_mtval, 0x1001); (_mepc, 0x100); (_pc, 0x100); (memaddr, 0x80);
           (_instr, lh_x5_x1); (_mtvec, 0x80)].

(** The card about to fetch at PC 0x100. *)
Definition fetch_at_0x100 : SequencerState :=
  regs_of [(_pc, 0x100); (memaddr, 0x100); (_mtvec, 0x80); (_mstatus, 8)].

(** BEQ x0, x0, +2: the branch is taken and its target 0x102 is not a
    multiple of 4. *)
Definition beq_x0_x0_2 : Z := 0x00000163.

(** The BEQ in phase 1 at PC 0x100, [tmp] holding 0x55. *)
Definition beq_phase1 : SequencerState :=
  regs_of [(_pc, 0x100); (memaddr, 0x100); (_instr_phase, 1);
           (_instr, beq_x0_x0_2); (_tmp, 0x55); (_mtvec, 0x80)].

(** CSRRS x5, mstatus, x0. *)
Definition csrrs_x5_mstatus_x0 : Z := 0x300022F3.

(** The card in phase 1 of that instruction, [tmp] holding the value read
    in phase 0. *)
Definition csrrs_phase1 : SequencerState :=
  regs_of [(_pc, 0x100); (memaddr, 0x100); (_instr_phase, 1);
           (_instr, csrrs_x5_mstatus_x0); (_tmp, 0x88); (_mstatus, 0x88);
           (_mtvec, 0x80); (_mtval, 0x1234)].

(** The registers after the machine cycles whose inputs are [l], in
    order. *)
Definition run (st : SequencerState) (l : list Inputs) : SequencerState :=
  fold_left machine_cycle l st.

(** The instruction word the handlers see during a machine cycle: in
    phase 0, outside trap entry and with an aligned PC, the word on the
    memory bus, which the instruction latch lets through; else the word the
    latch holds. *)
Definition executing (st : SequencerState) (i : Inputs) : Z :=
  if fetching st then trunc 32 (memdata_rd i) else st _instr.

(** The opcodes the card dispatches on. *)
Definition opcodes : list Z :=
  [ Opcode.LUI; Opcode.AUIPC; Opcode.OP_IMM; Opcode.OP; Opcode.JAL;
    Opcode.JALR; Opcode.BRANCH; Opcode.LOAD; Opcode.STORE; Opcode.SYSTEM ].

(** The words the card refuses before looking at their fields: the low 16
    bits all zero, all 32 bits one, or an opcode it does not dispatch on. *)
Definition undecodable (w : Z) : bool :=
  (bits 0 16 w =? 0) || (w =? 0xFFFFFFFF)
  || negb (existsb (Z.eqb (opcode_of w)) opcodes).

(** FENCE, the MISC_MEM instruction of RV32I. *)
Definition fence : Z := 0x0FF0000F.

(** The card after a return to the odd address 0x102. *)
Definition pc_0x102 : SequencerState :=
  regs_of [(_pc, 0x102); (memaddr, 0x102); (_instr, 0x00000013);
           (_mtvec, 0x80)].

(** The cause trap entry latches in phase 0: for an interrupt the pending
    latch with the higher priority, the timer first; for an exception the
    cause [set_exception] stored. *)
Definition entry_cause (st : SequencerState) : Z :=
  if st _exception =? 0 then
    if truthy (st _reg_time_irq) then TrapCause.INT_MACH_TIMER
    else if truthy (st _reg_ext_irq) then TrapCause.INT_MACH_EXTERNAL
    else st _trap_cause
  else st _trap_cause.

(** Phase 1 of the entry into a timer interrupt taken at PC 0x104 with
    interrupts enabled. *)
Definition timer_entry_phase1 : SequencerState :=
  regs_of [(trap, 1); (_instr_phase, 1); (_mtvec, 0x81); (memaddr, 0x9C);
           (_pc, 0x104); (_mepc, 0x104); (_mstatus, 8);
           (_trap_cause, TrapCause.INT_MACH_TIMER);
           (_mcause, TrapCause.INT_MACH_TIMER)].

(** The ALU functions [handle_op_imm] and [handle_op] know. *)
Definition alu_funcs : list Z :=
  [ AluFunc.ADD; AluFunc.SUB; AluFunc.SLL; AluFunc.SLT; AluFunc.SLTU;
    AluFunc.XOR; AluFunc.SRL; AluFunc.SRA; AluFunc.OR; AluFunc.AND ].

Definition is_alu_func (f : Z) : bool := existsb (Z.eqb f) alu_funcs.

(** The ALU operation their [Switch(self._alu_func)] selects; [AluOp.NONE]
    stands for the default case. *)
Definition alu_op_for (f : Z) : Z :=
  if f =? AluFunc.ADD then AluOp.ADD
  else if f =? AluFunc.SUB then AluOp.SUB
  else if f =? AluFunc.SLL then AluOp.SLL
  else if f =? AluFunc.SLT then AluOp.SLT
  else if f =? AluFunc.SLTU then AluOp.SLTU
  else if f =? AluFunc.XOR then AluOp.XOR
  else if f =? AluFunc.SRL then AluOp.SRL
  else if f =? AluFunc.SRA then AluOp.SRA
  else if f =? AluFunc.OR then AluOp.OR
  else if f =? AluFunc.AND then AluOp.AND
  else AluOp.NONE.

(** ADDI x1, x0, 1024: bit 10 of the immediate is bit 30 of the word. *)
Definition addi_x1_x0_1024 : Z := 0x40000093.

(** SLTU x3, x1, x2. *)
Definition sltu_x3_x1_x2 : Z := 0x0020B1B3.

(** The signals by which LUI, AUIPC, OP_IMM and OP name their operands. *)
Definition operand_sigs : list Sig :=
  [_imm_format; reg_to_x; x_reg; _pc_to_x; _imm_to_y; reg_to_y; y_reg; z_reg].

(** The instructions that run in a single cycle: LUI, AUIPC, and OP_IMM
    and OP with an ALU function the card knows. *)
Definition one_cycle (w : Z) : bool :=
  (opcode_of w =? Opcode.LUI) || (opcode_of w =? Opcode.AUIPC)
  || (((opcode_of w =? Opcode.OP_IMM) || (opcode_of w =? Opcode.OP))
      && is_alu_func (alu_func_of w)).

(** OP_IMM and OP with an ALU function the card does not know. *)
Definition unknown_alu_func (w : Z) : bool :=
  ((opcode_of w =? Opcode.OP_IMM) || (opcode_of w =? Opcode.OP))
  && negb (is_alu_func (alu_func_of w)).

(** JAL and JALR. *)
Definition is_jump (w : Z) : bool :=
  (opcode_of w =? Opcode.JAL) || (opcode_of w =? Opcode.JALR).

(** JAL x1, +0x20. *)
Definition jal_x1_0x20 : Z := 0x020000EF.

(** [memaddr] as [_memaddr_to_pc] loads it into the PC: bit 0 cleared. *)
Definition even_address (a : Z) : Z := Z.shiftl (bits 1 32 a) 1.

(** The [mtval] a jump to the misaligned target [a] stores: JAL the target
    as it stands, JALR the target with bit 0 cleared. *)
Definition jump_mtval (w a : Z) : Z :=
  if opcode_of w =? Opcode.JAL then a else Z.land a 0xFFFFFFFE.

(** The branch condition [f3] on the stored ALU flags [eq], [lt], [ltu]:
    the [Switch(self._funct3)] of [handle_branch]. *)
Definition branch_taken (f3 eq lt ltu : Z) : bool :=
  if f3 =? BranchCond.EQ then eq =? 1
  else if f3 =? BranchCond.NE then eq =? 0
  else if f3 =? BranchCond.LT then lt =? 1
  else if f3 =? BranchCond.GE then lt =? 0
  else if f3 =? BranchCond.LTU then ltu =? 1
  else if f3 =? BranchCond.GEU then ltu =? 0
  else false.

(** BNE x1, x2, +16. *)
Definition bne_x1_x2_16 : Z := 0x00209863.

(** The widths [handle_load] and [handle_store] know. *)
Definition is_load_width (f3 : Z) : bool :=
  existsb (Z.eqb f3)
    [ MemAccessWidth.B; MemAccessWidth.BU; MemAccessWidth.H;
      MemAccessWidth.HU; MemAccessWidth.W ].

Definition is_store_width (f3 : Z) : bool :=
  existsb (Z.eqb f3) [ MemAccessWidth.B; MemAccessWidth.H; MemAccessWidth.W ].

(** The right shift that ends a load: arithmetic for LB and LH. *)
Definition load_shift_op (f3 : Z) : Z :=
  if (f3 =? MemAccessWidth.B) || (f3 =? MemAccessWidth.H) then AluOp.SRA
  else AluOp.SRL.

(** SH x2, 2(x1). *)
Definition sh_x2_2_x1 : Z := 0x00209123.

(** The six CSR instructions, and what [funct3] tells of each: whether it
    replaces the CSR (CSRRW, CSRRWI), whether its source is the immediate,
    and the ALU operation it asks for. *)
Definition is_csr_instr (f3 : Z) : bool :=
  existsb (Z.eqb f3)
    [ SystemFunc.CSRRW; SystemFunc.CSRRWI; SystemFunc.CSRRS;
      SystemFunc.CSRRSI; SystemFunc.CSRRC; SystemFunc.CSRRCI ].

Definition is_csr_replace (f3 : Z) : bool :=
  (f3 =? SystemFunc.CSRRW) || (f3 =? SystemFunc.CSRRWI).

Definition csr_uses_imm (f3 : Z) : bool :=
  (f3 =? SystemFunc.CSRRWI) || is_csr_imm f3.

Definition csr_alu_op (f3 : Z) : Z :=
  if is_csr_replace f3 then AluOp.Y
  else if is_csr_set f3 then AluOp.OR else AluOp.AND_NOT.

(** CSRRW and CSRRWI with [rd] = x0 do not read the CSR. *)
Definition csr_skips_read (w : Z) : bool :=
  is_csr_replace (funct3_of w) && (rd_of w =? 0).

(** CSRRW x5, mtvec, x1. *)
Definition csrrw_x5_mtvec_x1 : Z := 0x305092F3.

(** The address the CSR routing gives each of its five registers. *)
Definition csr_addr (r : Reg) : Z :=
  match r with
  | _mcause => CSRAddr.MCAUSE
  | _mtvec => CSRAddr.MTVEC
  | _mepc => CSRAddr.MEPC
  | _mtval => CSRAddr.MTVAL
  | _mstatus => CSRAddr.MSTATUS
  | _ => -1
  end.

(** The inputs [i] with the timer request line at [t] and the external one
    at [e]. *)
Definition irqs (t e : Z) (i : Inputs) : Inputs :=
  {| alu_eq := alu_eq i; alu_lt := alu_lt i; alu_ltu := alu_ltu i;
     time_irq := t; ext_irq := e;
     data_x_in := data_x_in i; data_y_in := data_y_in i;
     data_z_in := data_z_in i; memdata_rd := memdata_rd i;
     mcycle_end := mcycle_end i |}.

(** ADDI x0, x0, 0. *)
Definition nop : Z := 0x00000013.

(** CSRRS x5, mtval, x0. *)
Definition csrrs_x5_mtval_x0 : Z := 0x343022F3.

(** The card about to fetch at PC 0x100 with interrupts enabled and 0x1234
    in [mtval]. *)
Definition mtval_0x1234 : SequencerState :=
  regs_of [(_pc, 0x100); (memaddr, 0x100); (_mtvec, 0x80); (_mstatus, 8);
           (_mtval, 0x1234)].

End CardScenarios.

(** ** For the ROM *)

Module RomScenarios.
Import SequencerROM.

(** The constant a [ConstSelect] stands for, as consts.py lists them. *)
Definition const_value (c : Z) : Z :=
  if c =? ConstSelect.EXC_INSTR_ADDR_MISALIGN then 0x00000000
  else if c =? ConstSelect.EXC_ILLEGAL_INSTR then 0x00000002
  else if c =? ConstSelect.EXC_BREAKPOINT then 0x00000003
  else if c =? ConstSelect.EXC_LOAD_ADDR_MISALIGN then 0x00000004
  else if c =? ConstSelect.EXC_STORE_AMO_ADDR_MISALIGN then 0x00000006
  else if c =? ConstSelect.EXC_ECALL_FROM_MACH_MODE then 0x0000000B
  else if c =? ConstSelect.INT_MACH_EXTERNAL then 0x8000000B
  else if c =? ConstSelect.INT_MACH_TIMER then 0x80000007
  else if c =? ConstSelect.SHAMT_0 then 0x00000000
  else if c =? ConstSelect.SHAMT_4 then 0x00000004
  else if c =? ConstSelect.SHAMT_8 then 0x00000008
  else if c =? ConstSelect.SHAMT_16 then 0x00000010
  else if c =? ConstSelect.SHAMT_24 then 0x00000018
  else 0.

(** The cause selected is ECALL or EBREAK. *)
Definition ecall_or_ebreak (o : Sig -> Z) : bool :=
  (o _const =? ConstSelect.EXC_ECALL_FROM_MACH_MODE)
  || (o _const =? ConstSelect.EXC_BREAKPOINT).

(** When the ROM raises an exception, [next_fatal] is low for ECALL and
    EBREAK and high for every other cause; it is low when no exception is
    raised. *)
Definition fatal_ok (o : Sig -> Z) : bool :=
  if o load_exception =? 1 then
    o next_fatal =? (if ecall_or_ebreak o then 0 else 1)
  else (o load_exception =? 0) && (o next_fatal =? 0).

(** The misaligned LH as the ROM sees it in phase 1. *)
Definition rom_lh_misaligned : Inputs :=
  {| enable_sequencer_rom := 1; memaddr_2_lsb := 1;
     branch_cond := 0; _instr_phase := 1;
     data_z_in_2_lsb0 := 1; imm0 := 1; rd0 := 0; rs1_0 := 0;
     opcode_select := OpcodeSelect.LOAD;
     _funct3 := MemAccessWidth.H; _alu_func := 0 |}.

(** ECALL as the ROM sees it. *)
Definition rom_ecall_inputs : Inputs :=
  {| enable_sequencer_rom := 1; memaddr_2_lsb := 0;
     branch_cond := 0; _instr_phase := 0;
     data_z_in_2_lsb0 := 1; imm0 := 1; rd0 := 1; rs1_0 := 1;
     opcode_select := OpcodeSelect.ECALL;
     _funct3 := SystemFunc.PRIV; _alu_func := 0 |}.

(** An enabled ROM step for opcode selection [op] in phase [ph], with
    [funct3] and the two low address bits given; the other inputs low. *)
Definition rom_step (op ph f3 lsb : Z) : Inputs :=
  {| enable_sequencer_rom := 1; memaddr_2_lsb := lsb;
     branch_cond := 0; _instr_phase := ph;
     data_z_in_2_lsb0 := 0; imm0 := 0; rd0 := 0; rs1_0 := 0;
     opcode_select := op; _funct3 := f3; _alu_func := 0 |}.

(** CSRRW with [rd] = x0, phase 0. *)
Definition rom_csrrw_rd0 : Inputs :=
  {| enable_sequencer_rom := 1; memaddr_2_lsb := 0;
     branch_cond := 0; _instr_phase := 0;
     data_z_in_2_lsb0 := 0; imm0 := 0; rd0 := 1; rs1_0 := 0;
     opcode_select := OpcodeSelect.CSRS; _funct3 := SystemFunc.CSRRW;
     _alu_func := 0 |}.

(** The cases in which the ROM finds no instruction to run: an opcode
    selection outside the thirteen it knows; an ALU function outside the ten
    of OP and OP_IMM; in phase 1 of BRANCH, LOAD or STORE, a [funct3] that
    names no condition or width; a [funct3] CSRS does not know. *)
Definition rom_illegal (i : Inputs) : bool :=
  let op := opcode_select i in
  if matches op [OpcodeSelect.LUI; OpcodeSelect.AUIPC; OpcodeSelect.JAL;
                 OpcodeSelect.JALR; OpcodeSelect.MRET; OpcodeSelect.ECALL;
                 OpcodeSelect.EBREAK] then false
  else if matches op [OpcodeSelect.OP_IMM; OpcodeSelect.OP] then
    negb (matches (_alu_func i) alu_funcs)
  else if op =? OpcodeSelect.BRANCH then
    (_instr_phase i =? 1) && negb (matches (_funct3 i) branch_conds)
  else if op =? OpcodeSelect.LOAD then
    (_instr_phase i =? 1)
    && negb (matches (_funct3 i)
               [MemAccessWidth.B; MemAccessWidth.BU; MemAccessWidth.H;
                MemAccessWidth.HU; MemAccessWidth.W])
  else if op =? OpcodeSelect.STORE then
    (_instr_phase i =? 1)
    && negb (matches (_funct3 i)
               [MemAccessWidth.B; MemAccessWidth.H; MemAccessWidth.W])
  else if op =? OpcodeSelect.CSRS then
    negb (matches (_funct3 i)
            [SystemFunc.CSRRW; SystemFunc.CSRRWI; SystemFunc.CSRRS;
             SystemFunc.CSRRSI; SystemFunc.CSRRC; SystemFunc.CSRRCI])
  else true.

End RomScenarios.

(** * Properties *)

Arguments bits : simpl never.
Arguments bit : simpl never.
Arguments as_signed : simpl never.
Arguments set_bits : simpl never.

(** ** Bit-vector facts *)

Lemma bits_low n x : 0 <= n -> bits 0 n x = x mod 2 ^ n.
Proof.
  intros Hn. unfold bits.
  now rewrite Z.shiftr_0_r, Z.sub_0_r, Z.land_ones.
Qed.

Lemma bits_range lo hi x : lo <= hi -> 0 <= bits lo hi x < 2 ^ (hi - lo).
Proof.
  intros H. unfold bits. rewrite Z.land_ones by lia.
  apply Z.mod_pos_bound. apply Z.pow_pos_nonneg; lia.
Qed.

Lemma bit_range i x : 0 <= bit i x < 2.
Proof. unfold bit. destruct (Z.testbit x i); simpl; lia. Qed.

Lemma trunc_range w x : 0 <= w -> 0 <= trunc w x < 2 ^ w.
Proof. intros. apply Z.mod_pos_bound. apply Z.pow_pos_nonneg; lia. Qed.

Lemma trunc_small w x : 0 <= x < 2 ^ w -> trunc w x = x.
Proof. intros. apply Z.mod_small; assumption. Qed.

Lemma trunc_idem w x : 0 <= w -> trunc w (trunc w x) = trunc w x.
Proof. intros. apply trunc_small, trunc_range; assumption. Qed.

(** The low bits of a word are the low bits of its low half. *)
Lemma low_bits_of_low_bits n m x :
  0 <= n <= m -> (x mod 2 ^ m) mod 2 ^ n = x mod 2 ^ n.
Proof.
  intros [Hn Hm]. apply Z.mod_mod_divide.
  exists (2 ^ (m - n)). rewrite <- Z.pow_add_r by lia. f_equal. lia.
Qed.

Lemma if_same {A} (c : bool) (x : A) : (if c then x else x) = x.
Proof. now destruct c. Qed.

(** ** The sequencer card: what each block of [elaborate] may touch *)

Module CardFacts.
Import SequencerCard.
Export CardScenarios.

Arguments decode_imm : simpl never.

Lemma snapshot_eq f r : snapshot f r = f r.
Proof. destruct r; reflexivity. Qed.

Lemma comb_of_frame l1 l2 s :
  existsb (drives s) l2 = false -> comb_of (l1 ++ l2) s = comb_of l1 s.
Proof.
  unfold comb_of. rewrite fold_left_app.
  generalize (fold_left
    (fun acc stmt =>
       match stmt with
       | comb s' v => if Sig_beq s s' then trunc (sig_width s) v else acc
       | _ => acc
       end) l1 (sig_reset s)).
  induction l2 as [|x l2 IH]; intros a H; [reflexivity|].
  simpl in H. apply orb_false_elim in H as [Hx Hl].
  simpl. destruct x; simpl in Hx; try rewrite Hx; now apply IH.
Qed.

Lemma next_of_app d l1 l2 r old :
  next_of d (l1 ++ l2) r old = next_of d l2 r (next_of d l1 r old).
Proof. unfold next_of. now rewrite fold_left_app. Qed.

Lemma next_of_frame d l r old :
  existsb (loads d r) l = false -> next_of d l r old = old.
Proof.
  unfold next_of. revert old.
  induction l as [|x l IH]; intros old H; [reflexivity|].
  simpl in H. apply orb_false_elim in H as [Hx Hl].
  simpl. destruct x; simpl in Hx; try rewrite Hx; now apply IH.
Qed.

Lemma footprint_excludes (P Q : Stmt -> bool) l :
  forallb P l = true ->
  (forall x, P x = true -> Q x = false) ->
  existsb Q l = false.
Proof.
  intros HP HQ. induction l as [|x l IH]; [reflexivity|].
  simpl in *. apply andb_prop in HP as [Hx Hl].
  now rewrite (HQ x Hx), IH.
Qed.

(** Walk down a block of assignments: split concatenations, take both
    branches of the conditional at the head, check the leaves. *)
Ltac walk :=
  repeat first
    [ reflexivity
    | rewrite forallb_app; apply andb_true_intro; split
    | lazymatch goal with
      | |- forallb _ (if ?c then _ else _) = true => destruct c
      end
    | progress cbv zeta ].

Lemma set_exception_footprint st exc mtval :
  forallb handler_stmt (set_exception st exc mtval) = true.
Proof. reflexivity. Qed.

Lemma handle_trap_footprint st : forallb handler_stmt (handle_trap st) = true.
Proof. unfold handle_trap. walk. Qed.

Lemma alu_func_switch_footprint st :
  forallb handler_stmt (alu_func_switch st) = true.
Proof. unfold alu_func_switch, handle_illegal_instr. walk. Qed.

Lemma handle_op_imm_footprint st : forallb handler_stmt (handle_op_imm st) = true.
Proof. unfold handle_op_imm. walk. apply alu_func_switch_footprint. Qed.

Lemma handle_op_footprint st : forallb handler_stmt (handle_op st) = true.
Proof. unfold handle_op. walk. apply alu_func_switch_footprint. Qed.

Lemma handle_jal_footprint st : forallb handler_stmt (handle_jal st) = true.
Proof. unfold handle_jal. walk. Qed.

Lemma handle_jalr_footprint st : forallb handler_stmt (handle_jalr st) = true.
Proof. unfold handle_jalr. walk. Qed.

Lemma handle_branch_footprint st i :
  forallb handler_stmt (handle_branch st i) = true.
Proof. unfold handle_branch, handle_illegal_instr. walk. Qed.

Lemma handle_load_footprint st : forallb handler_stmt (handle_load st) = true.
Proof. unfold handle_load, handle_illegal_instr. walk. Qed.

Lemma handle_store_footprint st : forallb handler_stmt (handle_store st) = true.
Proof. unfold handle_store, handle_illegal_instr. walk. Qed.

Lemma handle_system_footprint st imm :
  forallb handler_stmt (handle_system st imm) = true.
Proof.
  unfold handle_system, handle_CSRRW, handle_CSRRWI, handle_CSRRS,
    handle_CSRRSI, handle_CSRRC, handle_CSRRCI, handle_PRIV, handle_MRET,
    handle_illegal_instr, csr_phase1.
  walk.
Qed.

Lemma dispatch_footprint st i imm :
  forallb handler_stmt (dispatch st i imm) = true.
Proof.
  unfold dispatch. walk;
    first [ apply handle_trap_footprint | apply handle_op_imm_footprint
          | apply handle_op_footprint | apply handle_jal_footprint
          | apply handle_jalr_footprint | apply handle_branch_footprint
          | apply handle_load_footprint | apply handle_store_footprint
          | apply handle_system_footprint ].
Qed.

Lemma forallb_weaken (P Q : Stmt -> bool) l :
  (forall x, P x = true -> Q x = true) ->
  forallb P l = true -> forallb Q l = true.
Proof.
  intros H. induction l as [|x l IH]; [reflexivity|].
  simpl. intros HP. apply andb_prop in HP as [Hx Hl].
  now rewrite (H x Hx), IH.
Qed.

Lemma handler_stmt_ph2 x : handler_stmt x = true -> ph2_stmt x = true.
Proof. destruct x as [s v|[] r v|[] r k v]; simpl; try reflexivity; auto. Qed.

Lemma elaborate_ph2 st i : forallb ph2_stmt (elaborate st i) = true.
Proof.
  unfold elaborate, irq_latch, last_cycle, fetch, registers, phase_update,
    pc_update, memaddr_update, memdata_wr_update, tmp_update, csr_update,
    muxes, x_mux, y_mux, z_mux, csr_num_mux, csr_read, csr_write.
  walk.
  apply forallb_weaken with (1 := handler_stmt_ph2), dispatch_footprint.
Qed.

Lemma tick_ph2_frame st i r :
  r <> _exception -> r <> _trap_cause -> tick Dph2 st i r = st r.
Proof.
  intros He Hc. unfold tick. rewrite snapshot_eq.
  apply next_of_frame.
  apply footprint_excludes with (1 := elaborate_ph2 st i).
  intros [s v|[] r' v|[] r' k v]; simpl; try reflexivity; try discriminate;
    destruct r'; try discriminate; intros _;
    destruct r; try reflexivity; congruence.
Qed.

Lemma instr_latch_frame st i r : r <> _instr -> instr_latch st i r = st r.
Proof.
  intros H. unfold instr_latch. rewrite snapshot_eq.
  destruct r; try reflexivity; congruence.
Qed.

(** The read pulse and the edges of [ph2] leave every register but the
    instruction latch, the exception flag and the trap cause alone. *)
Lemma write_half_frame st i r :
  r <> _instr -> r <> _exception -> r <> _trap_cause ->
  write_half st i r = st r.
Proof.
  intros Hi He Hc. unfold write_half.
  rewrite !tick_ph2_frame by assumption.
  now apply instr_latch_frame.
Qed.

Lemma write_half_instr st i :
  write_half st i _instr = instr_latch st (with_mcycle_end 0 i) _instr.
Proof.
  unfold write_half.
  now rewrite !tick_ph2_frame by discriminate.
Qed.

Lemma comb_of_app l1 l2 s :
  comb_of (l1 ++ l2) s =
  fold_left
    (fun acc stmt =>
       match stmt with
       | comb s' v => if Sig_beq s s' then trunc (sig_width s) v else acc
       | _ => acc
       end) l2 (comb_of l1 s).
Proof. unfold comb_of. now rewrite fold_left_app. Qed.

Lemma not_interrupted_mid_cycle st i :
  mcycle_end i = 0 -> is_interrupted st i = false.
Proof.
  intros H. unfold is_interrupted, last_cycle. rewrite H.
  repeat match goal with
         | |- context [if ?c then _ else _] => destruct c
         end; reflexivity.
Qed.

Lemma handler_stmt_not_load x :
  handler_stmt x = true -> not_load_instr x = true.
Proof. destruct x as [[] v|d r v|d r k v]; simpl; auto. Qed.

Lemma load_instr_mid_cycle st i :
  mcycle_end i = 0 ->
  settled st i _load_instr = if fetching st then 1 else 0.
Proof.
  intros H. unfold settled.
  rewrite !app_assoc, <- (app_assoc _ (muxes st i)).
  rewrite comb_of_frame.
  2:{ apply footprint_excludes with (P := not_load_instr).
      - unfold muxes, x_mux, y_mux, z_mux, csr_num_mux, csr_read, handlers.
        walk.
        apply forallb_weaken with (1 := handler_stmt_not_load).
        apply dispatch_footprint.
      - intros x. unfold not_load_instr. now destruct (drives _load_instr x). }
  rewrite comb_of_app, comb_of_frame.
  2:{ unfold last_cycle.
      repeat match goal with
             | |- context [if ?c then _ else _] => destruct c
             end; reflexivity. }
  unfold fetch, fetching, instr_misalign.
  rewrite (not_interrupted_mid_cycle st i H).
  destruct (st _instr_phase =? 0), (st trap =? 0),
    (bits 0 2 (st _pc) =? 0); reflexivity.
Qed.

Lemma write_half_fetch st i :
  write_half st i _instr =
  if fetching st then trunc 32 (memdata_rd i) else st _instr.
Proof.
  rewrite write_half_instr. unfold instr_latch. rewrite snapshot_eq.
  rewrite load_instr_mid_cycle by reflexivity.
  now destruct (fetching st).
Qed.

(** *** Footprints of the blocks of [elaborate] *)

Lemma footprint_drives cs r1 r2 l s :
  forallb (footprint cs r1 r2) l = true ->
  existsb (Sig_beq s) cs = false ->
  existsb (drives s) l = false.
Proof.
  intros Hl Hs. apply footprint_excludes with (1 := Hl).
  intros [s' v|d r v|d r k v] Hx; simpl in *; try reflexivity.
  destruct (Sig_beq s s') eqn:E; [|reflexivity].
  apply internal_Sig_dec_bl in E. subst s'. congruence.
Qed.

Lemma footprint_loads cs r1 r2 l d r :
  forallb (footprint cs r1 r2) l = true ->
  existsb (Reg_beq r) (match d with Dph1 => r1 | Dph2 => r2 end) = false ->
  existsb (loads d r) l = false.
Proof.
  intros Hl Hr. apply footprint_excludes with (1 := Hl).
  intros [s' v|d' r' v|d' r' k v] Hx; simpl in *; try reflexivity.
  all: destruct (Reg_beq r r') eqn:E; [|now rewrite andb_false_r].
  all: apply internal_Reg_dec_bl in E; subst r'.
  all: destruct d, d'; simpl; try reflexivity; congruence.
Qed.

Lemma defaults_fp st : forallb (footprint
  (handler_sigs ++ last_cycle_sigs ++ fetch_sigs ++ mux_sigs
   ++ [_next_reg_page]) [] []) (defaults st) = true.
Proof. reflexivity. Qed.

Lemma irq_latch_fp st i :
  forallb (footprint [] irq_regs []) (irq_latch st i) = true.
Proof. unfold irq_latch. walk. Qed.

Lemma last_cycle_fp st i :
  forallb (footprint last_cycle_sigs [] []) (last_cycle st i) = true.
Proof. unfold last_cycle. walk. Qed.

Lemma fetch_fp st i :
  forallb (footprint fetch_sigs fetch_regs ph2_regs) (fetch st i) = true.
Proof. unfold fetch. walk. Qed.

Lemma registers_fp st i :
  forallb (footprint [] registers_regs []) (registers st i) = true.
Proof.
  unfold registers, phase_update, pc_update, memaddr_update,
    memdata_wr_update, tmp_update, csr_update, csr_write.
  walk.
Qed.

Lemma muxes_fp st i :
  forallb (footprint mux_sigs [] []) (muxes st i) = true.
Proof. unfold muxes, x_mux, y_mux, z_mux, csr_num_mux, csr_read. walk. Qed.

Lemma handlers_fp st i :
  forallb (footprint handler_sigs handler_regs ph2_regs) (handlers st i)
  = true.
Proof.
  unfold handlers.
  apply forallb_weaken with (2 := dispatch_footprint st i (_imm st i)).
  intros [[] v|[] [] v|[] [] k v]; simpl; auto.
Qed.

(** *** Reading a register or a signal block by block *)

Lemma tick_ph1_blocks st i r :
  tick Dph1 st i r =
  next_of Dph1 (handlers st i) r
    (next_of Dph1 (registers st i) r
      (next_of Dph1 (fetch st i) r
        (next_of Dph1 (irq_latch st i) r (st r)))).
Proof.
  unfold tick, elaborate. rewrite snapshot_eq, !next_of_app.
  rewrite (next_of_frame Dph1 (defaults st)) by reflexivity.
  rewrite (next_of_frame Dph1 (last_cycle st i))
    by (apply footprint_loads with (1 := last_cycle_fp st i); reflexivity).
  rewrite (next_of_frame Dph1 (muxes st i))
    by (apply footprint_loads with (1 := muxes_fp st i); reflexivity).
  reflexivity.
Qed.

Lemma tick_ph2_blocks st i r :
  tick Dph2 st i r =
  next_of Dph2 (handlers st i) r (next_of Dph2 (fetch st i) r (st r)).
Proof.
  unfold tick, elaborate. rewrite snapshot_eq, !next_of_app.
  rewrite (next_of_frame Dph2 (defaults st)) by reflexivity.
  rewrite (next_of_frame Dph2 (irq_latch st i))
    by (apply footprint_loads with (1 := irq_latch_fp st i); reflexivity).
  rewrite (next_of_frame Dph2 (last_cycle st i))
    by (apply footprint_loads with (1 := last_cycle_fp st i); reflexivity).
  rewrite (next_of_frame Dph2 (registers st i))
    by (apply footprint_loads with (1 := registers_fp st i); reflexivity).
  rewrite (next_of_frame Dph2 (muxes st i))
    by (apply footprint_loads with (1 := muxes_fp st i); reflexivity).
  reflexivity.
Qed.

Lemma comb_of_skip l1 l2 l3 s :
  existsb (drives s) l2 = false ->
  comb_of (l1 ++ l2 ++ l3) s = comb_of (l1 ++ l3) s.
Proof.
  intros H. rewrite app_assoc, !(comb_of_app _ l3).
  now rewrite comb_of_frame.
Qed.

(** A control line that only the handlers drive settles to what they
    drive. *)
Lemma settled_ctl st i s :
  existsb (Sig_beq s) (last_cycle_sigs ++ fetch_sigs ++ mux_sigs) = false ->
  settled st i s = ctl st i s.
Proof.
  intros H. rewrite !existsb_app in H.
  apply orb_false_elim in H as [H1 H2].
  apply orb_false_elim in H2 as [H2 H3].
  unfold settled, ctl.
  rewrite comb_of_skip
    by (apply footprint_drives with (1 := last_cycle_fp st i), H1).
  rewrite comb_of_skip
    by (apply footprint_drives with (1 := fetch_fp st i), H2).
  rewrite comb_of_skip
    by (apply footprint_drives with (1 := muxes_fp st i), H3).
  reflexivity.
Qed.

Lemma settled_fetch st i s :
  existsb (Sig_beq s) (last_cycle_sigs ++ mux_sigs) = false ->
  settled st i s = comb_of (defaults st ++ fetch st i ++ handlers st i) s.
Proof.
  intros H. rewrite !existsb_app in H.
  apply orb_false_elim in H as [H1 H2].
  unfold settled.
  rewrite comb_of_skip
    by (apply footprint_drives with (1 := last_cycle_fp st i), H1).
  rewrite (app_assoc (defaults st)).
  rewrite comb_of_skip
    by (apply footprint_drives with (1 := muxes_fp st i), H2).
  now rewrite <- app_assoc.
Qed.

Lemma settled_muxes st i s :
  existsb (Sig_beq s) (last_cycle_sigs ++ fetch_sigs) = false ->
  settled st i s = comb_of (defaults st ++ muxes st i ++ handlers st i) s.
Proof.
  intros H. rewrite !existsb_app in H.
  apply orb_false_elim in H as [H1 H2].
  unfold settled.
  rewrite comb_of_skip
    by (apply footprint_drives with (1 := last_cycle_fp st i), H1).
  rewrite comb_of_skip
    by (apply footprint_drives with (1 := fetch_fp st i), H2).
  reflexivity.
Qed.

Lemma settled_last_cycle st i s :
  existsb (Sig_beq s) (fetch_sigs ++ mux_sigs ++ handler_sigs) = false ->
  settled st i s = comb_of (defaults st ++ last_cycle st i) s.
Proof.
  intros H. rewrite !existsb_app in H.
  apply orb_false_elim in H as [H1 H2].
  apply orb_false_elim in H2 as [H2 H3].
  unfold settled.
  rewrite (app_assoc (defaults st)).
  rewrite comb_of_skip
    by (apply footprint_drives with (1 := fetch_fp st i), H1).
  rewrite comb_of_skip
    by (apply footprint_drives with (1 := muxes_fp st i), H2).
  rewrite <- app_assoc, app_assoc.
  apply comb_of_frame.
  apply footprint_drives with (1 := handlers_fp st i), H3.
Qed.

(** *** Trap entry *)

Lemma eqb_0_false x : x <> 0 -> (x =? 0) = false.
Proof. intros. now apply Z.eqb_neq. Qed.

Lemma trap_dispatch st i imm :
  st trap <> 0 -> dispatch st i imm = handle_trap st.
Proof. intros H. unfold dispatch, truthy. now rewrite (eqb_0_false _ H). Qed.

Lemma trap_handlers st i : st trap <> 0 -> handlers st i = handle_trap st.
Proof. intros H. unfold handlers. now apply trap_dispatch. Qed.

Lemma trap_irq_latch st i : st trap <> 0 -> irq_latch st i = [].
Proof. intros H. unfold irq_latch. now rewrite (eqb_0_false _ H). Qed.

Lemma trap_fetch st i : st trap <> 0 -> fetch st i = [].
Proof.
  intros H. unfold fetch, instr_misalign, is_interrupted, all_true.
  cbn [forallb].
  rewrite (eqb_0_false _ H), !andb_false_r. reflexivity.
Qed.

Lemma trap_tick_ph2_exception s j :
  s trap <> 0 -> tick Dph2 s j _exception = s _exception.
Proof.
  intros Hs. rewrite tick_ph2_blocks, trap_handlers, trap_fetch by assumption.
  unfold handle_trap.
  destruct (s _instr_phase =? 0).
  - apply next_of_frame.
    repeat match goal with
           | |- context [if ?c then _ else _] => destruct c
           end; reflexivity.
  - unfold truthy. destruct (s _exception =? 0) eqn:E; cbn.
    + symmetry. now apply Z.eqb_eq.
    + reflexivity.
Qed.

(** During trap entry the read pulse and [ph2] keep every register but the
    trap cause, which [ph2] loads with the interrupt cause in phase 0. *)
Lemma trap_write_half_frame st i r :
  st trap <> 0 -> r <> _trap_cause -> write_half st i r = st r.
Proof.
  intros Ht Hr.
  destruct (Reg_eq_dec r _exception) as [->|He].
  - unfold write_half.
    assert (T1 : instr_latch st (with_mcycle_end 0 i) trap <> 0)
      by (rewrite instr_latch_frame by discriminate; assumption).
    assert (T2 : tick Dph2 (instr_latch st (with_mcycle_end 0 i))
                   (with_mcycle_end 0 i) trap <> 0)
      by (rewrite tick_ph2_frame by discriminate; assumption).
    rewrite !trap_tick_ph2_exception by assumption.
    now apply instr_latch_frame.
  - destruct (Reg_eq_dec r _instr) as [->|Hi].
    + rewrite write_half_fetch. unfold fetching.
      now rewrite (eqb_0_false _ Ht), andb_false_r.
    + now apply write_half_frame.
Qed.

Lemma trap_tick_irq st i r :
  st trap <> 0 -> In r irq_regs ->
  tick Dph1 st i r = next_of Dph1 (handle_trap st) r (st r).
Proof.
  intros Ht Hr. rewrite tick_ph1_blocks, trap_handlers by assumption.
  rewrite (next_of_frame Dph1 (registers st i)).
  2:{ apply footprint_loads with (1 := registers_fp st i).
      destruct Hr as [<-|[<-|[]]]; reflexivity. }
  now rewrite trap_fetch, trap_irq_latch.
Qed.

(** C10. At trap entry phase 0 at most one pending-interrupt latch is
    cleared: when [_reg_time_irq] is set it is cleared and [_reg_ext_irq]
    keeps its value; [_reg_ext_irq] is cleared only when [_reg_time_irq] is
    clear.  Phase 1 of trap entry loads neither latch, so an external
    interrupt pending together with the timer interrupt stays latched
    across the timer trap entry. *)
Theorem C10_trap_entry_clears_one_latch (st : SequencerState) (i : Inputs) :
  st trap <> 0 ->
  (st _instr_phase = 0 ->
     (st _reg_time_irq <> 0 ->
        machine_cycle st i _reg_time_irq = 0 /\
        machine_cycle st i _reg_ext_irq = st _reg_ext_irq) /\
     (st _reg_time_irq = 0 ->
        machine_cycle st i _reg_time_irq = 0 /\
        machine_cycle st i _reg_ext_irq = 0)) /\
  (st _instr_phase <> 0 ->
     machine_cycle st i _reg_time_irq = st _reg_time_irq /\
     machine_cycle st i _reg_ext_irq = st _reg_ext_irq).
Proof.
  intros Ht. unfold machine_cycle.
  set (s := write_half st i).
  assert (Hs : s trap <> 0)
    by (unfold s; rewrite trap_write_half_frame; [assumption..|discriminate]).
  assert (Hp : s _instr_phase = st _instr_phase)
    by (apply trap_write_half_frame; [assumption|discriminate]).
  assert (Hti : s _reg_time_irq = st _reg_time_irq)
    by (apply trap_write_half_frame; [assumption|discriminate]).
  assert (Hex : s _reg_ext_irq = st _reg_ext_irq)
    by (apply trap_write_half_frame; [assumption|discriminate]).
  rewrite !trap_tick_irq by (assumption || (simpl; auto)).
  unfold handle_trap, truthy. rewrite Hp, Hti, Hex.
  split.
  - intros P0. rewrite P0. change (0 =? 0) with true. cbv iota.
    split.
    + intros T. rewrite (eqb_0_false _ T). cbn [negb].
      destruct (s _exception =? 0),
        (all_true [negb (bit 31 (s _trap_cause) =? 0);
                   bits 0 2 (s _mtvec) =? 1]);
        split; reflexivity.
    + intros T. rewrite T. change (0 =? 0) with true. cbn [negb].
      destruct (st _reg_ext_irq =? 0) eqn:E;
        destruct (s _exception =? 0),
          (all_true [negb (bit 31 (s _trap_cause) =? 0);
                     bits 0 2 (s _mtvec) =? 1]);
        cbn; split; try reflexivity;
        now apply Z.eqb_eq in E.
  - intros P1. rewrite (eqb_0_false _ P1).
    destruct (negb (s _exception =? 0)); split; reflexivity.
Qed.

(** *** The register updates, register by register *)

Lemma frame d l r old cs r1 r2 :
  forallb (footprint cs r1 r2) l = true ->
  existsb (Reg_beq r) (match d with Dph1 => r1 | Dph2 => r2 end) = false ->
  next_of d l r old = old.
Proof.
  intros Hl Hr. apply next_of_frame. now apply footprint_loads with (1 := Hl).
Qed.

Lemma phase_update_fp st i :
  forallb (footprint []
    [_instr_phase; reg_page; _stored_alu_eq; _stored_alu_lt; _stored_alu_ltu]
    []) (phase_update st i) = true.
Proof. reflexivity. Qed.

Lemma pc_update_fp st i :
  forallb (footprint [] [_pc] []) (pc_update st i) = true.
Proof. unfold pc_update. walk. Qed.

Lemma memaddr_update_fp st i :
  forallb (footprint [] [memaddr] []) (memaddr_update st i) = true.
Proof. unfold memaddr_update. walk. Qed.

Lemma memdata_wr_update_fp st i :
  forallb (footprint [] [memdata_wr] []) (memdata_wr_update st i) = true.
Proof. unfold memdata_wr_update. walk. Qed.

Lemma tmp_update_fp st i :
  forallb (footprint [] [_tmp] []) (tmp_update st i) = true.
Proof. unfold tmp_update. walk. Qed.

Lemma csr_update_fp st i :
  forallb (footprint [] csr_regs []) (csr_update st i) = true.
Proof. unfold csr_update, csr_write. walk. Qed.

(** Peel the blocks that cannot load the register at hand. *)
Ltac peel st i :=
  repeat (rewrite (frame _ (irq_latch st i) _ _ _ _ _ (irq_latch_fp st i))
            by reflexivity);
  repeat (rewrite (frame _ (fetch st i) _ _ _ _ _ (fetch_fp st i))
            by reflexivity);
  repeat (rewrite (frame _ (handlers st i) _ _ _ _ _ (handlers_fp st i))
            by reflexivity);
  repeat (rewrite (frame _ (phase_update st i) _ _ _ _ _ (phase_update_fp st i))
            by reflexivity);
  repeat (rewrite (frame _ (pc_update st i) _ _ _ _ _ (pc_update_fp st i))
            by reflexivity);
  repeat (rewrite (frame _ (memaddr_update st i) _ _ _ _ _
                 (memaddr_update_fp st i)) by reflexivity);
  repeat (rewrite (frame _ (memdata_wr_update st i) _ _ _ _ _
                 (memdata_wr_update_fp st i)) by reflexivity);
  repeat (rewrite (frame _ (tmp_update st i) _ _ _ _ _ (tmp_update_fp st i))
            by reflexivity);
  repeat (rewrite (frame _ (csr_update st i) _ _ _ _ _ (csr_update_fp st i))
            by reflexivity).

Lemma tick_pc st i :
  tick Dph1 st i _pc = next_of Dph1 (pc_update st i) _pc (st _pc).
Proof.
  rewrite tick_ph1_blocks. unfold registers. rewrite !next_of_app.
  peel st i; reflexivity.
Qed.

Lemma tick_memaddr st i :
  tick Dph1 st i memaddr =
  next_of Dph1 (memaddr_update st i) memaddr (st memaddr).
Proof.
  rewrite tick_ph1_blocks. unfold registers. rewrite !next_of_app.
  peel st i; reflexivity.
Qed.

Lemma tick_memdata_wr st i :
  tick Dph1 st i memdata_wr =
  next_of Dph1 (memdata_wr_update st i) memdata_wr (st memdata_wr).
Proof.
  rewrite tick_ph1_blocks. unfold registers. rewrite !next_of_app.
  peel st i; reflexivity.
Qed.

Lemma tick_tmp st i :
  tick Dph1 st i _tmp = next_of Dph1 (tmp_update st i) _tmp (st _tmp).
Proof.
  rewrite tick_ph1_blocks. unfold registers. rewrite !next_of_app.
  peel st i; reflexivity.
Qed.

Lemma tick_instr_phase st i :
  tick Dph1 st i _instr_phase = trunc 2 (settled st i _next_instr_phase).
Proof.
  rewrite tick_ph1_blocks. unfold registers. rewrite !next_of_app.
  peel st i; reflexivity.
Qed.

Lemma tick_csr st i r :
  In r csr_regs ->
  tick Dph1 st i r =
  next_of Dph1 (handlers st i) r
    (next_of Dph1 (csr_update st i) r (next_of Dph1 (fetch st i) r (st r))).
Proof.
  intros Hr. rewrite tick_ph1_blocks. unfold registers. rewrite !next_of_app.
  destruct Hr as [<-|[<-|[<-|[<-|[<-|[]]]]]]; peel st i; reflexivity.
Qed.

Lemma tick_trap st i :
  tick Dph1 st i trap =
  next_of Dph1 (handlers st i) trap (next_of Dph1 (fetch st i) trap (st trap)).
Proof.
  rewrite tick_ph1_blocks. unfold registers. rewrite !next_of_app.
  peel st i; reflexivity.
Qed.

Lemma tick_trap_svc st i :
  tick Dph1 st i _trap_svc =
  next_of Dph1 (handlers st i) _trap_svc (st _trap_svc).
Proof.
  rewrite tick_ph1_blocks. unfold registers. rewrite !next_of_app.
  peel st i; reflexivity.
Qed.

(** *** Settled control lines, read off the handlers *)

Ltac to_ctl :=
  repeat match goal with
         | |- context [settled ?s ?i ?sig] =>
             rewrite (settled_ctl s i sig eq_refl)
         end.

Ltac split_ifs :=
  repeat match goal with
         | |- context [if ?c then _ else _] => destruct c
         end.

(** The control lines during phase 0 of trap entry. *)
Lemma trap0_ctl st i sig :
  st trap <> 0 -> st _instr_phase = 0 ->
  sig <> data_x_out -> sig <> data_y_out ->
  ctl st i sig =
  comb_of (defaults st ++
           [ comb alu_op_to_z AluOp.ADD;
             comb _z_to_memaddr 1;
             comb _next_instr_phase 1 ]) sig.
Proof.
  intros Ht Hp Hx Hy. unfold ctl. rewrite trap_handlers by assumption.
  unfold handle_trap. rewrite Hp. change (0 =? 0) with true. cbv iota zeta.
  rewrite !comb_of_app.
  split_ifs; destruct sig; try congruence; reflexivity.
Qed.

(** The control lines during phase 1 of trap entry. *)
Lemma trap1_ctl st i sig :
  st trap <> 0 -> st _instr_phase <> 0 ->
  ctl st i sig =
  comb_of (defaults st ++
           if st _exception =? 0 then
             [ comb mem_rd 1;
               comb _memdata_to_pc 1;
               comb _memdata_to_memaddr 1 ]
           else
             [ comb _next_instr_phase 1;
               comb fatal 1 ]) sig.
Proof.
  intros Ht Hp. unfold ctl. rewrite trap_handlers by assumption.
  unfold handle_trap, truthy. rewrite (eqb_0_false _ Hp).
  rewrite !comb_of_app.
  destruct (st _exception =? 0); destruct sig; reflexivity.
Qed.

Lemma trap_last_cycle st i : st trap <> 0 -> last_cycle st i = [].
Proof.
  intros Ht. unfold last_cycle.
  destruct (Z.eq_dec (st _instr_phase) 0) as [Hp|Hp].
  - now rewrite trap0_ctl by (assumption || discriminate).
  - rewrite trap1_ctl by assumption. now destruct (st _exception =? 0).
Qed.

Lemma bit_trunc i w x : 0 <= i < w -> bit i (trunc w x) = bit i x.
Proof.
  intros H. unfold bit, trunc. now rewrite Z.mod_pow2_bits_low by lia.
Qed.

Lemma bits_low_trunc n w x : 0 <= n <= w -> bits 0 n (trunc w x) = bits 0 n x.
Proof.
  intros H. rewrite !bits_low by lia. unfold trunc.
  now apply low_bits_of_low_bits.
Qed.

Lemma trunc_land_mask x m : 0 <= m < 2 ^ 32 -> trunc 32 (Z.land x m) = Z.land x m.
Proof.
  intros H. unfold trunc. rewrite <- Z.land_ones by lia.
  rewrite <- Z.land_assoc. f_equal.
  rewrite Z.land_ones by lia. now apply Z.mod_small.
Qed.

Lemma trunc_shiftl_bits c : trunc 32 (Z.shiftl (bits 0 30 c) 2) = 4 * bits 0 30 c.
Proof.
  rewrite Z.shiftl_mul_pow2 by lia.
  pose proof (bits_range 0 30 c ltac:(lia)) as R.
  change (2 ^ (30 - 0)) with 1073741824 in R.
  change (2 ^ 2) with 4.
  rewrite trunc_small; [lia|]. change (2 ^ 32) with 4294967296. lia.
Qed.

(** Phase 0 of trap entry, on the rising edge of [ph1]. *)
Lemma trap0_tick st i :
  st trap <> 0 -> st _instr_phase = 0 ->
  settled st i alu_op_to_z = AluOp.ADD /\
  settled st i data_x_out = Z.land (st _mtvec) 0xFFFFFFFC /\
  settled st i data_y_out =
    (if truthy (bit 31 (st _trap_cause)) && (bits 0 2 (st _mtvec) =? 1)
     then 4 * bits 0 30 (st _trap_cause) else 0) /\
  tick Dph1 st i memaddr = trunc 32 (data_z_in i) /\
  tick Dph1 st i _pc = st _pc /\
  tick Dph1 st i _instr_phase = 1 /\
  tick Dph1 st i _mcause = trunc 32 (st _trap_cause).
Proof.
  intros Ht Hp.
  repeat split.
  - to_ctl. now rewrite trap0_ctl by (assumption || discriminate).
  - rewrite settled_muxes by reflexivity.
    rewrite trap_handlers, app_assoc, comb_of_app by assumption.
    unfold handle_trap. rewrite Hp. change (0 =? 0) with true. cbv iota zeta.
    split_ifs; cbn -[Z.land]; now apply trunc_land_mask.
  - rewrite settled_muxes by reflexivity.
    rewrite trap_handlers, app_assoc, comb_of_app by assumption.
    unfold handle_trap, all_true. rewrite Hp. change (0 =? 0) with true.
    cbv iota zeta. cbn [forallb]. rewrite andb_true_r.
    destruct (truthy (bit 31 (st _trap_cause)) && (bits 0 2 (st _mtvec) =? 1));
      split_ifs; cbn -[Z.shiftl]; try reflexivity; apply trunc_shiftl_bits.
  - rewrite tick_memaddr. unfold memaddr_update.
    rewrite (settled_last_cycle st i _pc_plus_4_to_memaddr eq_refl).
    rewrite trap_last_cycle by assumption. to_ctl.
    rewrite !trap0_ctl by (assumption || discriminate). reflexivity.
  - rewrite tick_pc. unfold pc_update.
    rewrite (settled_last_cycle st i _pc_plus_4_to_pc eq_refl).
    rewrite trap_last_cycle by assumption. to_ctl.
    rewrite !trap0_ctl by (assumption || discriminate). reflexivity.
  - rewrite tick_instr_phase, settled_fetch by reflexivity.
    rewrite trap_fetch by assumption.
    change (comb_of (defaults st ++ [] ++ handlers st i)) with (ctl st i).
    now rewrite trap0_ctl by (assumption || discriminate).
  - rewrite tick_csr by (simpl; auto).
    rewrite trap_handlers, trap_fetch by assumption.
    unfold handle_trap. rewrite Hp. change (0 =? 0) with true. cbv iota zeta.
    rewrite !next_of_app. split_ifs; reflexivity.
Qed.

(** Phase 1 of trap entry with the exception flag clear: the first
    instruction of the handler is fetched. *)
Lemma trap1_tick_fetch st i :
  st trap <> 0 -> st _instr_phase <> 0 -> st _exception = 0 ->
  settled st i fatal = 0 /\
  settled st i mem_rd = 1 /\
  tick Dph1 st i _pc = trunc 32 (memdata_rd i) /\
  tick Dph1 st i memaddr = trunc 32 (memdata_rd i) /\
  tick Dph1 st i trap = 0 /\
  tick Dph1 st i _trap_svc = 1.
Proof.
  intros Ht Hp He.
  repeat split.
  - to_ctl. rewrite trap1_ctl, He by assumption. reflexivity.
  - rewrite settled_fetch by reflexivity.
    rewrite trap_fetch by assumption.
    change (comb_of (defaults st ++ [] ++ handlers st i)) with (ctl st i).
    rewrite trap1_ctl, He by assumption. reflexivity.
  - rewrite tick_pc. unfold pc_update.
    rewrite (settled_last_cycle st i _pc_plus_4_to_pc eq_refl).
    rewrite trap_last_cycle by assumption. to_ctl.
    rewrite !trap1_ctl, He by assumption. reflexivity.
  - rewrite tick_memaddr. unfold memaddr_update.
    rewrite (settled_last_cycle st i _pc_plus_4_to_memaddr eq_refl).
    rewrite trap_last_cycle by assumption. to_ctl.
    rewrite !trap1_ctl, He by assumption. reflexivity.
  - rewrite tick_trap, trap_handlers, trap_fetch by assumption.
    unfold handle_trap, truthy. rewrite (eqb_0_false _ Hp), He. reflexivity.
  - rewrite tick_trap_svc, trap_handlers by assumption.
    unfold handle_trap, truthy. rewrite (eqb_0_false _ Hp), He. reflexivity.
Qed.

(** Phase 1 of trap entry with the exception flag set: [fatal] is raised and
    the card stays in this phase. *)
Lemma trap1_tick_fatal st i :
  st trap <> 0 -> st _instr_phase <> 0 -> st _exception <> 0 ->
  settled st i fatal = 1 /\
  settled st i mem_rd = 0 /\
  tick Dph1 st i _pc = st _pc /\
  tick Dph1 st i memaddr = st memaddr /\
  tick Dph1 st i trap = st trap /\
  tick Dph1 st i _trap_svc = st _trap_svc /\
  tick Dph1 st i _instr_phase = 1.
Proof.
  intros Ht Hp He. pose proof (eqb_0_false _ He) as He'.
  repeat split.
  - to_ctl. rewrite trap1_ctl, He' by assumption. reflexivity.
  - rewrite settled_fetch by reflexivity.
    rewrite trap_fetch by assumption.
    change (comb_of (defaults st ++ [] ++ handlers st i)) with (ctl st i).
    rewrite trap1_ctl, He' by assumption. reflexivity.
  - rewrite tick_pc. unfold pc_update.
    rewrite (settled_last_cycle st i _pc_plus_4_to_pc eq_refl).
    rewrite trap_last_cycle by assumption. to_ctl.
    rewrite !trap1_ctl, He' by assumption. reflexivity.
  - rewrite tick_memaddr. unfold memaddr_update.
    rewrite (settled_last_cycle st i _pc_plus_4_to_memaddr eq_refl).
    rewrite trap_last_cycle by assumption. to_ctl.
    rewrite !trap1_ctl, He' by assumption. reflexivity.
  - rewrite tick_trap, trap_handlers, trap_fetch by assumption.
    unfold handle_trap, truthy. rewrite (eqb_0_false _ Hp), He'. reflexivity.
  - rewrite tick_trap_svc, trap_handlers by assumption.
    unfold handle_trap, truthy. rewrite (eqb_0_false _ Hp), He'. reflexivity.
  - rewrite tick_instr_phase, settled_fetch by reflexivity.
    rewrite trap_fetch by assumption.
    change (comb_of (defaults st ++ [] ++ handlers st i)) with (ctl st i).
    rewrite trap1_ctl, He' by assumption. reflexivity.
Qed.

(** *** Trap entry, over a machine cycle *)

(** C6 (amended). Phase 0 of trap entry drives [mtvec & ~3] on X and, when
    [mtvec[1:0] = 1] and the cause latched into [mcause] in this phase has
    bit 31 set, four times the low 30 bits of the cause on Y, else 0; it asks
    the ALU for ADD and loads [memaddr] from Z.  Phase 1 loads PC and
    [memaddr] from the memory word read only when the exception flag is
    clear; when it is set, phase 1 raises [fatal] and PC and [memaddr] keep
    their values. *)
Theorem C6_trap_vector (st : SequencerState) (i : Inputs) :
  st trap <> 0 ->
  (st _instr_phase = 0 ->
     let cause := machine_cycle st i _mcause in
     let offset :=
       if truthy (bit 31 cause) && (bits 0 2 (st _mtvec) =? 1)
       then 4 * bits 0 30 cause else 0 in
     outputs st i alu_op_to_z = AluOp.ADD /\
     outputs st i data_x_out = Z.land (st _mtvec) 0xFFFFFFFC /\
     outputs st i data_y_out = offset /\
     machine_cycle st i memaddr = trunc 32 (data_z_in i) /\
     machine_cycle st i _instr_phase = 1 /\
     (data_z_in i
      = trunc 32 (outputs st i data_x_out + outputs st i data_y_out) ->
      machine_cycle st i memaddr
      = trunc 32 (Z.land (st _mtvec) 0xFFFFFFFC + offset))) /\
  (st _instr_phase <> 0 -> st _exception = 0 ->
     outputs st i mem_rd = 1 /\
     outputs st i fatal = 0 /\
     machine_cycle st i _pc = trunc 32 (memdata_rd i) /\
     machine_cycle st i memaddr = trunc 32 (memdata_rd i)) /\
  (st _instr_phase <> 0 -> st _exception <> 0 ->
     outputs st i fatal = 1 /\
     outputs st i mem_rd = 0 /\
     machine_cycle st i _pc = st _pc /\
     machine_cycle st i memaddr = st memaddr).
Proof.
  intros Ht. unfold machine_cycle, outputs.
  set (s := write_half st i). set (i1 := with_mcycle_end 1 i).
  assert (F : forall r, r <> _trap_cause -> s r = st r)
    by (intros r Hr; now apply trap_write_half_frame).
  assert (Hs : s trap <> 0) by (rewrite F by discriminate; assumption).
  clearbody s.
  split; [|split].
  - intros Hp. rewrite <- (F _instr_phase) in Hp by discriminate.
    destruct (trap0_tick s i1 Hs Hp) as (A & X & Y & M & _ & P & C).
    rewrite C, bit_trunc, bits_low_trunc by lia.
    rewrite <- (F _mtvec) by discriminate.
    cbv zeta.
    split; [exact A|]. split; [exact X|]. split; [exact Y|].
    split; [exact M|]. split; [exact P|].
    intros Hz. rewrite M. change (data_z_in i1) with (data_z_in i).
    rewrite Hz, X, Y. apply trunc_idem. lia.
  - intros Hp He. rewrite <- (F _instr_phase) in Hp by discriminate.
    rewrite <- (F _exception) in He by discriminate.
    destruct (trap1_tick_fetch s i1 Hs Hp He) as (A & B & C & D & _).
    split; [exact B|]. split; [exact A|]. split; [exact C|exact D].
  - intros Hp He. rewrite <- (F _instr_phase) in Hp by discriminate.
    rewrite <- (F _exception) in He by discriminate.
    destruct (trap1_tick_fatal s i1 Hs Hp He) as (A & B & C & D & _).
    rewrite <- (F _pc), <- (F memaddr) by discriminate.
    split; [exact A|]. split; [exact B|]. split; [exact C|exact D].
Qed.

Lemma C6_trap_vector_witness :
  let st := timer_entry in
  let i := buses 0 0x9C 0 in
  let cause := machine_cycle st i _mcause in
  let offset :=
    if truthy (bit 31 cause) && (bits 0 2 (st _mtvec) =? 1)
    then 4 * bits 0 30 cause else 0 in
  machine_cycle st i memaddr
  = trunc 32 (Z.land (st _mtvec) 0xFFFFFFFC + offset).
Proof.
  intros st i.
  assert (Ht : st trap <> 0) by (vm_compute; lia).
  assert (Hp : st _instr_phase = 0) by reflexivity.
  assert (Hz : data_z_in i
               = trunc 32 (outputs st i data_x_out + outputs st i data_y_out))
    by (vm_compute; reflexivity).
  exact (proj2 (proj2 (proj2 (proj2 (proj2
           (proj1 (C6_trap_vector st i Ht) Hp))))) Hz).
Defined.

Example timer_entry_vector :
  machine_cycle timer_entry (buses 0 0x9C 0) _mcause
  = TrapCause.INT_MACH_TIMER /\
  outputs timer_entry (buses 0 0x9C 0) data_x_out = 0x80 /\
  outputs timer_entry (buses 0 0x9C 0) data_y_out = 4 * 7 /\
  machine_cycle timer_entry (buses 0 0x9C 0) memaddr = 0x80 + 4 * 7.
Proof. vm_compute. repeat split; reflexivity. Qed.

(** The claim as stated fails when the trap is an exception: phase 1 leaves
    the PC alone and raises [fatal]. *)
Lemma C6_counterexample :
  outputs exception_entry (buses 0 0 0x200) fatal = 1 /\
  machine_cycle exception_entry (buses 0 0 0x200) _pc = 0x104 /\
  machine_cycle exception_entry (buses 0 0 0x200) _pc
  <> memdata_rd (buses 0 0 0x200) /\
  machine_cycle exception_entry (buses 0 0 0x200) memaddr
  <> memdata_rd (buses 0 0 0x200).
Proof. vm_compute. repeat split; discriminate. Qed.

(** *** Instructions: common facts *)

Lemma aligned_not_misalign st :
  bits 0 2 (st _pc) = 0 -> instr_misalign st = false.
Proof. intros H. unfold instr_misalign, all_true. now rewrite H. Qed.

Lemma opcode_low16 w : opcode_of w <> 0 -> (bits 0 16 w =? 0) = false.
Proof.
  unfold opcode_of. rewrite !bits_low by lia. intros H.
  apply Z.eqb_neq. intros E. apply H.
  rewrite <- (low_bits_of_low_bits 7 16) by lia. now rewrite E.
Qed.

Lemma opcode_not_all_ones w :
  opcode_of w <> 0x7F -> (w =? 0xFFFFFFFF) = false.
Proof.
  intros H. apply Z.eqb_neq. intros E. apply H. now rewrite E.
Qed.

(** Outside trap entry, with an aligned PC and a word that is neither of the
    two illegal patterns, [dispatch] switches on the opcode. *)
Lemma dispatch_opcode st i imm :
  st trap = 0 -> bits 0 2 (st _pc) = 0 ->
  opcode_of (st _instr) <> 0 -> opcode_of (st _instr) <> 0x7F ->
  dispatch st i imm =
  let op := opcode_of (st _instr) in
  if op =? Opcode.LUI then handle_lui st
  else if op =? Opcode.AUIPC then handle_auipc st
  else if op =? Opcode.OP_IMM then handle_op_imm st
  else if op =? Opcode.OP then handle_op st
  else if op =? Opcode.JAL then handle_jal st
  else if op =? Opcode.JALR then handle_jalr st
  else if op =? Opcode.BRANCH then handle_branch st i
  else if op =? Opcode.LOAD then handle_load st
  else if op =? Opcode.STORE then handle_store st
  else if op =? Opcode.SYSTEM then handle_system st imm
  else handle_illegal_instr st.
Proof.
  intros Ht Hpc H0 H1. unfold dispatch.
  rewrite (aligned_not_misalign st Hpc), Ht.
  rewrite (opcode_low16 _ H0), (opcode_not_all_ones _ H1).
  reflexivity.
Qed.



Lemma ctl_eq st i l : handlers st i = l -> ctl st i = comb_of (defaults st ++ l).
Proof. intros H. unfold ctl. now rewrite H. Qed.

(** Evaluate assignment lists whose guards are now closed. *)
Ltac ev := cbn -[Z.shiftl Z.shiftr Z.testbit Z.land Z.lor].

Lemma bit_of_bit i x : bit 0 (bit i x) = bit i x.
Proof. unfold bit. now destruct (Z.testbit x i). Qed.

Lemma bit_set_bits_same i old v :
  0 <= i -> bit i (set_bits i (i + 1) old v) = bit 0 v.
Proof.
  intros Hi. unfold bit, set_bits. f_equal.
  replace (i + 1 - i) with 1 by lia. change (Z.ones 1) with 1.
  rewrite Z.lor_spec, Z.land_spec, Z.lnot_spec, !Z.shiftl_spec by lia.
  rewrite Z.sub_diag, Z.land_spec. change (Z.testbit 1 0) with true.
  now rewrite andb_false_r, andb_true_r.
Qed.

Lemma bit_set_bits_other i j old v :
  0 <= i -> 0 <= j -> i <> j -> bit j (set_bits i (i + 1) old v) = bit j old.
Proof.
  intros Hi Hj Hij. unfold bit, set_bits. f_equal.
  replace (i + 1 - i) with 1 by lia. change (Z.ones 1) with 1.
  rewrite Z.lor_spec, Z.land_spec, Z.lnot_spec, !Z.shiftl_spec by lia.
  rewrite Z.land_spec.
  assert (T : Z.testbit 1 (j - i) = false).
  { destruct (Z.ltb_spec j i).
    - apply Z.testbit_neg_r. lia.
    - apply (Z.bits_above_log2 1 (j - i)); simpl; lia. }
  rewrite T. now rewrite andb_false_r, orb_false_r, andb_true_r.
Qed.

Lemma tick_csr_b st i r :
  existsb (Reg_beq r) csr_regs = true ->
  tick Dph1 st i r =
  next_of Dph1 (handlers st i) r
    (next_of Dph1 (csr_update st i) r (next_of Dph1 (fetch st i) r (st r))).
Proof.
  intros H. apply tick_csr. apply existsb_exists in H as (r' & Hin & E).
  apply internal_Reg_dec_bl in E. now subst r'.
Qed.

(** *** MRET *)

Lemma mret_handlers st i :
  st trap = 0 -> bits 0 2 (st _pc) = 0 -> st _instr = Instr.MRET ->
  handlers st i = comb _imm_format OpcodeFormat.SYS :: handle_MRET st.
Proof.
  intros Ht Hpc Hi. unfold handlers.
  rewrite dispatch_opcode by (assumption || (rewrite Hi; discriminate)).
  unfold handle_system, handle_PRIV. rewrite Hi. reflexivity.
Qed.

Lemma mret_tick st i :
  st trap = 0 -> bits 0 2 (st _pc) = 0 -> st _instr = Instr.MRET ->
  settled st i csr_to_x = 1 /\
  settled st i csr_num = CSRAddr.MEPC /\
  settled st i data_x_out = trunc 32 (st _mepc) /\
  tick Dph1 st i _pc = trunc 32 (data_x_in i) /\
  tick Dph1 st i memaddr = _pc_plus_4 st /\
  bit MStatus.MIE (tick Dph1 st i _mstatus) = bit MStatus.MPIE (st _mstatus) /\
  bit MStatus.MPIE (tick Dph1 st i _mstatus) = 1 /\
  tick Dph1 st i _trap_svc = st _trap_svc.
Proof.
  intros Ht Hpc Hi.
  pose proof (mret_handlers st i Ht Hpc Hi) as HL.
  pose proof (ctl_eq st i _ HL) as HC.
  repeat split.
  - to_ctl. rewrite HC. reflexivity.
  - rewrite settled_muxes by reflexivity. rewrite HL.
    unfold muxes, x_mux, y_mux, z_mux, csr_num_mux. rewrite HC.
    unfold handle_MRET. ev.
    reflexivity.
  - rewrite settled_muxes by reflexivity. rewrite HL.
    unfold muxes, x_mux, y_mux, z_mux, csr_num_mux. rewrite HC.
    unfold handle_MRET. ev.
    reflexivity.
  - rewrite tick_pc. unfold pc_update.
    rewrite (settled_last_cycle st i _pc_plus_4_to_pc eq_refl).
    unfold last_cycle. to_ctl. rewrite HC. unfold handle_MRET. ev.
    reflexivity.
  - rewrite tick_memaddr. unfold memaddr_update.
    rewrite (settled_last_cycle st i _pc_plus_4_to_memaddr eq_refl).
    unfold last_cycle. to_ctl. rewrite HC. unfold handle_MRET. ev.
    unfold _pc_plus_4. apply trunc_idem. lia.
  - rewrite tick_csr_b by reflexivity. rewrite HL.
    rewrite (frame _ (fetch st i) _ _ _ _ _ (fetch_fp st i)) by reflexivity.
    unfold csr_update. to_ctl. rewrite HC. unfold handle_MRET. ev.
    rewrite bit_set_bits_other, bit_set_bits_same
      by (unfold MStatus.MIE, MStatus.MPIE; lia).
    apply bit_of_bit.
  - rewrite tick_csr_b by reflexivity. rewrite HL.
    rewrite (frame _ (fetch st i) _ _ _ _ _ (fetch_fp st i)) by reflexivity.
    unfold csr_update. to_ctl. rewrite HC. unfold handle_MRET. ev.
    rewrite bit_set_bits_same by (unfold MStatus.MPIE; lia). reflexivity.
  - rewrite tick_trap_svc, HL. reflexivity.
Qed.

(** What the instruction latch holds in the write half of phase 0. *)
Lemma fetched_instr st i :
  st trap = 0 -> bits 0 2 (st _pc) = 0 -> st _instr_phase = 0 ->
  write_half st i _instr = trunc 32 (memdata_rd i).
Proof.
  intros Ht Hpc Hp. rewrite write_half_fetch. unfold fetching.
  now rewrite Ht, Hpc, Hp.
Qed.

(** MRET over a machine cycle: the PC is loaded from the X bus, on which
    the card drives [mepc]; [mstatus.MIE] takes the old [MPIE] and [MPIE] is
    set; [memaddr] takes PC + 4 and [_trap_svc] keeps its value. *)
Lemma mret_cycle st i :
  st trap = 0 -> bits 0 2 (st _pc) = 0 -> st _instr_phase = 0 ->
  trunc 32 (memdata_rd i) = Instr.MRET ->
  outputs st i data_x_out = trunc 32 (st _mepc) /\
  machine_cycle st i _pc = trunc 32 (data_x_in i) /\
  machine_cycle st i memaddr = _pc_plus_4 st /\
  bit MStatus.MIE (machine_cycle st i _mstatus)
  = bit MStatus.MPIE (st _mstatus) /\
  bit MStatus.MPIE (machine_cycle st i _mstatus) = 1 /\
  machine_cycle st i _trap_svc = st _trap_svc.
Proof.
  intros Ht Hpc Hp Hw. unfold machine_cycle, outputs.
  pose proof (fetched_instr st i Ht Hpc Hp) as Hi. rewrite Hw in Hi.
  pose proof (write_half_frame st i) as F.
  set (s := write_half st i) in *. clearbody s.
  assert (Ht' : s trap = 0) by (rewrite F by discriminate; exact Ht).
  assert (Hpc' : bits 0 2 (s _pc) = 0) by (rewrite F by discriminate; exact Hpc).
  destruct (mret_tick s (with_mcycle_end 1 i) Ht' Hpc' Hi)
    as (_ & _ & X & P & M & B1 & B2 & S).
  unfold _pc_plus_4.
  rewrite <- (F _mepc), <- (F _pc), <- (F _mstatus), <- (F _trap_svc)
    by discriminate.
  split; [exact X|]. split; [exact P|]. split; [exact M|].
  split; [exact B1|]. split; [exact B2|exact S].
Qed.

(** C2 (the code departs from it). MRET executed with [mepc] on the X bus:
    the PC takes [mepc], [mstatus.MIE] the old [MPIE], [MPIE] is 1 - and
    [_trap_svc] is still 1, where the claim has 0.  [handle_MRET] of the
    card does not touch [_trap_svc] ([trap_svc_sticky]: nothing ever clears
    it); the ROM's [handle_MRET] raises [exit_trap] for it. *)
Theorem C2_mret_leaves_trap_svc :
  let st := in_handler in
  let i := buses (in_handler _mepc) 0 Instr.MRET in
  let st' := machine_cycle st i in
  st' _pc = st _mepc /\
  bit MStatus.MIE (st' _mstatus) = bit MStatus.MPIE (st _mstatus) /\
  bit MStatus.MPIE (st' _mstatus) = 1 /\
  st _trap_svc = 1 /\
  st' _trap_svc = 1.
Proof. vm_compute. repeat split; reflexivity. Qed.

(** *** The decoded immediate *)

Lemma decode_imm_range f w : 0 <= decode_imm f w < 2 ^ 32.
Proof.
  unfold decode_imm.
  repeat match goal with
         | |- context [if ?c then _ else _] => destruct c
         end; try (apply trunc_range; lia); try (simpl; lia).
  - pose proof (bits_range 12 32 w ltac:(lia)) as R.
    rewrite Z.shiftl_mul_pow2 by lia.
    change (2 ^ (32 - 12)) with 1048576 in R.
    change (2 ^ 12) with 4096. change (2 ^ 32) with 4294967296. lia.
  - pose proof (Z.mod_pos_bound (bits 15 32 w) (2 ^ 5) ltac:(simpl; lia)) as R.
    change (2 ^ 5) with 32 in *. change (2 ^ 32) with 4294967296. lia.
Qed.

Lemma trunc_decode_imm f w : trunc 32 (decode_imm f w) = decode_imm f w.
Proof. apply trunc_small, decode_imm_range. Qed.

Lemma trunc_reg_field lo w : trunc 5 (bits lo (lo + 5) w) = bits lo (lo + 5) w.
Proof.
  apply trunc_small. pose proof (bits_range lo (lo + 5) w ltac:(lia)) as R.
  now replace (lo + 5 - lo) with 5 in R by lia.
Qed.

(** *** JALR *)

Lemma jalr_dispatch st i imm :
  st trap = 0 -> bits 0 2 (st _pc) = 0 ->
  opcode_of (st _instr) = Opcode.JALR ->
  dispatch st i imm = handle_jalr st.
Proof.
  intros Ht Hpc Ho.
  rewrite dispatch_opcode by (assumption || (rewrite Ho; discriminate)).
  now rewrite Ho.
Qed.

(** Phase 0 of JALR on the rising edge of [ph1]: X is [rs1], Y is the
    immediate decoded in the J format, the ALU adds, [memaddr] loads Z. *)
Lemma jalr0_tick st i :
  st trap = 0 -> bits 0 2 (st _pc) = 0 -> st _instr_phase = 0 ->
  opcode_of (st _instr) = Opcode.JALR ->
  settled st i reg_to_x = 1 /\
  settled st i x_reg = rs1_of (st _instr) /\
  settled st i alu_op_to_z = AluOp.ADD /\
  settled st i data_y_out = decode_imm OpcodeFormat.J (st _instr) /\
  tick Dph1 st i memaddr = trunc 32 (data_z_in i).
Proof.
  intros Ht Hpc Hp Ho.
  assert (HI : _imm st i = decode_imm OpcodeFormat.J (st _instr)).
  { unfold _imm. rewrite jalr_dispatch by assumption.
    unfold handle_jalr. rewrite Hp. reflexivity. }
  assert (HL : handlers st i = handle_jalr st)
    by (unfold handlers; now apply jalr_dispatch).
  pose proof (ctl_eq st i _ HL) as HC.
  unfold handle_jalr in HC, HL. rewrite Hp in HC, HL.
  change (0 =? 0) with true in HC, HL. cbv iota in HC, HL.
  repeat split.
  - to_ctl. rewrite HC. reflexivity.
  - to_ctl. rewrite HC. ev. apply (trunc_reg_field 15).
  - to_ctl. rewrite HC. reflexivity.
  - rewrite settled_muxes by reflexivity. rewrite HL.
    unfold muxes, x_mux, y_mux, z_mux, csr_num_mux. rewrite HC, HI. ev.
    apply trunc_decode_imm.
  - rewrite tick_memaddr. unfold memaddr_update.
    rewrite (settled_last_cycle st i _pc_plus_4_to_memaddr eq_refl).
    unfold last_cycle. to_ctl. rewrite HC. ev. reflexivity.
Qed.

(** The same over a machine cycle, the instruction being the word on the
    memory bus. *)
Lemma jalr0_cycle st i :
  st trap = 0 -> bits 0 2 (st _pc) = 0 -> st _instr_phase = 0 ->
  opcode_of (trunc 32 (memdata_rd i)) = Opcode.JALR ->
  outputs st i reg_to_x = 1 /\
  outputs st i x_reg = rs1_of (trunc 32 (memdata_rd i)) /\
  outputs st i alu_op_to_z = AluOp.ADD /\
  outputs st i data_y_out
  = decode_imm OpcodeFormat.J (trunc 32 (memdata_rd i)) /\
  machine_cycle st i memaddr = trunc 32 (data_z_in i).
Proof.
  intros Ht Hpc Hp Ho. unfold machine_cycle, outputs.
  pose proof (fetched_instr st i Ht Hpc Hp) as Hi.
  pose proof (write_half_frame st i) as F.
  set (s := write_half st i) in *. clearbody s.
  rewrite <- Hi in *.
  assert (Ht' : s trap = 0) by (rewrite F by discriminate; exact Ht).
  assert (Hpc' : bits 0 2 (s _pc) = 0)
    by (rewrite F by discriminate; exact Hpc).
  assert (Hp' : s _instr_phase = 0) by (rewrite F by discriminate; exact Hp).
  destruct (jalr0_tick s (with_mcycle_end 1 i) Ht' Hpc' Hp' Ho)
    as (A & B & C & D & E).
  split; [exact A|]. split; [exact B|]. split; [exact C|].
  split; [exact D|exact E].
Qed.

(** C5 (the code departs from it). For JALR x0, 4(x1) with x1 = 0x1000 the
    I-format immediate is 4, but [handle_jalr] selects [OpcodeFormat.J]:
    phase 0 drives 0x8004 on Y, and the ALU sum loaded into [memaddr] is
    0x9004 instead of 0x1004. *)
Theorem C5_jalr_decodes_J_immediate :
  let st := regs_of [(_pc, 0x200); (memaddr, 0x200)] in
  let i := buses 0x1000 0x9004 jalr_x0_4_x1 in
  let o := outputs st i in
  let st' := machine_cycle st i in
  opcode_of jalr_x0_4_x1 = Opcode.JALR /\
  decode_imm OpcodeFormat.I jalr_x0_4_x1 = 4 /\
  o reg_to_x = 1 /\ o x_reg = 1 /\ o alu_op_to_z = AluOp.ADD /\
  o data_y_out = 0x8004 /\
  data_z_in i = trunc 32 (data_x_in i + o data_y_out) /\
  st' memaddr = 0x9004 /\
  st' memaddr <> trunc 32 (data_x_in i + decode_imm OpcodeFormat.I jalr_x0_4_x1).
Proof. vm_compute. repeat split; (reflexivity || discriminate). Qed.

(** *** LOAD and STORE with a misaligned address *)

Lemma odd_low_bits addr :
  Z.testbit addr 0 = true ->
  (bits 0 2 addr =? 0) = false /\ (bits 0 2 addr =? 2) = false.
Proof.
  intros H. rewrite bits_low by lia.
  assert (E : addr mod 2 = 1) by (rewrite <- Z.bit0_mod, H; reflexivity).
  rewrite <- (low_bits_of_low_bits 1 2) in E by lia.
  change (2 ^ 1) with 2 in E.
  split; apply Z.eqb_neq; intros C; rewrite C in E; discriminate.
Qed.

Lemma fetch_no_ph2 st i r old :
  instr_misalign st = false -> next_of Dph2 (fetch st i) r old = old.
Proof.
  intros H. unfold fetch. rewrite H.
  repeat match goal with
         | |- context [if ?c then _ else _] => destruct c
         end; reflexivity.
Qed.

Lemma load_dispatch st i imm :
  st trap = 0 -> bits 0 2 (st _pc) = 0 ->
  opcode_of (st _instr) = Opcode.LOAD ->
  dispatch st i imm = handle_load st.
Proof.
  intros Ht Hpc Ho.
  rewrite dispatch_opcode by (assumption || (rewrite Ho; discriminate)).
  now rewrite Ho.
Qed.

(** The assignments of [handle_load] in phase 1 when the address is
    misaligned: the shift of the loaded word into [rd] is set up first, and
    the exception comes on top of it. *)
Lemma load1_misaligned_handlers st i :
  st trap = 0 -> bits 0 2 (st _pc) = 0 -> st _instr_phase = 1 ->
  opcode_of (st _instr) = Opcode.LOAD ->
  misaligned_load (funct3_of (st _instr)) (st memaddr) = true ->
  handlers st i =
  [ comb _imm_format OpcodeFormat.I;
    comb mem_rd 1;
    comb _memdata_to_x 1;
    comb _shamt_to_y 1;
    comb alu_op_to_z AluOp.SLL;
    comb z_reg (rd_of (st _instr));
    comb _next_instr_phase 2 ] ++
  set_exception st TrapCause.EXC_LOAD_ADDR_MISALIGN (st memaddr).
Proof.
  intros Ht Hpc Hp Ho Hm. unfold handlers.
  rewrite load_dispatch by assumption.
  unfold handle_load. rewrite Hp. change (1 =? 0) with false.
  change (1 =? 1) with true. cbv iota zeta.
  unfold misaligned_load in Hm.
  apply orb_prop in Hm as [Hm|Hm]; apply andb_prop in Hm as [Hf Ha].
  - apply odd_low_bits in Ha as [A0 A2]. rewrite A0, A2, Hf.
    apply orb_prop in Hf as [Hf|Hf]; apply Z.eqb_eq in Hf; rewrite Hf;
      reflexivity.
  - apply Z.eqb_eq in Hf. rewrite Hf.
    apply negb_true_iff in Ha. rewrite Ha. reflexivity.
Qed.

(** A misaligned LOAD in phase 1: the load-address-misaligned trap is
    raised, and [z_reg] still carries [rd] with the ALU shifting the memory
    word: the register file writes [rd]. *)
Lemma load1_misaligned_tick st i :
  st trap = 0 -> bits 0 2 (st _pc) = 0 -> st _instr_phase = 1 ->
  opcode_of (st _instr) = Opcode.LOAD ->
  misaligned_load (funct3_of (st _instr)) (st memaddr) = true ->
  tick Dph2 st i _exception = 1 /\
  tick Dph2 st i _trap_cause = TrapCause.EXC_LOAD_ADDR_MISALIGN /\
  tick Dph1 st i trap = 1 /\
  tick Dph1 st i _mtval = trunc 32 (st memaddr) /\
  tick Dph1 st i _mepc = trunc 32 (st _pc) /\
  settled st i alu_op_to_z = AluOp.SLL /\
  settled st i _memdata_to_x = 1 /\
  settled st i z_reg = rd_of (st _instr).
Proof.
  intros Ht Hpc Hp Ho Hm.
  pose proof (load1_misaligned_handlers st i Ht Hpc Hp Ho Hm) as HL.
  pose proof (ctl_eq st i _ HL) as HC.
  pose proof (aligned_not_misalign st Hpc) as Hal.
  repeat split.
  - rewrite tick_ph2_blocks, HL, fetch_no_ph2 by assumption. reflexivity.
  - rewrite tick_ph2_blocks, HL, fetch_no_ph2 by assumption. reflexivity.
  - rewrite tick_trap, HL. reflexivity.
  - rewrite tick_csr_b, HL by reflexivity. reflexivity.
  - rewrite tick_csr_b, HL by reflexivity. reflexivity.
  - to_ctl. rewrite HC. reflexivity.
  - to_ctl. rewrite HC. reflexivity.
  - to_ctl. rewrite HC. ev. apply (trunc_reg_field 7).
Qed.

Lemma store_dispatch st i imm :
  st trap = 0 -> bits 0 2 (st _pc) = 0 ->
  opcode_of (st _instr) = Opcode.STORE ->
  dispatch st i imm = handle_store st.
Proof.
  intros Ht Hpc Ho.
  rewrite dispatch_opcode by (assumption || (rewrite Ho; discriminate)).
  now rewrite Ho.
Qed.

Lemma store1_misaligned_handlers st i :
  st trap = 0 -> bits 0 2 (st _pc) = 0 -> st _instr_phase = 1 ->
  opcode_of (st _instr) = Opcode.STORE ->
  misaligned_store (funct3_of (st _instr)) (st memaddr) = true ->
  handlers st i =
  [ comb _imm_format OpcodeFormat.S;
    comb reg_to_x 1;
    comb x_reg (rs2_of (st _instr));
    comb _shamt_to_y 1;
    comb alu_op_to_z AluOp.SLL;
    comb _z_to_memdata 1;
    comb _next_instr_phase 2 ] ++
  set_exception st TrapCause.EXC_STORE_AMO_ADDR_MISALIGN (st memaddr).
Proof.
  intros Ht Hpc Hp Ho Hm. unfold handlers.
  rewrite store_dispatch by assumption.
  unfold handle_store. rewrite Hp. change (1 =? 0) with false.
  change (1 =? 1) with true. cbv iota zeta.
  unfold misaligned_store in Hm.
  apply orb_prop in Hm as [Hm|Hm]; apply andb_prop in Hm as [Hf Ha].
  - apply odd_low_bits in Ha as [A0 A2]. rewrite A0, A2.
    apply Z.eqb_eq in Hf. rewrite Hf. reflexivity.
  - apply Z.eqb_eq in Hf. rewrite Hf.
    apply negb_true_iff in Ha. rewrite Ha. reflexivity.
Qed.

(** A misaligned STORE in phase 1: the store-address-misaligned trap is
    raised and no register number is put on [z_reg]. *)
Lemma store1_misaligned_tick st i :
  st trap = 0 -> bits 0 2 (st _pc) = 0 -> st _instr_phase = 1 ->
  opcode_of (st _instr) = Opcode.STORE ->
  misaligned_store (funct3_of (st _instr)) (st memaddr) = true ->
  tick Dph2 st i _exception = 1 /\
  tick Dph2 st i _trap_cause = TrapCause.EXC_STORE_AMO_ADDR_MISALIGN /\
  tick Dph1 st i trap = 1 /\
  tick Dph1 st i _mtval = trunc 32 (st memaddr) /\
  tick Dph1 st i _mepc = trunc 32 (st _pc) /\
  settled st i z_reg = 0.
Proof.
  intros Ht Hpc Hp Ho Hm.
  pose proof (store1_misaligned_handlers st i Ht Hpc Hp Ho Hm) as HL.
  pose proof (ctl_eq st i _ HL) as HC.
  pose proof (aligned_not_misalign st Hpc) as Hal.
  repeat split.
  - rewrite tick_ph2_blocks, HL, fetch_no_ph2 by assumption. reflexivity.
  - rewrite tick_ph2_blocks, HL, fetch_no_ph2 by assumption. reflexivity.
  - rewrite tick_trap, HL. reflexivity.
  - rewrite tick_csr_b, HL by reflexivity. reflexivity.
  - rewrite tick_csr_b, HL by reflexivity. reflexivity.
  - to_ctl. rewrite HC. reflexivity.
Qed.

(** *** From the clock edges to the machine cycle *)

Lemma tick_ph1_keeps_ph2 st i r :
  existsb (Reg_beq r) ph2_regs = true -> tick Dph1 st i r = st r.
Proof.
  intros H. rewrite tick_ph1_blocks. unfold registers. rewrite !next_of_app.
  assert (E : r = _exception \/ r = _trap_cause).
  { destruct r; try discriminate H; auto. }
  destruct E as [->| ->]; peel st i; reflexivity.
Qed.

(** After phase 0 the instruction latch stays closed. *)
Lemma kept_instr st i :
  st _instr_phase <> 0 -> write_half st i _instr = st _instr.
Proof.
  intros Hp. rewrite write_half_fetch. unfold fetching.
  now rewrite (eqb_0_false _ Hp).
Qed.

Lemma write_half_read_half st i :
  write_half st i = tick Dph2 (read_half st i) (with_mcycle_end 0 i).
Proof. reflexivity. Qed.

Lemma read_half_frame st i r :
  r <> _instr -> r <> _exception -> r <> _trap_cause ->
  read_half st i r = st r.
Proof.
  intros Hi He Hc. unfold read_half.
  rewrite tick_ph2_frame by assumption. now apply instr_latch_frame.
Qed.

Lemma read_half_instr st i : read_half st i _instr = write_half st i _instr.
Proof.
  rewrite write_half_read_half. now rewrite tick_ph2_frame by discriminate.
Qed.

(** A misaligned LOAD over the machine cycle of its phase 1. *)
Lemma load1_misaligned_cycle st i :
  st trap = 0 -> bits 0 2 (st _pc) = 0 -> st _instr_phase = 1 ->
  opcode_of (st _instr) = Opcode.LOAD ->
  misaligned_load (funct3_of (st _instr)) (st memaddr) = true ->
  machine_cycle st i _exception = 1 /\
  machine_cycle st i _trap_cause = TrapCause.EXC_LOAD_ADDR_MISALIGN /\
  machine_cycle st i trap = 1 /\
  machine_cycle st i _mtval = trunc 32 (st memaddr) /\
  machine_cycle st i _mepc = trunc 32 (st _pc) /\
  outputs st i alu_op_to_z = AluOp.SLL /\
  outputs st i _memdata_to_x = 1 /\
  outputs st i z_reg = rd_of (st _instr).
Proof.
  intros Ht Hpc Hp Ho Hm. unfold machine_cycle, outputs.
  assert (Hp0 : st _instr_phase <> 0) by (rewrite Hp; discriminate).
  rewrite !tick_ph1_keeps_ph2 by reflexivity.
  pose proof (kept_instr st i Hp0) as Hi.
  pose proof (write_half_frame st i) as F.
  assert (L2 : tick Dph2 (read_half st i) (with_mcycle_end 0 i) _exception = 1
            /\ tick Dph2 (read_half st i) (with_mcycle_end 0 i) _trap_cause
               = TrapCause.EXC_LOAD_ADDR_MISALIGN).
  { pose proof (read_half_frame st i) as G.
    pose proof (read_half_instr st i) as Gi. rewrite Hi in Gi.
    set (s := read_half st i) in *. clearbody s.
    destruct (load1_misaligned_tick s (with_mcycle_end 0 i)) as (A & B & _);
      rewrite ?Gi, ?G by discriminate; try assumption.
    split; [exact A|exact B]. }
  rewrite <- write_half_read_half in L2. destruct L2 as [E C].
  set (s := write_half st i) in *. clearbody s.
  destruct (load1_misaligned_tick s (with_mcycle_end 1 i))
    as (_ & _ & T & V & P & A & M & R);
    rewrite ?Hi, ?F by discriminate; try assumption.
  rewrite Hi, !F in * by discriminate.
  split; [exact E|]. split; [exact C|]. split; [exact T|]. split; [exact V|].
  split; [exact P|]. split; [exact A|]. split; [exact M|exact R].
Qed.

(** C7 (the code departs from it). LH x5, 0(x1) with x1 = 0x1001, in
    phase 1: the load-address-misaligned trap is entered, and the card
    still puts [rd] = 5 on [z_reg] with the ALU shifting the memory word, so
    the register file writes x5.  [handle_load] of the card sets up the
    write before it looks at the alignment; the ROM checks the exception
    conditions first, and a misaligned STORE names no register. *)
Theorem C7_misaligned_load_writes_rd :
  let st := regs_of [(_pc, 0x200); (memaddr, 0x1001); (_instr_phase, 1);
                     (_instr, lh_x5_x1)] in
  let i := buses 0x11223344 0x11223344 0x11223344 in
  let o := outputs st i in
  let st' := machine_cycle st i in
  opcode_of lh_x5_x1 = Opcode.LOAD /\
  misaligned_load (funct3_of lh_x5_x1) (st memaddr) = true /\
  st' trap = 1 /\
  st' _trap_cause = TrapCause.EXC_LOAD_ADDR_MISALIGN /\
  st' _mtval = 0x1001 /\
  o _memdata_to_x = 1 /\ o alu_op_to_z = AluOp.SLL /\
  o z_reg = 5 /\
  writes_register o = true.
Proof. vm_compute. repeat split; reflexivity. Qed.

(** *** BRANCH to a misaligned target *)

Lemma branch_dispatch st i imm :
  st trap = 0 -> bits 0 2 (st _pc) = 0 ->
  opcode_of (st _instr) = Opcode.BRANCH ->
  dispatch st i imm = handle_branch st i.
Proof.
  intros Ht Hpc Ho.
  rewrite dispatch_opcode by (assumption || (rewrite Ho; discriminate)).
  now rewrite Ho.
Qed.

Lemma branch1_misaligned_handlers st i :
  st trap = 0 -> bits 0 2 (st _pc) = 0 -> st _instr_phase <> 0 ->
  opcode_of (st _instr) = Opcode.BRANCH ->
  is_branch_cond (funct3_of (st _instr)) = true ->
  bits 0 2 (data_z_in i) <> 0 ->
  handlers st i =
  [ comb _imm_format OpcodeFormat.B ] ++
  (if branch_cond st then [ comb _imm_to_y 1 ]
   else [ comb _shamt 4; comb _shamt_to_y 1 ]) ++
  [ comb _pc_to_x 1;
    comb alu_op_to_z AluOp.ADD;
    comb _z_to_pc 1;
    comb _z_to_memaddr 1 ] ++
  set_exception st TrapCause.EXC_INSTR_ADDR_MISALIGN (data_z_in i) ++
  [ comb _z_to_pc 0 ].
Proof.
  intros Ht Hpc Hp Ho Hf Hz. unfold handlers.
  rewrite branch_dispatch by assumption.
  unfold handle_branch.
  rewrite (eqb_0_false _ Hp), Hf, (eqb_0_false _ Hz). reflexivity.
Qed.

(** In the card a branch whose target is misaligned traps in phase 1
    itself: the cause is instruction-address-misaligned, [mtval] is loaded
    from the Z bus, which carries the target; the PC and [tmp] keep their
    values, [memaddr] takes the target, and the next phase is 0. *)
Lemma branch1_misaligned_tick st i :
  st trap = 0 -> bits 0 2 (st _pc) = 0 -> st _instr_phase <> 0 ->
  opcode_of (st _instr) = Opcode.BRANCH ->
  is_branch_cond (funct3_of (st _instr)) = true ->
  bits 0 2 (data_z_in i) <> 0 ->
  tick Dph2 st i _exception = 1 /\
  tick Dph2 st i _trap_cause = TrapCause.EXC_INSTR_ADDR_MISALIGN /\
  tick Dph1 st i trap = 1 /\
  tick Dph1 st i _mtval = trunc 32 (data_z_in i) /\
  tick Dph1 st i _mepc = trunc 32 (st _pc) /\
  tick Dph1 st i _pc = st _pc /\
  tick Dph1 st i _tmp = st _tmp /\
  tick Dph1 st i memaddr = trunc 32 (data_z_in i) /\
  tick Dph1 st i _instr_phase = 0.
Proof.
  intros Ht Hpc Hp Ho Hf Hz.
  pose proof (branch1_misaligned_handlers st i Ht Hpc Hp Ho Hf Hz) as HL.
  pose proof (ctl_eq st i _ HL) as HC.
  pose proof (aligned_not_misalign st Hpc) as Hal.
  repeat split.
  - rewrite tick_ph2_blocks, HL, fetch_no_ph2 by assumption.
    destruct (branch_cond st); reflexivity.
  - rewrite tick_ph2_blocks, HL, fetch_no_ph2 by assumption.
    destruct (branch_cond st); reflexivity.
  - rewrite tick_trap, HL. destruct (branch_cond st); reflexivity.
  - rewrite tick_csr_b, HL by reflexivity.
    destruct (branch_cond st); reflexivity.
  - rewrite tick_csr_b, HL by reflexivity.
    destruct (branch_cond st); reflexivity.
  - rewrite tick_pc. unfold pc_update.
    rewrite (settled_last_cycle st i _pc_plus_4_to_pc eq_refl).
    unfold last_cycle. to_ctl. rewrite HC.
    destruct (branch_cond st); reflexivity.
  - rewrite tick_tmp. unfold tmp_update. to_ctl. rewrite HC.
    destruct (branch_cond st); reflexivity.
  - rewrite tick_memaddr. unfold memaddr_update.
    rewrite (settled_last_cycle st i _pc_plus_4_to_memaddr eq_refl).
    unfold last_cycle. to_ctl. rewrite HC.
    destruct (branch_cond st); reflexivity.
  - rewrite tick_instr_phase, settled_fetch by reflexivity.
    rewrite app_assoc, comb_of_app, HL.
    destruct (branch_cond st); reflexivity.
Qed.

(** The same over the machine cycle of phase 1. *)
Lemma branch1_misaligned_cycle st i :
  st trap = 0 -> bits 0 2 (st _pc) = 0 -> st _instr_phase <> 0 ->
  opcode_of (st _instr) = Opcode.BRANCH ->
  is_branch_cond (funct3_of (st _instr)) = true ->
  bits 0 2 (data_z_in i) <> 0 ->
  machine_cycle st i _exception = 1 /\
  machine_cycle st i _trap_cause = TrapCause.EXC_INSTR_ADDR_MISALIGN /\
  machine_cycle st i trap = 1 /\
  machine_cycle st i _mtval = trunc 32 (data_z_in i) /\
  machine_cycle st i _mepc = trunc 32 (st _pc) /\
  machine_cycle st i _pc = st _pc /\
  machine_cycle st i _tmp = st _tmp /\
  machine_cycle st i memaddr = trunc 32 (data_z_in i) /\
  machine_cycle st i _instr_phase = 0.
Proof.
  intros Ht Hpc Hp Ho Hf Hz. unfold machine_cycle.
  rewrite !tick_ph1_keeps_ph2 by reflexivity.
  pose proof (kept_instr st i Hp) as Hi.
  pose proof (write_half_frame st i) as F.
  assert (L2 : tick Dph2 (read_half st i) (with_mcycle_end 0 i) _exception = 1
            /\ tick Dph2 (read_half st i) (with_mcycle_end 0 i) _trap_cause
               = TrapCause.EXC_INSTR_ADDR_MISALIGN).
  { pose proof (read_half_frame st i) as G.
    pose proof (read_half_instr st i) as Gi. rewrite Hi in Gi.
    set (s := read_half st i) in *. clearbody s.
    destruct (branch1_misaligned_tick s (with_mcycle_end 0 i))
      as (A & B & _);
      rewrite ?Gi, ?G by discriminate; try assumption.
    split; [exact A|exact B]. }
  rewrite <- write_half_read_half in L2. destruct L2 as [E C].
  set (s := write_half st i) in *. clearbody s.
  destruct (branch1_misaligned_tick s (with_mcycle_end 1 i))
    as (_ & _ & T & V & P & K & U & M & N);
    rewrite ?Hi, ?F by discriminate; try assumption.
  rewrite !F in * by discriminate.
  split; [exact E|]. split; [exact C|]. split; [exact T|]. split; [exact V|].
  split; [exact P|]. split; [exact K|]. split; [exact U|].
  split; [exact M|exact N].
Qed.

(** *** CSRRS, CSRRC, CSRRSI, CSRRCI with a zero source operand *)

Lemma system_dispatch st i imm :
  st trap = 0 -> bits 0 2 (st _pc) = 0 ->
  opcode_of (st _instr) = Opcode.SYSTEM ->
  dispatch st i imm = handle_system st imm.
Proof.
  intros Ht Hpc Ho.
  rewrite dispatch_opcode by (assumption || (rewrite Ho; discriminate)).
  now rewrite Ho.
Qed.

Lemma zero_source_cases w :
  zero_source w = true ->
  (funct3_of w = SystemFunc.CSRRS /\ rs1_of w = 0) \/
  (funct3_of w = SystemFunc.CSRRC /\ rs1_of w = 0) \/
  (funct3_of w = SystemFunc.CSRRSI /\ decode_imm OpcodeFormat.SYS w = 0) \/
  (funct3_of w = SystemFunc.CSRRCI /\ decode_imm OpcodeFormat.SYS w = 0).
Proof.
  unfold zero_source. cbv zeta. intros H.
  apply orb_prop in H as [H|H]; apply andb_prop in H as [F Z0];
    apply Z.eqb_eq in Z0; apply orb_prop in F as [F|F];
    apply Z.eqb_eq in F; auto.
Qed.

Lemma system_imm st i :
  st trap = 0 -> bits 0 2 (st _pc) = 0 ->
  opcode_of (st _instr) = Opcode.SYSTEM ->
  zero_source (st _instr) = true ->
  _imm st i = decode_imm OpcodeFormat.SYS (st _instr).
Proof.
  intros Ht Hpc Ho Hz. unfold _imm.
  rewrite system_dispatch by assumption. unfold handle_system.
  apply zero_source_cases in Hz.
  destruct Hz as [[F _]|[[F _]|[[F _]|[F _]]]]; rewrite F;
    unfold handle_CSRRS, handle_CSRRC, handle_CSRRSI, handle_CSRRCI,
      csr_phase1;
    destruct (st _instr_phase =? 0); reflexivity.
Qed.

Lemma csr0_handlers st i :
  st trap = 0 -> bits 0 2 (st _pc) = 0 -> st _instr_phase = 0 ->
  opcode_of (st _instr) = Opcode.SYSTEM ->
  zero_source (st _instr) = true ->
  handlers st i =
  [ comb _imm_format OpcodeFormat.SYS;
    comb _funct12_to_csr_num 1;
    comb csr_to_x 1 ] ++
  (if is_csr_imm (funct3_of (st _instr)) then [ comb _imm_to_y 1 ]
   else [ comb y_reg (rs1_of (st _instr)); comb reg_to_y 1 ]) ++
  [ comb alu_op_to_z
      (if is_csr_set (funct3_of (st _instr)) then AluOp.OR
       else AluOp.AND_NOT);
    comb z_to_csr 0;
    comb _x_to_tmp 1;
    comb _next_instr_phase 1 ].
Proof.
  intros Ht Hpc Hp Ho Hz. unfold handlers.
  rewrite system_imm, system_dispatch by assumption.
  unfold handle_system.
  apply zero_source_cases in Hz.
  destruct Hz as [[F Z0]|[[F Z0]|[[F Z0]|[F Z0]]]]; rewrite F;
    unfold handle_CSRRS, handle_CSRRC, handle_CSRRSI, handle_CSRRCI;
    rewrite Hp, Z0; reflexivity.
Qed.

Lemma csr1_handlers st i :
  st trap = 0 -> bits 0 2 (st _pc) = 0 -> st _instr_phase <> 0 ->
  opcode_of (st _instr) = Opcode.SYSTEM ->
  zero_source (st _instr) = true ->
  handlers st i =
  [ comb _imm_format OpcodeFormat.SYS;
    comb _funct12_to_csr_num 1;
    comb _tmp_to_z 1;
    comb z_reg (rd_of (st _instr));
    comb _is_last_instr_cycle 1 ].
Proof.
  intros Ht Hpc Hp Ho Hz. unfold handlers.
  rewrite system_dispatch by assumption.
  unfold handle_system.
  apply zero_source_cases in Hz.
  destruct Hz as [[F Z0]|[[F Z0]|[[F Z0]|[F Z0]]]]; rewrite F;
    unfold handle_CSRRS, handle_CSRRC, handle_CSRRSI, handle_CSRRCI;
    rewrite (eqb_0_false _ Hp); reflexivity.
Qed.

(** *** The bus multiplexers, bus by bus *)

Lemma x_mux_fp st i : forallb (footprint [data_x_out] [] []) (x_mux st i) = true.
Proof. unfold x_mux, csr_read. walk. Qed.

Lemma y_mux_fp st i : forallb (footprint [data_y_out] [] []) (y_mux st i) = true.
Proof. unfold y_mux. walk. Qed.

Lemma z_mux_fp st i : forallb (footprint [data_z_out] [] []) (z_mux st i) = true.
Proof. unfold z_mux. walk. Qed.

Lemma csr_num_mux_fp st i :
  forallb (footprint [csr_num] [] []) (csr_num_mux st i) = true.
Proof. unfold csr_num_mux. walk. Qed.

Ltac skip_block B F :=
  rewrite (comb_of_skip _ B)
    by (apply footprint_drives with (1 := F); reflexivity).

Ltac drop_block B F :=
  rewrite (comb_of_frame _ B)
    by (apply footprint_drives with (1 := F); reflexivity).

Lemma settled_csr_num st i :
  settled st i csr_num = comb_of (defaults st ++ csr_num_mux st i) csr_num.
Proof.
  rewrite settled_muxes by reflexivity. unfold muxes.
  rewrite <- !app_assoc.
  skip_block (x_mux st i) (x_mux_fp st i).
  skip_block (y_mux st i) (y_mux_fp st i).
  skip_block (z_mux st i) (z_mux_fp st i).
  rewrite app_assoc. drop_block (handlers st i) (handlers_fp st i).
  reflexivity.
Qed.

Lemma settled_data_z_out st i :
  settled st i data_z_out = comb_of (defaults st ++ z_mux st i) data_z_out.
Proof.
  rewrite settled_muxes by reflexivity. unfold muxes.
  rewrite <- !app_assoc.
  skip_block (x_mux st i) (x_mux_fp st i).
  skip_block (y_mux st i) (y_mux_fp st i).
  rewrite !app_assoc. drop_block (handlers st i) (handlers_fp st i).
  drop_block (csr_num_mux st i) (csr_num_mux_fp st i).
  reflexivity.
Qed.

Lemma settled_data_x_out st i :
  settled st i data_x_out
  = comb_of (defaults st ++ x_mux st i ++ handlers st i) data_x_out.
Proof.
  rewrite settled_muxes by reflexivity. unfold muxes.
  rewrite <- !app_assoc, (app_assoc (defaults st)).
  skip_block (y_mux st i) (y_mux_fp st i).
  skip_block (z_mux st i) (z_mux_fp st i).
  skip_block (csr_num_mux st i) (csr_num_mux_fp st i).
  now rewrite <- app_assoc.
Qed.

Lemma settled_data_y_out st i :
  settled st i data_y_out
  = comb_of (defaults st ++ y_mux st i ++ handlers st i) data_y_out.
Proof.
  rewrite settled_muxes by reflexivity. unfold muxes.
  rewrite <- !app_assoc.
  skip_block (x_mux st i) (x_mux_fp st i).
  rewrite (app_assoc (defaults st)).
  skip_block (z_mux st i) (z_mux_fp st i).
  skip_block (csr_num_mux st i) (csr_num_mux_fp st i).
  now rewrite <- app_assoc.
Qed.

Lemma not_last_cycle st i :
  ctl st i _is_last_instr_cycle = 0 ->
  last_cycle st i = [] /\ is_interrupted st i = false.
Proof.
  intros H. unfold is_interrupted, last_cycle. rewrite H. split; reflexivity.
Qed.

Lemma trunc_funct12 w : trunc 12 (funct12_of w) = funct12_of w.
Proof. apply trunc_small. apply (bits_range 20 32 w). lia. Qed.

(** Phase 0, on the rising edge of [ph1]: the CSR is read onto X and kept
    in [tmp]; no CSR is written. *)
Lemma csr0_tick st i :
  st trap = 0 -> bits 0 2 (st _pc) = 0 -> st _instr_phase = 0 ->
  opcode_of (st _instr) = Opcode.SYSTEM ->
  zero_source (st _instr) = true ->
  settled st i z_to_csr = 0 /\
  settled st i csr_to_x = 1 /\
  settled st i csr_num = funct12_of (st _instr) /\
  settled st i data_x_out = csr_file st (funct12_of (st _instr)) /\
  settled st i _x_to_tmp = 1 /\
  tick Dph1 st i _tmp = trunc 32 (data_x_in i) /\
  tick Dph1 st i _instr_phase = 1 /\
  (forall r, existsb (Reg_beq r) csr_regs = true -> tick Dph1 st i r = st r).
Proof.
  intros Ht Hpc Hp Ho Hz.
  pose proof (csr0_handlers st i Ht Hpc Hp Ho Hz) as HL.
  pose proof (ctl_eq st i _ HL) as HC.
  set (imm := is_csr_imm (funct3_of (st _instr))) in *.
  assert (HN : ctl st i _is_last_instr_cycle = 0)
    by (rewrite HC; destruct imm; reflexivity).
  destruct (not_last_cycle st i HN) as [HLC HNI].
  assert (HF : fetch st i = [comb _load_instr 1; comb mem_rd 1]).
  { unfold fetch.
    rewrite (aligned_not_misalign st Hpc), HNI, Hp, Ht. reflexivity. }
  assert (HZ : ctl st i z_to_csr = 0)
    by (rewrite HC; destruct imm; reflexivity).
  assert (HN12 : comb_of (defaults st ++ csr_num_mux st i) csr_num
                 = funct12_of (st _instr)).
  { unfold csr_num_mux. rewrite HC.
    destruct imm; ev; apply trunc_funct12. }
  repeat split.
  - to_ctl. exact HZ.
  - to_ctl. rewrite HC. destruct imm; reflexivity.
  - rewrite settled_csr_num. exact HN12.
  - rewrite settled_data_x_out, app_assoc, comb_of_frame
      by (rewrite HL; destruct imm; reflexivity).
    unfold x_mux. rewrite HN12, HC. unfold csr_file.
    destruct imm; reflexivity.
  - to_ctl. rewrite HC. destruct imm; reflexivity.
  - rewrite tick_tmp. unfold tmp_update. to_ctl. rewrite HC.
    destruct imm; reflexivity.
  - rewrite tick_instr_phase, settled_fetch by reflexivity.
    rewrite HF, app_assoc, comb_of_app, HL.
    destruct imm; reflexivity.
  - intros r Hr. rewrite tick_csr_b by exact Hr.
    rewrite HF. unfold csr_update. to_ctl. rewrite HZ, HL.
    destruct imm; reflexivity.
Qed.

Lemma last_cycle_interrupted st i :
  st trap = 0 -> ctl st i _is_last_instr_cycle = 1 -> mcycle_end i = 1 ->
  is_interrupted st i = interrupt_taken st i.
Proof.
  intros Ht Hl He. unfold is_interrupted, interrupt_taken, last_cycle, all_true.
  rewrite Hl, He, Ht. cbn [forallb].
  replace (truthy (comb_of (defaults st ++ _) instr_complete)) with true.
  - change (0 =? 0) with true. cbn [andb].
    now rewrite andb_true_r, !andb_assoc.
  - change (truthy 1) with true. cbv iota.
    split_ifs; reflexivity.
Qed.

(** Phase 1, on the rising edge of [ph1]: [tmp] goes to [rd] over Z; no CSR
    is written, [mtval] excepted when an interrupt is taken at the end of
    the instruction. *)
Lemma csr1_tick st i :
  st trap = 0 -> bits 0 2 (st _pc) = 0 -> st _instr_phase <> 0 ->
  opcode_of (st _instr) = Opcode.SYSTEM ->
  zero_source (st _instr) = true ->
  mcycle_end i = 1 ->
  settled st i z_to_csr = 0 /\
  settled st i _tmp_to_z = 1 /\
  settled st i data_z_out = trunc 32 (st _tmp) /\
  settled st i z_reg = rd_of (st _instr) /\
  (forall r, existsb (Reg_beq r) [_mcause; _mtvec; _mepc; _mstatus] = true ->
             tick Dph1 st i r = st r) /\
  tick Dph1 st i _mtval =
    (if interrupt_taken st i then trunc 32 (st _pc) else st _mtval).
Proof.
  intros Ht Hpc Hp Ho Hz He.
  pose proof (csr1_handlers st i Ht Hpc Hp Ho Hz) as HL.
  pose proof (ctl_eq st i _ HL) as HC.
  assert (HLc : ctl st i _is_last_instr_cycle = 1) by (now rewrite HC).
  pose proof (last_cycle_interrupted st i Ht HLc He) as HI.
  assert (HF : fetch st i =
               if interrupt_taken st i
               then [ph1 _mtval (st _pc); comb _next_instr_phase 0; ph1 trap 1]
               else []).
  { unfold fetch, all_true. cbn [forallb].
    rewrite (aligned_not_misalign st Hpc), HI, (eqb_0_false _ Hp).
    reflexivity. }
  assert (HZ : ctl st i z_to_csr = 0) by (now rewrite HC).
  repeat split.
  - to_ctl. exact HZ.
  - to_ctl. now rewrite HC.
  - rewrite settled_data_z_out. unfold z_mux. rewrite HC. reflexivity.
  - to_ctl. rewrite HC. ev. apply (trunc_reg_field 7).
  - intros r Hr.
    assert (Hr' : existsb (Reg_beq r) csr_regs = true)
      by (destruct r; try discriminate Hr; reflexivity).
    rewrite tick_csr_b by exact Hr'.
    rewrite HF. unfold csr_update. to_ctl. rewrite HZ, HL.
    destruct (interrupt_taken st i); destruct r; try discriminate Hr;
      reflexivity.
  - rewrite tick_csr_b by reflexivity.
    rewrite HF. unfold csr_update. to_ctl. rewrite HZ, HL.
    destruct (interrupt_taken st i); reflexivity.
Qed.

(** The CSR read routing knows five addresses. *)
Lemma csr_file_eq st num :
  csr_file st num =
  if num =? CSRAddr.MCAUSE then trunc 32 (st _mcause)
  else if num =? CSRAddr.MTVEC then trunc 32 (st _mtvec)
  else if num =? CSRAddr.MEPC then trunc 32 (st _mepc)
  else if num =? CSRAddr.MTVAL then trunc 32 (st _mtval)
  else if num =? CSRAddr.MSTATUS then trunc 32 (st _mstatus)
  else 0.
Proof. unfold csr_file, csr_read. split_ifs; reflexivity. Qed.

Lemma csr_file_ext s st num :
  (forall r, existsb (Reg_beq r) csr_regs = true -> s r = st r) ->
  csr_file s num = csr_file st num.
Proof.
  intros H. rewrite !csr_file_eq.
  now rewrite !H by reflexivity.
Qed.

(** Phase 0 over its machine cycle, the instruction being the word on the
    memory bus. *)
Lemma csr0_cycle st i :
  st trap = 0 -> bits 0 2 (st _pc) = 0 -> st _instr_phase = 0 ->
  opcode_of (trunc 32 (memdata_rd i)) = Opcode.SYSTEM ->
  zero_source (trunc 32 (memdata_rd i)) = true ->
  outputs st i z_to_csr = 0 /\
  outputs st i csr_to_x = 1 /\
  outputs st i csr_num = funct12_of (trunc 32 (memdata_rd i)) /\
  outputs st i data_x_out
  = csr_file st (funct12_of (trunc 32 (memdata_rd i))) /\
  outputs st i _x_to_tmp = 1 /\
  machine_cycle st i _tmp = trunc 32 (data_x_in i) /\
  machine_cycle st i _instr_phase = 1 /\
  (forall r, existsb (Reg_beq r) csr_regs = true ->
             machine_cycle st i r = st r).
Proof.
  intros Ht Hpc Hp Ho Hz. unfold machine_cycle, outputs.
  pose proof (fetched_instr st i Ht Hpc Hp) as Hi.
  pose proof (write_half_frame st i) as F.
  set (s := write_half st i) in *. clearbody s.
  rewrite <- Hi in *.
  assert (Ht' : s trap = 0) by (rewrite F by discriminate; exact Ht).
  assert (Hpc' : bits 0 2 (s _pc) = 0)
    by (rewrite F by discriminate; exact Hpc).
  assert (Hp' : s _instr_phase = 0) by (rewrite F by discriminate; exact Hp).
  assert (FC : forall r, existsb (Reg_beq r) csr_regs = true -> s r = st r).
  { intros r Hr. apply F; intros ->; discriminate Hr. }
  destruct (csr0_tick s (with_mcycle_end 1 i) Ht' Hpc' Hp' Ho Hz)
    as (A & B & C & D & E & T & P & R).
  rewrite (csr_file_ext s st) in D by exact FC.
  split; [exact A|]. split; [exact B|]. split; [exact C|].
  split; [exact D|]. split; [exact E|]. split; [exact T|].
  split; [exact P|].
  intros r Hr. rewrite R by exact Hr. now apply FC.
Qed.

(** Phase 1 over its machine cycle. *)
Lemma csr1_cycle st i :
  st trap = 0 -> bits 0 2 (st _pc) = 0 -> st _instr_phase <> 0 ->
  opcode_of (st _instr) = Opcode.SYSTEM ->
  zero_source (st _instr) = true ->
  outputs st i z_to_csr = 0 /\
  outputs st i _tmp_to_z = 1 /\
  outputs st i data_z_out = trunc 32 (st _tmp) /\
  outputs st i z_reg = rd_of (st _instr) /\
  (forall r, existsb (Reg_beq r) [_mcause; _mtvec; _mepc; _mstatus] = true ->
             machine_cycle st i r = st r) /\
  machine_cycle st i _mtval =
    (if interrupt_taken st i then trunc 32 (st _pc) else st _mtval).
Proof.
  intros Ht Hpc Hp Ho Hz. unfold machine_cycle, outputs.
  pose proof (kept_instr st i Hp) as Hi.
  pose proof (write_half_frame st i) as F.
  set (s := write_half st i) in *. clearbody s.
  rewrite <- Hi in *.
  assert (Ht' : s trap = 0) by (rewrite F by discriminate; exact Ht).
  assert (Hpc' : bits 0 2 (s _pc) = 0)
    by (rewrite F by discriminate; exact Hpc).
  assert (Hp' : s _instr_phase <> 0) by (rewrite F by discriminate; exact Hp).
  destruct (csr1_tick s (with_mcycle_end 1 i) Ht' Hpc' Hp' Ho Hz eq_refl)
    as (A & B & C & D & R & M).
  assert (HI : interrupt_taken s (with_mcycle_end 1 i) = interrupt_taken st i).
  { unfold interrupt_taken. now rewrite !F by discriminate. }
  rewrite HI in M. rewrite !F in * by discriminate.
  split; [exact A|]. split; [exact B|]. split; [exact C|].
  split; [exact D|]. split; [|exact M].
  intros r Hr. rewrite R by exact Hr.
  apply F; intros ->; discriminate Hr.
Qed.

(** *** The CSR routing *)

(** MIE is not routed: 0x888 is written to it with CSRRW, Z carrying the
    value during the write phase; no register holds it afterwards, and the
    read that follows finds 0 on X. *)
Lemma C4_counterexample :
  let st0 := regs_of [(_pc, 0x100); (memaddr, 0x100)] in
  let wr := buses 0 0x888 csrrw_mie_x1 in
  let st1 := machine_cycle st0 wr in
  let st2 := machine_cycle st1 (buses 0 0 0) in
  let rd := buses 0 0 csrrs_x5_mie in
  (outputs st0 wr z_to_csr = 1 /\ outputs st0 wr csr_num = CSRAddr.MIE /\
   data_z_in wr = 0x888) /\
  (st2 _pc = 0x104 /\ st2 _instr_phase = 0 /\
   forallb (fun r => negb (st2 r =? 0x888)) all_regs = true) /\
  (outputs st2 rd csr_to_x = 1 /\ outputs st2 rd csr_num = CSRAddr.MIE /\
   outputs st2 rd data_x_out = 0 /\ outputs st2 rd data_x_out <> 0x888).
Proof. vm_compute. repeat split; (reflexivity || discriminate). Qed.

(** *** ECALL and EBREAK in the card *)

Lemma priv_illegal_handlers st i :
  st trap = 0 -> bits 0 2 (st _pc) = 0 ->
  st _instr = Instr.ECALL \/ st _instr = Instr.EBREAK ->
  handlers st i =
  comb _imm_format OpcodeFormat.SYS ::
  set_exception st TrapCause.EXC_ILLEGAL_INSTR (st _instr).
Proof.
  intros Ht Hpc Hi. unfold handlers.
  rewrite dispatch_opcode
    by (assumption || (destruct Hi as [-> | ->]; discriminate)).
  unfold handle_system, handle_PRIV, handle_illegal_instr.
  destruct Hi as [E|E]; rewrite E; reflexivity.
Qed.

(** The card does not decode ECALL and EBREAK: [handle_PRIV] knows MRET
    only, and the two words raise the illegal-instruction exception, with
    [mepc] the PC and [mtval] the instruction word. *)
Lemma priv_illegal_tick st i :
  st trap = 0 -> bits 0 2 (st _pc) = 0 ->
  st _instr = Instr.ECALL \/ st _instr = Instr.EBREAK ->
  tick Dph2 st i _exception = 1 /\
  tick Dph2 st i _trap_cause = TrapCause.EXC_ILLEGAL_INSTR /\
  tick Dph1 st i trap = 1 /\
  tick Dph1 st i _mepc = trunc 32 (st _pc) /\
  tick Dph1 st i _mtval = trunc 32 (st _instr).
Proof.
  intros Ht Hpc Hi.
  pose proof (priv_illegal_handlers st i Ht Hpc Hi) as HL.
  pose proof (aligned_not_misalign st Hpc) as Hal.
  repeat split.
  - rewrite tick_ph2_blocks, HL, fetch_no_ph2 by assumption. reflexivity.
  - rewrite tick_ph2_blocks, HL, fetch_no_ph2 by assumption. reflexivity.
  - rewrite tick_trap, HL. reflexivity.
  - rewrite tick_csr_b, HL by reflexivity. reflexivity.
  - rewrite tick_csr_b, HL by reflexivity. reflexivity.
Qed.

Lemma priv_illegal_cycle st i :
  st trap = 0 -> bits 0 2 (st _pc) = 0 -> st _instr_phase = 0 ->
  trunc 32 (memdata_rd i) = Instr.ECALL \/
  trunc 32 (memdata_rd i) = Instr.EBREAK ->
  machine_cycle st i _exception = 1 /\
  machine_cycle st i _trap_cause = TrapCause.EXC_ILLEGAL_INSTR /\
  machine_cycle st i trap = 1 /\
  machine_cycle st i _mepc = trunc 32 (st _pc) /\
  machine_cycle st i _mtval = trunc 32 (memdata_rd i).
Proof.
  intros Ht Hpc Hp Hw. unfold machine_cycle.
  rewrite !tick_ph1_keeps_ph2 by reflexivity.
  pose proof (fetched_instr st i Ht Hpc Hp) as Hi.
  pose proof (write_half_frame st i) as F.
  assert (L2 : tick Dph2 (read_half st i) (with_mcycle_end 0 i) _exception = 1
            /\ tick Dph2 (read_half st i) (with_mcycle_end 0 i) _trap_cause
               = TrapCause.EXC_ILLEGAL_INSTR).
  { pose proof (read_half_frame st i) as G.
    pose proof (read_half_instr st i) as Gi. rewrite Hi in Gi.
    set (s := read_half st i) in *. clearbody s.
    destruct (priv_illegal_tick s (with_mcycle_end 0 i)) as (A & B & _);
      rewrite ?Gi, ?G by discriminate; try assumption.
    split; [exact A|exact B]. }
  rewrite <- write_half_read_half in L2. destruct L2 as [E C].
  set (s := write_half st i) in *. clearbody s.
  destruct (priv_illegal_tick s (with_mcycle_end 1 i)) as (_ & _ & T & P & V);
    rewrite ?Hi, ?F by discriminate; try assumption.
  rewrite Hi, !F in * by discriminate.
  rewrite trunc_idem in V by lia.
  split; [exact E|]. split; [exact C|]. split; [exact T|].
  split; [exact P|exact V].
Qed.

(** *** Which traps are fatal in the card *)

(** Phase 0 of trap entry keeps the trap and the exception flag and goes to
    phase 1. *)
Lemma trap0_cycle st i :
  st trap <> 0 -> st _instr_phase = 0 ->
  machine_cycle st i trap = st trap /\
  machine_cycle st i _exception = st _exception /\
  machine_cycle st i _instr_phase = 1 /\
  machine_cycle st i _mcause = trunc 32 (write_half st i _trap_cause).
Proof.
  intros Ht Hp. unfold machine_cycle.
  rewrite (tick_ph1_keeps_ph2 _ _ _exception) by reflexivity.
  assert (F : forall r, r <> _trap_cause -> write_half st i r = st r)
    by (intros r Hr; now apply trap_write_half_frame).
  rewrite (F _exception) by discriminate.
  rewrite <- (F trap) in * by discriminate.
  rewrite <- (F _instr_phase) in Hp by discriminate.
  set (s := write_half st i) in *. clearbody s.
  destruct (trap0_tick s (with_mcycle_end 1 i) Ht Hp)
    as (_ & _ & _ & _ & _ & P & C).
  split; [|split; [reflexivity|split; [exact P|exact C]]].
  rewrite tick_trap, trap_handlers, trap_fetch by assumption.
  unfold handle_trap. rewrite Hp. change (0 =? 0) with true. cbv iota zeta.
  rewrite !next_of_app. split_ifs; reflexivity.
Qed.

(** Phase 1 of trap entry over its machine cycle: [fatal] is raised exactly
    when the exception flag is set, whatever the cause. *)
Lemma trap1_cycle st i :
  st trap <> 0 -> st _instr_phase <> 0 ->
  (st _exception <> 0 ->
   outputs st i fatal = 1 /\
   outputs st i mem_rd = 0 /\
   machine_cycle st i _pc = st _pc /\
   machine_cycle st i trap = st trap /\
   machine_cycle st i _exception = st _exception /\
   machine_cycle st i _instr_phase = 1) /\
  (st _exception = 0 ->
   outputs st i fatal = 0 /\
   outputs st i mem_rd = 1 /\
   machine_cycle st i _pc = trunc 32 (memdata_rd i) /\
   machine_cycle st i trap = 0 /\
   machine_cycle st i _trap_svc = 1).
Proof.
  intros Ht Hp. unfold machine_cycle, outputs.
  rewrite (tick_ph1_keeps_ph2 _ _ _exception) by reflexivity.
  assert (F : forall r, r <> _trap_cause -> write_half st i r = st r)
    by (intros r Hr; now apply trap_write_half_frame).
  rewrite (F _exception) by discriminate.
  rewrite <- (F trap) in Ht by discriminate.
  rewrite <- (F _instr_phase) in Hp by discriminate.
  rewrite <- (F _exception), <- (F _pc), <- (F trap) by discriminate.
  set (s := write_half st i) in *. clearbody s.
  split; intros He.
  - destruct (trap1_tick_fatal s (with_mcycle_end 1 i) Ht Hp He)
      as (A & B & C & _ & T & _ & P).
    split; [exact A|]. split; [exact B|]. split; [exact C|].
    split; [exact T|]. split; [reflexivity|exact P].
  - destruct (trap1_tick_fetch s (with_mcycle_end 1 i) Ht Hp He)
      as (A & B & C & _ & T & V).
    split; [exact A|]. split; [exact B|]. split; [exact C|].
    split; [exact T|exact V].
Qed.

(** Every exception of the card goes through [set_exception], which sets the
    exception flag whatever the cause. *)
Lemma set_exception_flag st exc mtval old :
  next_of Dph2 (set_exception st exc mtval) _exception old = 1 /\
  next_of Dph2 (set_exception st exc mtval) _trap_cause old = trunc 32 exc /\
  next_of Dph1 (set_exception st exc mtval) trap old = 1.
Proof. repeat split; reflexivity. Qed.

Lemma C10_witness :
  machine_cycle both_pending (buses 0 0x80 0) _reg_time_irq = 0 /\
  machine_cycle both_pending (buses 0 0x80 0) _reg_ext_irq
  = both_pending _reg_ext_irq.
Proof.
  assert (Ht : both_pending trap <> 0) by (vm_compute; lia).
  assert (Hp : both_pending _instr_phase = 0) by reflexivity.
  assert (Hi : both_pending _reg_time_irq <> 0) by (vm_compute; lia).
  exact (proj1 (proj1 (C10_trap_entry_clears_one_latch
                         both_pending (buses 0 0x80 0) Ht) Hp) Hi).
Defined.

End CardFacts.

(** * The ROM sequencer *)

Module RomFacts.
Import SequencerROM.
Export RomScenarios.

(** Take both branches of the conditionals of a goal, outermost first. *)
Ltac branches :=
  repeat match goal with
         | |- context [if ?c then _ else _] => destruct c eqn:?
         end.

(** *** Which exceptions the ROM raises as fatal *)

Lemma rom_fatal_ok i : fatal_ok (outputs i) = true.
Proof.
  unfold outputs, elaborate, handle_lui, handle_auipc, handle_op_imm,
    handle_op, handle_jal, handle_jalr, handle_branch, handle_load,
    handle_store, handle_csrs, handle_CSRRW, handle_CSRRWI, handle_CSRRS,
    handle_CSRRSI, handle_CSRRC, handle_CSRRCI, handle_MRET, handle_ECALL,
    handle_EBREAK, handle_illegal_instr, alu_func_switch, csr_phase1.
  cbv zeta.
  branches; reflexivity.
Qed.

(** The same as a statement about the outputs. *)
Lemma rom_fatal i :
  (outputs i load_exception = 1 ->
   (ecall_or_ebreak (outputs i) = true -> outputs i next_fatal = 0) /\
   (ecall_or_ebreak (outputs i) = false -> outputs i next_fatal = 1)) /\
  (outputs i load_exception <> 1 ->
   outputs i load_exception = 0 /\ outputs i next_fatal = 0).
Proof.
  pose proof (rom_fatal_ok i) as H. unfold fatal_ok in H.
  destruct (outputs i load_exception =? 1) eqn:E.
  - apply Z.eqb_eq in E. split; [|intros N; now elim N].
    intros _. split; intros B; rewrite B in H; now apply Z.eqb_eq.
  - apply Z.eqb_neq in E. split; [intros N; now elim E|].
    intros _. apply andb_true_iff in H. destruct H as [A B].
    split; now apply Z.eqb_eq.
Qed.

Lemma rom_dispatch i :
  truthy (enable_sequencer_rom i) = true ->
  elaborate i =
  defaults ++
  let op := opcode_select i in
  if op =? OpcodeSelect.LUI then handle_lui
  else if op =? OpcodeSelect.AUIPC then handle_auipc
  else if op =? OpcodeSelect.OP_IMM then handle_op_imm i
  else if op =? OpcodeSelect.OP then handle_op i
  else if op =? OpcodeSelect.JAL then handle_jal i
  else if op =? OpcodeSelect.JALR then handle_jalr i
  else if op =? OpcodeSelect.BRANCH then handle_branch i
  else if op =? OpcodeSelect.LOAD then handle_load i
  else if op =? OpcodeSelect.STORE then handle_store i
  else if op =? OpcodeSelect.CSRS then handle_csrs i
  else if op =? OpcodeSelect.MRET then handle_MRET
  else if op =? OpcodeSelect.ECALL then handle_ECALL
  else if op =? OpcodeSelect.EBREAK then handle_EBREAK
  else handle_illegal_instr.
Proof. intros H. unfold elaborate. now rewrite H. Qed.

(** *** ECALL and EBREAK in the ROM *)

(** The selectors the ROM drives for ECALL: the constant ECALL cause on X,
    PC + 4 on Y, the PC on Z, the three saved into the trap CSRs; an
    exception that is not fatal. *)
Lemma rom_ecall i :
  truthy (enable_sequencer_rom i) = true ->
  opcode_select i = OpcodeSelect.ECALL ->
  outputs i save_trap_csrs = 1 /\
  outputs i x_mux_select = SeqMuxSelect.CONST /\
  outputs i _const = ConstSelect.EXC_ECALL_FROM_MACH_MODE /\
  outputs i y_mux_select = SeqMuxSelect.PC_PLUS_4 /\
  outputs i z_mux_select = SeqMuxSelect.PC /\
  outputs i load_exception = 1 /\ outputs i next_exception = 1 /\
  outputs i load_trap = 1 /\ outputs i next_trap = 1 /\
  outputs i next_fatal = 0.
Proof.
  intros He Ho. unfold outputs. rewrite rom_dispatch, Ho by exact He.
  repeat split; reflexivity.
Qed.

Lemma rom_ebreak i :
  truthy (enable_sequencer_rom i) = true ->
  opcode_select i = OpcodeSelect.EBREAK ->
  outputs i save_trap_csrs = 1 /\
  outputs i x_mux_select = SeqMuxSelect.CONST /\
  outputs i _const = ConstSelect.EXC_BREAKPOINT /\
  outputs i y_mux_select = SeqMuxSelect.PC_PLUS_4 /\
  outputs i z_mux_select = SeqMuxSelect.PC /\
  outputs i load_exception = 1 /\ outputs i next_exception = 1 /\
  outputs i load_trap = 1 /\ outputs i next_trap = 1 /\
  outputs i next_fatal = 0.
Proof.
  intros He Ho. unfold outputs. rewrite rom_dispatch, Ho by exact He.
  repeat split; reflexivity.
Qed.

(** *** LOAD and STORE with a misaligned address in the ROM *)

(** The ROM checks the alignment first: a misaligned LOAD raises the
    load-address-misaligned exception with [memaddr] for [mtval], selects no
    destination register and issues no memory read. *)
Lemma rom_load_misaligned i :
  truthy (enable_sequencer_rom i) = true ->
  opcode_select i = OpcodeSelect.LOAD -> _instr_phase i = 1 ->
  ((_funct3 i = MemAccessWidth.H \/ _funct3 i = MemAccessWidth.HU) /\
   Z.testbit (memaddr_2_lsb i) 0 = true) \/
  (_funct3 i = MemAccessWidth.W /\ memaddr_2_lsb i <> 0) ->
  outputs i load_exception = 1 /\
  outputs i _const = ConstSelect.EXC_LOAD_ADDR_MISALIGN /\
  outputs i z_mux_select = SeqMuxSelect.MEMADDR /\
  outputs i next_trap = 1 /\
  outputs i _z_reg_select = InstrReg.ZERO /\
  outputs i mem_rd = 0 /\
  outputs i next_fatal = 1.
Proof.
  intros He Ho Hp Hm. unfold outputs. rewrite rom_dispatch, Ho by exact He.
  unfold handle_load. rewrite Hp. unfold bit, truthy.
  destruct Hm as [[[F|F] A]|[F A]]; rewrite F; try rewrite A;
    try rewrite (proj2 (Z.eqb_neq _ _) A);
    repeat split; reflexivity.
Qed.

Lemma rom_store_misaligned i :
  truthy (enable_sequencer_rom i) = true ->
  opcode_select i = OpcodeSelect.STORE -> _instr_phase i = 1 ->
  (_funct3 i = MemAccessWidth.H /\ Z.testbit (memaddr_2_lsb i) 0 = true) \/
  (_funct3 i = MemAccessWidth.W /\ memaddr_2_lsb i <> 0) ->
  outputs i load_exception = 1 /\
  outputs i _const = ConstSelect.EXC_STORE_AMO_ADDR_MISALIGN /\
  outputs i z_mux_select = SeqMuxSelect.MEMADDR /\
  outputs i next_trap = 1 /\
  outputs i _z_reg_select = InstrReg.ZERO /\
  outputs i mem_wr = 0 /\
  outputs i memdata_wr_mux_select = SeqMuxSelect.MEMDATA_WR /\
  outputs i next_fatal = 1.
Proof.
  intros He Ho Hp Hm. unfold outputs. rewrite rom_dispatch, Ho by exact He.
  unfold handle_store. rewrite Hp. unfold bit, truthy.
  destruct Hm as [[F A]|[F A]]; rewrite F; try rewrite A;
    try rewrite (proj2 (Z.eqb_neq _ _) A);
    repeat split; reflexivity.
Qed.

(** *** BRANCH to a misaligned target in the ROM *)

(** Phase 1 of a branch whose sum has nonzero low bits: the PC and
    [memaddr] keep their values, [tmp] takes Z, and phase 2 follows.  Phase 2
    raises the instruction-address-misaligned exception with [tmp] for
    [mtval], the PC still untouched. *)
Lemma rom_branch_misaligned i :
  truthy (enable_sequencer_rom i) = true ->
  opcode_select i = OpcodeSelect.BRANCH ->
  (_instr_phase i = 1 ->
   matches (_funct3 i) branch_conds = true ->
   data_z_in_2_lsb0 i = 0 ->
   outputs i _next_instr_phase = 2 /\
   outputs i tmp_mux_select = SeqMuxSelect.Z /\
   outputs i x_mux_select = SeqMuxSelect.PC /\
   outputs i alu_op_to_z = AluOp.ADD /\
   outputs i pc_mux_select = SeqMuxSelect.PC /\
   outputs i memaddr_mux_select = SeqMuxSelect.MEMADDR /\
   outputs i set_instr_complete = 0 /\
   outputs i load_exception = 0) /\
  (_instr_phase i = 2 ->
   outputs i load_exception = 1 /\
   outputs i _const = ConstSelect.EXC_INSTR_ADDR_MISALIGN /\
   outputs i z_mux_select = SeqMuxSelect.TMP /\
   outputs i save_trap_csrs = 1 /\
   outputs i next_trap = 1 /\
   outputs i pc_mux_select = SeqMuxSelect.PC /\
   outputs i _next_instr_phase = 0).
Proof.
  intros He Ho. unfold outputs. rewrite rom_dispatch, Ho by exact He.
  unfold handle_branch. split.
  - intros Hp Hf Hz. rewrite Hp, Hf, Hz.
    destruct (truthy (branch_cond i)); repeat split; reflexivity.
  - intros Hp. rewrite Hp. repeat split; reflexivity.
Qed.

(** *** CSR set and clear with a zero source operand in the ROM *)

Lemma rom_csr_zero_source i :
  truthy (enable_sequencer_rom i) = true ->
  opcode_select i = OpcodeSelect.CSRS ->
  ((_funct3 i = SystemFunc.CSRRS \/ _funct3 i = SystemFunc.CSRRC) /\
   rs1_0 i = 1) \/
  ((_funct3 i = SystemFunc.CSRRSI \/ _funct3 i = SystemFunc.CSRRCI) /\
   imm0 i = 1) ->
  outputs i z_to_csr = 0 /\
  outputs i _funct12_to_csr_num = 1 /\
  (_instr_phase i = 0 ->
   outputs i csr_to_x = 1 /\
   outputs i tmp_mux_select = SeqMuxSelect.X /\
   outputs i _next_instr_phase = 1) /\
  (_instr_phase i <> 0 ->
   outputs i z_mux_select = SeqMuxSelect.TMP /\
   outputs i _z_reg_select = InstrReg.RD /\
   outputs i set_instr_complete = 1).
Proof.
  intros He Ho Hs. unfold outputs. rewrite rom_dispatch, Ho by exact He.
  unfold handle_csrs, handle_CSRRS, handle_CSRRC, handle_CSRRSI,
    handle_CSRRCI, csr_phase1.
  destruct Hs as [[[F|F] Z0]|[[F|F] Z0]]; rewrite F, ?Z0; cbv zeta;
    (split; [|split; [|split]]);
    try (intros Hp; first [rewrite Hp | rewrite (proj2 (Z.eqb_neq _ _) Hp)]);
    try (destruct (_instr_phase i =? 0));
    repeat split; reflexivity.
Qed.

(** *** MRET in the ROM *)

(** The ROM leaves the trap on MRET: [exit_trap] is raised, the PC is loaded
    from X, which carries [mepc]. *)
Lemma rom_mret i :
  truthy (enable_sequencer_rom i) = true ->
  opcode_select i = OpcodeSelect.MRET ->
  outputs i exit_trap = 1 /\
  outputs i _mepc_num_to_csr_num = 1 /\
  outputs i csr_to_x = 1 /\
  outputs i pc_mux_select = SeqMuxSelect.X /\
  outputs i set_instr_complete = 1.
Proof.
  intros He Ho. unfold outputs. rewrite rom_dispatch, Ho by exact He.
  repeat split; reflexivity.
Qed.

End RomFacts.

(** * The card and the ROM side by side *)

Module BothSequencers.
Module Rom := SequencerROM.
Import SequencerCard CardFacts RomFacts.

(** ** Which traps are fatal *)

(** C1 (amended). In the card every exception is fatal, whatever its cause:
    [set_exception] sets the exception flag for any cause, phase 0 of trap
    entry keeps it, and phase 1 raises [fatal] and fetches nothing exactly
    when it is set; only a trap with the flag clear, an interrupt, goes on to
    fetch the first instruction of the handler.  In the ROM every exception
    but ECALL and EBREAK is raised with [next_fatal] high. *)
Theorem C1_fatal_traps :
  (forall st exc mtval old,
     next_of Dph2 (set_exception st exc mtval) _exception old = 1 /\
     next_of Dph1 (set_exception st exc mtval) trap old = 1) /\
  (forall st i,
     st trap <> 0 -> st _instr_phase = 0 ->
     machine_cycle st i trap = st trap /\
     machine_cycle st i _exception = st _exception /\
     machine_cycle st i _instr_phase = 1) /\
  (forall st i,
     st trap <> 0 -> st _instr_phase <> 0 ->
     (st _exception <> 0 ->
      outputs st i fatal = 1 /\
      outputs st i mem_rd = 0 /\
      machine_cycle st i _pc = st _pc /\
      machine_cycle st i trap = st trap /\
      machine_cycle st i _exception = st _exception /\
      machine_cycle st i _instr_phase = 1) /\
     (st _exception = 0 ->
      outputs st i fatal = 0 /\
      outputs st i mem_rd = 1 /\
      machine_cycle st i _pc = trunc 32 (memdata_rd i) /\
      machine_cycle st i trap = 0 /\
      machine_cycle st i _trap_svc = 1)) /\
  (forall i,
     Rom.outputs i Rom.load_exception = 1 ->
     (ecall_or_ebreak (Rom.outputs i) = true ->
      Rom.outputs i Rom.next_fatal = 0) /\
     (ecall_or_ebreak (Rom.outputs i) = false ->
      Rom.outputs i Rom.next_fatal = 1)).
Proof.
  split; [|split; [|split]].
  - intros st exc mtval old. split; reflexivity.
  - intros st i Ht Hp.
    destruct (trap0_cycle st i Ht Hp) as (A & B & C & _).
    split; [exact A|]. split; [exact B|exact C].
  - intros st i Ht Hp. exact (trap1_cycle st i Ht Hp).
  - intros i. exact (proj1 (rom_fatal i)).
Qed.

Lemma C1_fatal_traps_witness :
  outputs load_trap_entry (buses 0 0 0x400) fatal = 1 /\
  outputs load_trap_entry (buses 0 0 0x400) mem_rd = 0 /\
  machine_cycle load_trap_entry (buses 0 0 0x400) _pc = load_trap_entry _pc /\
  machine_cycle load_trap_entry (buses 0 0 0x400) trap = load_trap_entry trap /\
  machine_cycle load_trap_entry (buses 0 0 0x400) _exception
  = load_trap_entry _exception /\
  machine_cycle load_trap_entry (buses 0 0 0x400) _instr_phase = 1.
Proof.
  assert (Ht : load_trap_entry trap <> 0) by (vm_compute; lia).
  assert (Hp : load_trap_entry _instr_phase <> 0) by (vm_compute; lia).
  assert (He : load_trap_entry _exception <> 0) by (vm_compute; lia).
  exact (proj1 (proj1 (proj2 (proj2 C1_fatal_traps))
                  load_trap_entry (buses 0 0 0x400) Ht Hp) He).
Defined.

(** The claim as stated fails for a load-address-misaligned trap: the card
    runs LH x5, 0(x1) at the odd address 0x1001, enters the trap with cause 4
    and, in phase 1 of trap entry, raises [fatal] instead of fetching the
    handler; the ROM raises the same exception with [next_fatal] high. *)
Lemma C1_counterexample :
  let i := buses 0 0x80 0x400 in
  let st1 := machine_cycle lh_misaligned i in
  let st2 := machine_cycle st1 i in
  st1 trap = 1 /\
  st1 _trap_cause = TrapCause.EXC_LOAD_ADDR_MISALIGN /\
  st2 _mcause = TrapCause.EXC_LOAD_ADDR_MISALIGN /\
  st2 _mcause <> TrapCause.EXC_ILLEGAL_INSTR /\
  st2 _instr_phase = 1 /\
  outputs st2 i fatal = 1 /\
  outputs st2 i mem_rd = 0 /\
  machine_cycle st2 i _pc = 0x100 /\
  machine_cycle st2 i _pc <> memdata_rd i /\
  Rom.outputs rom_lh_misaligned Rom.load_exception = 1 /\
  Rom.outputs rom_lh_misaligned Rom._const
  = ConstSelect.EXC_LOAD_ADDR_MISALIGN /\
  Rom.outputs rom_lh_misaligned Rom.next_fatal = 1.
Proof. vm_compute. repeat split; (reflexivity || discriminate). Qed.

(** ** ECALL and EBREAK *)

(** C3 (amended). The ROM raises ECALL and EBREAK as exceptions that are
    not fatal, with the constant 0xB, respectively 0x3, selected for X, PC + 4
    for Y and the PC for Z, the three buses being saved into [mcause], [mepc]
    and [mtval].  The card decodes neither: both words raise the
    illegal-instruction exception, with [mepc] the PC of the instruction and
    [mtval] the instruction word. *)
Theorem C3_ecall_ebreak :
  (forall i,
     truthy (Rom.enable_sequencer_rom i) = true ->
     (Rom.opcode_select i = OpcodeSelect.ECALL ->
      Rom.outputs i Rom.save_trap_csrs = 1 /\
      Rom.outputs i Rom.x_mux_select = SeqMuxSelect.CONST /\
      const_value (Rom.outputs i Rom._const)
      = TrapCause.EXC_ECALL_FROM_MACH_MODE /\
      Rom.outputs i Rom.y_mux_select = SeqMuxSelect.PC_PLUS_4 /\
      Rom.outputs i Rom.z_mux_select = SeqMuxSelect.PC /\
      Rom.outputs i Rom.next_trap = 1 /\
      Rom.outputs i Rom.next_fatal = 0) /\
     (Rom.opcode_select i = OpcodeSelect.EBREAK ->
      Rom.outputs i Rom.save_trap_csrs = 1 /\
      Rom.outputs i Rom.x_mux_select = SeqMuxSelect.CONST /\
      const_value (Rom.outputs i Rom._const) = TrapCause.EXC_BREAKPOINT /\
      Rom.outputs i Rom.y_mux_select = SeqMuxSelect.PC_PLUS_4 /\
      Rom.outputs i Rom.z_mux_select = SeqMuxSelect.PC /\
      Rom.outputs i Rom.next_trap = 1 /\
      Rom.outputs i Rom.next_fatal = 0)) /\
  (forall st i,
     st trap = 0 -> bits 0 2 (st _pc) = 0 -> st _instr_phase = 0 ->
     trunc 32 (memdata_rd i) = Instr.ECALL \/
     trunc 32 (memdata_rd i) = Instr.EBREAK ->
     machine_cycle st i _exception = 1 /\
     machine_cycle st i _trap_cause = TrapCause.EXC_ILLEGAL_INSTR /\
     machine_cycle st i trap = 1 /\
     machine_cycle st i _mepc = trunc 32 (st _pc) /\
     machine_cycle st i _mtval = trunc 32 (memdata_rd i)).
Proof.
  split.
  - intros i He. split; intros Ho.
    + destruct (rom_ecall i He Ho) as (A & B & C & D & E & _ & _ & _ & F & G).
      rewrite C. repeat split; assumption || reflexivity.
    + destruct (rom_ebreak i He Ho) as (A & B & C & D & E & _ & _ & _ & F & G).
      rewrite C. repeat split; assumption || reflexivity.
  - intros st i Ht Hpc Hp Hw. exact (priv_illegal_cycle st i Ht Hpc Hp Hw).
Qed.

Lemma C3_ecall_ebreak_witness :
  Rom.outputs rom_ecall_inputs Rom.save_trap_csrs = 1 /\
  Rom.outputs rom_ecall_inputs Rom.x_mux_select = SeqMuxSelect.CONST /\
  const_value (Rom.outputs rom_ecall_inputs Rom._const)
  = TrapCause.EXC_ECALL_FROM_MACH_MODE /\
  Rom.outputs rom_ecall_inputs Rom.y_mux_select = SeqMuxSelect.PC_PLUS_4 /\
  Rom.outputs rom_ecall_inputs Rom.z_mux_select = SeqMuxSelect.PC /\
  Rom.outputs rom_ecall_inputs Rom.next_trap = 1 /\
  Rom.outputs rom_ecall_inputs Rom.next_fatal = 0.
Proof.
  assert (He : truthy (Rom.enable_sequencer_rom rom_ecall_inputs) = true)
    by reflexivity.
  assert (Ho : Rom.opcode_select rom_ecall_inputs = OpcodeSelect.ECALL)
    by reflexivity.
  exact (proj1 (proj1 C3_ecall_ebreak rom_ecall_inputs He) Ho).
Defined.

(** The claim as stated fails in the card: ECALL fetched at 0x100 raises
    cause 2, not 0xB, with [mepc] 0x100, not 0x104, and [mtval] the word
    0x73, not the PC; the trap entry that follows raises [fatal].  EBREAK
    does the same. *)
Lemma C3_counterexample :
  let i := buses 0 0x80 Instr.ECALL in
  let st1 := machine_cycle fetch_at_0x100 i in
  let st2 := machine_cycle st1 i in
  let j := buses 0 0x80 Instr.EBREAK in
  let su1 := machine_cycle fetch_at_0x100 j in
  (st1 trap = 1 /\
   st1 _trap_cause = TrapCause.EXC_ILLEGAL_INSTR /\
   st1 _trap_cause <> TrapCause.EXC_ECALL_FROM_MACH_MODE /\
   st1 _mepc = 0x100 /\ st1 _mepc <> 0x100 + 4 /\
   st1 _mtval = Instr.ECALL /\ st1 _mtval <> fetch_at_0x100 _pc /\
   st2 _mcause = TrapCause.EXC_ILLEGAL_INSTR /\
   outputs st2 i fatal = 1) /\
  (su1 trap = 1 /\
   su1 _trap_cause = TrapCause.EXC_ILLEGAL_INSTR /\
   su1 _trap_cause <> TrapCause.EXC_BREAKPOINT /\
   su1 _mepc = 0x100 /\
   su1 _mtval = Instr.EBREAK /\ su1 _mtval <> fetch_at_0x100 _pc).
Proof. vm_compute. repeat split; (reflexivity || discriminate). Qed.

(** ** BRANCH to a misaligned target *)

(** C8 (amended). In the ROM a branch whose sum Z in phase 1 has nonzero
    low bits saves Z into [tmp], leaves the PC and [memaddr] alone and goes
    to phase 2, which raises the instruction-address-misaligned exception
    with [tmp] selected for [mtval] and the PC still untouched.  The card has
    no phase 2: it raises the exception in phase 1 itself, with [mtval] taken
    from Z; [tmp] is not written, the PC keeps its value and the instruction
    ends. *)
Theorem C8_branch_misaligned :
  (forall i,
     truthy (Rom.enable_sequencer_rom i) = true ->
     Rom.opcode_select i = OpcodeSelect.BRANCH ->
     (Rom._instr_phase i = 1 ->
      Rom.matches (Rom._funct3 i) Rom.branch_conds = true ->
      Rom.data_z_in_2_lsb0 i = 0 ->
      Rom.outputs i Rom._next_instr_phase = 2 /\
      Rom.outputs i Rom.tmp_mux_select = SeqMuxSelect.Z /\
      Rom.outputs i Rom.pc_mux_select = SeqMuxSelect.PC /\
      Rom.outputs i Rom.memaddr_mux_select = SeqMuxSelect.MEMADDR /\
      Rom.outputs i Rom.set_instr_complete = 0 /\
      Rom.outputs i Rom.load_exception = 0) /\
     (Rom._instr_phase i = 2 ->
      Rom.outputs i Rom.load_exception = 1 /\
      const_value (Rom.outputs i Rom._const)
      = TrapCause.EXC_INSTR_ADDR_MISALIGN /\
      Rom.outputs i Rom.z_mux_select = SeqMuxSelect.TMP /\
      Rom.outputs i Rom.save_trap_csrs = 1 /\
      Rom.outputs i Rom.next_trap = 1 /\
      Rom.outputs i Rom.pc_mux_select = SeqMuxSelect.PC)) /\
  (forall st i,
     st trap = 0 -> bits 0 2 (st _pc) = 0 -> st _instr_phase <> 0 ->
     opcode_of (st _instr) = Opcode.BRANCH ->
     is_branch_cond (funct3_of (st _instr)) = true ->
     bits 0 2 (data_z_in i) <> 0 ->
     machine_cycle st i trap = 1 /\
     machine_cycle st i _trap_cause = TrapCause.EXC_INSTR_ADDR_MISALIGN /\
     machine_cycle st i _mtval = trunc 32 (data_z_in i) /\
     machine_cycle st i _pc = st _pc /\
     machine_cycle st i _tmp = st _tmp /\
     machine_cycle st i _instr_phase = 0).
Proof.
  split.
  - intros i He Ho. destruct (rom_branch_misaligned i He Ho) as [P1 P2].
    split.
    + intros Hp Hf Hz.
      destruct (P1 Hp Hf Hz) as (A & B & _ & _ & C & D & E & F).
      repeat split; assumption.
    + intros Hp. destruct (P2 Hp) as (A & B & C & D & E & F & _).
      rewrite B. repeat split; assumption || reflexivity.
  - intros st i Ht Hpc Hp Ho Hf Hz.
    destruct (branch1_misaligned_cycle st i Ht Hpc Hp Ho Hf Hz)
      as (_ & C & T & V & _ & K & U & _ & N).
    split; [exact T|]. split; [exact C|]. split; [exact V|].
    split; [exact K|]. split; [exact U|exact N].
Qed.

Lemma C8_branch_misaligned_witness :
  machine_cycle beq_phase1 (buses 0x100 0x102 0) trap = 1 /\
  machine_cycle beq_phase1 (buses 0x100 0x102 0) _trap_cause
  = TrapCause.EXC_INSTR_ADDR_MISALIGN /\
  machine_cycle beq_phase1 (buses 0x100 0x102 0) _mtval
  = trunc 32 (data_z_in (buses 0x100 0x102 0)) /\
  machine_cycle beq_phase1 (buses 0x100 0x102 0) _pc = beq_phase1 _pc /\
  machine_cycle beq_phase1 (buses 0x100 0x102 0) _tmp = beq_phase1 _tmp /\
  machine_cycle beq_phase1 (buses 0x100 0x102 0) _instr_phase = 0.
Proof.
  assert (Ht : beq_phase1 trap = 0) by reflexivity.
  assert (Hpc : bits 0 2 (beq_phase1 _pc) = 0) by reflexivity.
  assert (Hp : beq_phase1 _instr_phase <> 0) by (vm_compute; lia).
  assert (Ho : opcode_of (beq_phase1 _instr) = Opcode.BRANCH) by reflexivity.
  assert (Hf : is_branch_cond (funct3_of (beq_phase1 _instr)) = true)
    by reflexivity.
  assert (Hz : bits 0 2 (data_z_in (buses 0x100 0x102 0)) <> 0)
    by (vm_compute; lia).
  exact (proj2 C8_branch_misaligned
           beq_phase1 (buses 0x100 0x102 0) Ht Hpc Hp Ho Hf Hz).
Defined.

(** The claim as stated fails in the card: the BEQ raises the trap in
    phase 1 and ends there, so no phase 2 follows; [tmp] still holds 0x55,
    and [mtval] is the 0x102 read from Z, not [tmp]. *)
Lemma C8_counterexample :
  let i := buses 0x100 0x102 0 in
  let st' := machine_cycle beq_phase1 i in
  opcode_of beq_x0_x0_2 = Opcode.BRANCH /\
  bits 0 2 (data_z_in i) <> 0 /\
  st' trap = 1 /\
  st' _instr_phase = 0 /\ st' _instr_phase <> 2 /\
  st' _tmp = 0x55 /\ st' _tmp <> data_z_in i /\
  st' _mtval = 0x102 /\ st' _mtval <> st' _tmp /\
  st' _pc = 0x100.
Proof. vm_compute. repeat split; (reflexivity || discriminate). Qed.

(** ** CSR set and clear with a zero source operand *)

(** CSRRS x5, mstatus, x0 run from its fetch: [rd] is x5 and receives the
    0x88 read from [mstatus], which keeps that value. *)
Example csrrs_x5_mstatus_x0_run :
  let st := regs_of [(_pc, 0x100); (memaddr, 0x100); (_mstatus, 0x88);
                     (_mtvec, 0x80)] in
  let i := buses 0x88 0 csrrs_x5_mstatus_x0 in
  let st1 := machine_cycle st i in
  let st2 := machine_cycle st1 i in
  outputs st i data_x_out = 0x88 /\
  outputs st i z_to_csr = 0 /\
  st1 _tmp = 0x88 /\ st1 _mstatus = 0x88 /\
  outputs st1 i z_to_csr = 0 /\
  outputs st1 i z_reg = 5 /\ outputs st1 i data_z_out = 0x88 /\
  st2 _mstatus = 0x88 /\ st2 _pc = 0x104 /\ st2 _instr_phase = 0.
Proof. vm_compute. repeat split; reflexivity. Qed.

End BothSequencers.

(** * More on the ROM sequencer *)

Module RomBehaviour.
Import SequencerROM RomFacts.

(** Unfold the ROM down to its conditionals. *)
Ltac rom_unfold :=
  unfold outputs, elaborate, handle_lui, handle_auipc, handle_op_imm,
    handle_op, handle_jal, handle_jalr, handle_branch, handle_load,
    handle_store, handle_csrs, handle_CSRRW, handle_CSRRWI, handle_CSRRS,
    handle_CSRRSI, handle_CSRRC, handle_CSRRCI, handle_MRET, handle_ECALL,
    handle_EBREAK, handle_illegal_instr, alu_func_switch, csr_phase1;
  cbv zeta.

(** Unfold the ROM and take every branch. *)
Ltac rom_cases := rom_unfold; branches.

(** Evaluate the comparisons of closed numbers in the goal. *)
Ltac closed_tests :=
  repeat match goal with
         | |- context [?a =? ?b] =>
             let v := eval vm_compute in (a =? b) in
             match v with
             | true => change (a =? b) with true
             | false => change (a =? b) with false
             end
         end;
  cbn [negb orb andb]; cbv iota.

(** A hypothesis about closed assignment lists that does not hold. *)
Ltac absurd_output H := vm_compute in H; discriminate H.

(** The three parts of [rom_illegal_instruction_iff], the tests being
    closed. *)
Ltac illegal_cases :=
  (split; [split|]);
  [ intros [H1 H2]; first [reflexivity | absurd_output H1 | absurd_output H2]
  | intros H; first [discriminate H | split; reflexivity]
  | intros H; first [discriminate H | repeat split; reflexivity] ].

(** ** Exceptions in the ROM *)

(** X1. A ROM step that raises an exception commits nothing: it selects no
    destination register, asks for no memory read or write and no CSR
    write, does not complete the instruction or leave a trap, and holds the
    PC, [memaddr], [tmp] and the memory write data; it saves the trap CSRs,
    with the cause constant selected for X, and goes back to phase 0. *)
Theorem rom_exception_commits_nothing i :
  outputs i load_exception = 1 ->
  (outputs i _z_reg_select = InstrReg.ZERO /\
   outputs i mem_rd = 0 /\ outputs i mem_wr = 0 /\
   outputs i z_to_csr = 0 /\
   outputs i set_instr_complete = 0 /\ outputs i exit_trap = 0 /\
   outputs i pc_mux_select = SeqMuxSelect.PC /\
   outputs i memaddr_mux_select = SeqMuxSelect.MEMADDR /\
   outputs i tmp_mux_select = SeqMuxSelect.TMP /\
   outputs i memdata_wr_mux_select = SeqMuxSelect.MEMDATA_WR) /\
  (outputs i next_exception = 1 /\
   outputs i load_trap = 1 /\ outputs i next_trap = 1 /\
   outputs i save_trap_csrs = 1 /\
   outputs i x_mux_select = SeqMuxSelect.CONST /\
   outputs i _next_instr_phase = 0).
Proof.
  rom_cases; intros H;
    first [absurd_output H | repeat split; reflexivity].
Qed.

Lemma rom_exception_commits_nothing_witness :
  (outputs rom_lh_misaligned _z_reg_select = InstrReg.ZERO /\
   outputs rom_lh_misaligned mem_rd = 0 /\
   outputs rom_lh_misaligned mem_wr = 0 /\
   outputs rom_lh_misaligned z_to_csr = 0 /\
   outputs rom_lh_misaligned set_instr_complete = 0 /\
   outputs rom_lh_misaligned exit_trap = 0 /\
   outputs rom_lh_misaligned pc_mux_select = SeqMuxSelect.PC /\
   outputs rom_lh_misaligned memaddr_mux_select = SeqMuxSelect.MEMADDR /\
   outputs rom_lh_misaligned tmp_mux_select = SeqMuxSelect.TMP /\
   outputs rom_lh_misaligned memdata_wr_mux_select
   = SeqMuxSelect.MEMDATA_WR) /\
  (outputs rom_lh_misaligned next_exception = 1 /\
   outputs rom_lh_misaligned load_trap = 1 /\
   outputs rom_lh_misaligned next_trap = 1 /\
   outputs rom_lh_misaligned save_trap_csrs = 1 /\
   outputs rom_lh_misaligned x_mux_select = SeqMuxSelect.CONST /\
   outputs rom_lh_misaligned _next_instr_phase = 0).
Proof.
  apply (rom_exception_commits_nothing rom_lh_misaligned). reflexivity.
Defined.

(** X2. The ROM raises the illegal-instruction exception in exactly the
    cases of [rom_illegal]; it is then fatal, with the instruction word
    selected for [mtval] and the PC for [mepc]. *)
Theorem rom_illegal_instruction_iff i :
  truthy (enable_sequencer_rom i) = true ->
  (outputs i load_exception = 1 /\
   outputs i _const = ConstSelect.EXC_ILLEGAL_INSTR
   <-> rom_illegal i = true) /\
  (rom_illegal i = true ->
   outputs i z_mux_select = SeqMuxSelect.INSTR /\
   outputs i y_mux_select = SeqMuxSelect.PC /\
   outputs i next_fatal = 1).
Proof.
  intros He. rom_unfold. rewrite He. branches.
  all: unfold rom_illegal; cbv zeta.
  all: unfold matches, alu_funcs, branch_conds in *; cbn [existsb] in *.
  all: repeat match goal with
              | H : (_ =? _) = true |- _ => apply Z.eqb_eq in H; rewrite ?H
              end.
  all: repeat match goal with
              | H : _ = true |- _ => rewrite H
              | H : _ = false |- _ => rewrite H
              end.
  all: closed_tests.
  all: try solve [ illegal_cases ].
  all: try solve [ repeat match goal with
                          | H : (_ =? _) = false |- _ => rewrite H in *
                          end;
                   cbn [negb orb andb] in *; discriminate ].
  all: repeat match goal with
              | |- context [_funct3 ?j =? ?c] =>
                  let E := fresh "E" in
                  destruct (_funct3 j =? c) eqn:E; rewrite ?E in *
              end.
  all: cbn [negb orb andb] in *.
  all: try discriminate.
  all: illegal_cases.
Qed.

Lemma rom_illegal_instruction_iff_witness :
  (outputs (rom_step OpcodeSelect.NONE 0 0 0) load_exception = 1 /\
   outputs (rom_step OpcodeSelect.NONE 0 0 0) _const
   = ConstSelect.EXC_ILLEGAL_INSTR
   <-> rom_illegal (rom_step OpcodeSelect.NONE 0 0 0) = true) /\
  (rom_illegal (rom_step OpcodeSelect.NONE 0 0 0) = true ->
   outputs (rom_step OpcodeSelect.NONE 0 0 0) z_mux_select
   = SeqMuxSelect.INSTR /\
   outputs (rom_step OpcodeSelect.NONE 0 0 0) y_mux_select
   = SeqMuxSelect.PC /\
   outputs (rom_step OpcodeSelect.NONE 0 0 0) next_fatal = 1).
Proof.
  apply (rom_illegal_instruction_iff (rom_step OpcodeSelect.NONE 0 0 0)).
  reflexivity.
Defined.

(** ** Completing an instruction *)

(** X3. The ROM moves the PC only when it completes an instruction, and
    then [memaddr] follows it: both take PC + 4, or Z, or X, or the PC takes
    [memaddr] (with or without its low bit) and [memaddr] holds.  A
    completed instruction returns to phase 0 and raises no exception. *)
Theorem rom_pc_moves_with_memaddr i :
  (outputs i set_instr_complete = 1 ->
   ((outputs i pc_mux_select = SeqMuxSelect.PC_PLUS_4 /\
     outputs i memaddr_mux_select = SeqMuxSelect.PC_PLUS_4) \/
    (outputs i pc_mux_select = SeqMuxSelect.Z /\
     outputs i memaddr_mux_select = SeqMuxSelect.Z) \/
    (outputs i pc_mux_select = SeqMuxSelect.X /\
     outputs i memaddr_mux_select = SeqMuxSelect.X) \/
    (outputs i pc_mux_select = SeqMuxSelect.MEMADDR_LSB_MASKED /\
     outputs i memaddr_mux_select = SeqMuxSelect.MEMADDR)) /\
   outputs i _next_instr_phase = 0 /\
   outputs i load_exception = 0) /\
  (outputs i set_instr_complete <> 1 ->
   outputs i set_instr_complete = 0 /\
   outputs i pc_mux_select = SeqMuxSelect.PC).
Proof.
  rom_cases; (split; intros H);
    first [ absurd_output H
          | now elim H
          | split; [|split; reflexivity];
            first [ left; split; reflexivity
                  | right; left; split; reflexivity
                  | right; right; left; split; reflexivity
                  | right; right; right; split; reflexivity ]
          | split; reflexivity ].
Qed.

Lemma rom_pc_moves_with_memaddr_witness :
  let i := rom_step OpcodeSelect.LUI 0 0 0 in
  ((outputs i pc_mux_select = SeqMuxSelect.PC_PLUS_4 /\
    outputs i memaddr_mux_select = SeqMuxSelect.PC_PLUS_4) \/
   (outputs i pc_mux_select = SeqMuxSelect.Z /\
    outputs i memaddr_mux_select = SeqMuxSelect.Z) \/
   (outputs i pc_mux_select = SeqMuxSelect.X /\
    outputs i memaddr_mux_select = SeqMuxSelect.X) \/
   (outputs i pc_mux_select = SeqMuxSelect.MEMADDR_LSB_MASKED /\
    outputs i memaddr_mux_select = SeqMuxSelect.MEMADDR)) /\
  outputs i _next_instr_phase = 0 /\
  outputs i load_exception = 0.
Proof.
  intros i. exact (proj1 (rom_pc_moves_with_memaddr i) eq_refl).
Defined.

(** ** Memory accesses *)

(** X4. The ROM asks for a memory write only in the last phase of a STORE,
    the phase that completes it, and for a memory read only in phase 1 of a
    LOAD; it never asks for both. *)
Theorem rom_memory_access i :
  (outputs i mem_wr = 1 ->
   opcode_select i = OpcodeSelect.STORE /\
   _instr_phase i <> 0 /\ _instr_phase i <> 1 /\
   outputs i set_instr_complete = 1 /\
   outputs i mem_rd = 0) /\
  (outputs i mem_rd = 1 ->
   opcode_select i = OpcodeSelect.LOAD /\
   _instr_phase i = 1 /\
   outputs i _next_instr_phase = 2 /\
   outputs i mem_wr = 0).
Proof.
  rom_cases; (split; intros H); try absurd_output H;
    repeat match goal with
           | E : (_ =? _) = true |- _ => apply Z.eqb_eq in E
           | E : (_ =? _) = false |- _ => apply Z.eqb_neq in E
           end;
    repeat split; solve [assumption | reflexivity].
Qed.

Lemma rom_memory_access_witness :
  let i := rom_step OpcodeSelect.STORE 2 MemAccessWidth.W 0 in
  opcode_select i = OpcodeSelect.STORE /\
  _instr_phase i <> 0 /\ _instr_phase i <> 1 /\
  outputs i set_instr_complete = 1 /\
  outputs i mem_rd = 0.
Proof.
  intros i. exact (proj1 (rom_memory_access i) eq_refl).
Defined.

(** ** Phases *)

(** X5. An enabled ROM step goes back to phase 0 or on to the next phase,
    and exactly when it goes back it has completed the instruction or
    raised an exception; there is no step beyond phase 2. *)
Theorem rom_phases_advance i :
  truthy (enable_sequencer_rom i) = true ->
  (outputs i _next_instr_phase = 0 \/
   (_instr_phase i = 0 /\ outputs i _next_instr_phase = 1) \/
   (_instr_phase i = 1 /\ outputs i _next_instr_phase = 2)) /\
  (outputs i _next_instr_phase = 0 <->
   outputs i set_instr_complete = 1 \/ outputs i load_exception = 1) /\
  (_instr_phase i <> 0 -> _instr_phase i <> 1 ->
   outputs i _next_instr_phase = 0).
Proof.
  intros He. rom_unfold. rewrite He.
  branches;
    repeat match goal with
           | E : (_ =? _) = true |- _ => apply Z.eqb_eq in E
           | E : (_ =? _) = false |- _ => apply Z.eqb_neq in E
           end;
    (split; [|split; [split|]]);
    first [ left; reflexivity
          | right; left; split; [assumption|reflexivity]
          | right; right; split; [assumption|reflexivity]
          | intros _; first [left; reflexivity | right; reflexivity]
          | intros H; first [reflexivity | absurd_output H]
          | intros [H|H]; first [reflexivity | absurd_output H]
          | intros H0 H1; first [reflexivity | contradiction] ].
Qed.

Lemma rom_phases_advance_witness :
  let i := rom_step OpcodeSelect.BRANCH 1 BranchCond.EQ 0 in
  (outputs i _next_instr_phase = 0 \/
   (_instr_phase i = 0 /\ outputs i _next_instr_phase = 1) \/
   (_instr_phase i = 1 /\ outputs i _next_instr_phase = 2)) /\
  (outputs i _next_instr_phase = 0 <->
   outputs i set_instr_complete = 1 \/ outputs i load_exception = 1) /\
  (_instr_phase i <> 0 -> _instr_phase i <> 1 ->
   outputs i _next_instr_phase = 0).
Proof.
  intros i. exact (rom_phases_advance i eq_refl).
Defined.

(** ** The byte lanes of LOAD and STORE *)

(** The two low address bits: one of 0, 1, 2, 3. *)
Lemma two_bits lsb : 0 <= lsb < 4 -> lsb = 0 \/ lsb = 1 \/ lsb = 2 \/ lsb = 3.
Proof. lia. Qed.

(** X6. The shift table of an aligned LOAD of [n] bytes at byte lane
    [lsb]: phase 1 reads memory onto X and shifts left by 32 - 8 * (lsb + n),
    which brings the addressed bytes to the top of the word; the last phase
    shifts [rd] right by 32 - 8 * n, arithmetically for LB and LH and
    logically for LBU, LHU and LW, and completes the instruction. *)
Theorem rom_load_shifts i :
  truthy (enable_sequencer_rom i) = true ->
  opcode_select i = OpcodeSelect.LOAD ->
  matches (_funct3 i)
    [MemAccessWidth.B; MemAccessWidth.BU; MemAccessWidth.H;
     MemAccessWidth.HU; MemAccessWidth.W] = true ->
  0 <= memaddr_2_lsb i < 4 ->
  memaddr_2_lsb i mod access_bytes (_funct3 i) = 0 ->
  (_instr_phase i = 1 ->
   outputs i mem_rd = 1 /\
   outputs i x_mux_select = SeqMuxSelect.MEMDATA_RD /\
   outputs i y_mux_select = SeqMuxSelect.CONST /\
   const_value (outputs i _const)
   = 32 - 8 * (memaddr_2_lsb i + access_bytes (_funct3 i)) /\
   outputs i alu_op_to_z = AluOp.SLL /\
   outputs i _z_reg_select = InstrReg.RD /\
   outputs i _next_instr_phase = 2) /\
  (_instr_phase i <> 0 -> _instr_phase i <> 1 ->
   outputs i reg_to_x = 1 /\
   outputs i _x_reg_select = InstrReg.RD /\
   outputs i y_mux_select = SeqMuxSelect.CONST /\
   const_value (outputs i _const) = 32 - 8 * access_bytes (_funct3 i) /\
   outputs i alu_op_to_z
   = (if matches (_funct3 i) [MemAccessWidth.B; MemAccessWidth.H]
      then AluOp.SRA else AluOp.SRL) /\
   outputs i _z_reg_select = InstrReg.RD /\
   outputs i set_instr_complete = 1).
Proof.
  intros He Ho Hf Hl Ha. unfold outputs.
  rewrite rom_dispatch, Ho by exact He. unfold handle_load. cbv zeta.
  assert (F : _funct3 i = MemAccessWidth.B \/ _funct3 i = MemAccessWidth.BU \/
              _funct3 i = MemAccessWidth.H \/ _funct3 i = MemAccessWidth.HU \/
              _funct3 i = MemAccessWidth.W).
  { unfold matches in Hf. cbn [existsb] in Hf.
    repeat (apply orb_true_iff in Hf; destruct Hf as [Hf|Hf]);
      try discriminate Hf; apply Z.eqb_eq in Hf; auto. }
  split.
  - intros Hp. rewrite Hp.
    destruct (two_bits _ Hl) as [L|[L|[L|L]]];
      destruct F as [F|[F|[F|[F|F]]]];
      rewrite F, L in *; try discriminate Ha;
      repeat split; reflexivity.
  - intros H0 H1.
    rewrite (proj2 (Z.eqb_neq _ _) H0), (proj2 (Z.eqb_neq _ _) H1).
    destruct F as [F|[F|[F|[F|F]]]]; rewrite F;
      repeat split; reflexivity.
Qed.

Lemma rom_load_shifts_witness :
  let i := rom_step OpcodeSelect.LOAD 1 MemAccessWidth.HU 2 in
  outputs i mem_rd = 1 /\
  outputs i x_mux_select = SeqMuxSelect.MEMDATA_RD /\
  outputs i y_mux_select = SeqMuxSelect.CONST /\
  const_value (outputs i _const)
  = 32 - 8 * (memaddr_2_lsb i + access_bytes (_funct3 i)) /\
  outputs i alu_op_to_z = AluOp.SLL /\
  outputs i _z_reg_select = InstrReg.RD /\
  outputs i _next_instr_phase = 2.
Proof.
  intros i.
  assert (He : truthy (enable_sequencer_rom i) = true) by reflexivity.
  assert (Ho : opcode_select i = OpcodeSelect.LOAD) by reflexivity.
  assert (Hf : matches (_funct3 i)
                 [MemAccessWidth.B; MemAccessWidth.BU; MemAccessWidth.H;
                  MemAccessWidth.HU; MemAccessWidth.W] = true)
    by reflexivity.
  assert (Hl : 0 <= memaddr_2_lsb i < 4) by (cbn; lia).
  assert (Ha : memaddr_2_lsb i mod access_bytes (_funct3 i) = 0)
    by reflexivity.
  exact (proj1 (rom_load_shifts i He Ho Hf Hl Ha) eq_refl).
Defined.

(** X7. The byte lanes of an aligned STORE of [n] bytes at lane [lsb]:
    phase 1 shifts [rs2] left by 8 * lsb into the memory write data; the last
    phase asks for the write with the [n] mask bits from bit [lsb] up and
    completes the instruction. *)
Theorem rom_store_lanes i :
  truthy (enable_sequencer_rom i) = true ->
  opcode_select i = OpcodeSelect.STORE ->
  matches (_funct3 i)
    [MemAccessWidth.B; MemAccessWidth.H; MemAccessWidth.W] = true ->
  0 <= memaddr_2_lsb i < 4 ->
  memaddr_2_lsb i mod access_bytes (_funct3 i) = 0 ->
  (_instr_phase i = 1 ->
   outputs i reg_to_x = 1 /\
   outputs i _x_reg_select = InstrReg.RS2 /\
   outputs i y_mux_select = SeqMuxSelect.CONST /\
   const_value (outputs i _const) = 8 * memaddr_2_lsb i /\
   outputs i alu_op_to_z = AluOp.SLL /\
   outputs i memdata_wr_mux_select = SeqMuxSelect.Z /\
   outputs i mem_wr = 0 /\
   outputs i _next_instr_phase = 2) /\
  (_instr_phase i <> 0 -> _instr_phase i <> 1 ->
   outputs i mem_wr = 1 /\
   outputs i mem_wr_mask
   = (2 ^ access_bytes (_funct3 i) - 1) * 2 ^ memaddr_2_lsb i /\
   outputs i _z_reg_select = InstrReg.ZERO /\
   outputs i set_instr_complete = 1).
Proof.
  intros He Ho Hf Hl Ha. unfold outputs.
  rewrite rom_dispatch, Ho by exact He. unfold handle_store. cbv zeta.
  assert (F : _funct3 i = MemAccessWidth.B \/ _funct3 i = MemAccessWidth.H \/
              _funct3 i = MemAccessWidth.W).
  { unfold matches in Hf. cbn [existsb] in Hf.
    repeat (apply orb_true_iff in Hf; destruct Hf as [Hf|Hf]);
      try discriminate Hf; apply Z.eqb_eq in Hf; auto. }
  split.
  - intros Hp. rewrite Hp.
    destruct (two_bits _ Hl) as [L|[L|[L|L]]];
      destruct F as [F|[F|F]];
      rewrite F, L in *; try discriminate Ha;
      repeat split; reflexivity.
  - intros H0 H1.
    rewrite (proj2 (Z.eqb_neq _ _) H0), (proj2 (Z.eqb_neq _ _) H1).
    destruct (two_bits _ Hl) as [L|[L|[L|L]]];
      destruct F as [F|[F|F]];
      rewrite F, L in *; try discriminate Ha;
      repeat split; reflexivity.
Qed.

Lemma rom_store_lanes_witness :
  let i := rom_step OpcodeSelect.STORE 2 MemAccessWidth.H 2 in
  outputs i mem_wr = 1 /\
  outputs i mem_wr_mask
  = (2 ^ access_bytes (_funct3 i) - 1) * 2 ^ memaddr_2_lsb i /\
  outputs i _z_reg_select = InstrReg.ZERO /\
  outputs i set_instr_complete = 1.
Proof.
  intros i.
  assert (He : truthy (enable_sequencer_rom i) = true) by reflexivity.
  assert (Ho : opcode_select i = OpcodeSelect.STORE) by reflexivity.
  assert (Hf : matches (_funct3 i)
                 [MemAccessWidth.B; MemAccessWidth.H; MemAccessWidth.W]
               = true) by reflexivity.
  assert (Hl : 0 <= memaddr_2_lsb i < 4) by (cbn; lia).
  assert (Ha : memaddr_2_lsb i mod access_bytes (_funct3 i) = 0)
    by reflexivity.
  assert (H0 : _instr_phase i <> 0) by (vm_compute; discriminate).
  assert (H1 : _instr_phase i <> 1) by (vm_compute; discriminate).
  exact (proj2 (rom_store_lanes i He Ho Hf Hl Ha) H0 H1).
Defined.

(** ** CSR writes that do not read *)

(** X8. CSRRW and CSRRWI with [rd] = x0 write the CSR without reading it:
    [csr_to_x] stays low and x0 is put on X; with any other [rd] the CSR is
    read onto X.  Either way Z goes to the CSR and X to [tmp]. *)
Theorem rom_csrrw_reads_unless_rd0 i :
  truthy (enable_sequencer_rom i) = true ->
  opcode_select i = OpcodeSelect.CSRS ->
  _funct3 i = SystemFunc.CSRRW \/ _funct3 i = SystemFunc.CSRRWI ->
  _instr_phase i = 0 ->
  (truthy (rd0 i) = true ->
   outputs i csr_to_x = 0 /\ outputs i reg_to_x = 1 /\
   outputs i _x_reg_select = InstrReg.ZERO) /\
  (truthy (rd0 i) = false ->
   outputs i csr_to_x = 1 /\ outputs i reg_to_x = 0) /\
  outputs i z_to_csr = 1 /\
  outputs i _funct12_to_csr_num = 1 /\
  outputs i alu_op_to_z = AluOp.Y /\
  outputs i tmp_mux_select = SeqMuxSelect.X /\
  outputs i _next_instr_phase = 1.
Proof.
  intros He Ho Hf Hp. unfold outputs.
  rewrite rom_dispatch, Ho by exact He.
  unfold handle_csrs, handle_CSRRW, handle_CSRRWI. cbv zeta.
  destruct Hf as [F|F]; rewrite F, Hp; cbn [Z.eqb Pos.eqb];
    destruct (truthy (rd0 i));
    (split; [|split]);
    first [ intros _; repeat split; reflexivity
          | intros H; discriminate H
          | repeat split; reflexivity ].
Qed.

Lemma rom_csrrw_reads_unless_rd0_witness :
  outputs rom_csrrw_rd0 csr_to_x = 0 /\
  outputs rom_csrrw_rd0 reg_to_x = 1 /\
  outputs rom_csrrw_rd0 _x_reg_select = InstrReg.ZERO.
Proof.
  assert (He : truthy (enable_sequencer_rom rom_csrrw_rd0) = true)
    by reflexivity.
  assert (Ho : opcode_select rom_csrrw_rd0 = OpcodeSelect.CSRS)
    by reflexivity.
  assert (Hf : _funct3 rom_csrrw_rd0 = SystemFunc.CSRRW \/
               _funct3 rom_csrrw_rd0 = SystemFunc.CSRRWI)
    by (left; reflexivity).
  assert (Hp : _instr_phase rom_csrrw_rd0 = 0) by reflexivity.
  exact (proj1 (rom_csrrw_reads_unless_rd0 rom_csrrw_rd0 He Ho Hf Hp)
           eq_refl).
Defined.

End RomBehaviour.

(** * More on the sequencer card *)

Module CardBehaviour.
Import SequencerCard CardFacts.

(** ** What the card never leaves *)

Lemma run_app st l1 l2 : run st (l1 ++ l2) = run (run st l1) l2.
Proof. apply fold_left_app. Qed.



(** The outputs of the halted card. *)
Lemma halted_outputs st i :
  st trap <> 0 -> st _instr_phase <> 0 -> st _exception <> 0 ->
  outputs st i fatal = 1 /\ outputs st i mem_rd = 0 /\
  outputs st i mem_wr = 0 /\ outputs st i z_reg = 0 /\
  outputs st i z_to_csr = 0 /\ outputs st i instr_complete = 0.
Proof.
  intros Ht Hp He. unfold outputs.
  assert (F : forall r, r <> _trap_cause -> write_half st i r = st r)
    by (intros r Hr; now apply trap_write_half_frame).
  rewrite <- (F trap) in Ht by discriminate.
  rewrite <- (F _instr_phase) in Hp by discriminate.
  rewrite <- (F _exception) in He by discriminate.
  set (s := write_half st i) in *. clearbody s.
  set (j := with_mcycle_end 1 i). clearbody j.
  pose proof (eqb_0_false _ He) as He'.
  repeat split.
  - to_ctl. rewrite trap1_ctl, He' by assumption. reflexivity.
  - rewrite settled_fetch by reflexivity.
    rewrite trap_fetch by assumption.
    change (comb_of (defaults s ++ [] ++ handlers s j)) with (ctl s j).
    rewrite trap1_ctl, He' by assumption. reflexivity.
  - to_ctl. rewrite trap1_ctl, He' by assumption. reflexivity.
  - to_ctl. rewrite trap1_ctl, He' by assumption. reflexivity.
  - to_ctl. rewrite trap1_ctl, He' by assumption. reflexivity.
  - rewrite (settled_last_cycle s j instr_complete eq_refl).
    rewrite trap_last_cycle by assumption. reflexivity.
Qed.

(** X10. The fatal halt is permanent: a card in phase 1 of trap entry
    with the exception flag set stays there over any number of machine
    cycles, whatever the inputs; the PC, the trap flag and the exception
    flag keep their values, and in every cycle [fatal] is high while the
    card reads and writes no memory, names no register to write, writes no
    CSR and completes no instruction. *)
Theorem fatal_halt_forever (st : SequencerState) (l : list Inputs) :
  st trap <> 0 -> st _instr_phase <> 0 -> st _exception <> 0 ->
  run st l trap = st trap /\
  run st l _exception = st _exception /\
  run st l _pc = st _pc /\
  run st l _instr_phase <> 0 /\
  forall i,
    outputs (run st l) i fatal = 1 /\
    outputs (run st l) i mem_rd = 0 /\
    outputs (run st l) i mem_wr = 0 /\
    outputs (run st l) i z_reg = 0 /\
    outputs (run st l) i z_to_csr = 0 /\
    outputs (run st l) i instr_complete = 0.
Proof.
  intros Ht Hp He.
  assert (R : run st l trap = st trap /\ run st l _exception = st _exception
              /\ run st l _pc = st _pc /\ run st l _instr_phase <> 0).
  { revert st Ht Hp He. induction l as [|j l IH]; intros st Ht Hp He.
    - repeat split; assumption.
    - cbn [run fold_left].
      destruct (proj1 (trap1_cycle st j Ht Hp) He)
        as (_ & _ & P & T & E & Q).
      destruct (IH (machine_cycle st j)) as (A & B & C & D).
      + rewrite T. exact Ht.
      + rewrite Q. discriminate.
      + rewrite E. exact He.
      + unfold run in *. rewrite A, B, C, T, E, P.
        repeat split; try reflexivity. exact D. }
  destruct R as (A & B & C & D).
  split; [exact A|]. split; [exact B|]. split; [exact C|].
  split; [exact D|].
  intros i. apply halted_outputs.
  - rewrite A. exact Ht.
  - exact D.
  - rewrite B. exact He.
Qed.

Lemma fatal_halt_forever_witness :
  let l := [buses 0 0 0x400; buses 1 2 3] in
  run load_trap_entry l trap = load_trap_entry trap /\
  run load_trap_entry l _exception = load_trap_entry _exception /\
  run load_trap_entry l _pc = load_trap_entry _pc /\
  run load_trap_entry l _instr_phase <> 0 /\
  forall i,
    outputs (run load_trap_entry l) i fatal = 1 /\
    outputs (run load_trap_entry l) i mem_rd = 0 /\
    outputs (run load_trap_entry l) i mem_wr = 0 /\
    outputs (run load_trap_entry l) i z_reg = 0 /\
    outputs (run load_trap_entry l) i z_to_csr = 0 /\
    outputs (run load_trap_entry l) i instr_complete = 0.
Proof.
  intros l.
  assert (Ht : load_trap_entry trap <> 0) by (vm_compute; lia).
  assert (Hp : load_trap_entry _instr_phase <> 0) by (vm_compute; lia).
  assert (He : load_trap_entry _exception <> 0) by (vm_compute; lia).
  exact (fatal_halt_forever load_trap_entry l Ht Hp He).
Defined.

(** ** The decoded immediate *)

(** The top bit of an [n]-bit pattern. *)
Lemma testbit_top n x :
  0 < n -> 0 <= x < 2 ^ n -> Z.testbit x (n - 1) = (2 ^ (n - 1) <=? x).
Proof.
  intros Hn Hx.
  assert (P : 2 ^ n = 2 * 2 ^ (n - 1)).
  { replace n with (Z.succ (n - 1)) at 1 by lia. apply Z.pow_succ_r. lia. }
  assert (Q : 0 < 2 ^ (n - 1)) by (apply Z.pow_pos_nonneg; lia).
  replace (n - 1) with (0 + (n - 1)) at 1 by lia.
  rewrite <- Z.shiftr_spec, Z.shiftr_div_pow2, Z.bit0_odd by lia.
  destruct (2 ^ (n - 1) <=? x) eqn:E.
  - apply Z.leb_le in E.
    replace (x / 2 ^ (n - 1)) with 1; [reflexivity|].
    apply Z.div_unique with (r := x - 2 ^ (n - 1)); lia.
  - apply Z.leb_gt in E. now rewrite Z.div_small by lia.
Qed.

Lemma as_signed_range n x :
  0 < n -> 0 <= x < 2 ^ n ->
  - 2 ^ (n - 1) <= as_signed n x < 2 ^ (n - 1).
Proof.
  intros Hn Hx. unfold as_signed. rewrite testbit_top by assumption.
  assert (P : 2 ^ n = 2 * 2 ^ (n - 1)).
  { replace n with (Z.succ (n - 1)) at 1 by lia. apply Z.pow_succ_r. lia. }
  destruct (2 ^ (n - 1) <=? x) eqn:E;
    [apply Z.leb_le in E | apply Z.leb_gt in E]; lia.
Qed.

(** Assigning a signed value to the 32-bit [_imm] and reading it back as
    signed gives the value. *)
Lemma sign_extend v :
  - 2 ^ 31 <= v < 2 ^ 31 -> as_signed 32 (trunc 32 v) = v.
Proof.
  intros Hv. unfold as_signed, trunc.
  pose proof (Z.mod_pos_bound v (2 ^ 32) ltac:(lia)) as B.
  rewrite (testbit_top 32) by lia.
  change (32 - 1) with 31.
  destruct (Z_lt_le_dec v 0) as [N|N].
  - replace (v mod 2 ^ 32) with (v + 2 ^ 32).
    + replace (2 ^ 31 <=? v + 2 ^ 32) with true; [lia|].
      symmetry. apply Z.leb_le. lia.
    + symmetry. rewrite <- (Z.mod_add v 1 (2 ^ 32)) by lia.
      rewrite Z.mod_small; lia.
  - rewrite Z.mod_small by lia.
    replace (2 ^ 31 <=? v) with false; [reflexivity|].
    symmetry. apply Z.leb_gt. lia.
Qed.

Lemma lor_range a b n :
  0 <= n -> 0 <= a < 2 ^ n -> 0 <= b < 2 ^ n -> 0 <= Z.lor a b < 2 ^ n.
Proof.
  intros Hn Ha Hb. split; [apply Z.lor_nonneg; lia|].
  destruct (Z.eq_dec a 0) as [A|A]; [subst; rewrite Z.lor_0_l; lia|].
  destruct (Z.eq_dec b 0) as [B|B]; [subst; rewrite Z.lor_0_r; lia|].
  assert (0 <= Z.lor a b) by (apply Z.lor_nonneg; lia).
  assert (Z.lor a b <> 0) by (rewrite Z.lor_eq_0_iff; lia).
  apply Z.log2_lt_pow2; [lia|].
  rewrite Z.log2_lor by lia.
  apply Z.max_lub_lt; apply Z.log2_lt_pow2; lia.
Qed.

Lemma shiftl_range a k n :
  0 <= k <= n -> 0 <= a < 2 ^ (n - k) -> 0 <= Z.shiftl a k < 2 ^ n.
Proof.
  intros Hk Ha. rewrite Z.shiftl_mul_pow2 by lia.
  assert (E : 2 ^ n = 2 ^ (n - k) * 2 ^ k).
  { rewrite <- Z.pow_add_r by lia. f_equal. lia. }
  assert (0 < 2 ^ k) by (apply Z.pow_pos_nonneg; lia).
  rewrite E. nia.
Qed.

(** Evaluate the closed powers of 2 in the goal and the hypotheses. *)
Ltac closed_powers :=
  repeat match goal with
         | |- context [2 ^ ?e] =>
             let v := eval vm_compute in (2 ^ e) in
             lazymatch v with Zpos _ => change (2 ^ e) with v end
         | H : context [2 ^ ?e] |- _ =>
             let v := eval vm_compute in (2 ^ e) in
             lazymatch v with Zpos _ => change (2 ^ e) with v in H end
         end.

(** The bound of a field shifted into place. *)
Ltac field_bound := apply shiftl_range; [lia | closed_powers; lia].

(** A signed temporary keeps its low bit when it is assigned to [_imm]. *)
Lemma low_bit_kept n x :
  1 < n -> Z.testbit x 0 = false ->
  trunc 32 (as_signed n x) mod 2 = 0.
Proof.
  intros Hn Hx. unfold trunc.
  change ((as_signed n x mod 2 ^ 32) mod 2 ^ 1 = 0).
  rewrite low_bits_of_low_bits by lia. change (2 ^ 1) with 2.
  assert (E : x mod 2 = 0) by (rewrite <- Z.bit0_mod, Hx; reflexivity).
  unfold as_signed. destruct (Z.testbit x (n - 1)); [|exact E].
  replace (2 ^ n) with (2 ^ (n - 1) * 2).
  - rewrite <- Z.add_opp_r, <- Z.mul_opp_l, Z.mod_add by lia. exact E.
  - rewrite Z.mul_comm, <- Z.pow_succ_r by lia. f_equal. lia.
Qed.

(** X11. The immediates [decode_imm] produces, read as signed 32-bit
    values: the I immediate is the sign extension of [instr[31:20]] and the S
    immediate lies in the same 12-bit range; the B and J immediates are even
    and lie within 13 and 21 bits; the U immediate is [instr[31:12]] times
    4096; the SYS immediate is the five bits [instr[19:15]], zero-extended;
    the R format and an unknown format give 0. *)
Theorem decode_imm_shapes (w : Z) :
  (as_signed 32 (decode_imm OpcodeFormat.I w)
   = as_signed 12 (bits 20 32 w) /\
   - 2048 <= as_signed 32 (decode_imm OpcodeFormat.I w) < 2048) /\
  (as_signed 32 (decode_imm OpcodeFormat.S w)
   = as_signed 12 (Z.lor (bits 7 12 w) (Z.shiftl (bits 25 32 w) 5)) /\
   - 2048 <= as_signed 32 (decode_imm OpcodeFormat.S w) < 2048) /\
  (decode_imm OpcodeFormat.B w mod 2 = 0 /\
   - 4096 <= as_signed 32 (decode_imm OpcodeFormat.B w) < 4096) /\
  (decode_imm OpcodeFormat.J w mod 2 = 0 /\
   - 1048576 <= as_signed 32 (decode_imm OpcodeFormat.J w) < 1048576) /\
  decode_imm OpcodeFormat.U w = 4096 * bits 12 32 w /\
  decode_imm OpcodeFormat.SYS w = bits 15 20 w /\
  decode_imm OpcodeFormat.R w = 0 /\
  (forall f, f < 0 \/ 6 < f -> decode_imm f w = 0).
Proof.
  pose proof (bits_range 20 32 w ltac:(lia)) as R1.
  pose proof (bits_range 7 12 w ltac:(lia)) as R2.
  pose proof (bits_range 25 32 w ltac:(lia)) as R3.
  pose proof (bits_range 25 31 w ltac:(lia)) as R4.
  pose proof (bits_range 8 12 w ltac:(lia)) as R5.
  pose proof (bits_range 12 20 w ltac:(lia)) as R6.
  pose proof (bits_range 21 31 w ltac:(lia)) as R7.
  pose proof (bit_range 31 w) as B31. pose proof (bit_range 7 w) as B7.
  pose proof (bit_range 20 w) as B20.
  assert (S12 : 0 <= Z.lor (bits 7 12 w) (Z.shiftl (bits 25 32 w) 5)
                < 2 ^ 12).
  { apply lor_range; [lia| closed_powers; lia | field_bound]. }
  set (b := Z.lor (Z.shiftl (bit 31 w) 12)
              (Z.lor (Z.shiftl (bit 7 w) 11)
                 (Z.lor (Z.shiftl (bits 25 31 w) 5)
                    (Z.shiftl (bits 8 12 w) 1)))).
  assert (B13 : 0 <= b < 2 ^ 13).
  { unfold b.
    apply lor_range; [lia | field_bound |].
    apply lor_range; [lia | field_bound |].
    apply lor_range; [lia | field_bound | field_bound]. }
  assert (B0 : Z.testbit b 0 = false).
  { unfold b. rewrite !Z.lor_spec, !Z.shiftl_spec_low by lia. reflexivity. }
  set (j := Z.lor (Z.shiftl (bit 31 w) 20)
              (Z.lor (Z.shiftl (bits 12 20 w) 12)
                 (Z.lor (Z.shiftl (bit 20 w) 11)
                    (Z.shiftl (bits 21 31 w) 1)))).
  assert (J21 : 0 <= j < 2 ^ 21).
  { unfold j.
    apply lor_range; [lia | field_bound |].
    apply lor_range; [lia | field_bound |].
    apply lor_range; [lia | field_bound | field_bound]. }
  assert (J0 : Z.testbit j 0 = false).
  { unfold j. rewrite !Z.lor_spec, !Z.shiftl_spec_low by lia. reflexivity. }
  pose proof (as_signed_range 12 (bits 20 32 w) ltac:(lia) R1) as A1.
  pose proof (as_signed_range 12 _ ltac:(lia) S12) as A2.
  pose proof (as_signed_range 13 b ltac:(lia) B13) as A3.
  pose proof (as_signed_range 21 j ltac:(lia) J21) as A4.
  closed_powers.
  unfold decode_imm. cbn [Z.eqb Pos.eqb OpcodeFormat.I OpcodeFormat.S
    OpcodeFormat.B OpcodeFormat.J OpcodeFormat.U OpcodeFormat.SYS
    OpcodeFormat.R].
  fold b. fold j.
  rewrite !sign_extend by (closed_powers; lia).
  split; [split; [reflexivity|exact A1]|].
  split; [split; [reflexivity|exact A2]|].
  split; [split; [now apply low_bit_kept|exact A3]|].
  split; [split; [now apply low_bit_kept|exact A4]|].
  split; [rewrite Z.shiftl_mul_pow2 by lia; closed_powers; lia|].
  split.
  { unfold bits. change (32 - 15) with 17. change (20 - 15) with 5.
    rewrite <- Z.land_ones by lia. rewrite <- Z.land_assoc.
    f_equal. }
  split; [reflexivity|].
  intros f Hf.
  repeat match goal with
         | |- context [f =? ?c] =>
             let E := fresh in
             destruct (f =? c) eqn:E;
             [apply Z.eqb_eq in E; cbv in E; lia|]
         end.
  reflexivity.
Qed.

(** ** From the registers before a machine cycle to the clock edge *)

(** In the write half the latch holds the word [executing] names. *)
Lemma write_half_executing st i :
  write_half st i _instr = executing st i.
Proof. apply write_half_fetch. Qed.

(** State a goal about a machine cycle of [st] on the registers [s] in its
    write half: [s] agrees with [st] except for the instruction latch, which
    holds [executing st i], and the two [ph2] registers. *)
Ltac lift st i s :=
  unfold machine_cycle, outputs;
  let F := fresh "F" in
  pose proof (write_half_frame st i) as F;
  repeat match goal with
         | H : context [st ?r] |- _ => rewrite <- (F r) in H by discriminate
         | |- context [st ?r] => rewrite <- (F r) by discriminate
         end;
  rewrite <- ?(write_half_executing st i) in *;
  clear F;
  set (s := write_half st i) in *; clearbody s.

(** ** Words the card does not decode *)

Lemma undecodable_handlers st i :
  st trap = 0 -> bits 0 2 (st _pc) = 0 ->
  undecodable (st _instr) = true ->
  handlers st i = handle_illegal_instr st.
Proof.
  intros Ht Hpc Hu. unfold handlers, dispatch.
  rewrite Ht, (aligned_not_misalign st Hpc).
  change (truthy 0) with false. cbn [negb]. cbv iota.
  unfold undecodable, opcodes in Hu. cbn [existsb] in Hu.
  destruct (bits 0 16 (st _instr) =? 0); [reflexivity|].
  destruct (st _instr =? 0xFFFFFFFF); [reflexivity|].
  cbn [orb] in Hu. apply negb_true_iff in Hu.
  repeat (apply orb_false_iff in Hu; destruct Hu as [E Hu];
          rewrite E; clear E).
  reflexivity.
Qed.

Lemma undecodable_tick st i :
  st trap = 0 -> bits 0 2 (st _pc) = 0 ->
  undecodable (st _instr) = true ->
  tick Dph1 st i trap = 1 /\
  tick Dph1 st i _mepc = trunc 32 (st _pc) /\
  tick Dph1 st i _mtval = trunc 32 (st _instr) /\
  tick Dph1 st i _pc = st _pc /\
  tick Dph1 st i _instr_phase = 0 /\
  settled st i z_reg = 0 /\ settled st i mem_wr = 0 /\
  settled st i z_to_csr = 0 /\ settled st i instr_complete = 0 /\
  tick Dph2 st i _exception = 1 /\
  tick Dph2 st i _trap_cause = TrapCause.EXC_ILLEGAL_INSTR.
Proof.
  intros Ht Hpc Hu.
  pose proof (undecodable_handlers st i Ht Hpc Hu) as HL.
  pose proof (ctl_eq st i _ HL) as HC.
  pose proof (aligned_not_misalign st Hpc) as Hal.
  assert (HN : ctl st i _is_last_instr_cycle = 0) by (now rewrite HC).
  destruct (not_last_cycle st i HN) as [HLC HI].
  repeat split.
  - rewrite tick_trap, HL. reflexivity.
  - rewrite tick_csr_b, HL by reflexivity. reflexivity.
  - rewrite tick_csr_b, HL by reflexivity. reflexivity.
  - rewrite tick_pc. unfold pc_update.
    rewrite (settled_last_cycle st i _pc_plus_4_to_pc eq_refl), HLC.
    to_ctl. rewrite HC. reflexivity.
  - rewrite tick_instr_phase, settled_fetch by reflexivity. rewrite HL.
    unfold fetch. rewrite Hal, HI.
    destruct (all_true _); reflexivity.
  - to_ctl. now rewrite HC.
  - to_ctl. now rewrite HC.
  - to_ctl. now rewrite HC.
  - rewrite (settled_last_cycle st i instr_complete eq_refl), HLC.
    reflexivity.
  - rewrite tick_ph2_blocks, HL, fetch_no_ph2 by assumption. reflexivity.
  - rewrite tick_ph2_blocks, HL, fetch_no_ph2 by assumption. reflexivity.
Qed.

(** The two [ph2] registers after a machine cycle are those loaded on the
    second rising edge of [ph2]. *)
Lemma cycle_ph2 st i r :
  existsb (Reg_beq r) ph2_regs = true ->
  machine_cycle st i r
  = tick Dph2 (read_half st i) (with_mcycle_end 0 i) r.
Proof.
  intros H. unfold machine_cycle.
  rewrite tick_ph1_keeps_ph2 by exact H. now rewrite write_half_read_half.
Qed.

Lemma read_half_executing st i : read_half st i _instr = executing st i.
Proof. rewrite read_half_instr. apply write_half_fetch. Qed.

(** The same for the registers before the second rising edge of [ph2]. *)
Ltac lift_read st i s :=
  let F := fresh "F" in
  pose proof (read_half_frame st i) as F;
  repeat match goal with
         | H : context [st ?r] |- _ => rewrite <- (F r) in H by discriminate
         | |- context [st ?r] => rewrite <- (F r) by discriminate
         end;
  rewrite <- ?(read_half_executing st i) in *;
  clear F;
  set (s := read_half st i) in *; clearbody s.

(** X12. A word the card does not decode - its low 16 bits all zero, all
    its bits one, or an opcode outside the ten dispatched on, FENCE among
    them - raises the illegal-instruction exception in whatever phase it is
    met: [mtval] takes the word and [mepc] the PC; the PC keeps its value,
    the phase returns to 0, and the cycle names no register to write, writes
    no memory and no CSR and completes no instruction. *)
Theorem undecodable_word_traps (st : SequencerState) (i : Inputs) :
  st trap = 0 -> bits 0 2 (st _pc) = 0 ->
  undecodable (executing st i) = true ->
  machine_cycle st i trap = 1 /\
  machine_cycle st i _exception = 1 /\
  machine_cycle st i _trap_cause = TrapCause.EXC_ILLEGAL_INSTR /\
  machine_cycle st i _mepc = trunc 32 (st _pc) /\
  machine_cycle st i _mtval = trunc 32 (executing st i) /\
  machine_cycle st i _pc = st _pc /\
  machine_cycle st i _instr_phase = 0 /\
  outputs st i z_reg = 0 /\ outputs st i mem_wr = 0 /\
  outputs st i z_to_csr = 0 /\ outputs st i instr_complete = 0.
Proof.
  intros Ht Hpc Hu.
  assert (L2 : machine_cycle st i _exception = 1 /\
               machine_cycle st i _trap_cause = TrapCause.EXC_ILLEGAL_INSTR).
  { rewrite !cycle_ph2 by reflexivity. lift_read st i s.
    destruct (undecodable_tick s (with_mcycle_end 0 i) Ht Hpc Hu)
      as (_ & _ & _ & _ & _ & _ & _ & _ & _ & E & C).
    split; [exact E|exact C]. }
  destruct L2 as [E C]. rewrite E, C. clear E C.
  lift st i s.
  destruct (undecodable_tick s (with_mcycle_end 1 i) Ht Hpc Hu)
    as (T & P & V & K & N & Z1 & Z2 & Z3 & Z4 & _).
  split; [exact T|]. split; [reflexivity|]. split; [reflexivity|].
  split; [exact P|]. split; [exact V|]. split; [exact K|].
  split; [exact N|]. split; [exact Z1|]. split; [exact Z2|].
  split; [exact Z3|exact Z4].
Qed.

Lemma undecodable_word_traps_witness :
  let st := fetch_at_0x100 in
  let i := buses 0 0 fence in
  machine_cycle st i trap = 1 /\
  machine_cycle st i _exception = 1 /\
  machine_cycle st i _trap_cause = TrapCause.EXC_ILLEGAL_INSTR /\
  machine_cycle st i _mepc = trunc 32 (st _pc) /\
  machine_cycle st i _mtval = trunc 32 (executing st i) /\
  machine_cycle st i _pc = st _pc /\
  machine_cycle st i _instr_phase = 0 /\
  outputs st i z_reg = 0 /\ outputs st i mem_wr = 0 /\
  outputs st i z_to_csr = 0 /\ outputs st i instr_complete = 0.
Proof.
  intros st i.
  assert (Ht : st trap = 0) by reflexivity.
  assert (Hpc : bits 0 2 (st _pc) = 0) by reflexivity.
  assert (Hu : undecodable (executing st i) = true) by reflexivity.
  exact (undecodable_word_traps st i Ht Hpc Hu).
Defined.

(** ** A misaligned PC *)

Lemma misaligned_pc st :
  st trap = 0 -> bits 0 2 (st _pc) <> 0 -> instr_misalign st = true.
Proof.
  intros Ht Hpc. unfold instr_misalign, all_true. cbn [forallb].
  now rewrite (eqb_0_false _ Hpc), Ht.
Qed.

Lemma misaligned_pc_handlers st i :
  st trap = 0 -> bits 0 2 (st _pc) <> 0 -> handlers st i = [].
Proof.
  intros Ht Hpc. unfold handlers, dispatch.
  rewrite Ht, (misaligned_pc st Ht Hpc). reflexivity.
Qed.

Lemma misaligned_pc_fetching st :
  bits 0 2 (st _pc) <> 0 -> fetching st = false.
Proof.
  intros Hpc. unfold fetching. rewrite (eqb_0_false _ Hpc).
  now rewrite andb_false_r.
Qed.

Lemma misaligned_pc_tick st i :
  st trap = 0 -> bits 0 2 (st _pc) <> 0 ->
  tick Dph1 st i trap = 1 /\
  tick Dph1 st i _mepc = trunc 32 (st _pc) /\
  tick Dph1 st i _mtval = trunc 32 (st _pc) /\
  tick Dph1 st i _pc = st _pc /\
  tick Dph1 st i memaddr = st memaddr /\
  tick Dph1 st i _instr_phase = 0 /\
  (forall sig, settled st i sig = comb_of (defaults st) sig) /\
  tick Dph2 st i _exception = 1 /\
  tick Dph2 st i _trap_cause = TrapCause.EXC_INSTR_ADDR_MISALIGN.
Proof.
  intros Ht Hpc.
  pose proof (misaligned_pc_handlers st i Ht Hpc) as HL.
  pose proof (ctl_eq st i _ HL) as HC.
  pose proof (misaligned_pc st Ht Hpc) as Hm.
  assert (HN : ctl st i _is_last_instr_cycle = 0) by (now rewrite HC).
  destruct (not_last_cycle st i HN) as [HLC HI].
  assert (HF : fetch st i
               = set_exception st TrapCause.EXC_INSTR_ADDR_MISALIGN (st _pc))
    by (unfold fetch; now rewrite Hm).
  assert (HM : muxes st i = []).
  { unfold muxes, x_mux, y_mux, z_mux, csr_num_mux. rewrite HC. reflexivity. }
  repeat split.
  - rewrite tick_trap, HL, HF. reflexivity.
  - rewrite tick_csr_b, HL, HF by reflexivity.
    unfold csr_update. to_ctl. rewrite HC. reflexivity.
  - rewrite tick_csr_b, HL, HF by reflexivity.
    unfold csr_update. to_ctl. rewrite HC. reflexivity.
  - rewrite tick_pc. unfold pc_update.
    rewrite (settled_last_cycle st i _pc_plus_4_to_pc eq_refl), HLC.
    to_ctl. rewrite HC. reflexivity.
  - rewrite tick_memaddr. unfold memaddr_update.
    rewrite (settled_last_cycle st i _pc_plus_4_to_memaddr eq_refl), HLC.
    to_ctl. rewrite HC. reflexivity.
  - rewrite tick_instr_phase, settled_fetch by reflexivity.
    rewrite HL, HF. reflexivity.
  - intros sig. unfold settled. rewrite HLC, HF, HM, HL.
    destruct sig; reflexivity.
  - rewrite tick_ph2_blocks, HL, HF. reflexivity.
  - rewrite tick_ph2_blocks, HL, HF. reflexivity.
Qed.

(** X13. With a PC that is not a multiple of 4 the card runs no
    instruction: the cycle raises the instruction-address-misaligned
    exception with the PC for [mtval] and [mepc]; the latch keeps the word it
    holds, the PC and [memaddr] keep their values, and the outputs name no
    register, ask for no ALU operation, no memory access and no CSR write,
    and complete no instruction. *)
Theorem misaligned_pc_traps (st : SequencerState) (i : Inputs) :
  st trap = 0 -> bits 0 2 (st _pc) <> 0 ->
  (machine_cycle st i trap = 1 /\
   machine_cycle st i _exception = 1 /\
   machine_cycle st i _trap_cause = TrapCause.EXC_INSTR_ADDR_MISALIGN /\
   machine_cycle st i _mepc = trunc 32 (st _pc) /\
   machine_cycle st i _mtval = trunc 32 (st _pc)) /\
  (machine_cycle st i _instr = st _instr /\
   machine_cycle st i _pc = st _pc /\
   machine_cycle st i memaddr = st memaddr /\
   machine_cycle st i _instr_phase = 0) /\
  (outputs st i mem_rd = 0 /\ outputs st i mem_wr = 0 /\
   outputs st i reg_to_x = 0 /\ outputs st i reg_to_y = 0 /\
   outputs st i alu_op_to_z = AluOp.NONE /\
   outputs st i z_reg = 0 /\ outputs st i z_to_csr = 0 /\
   outputs st i instr_complete = 0).
Proof.
  intros Ht Hpc.
  assert (L2 : machine_cycle st i _exception = 1 /\
               machine_cycle st i _trap_cause
               = TrapCause.EXC_INSTR_ADDR_MISALIGN).
  { rewrite !cycle_ph2 by reflexivity. lift_read st i s.
    destruct (misaligned_pc_tick s (with_mcycle_end 0 i) Ht Hpc)
      as (_ & _ & _ & _ & _ & _ & _ & E & C).
    split; [exact E|exact C]. }
  destruct L2 as [E C]. rewrite E, C. clear E C.
  assert (LI : machine_cycle st i _instr = st _instr).
  { unfold machine_cycle. rewrite tick_ph1_blocks.
    rewrite (frame _ (handlers _ _) _ _ _ _ _ (handlers_fp _ _)) by reflexivity.
    rewrite (frame _ (registers _ _) _ _ _ _ _ (registers_fp _ _))
      by reflexivity.
    rewrite (frame _ (fetch _ _) _ _ _ _ _ (fetch_fp _ _)) by reflexivity.
    rewrite (frame _ (irq_latch _ _) _ _ _ _ _ (irq_latch_fp _ _))
      by reflexivity.
    rewrite write_half_fetch. now rewrite misaligned_pc_fetching. }
  rewrite LI. clear LI.
  lift st i s.
  destruct (misaligned_pc_tick s (with_mcycle_end 1 i) Ht Hpc)
    as (T & P & V & K & M & N & O & _).
  split; [|split].
  - split; [exact T|]. split; [reflexivity|]. split; [reflexivity|].
    split; [exact P|exact V].
  - split; [reflexivity|]. split; [exact K|]. split; [exact M|exact N].
  - rewrite !O. repeat split; reflexivity.
Qed.

Lemma misaligned_pc_traps_witness :
  let st := pc_0x102 in
  let i := buses 0 0 0x00000013 in
  (machine_cycle st i trap = 1 /\
   machine_cycle st i _exception = 1 /\
   machine_cycle st i _trap_cause = TrapCause.EXC_INSTR_ADDR_MISALIGN /\
   machine_cycle st i _mepc = trunc 32 (st _pc) /\
   machine_cycle st i _mtval = trunc 32 (st _pc)) /\
  (machine_cycle st i _instr = st _instr /\
   machine_cycle st i _pc = st _pc /\
   machine_cycle st i memaddr = st memaddr /\
   machine_cycle st i _instr_phase = 0) /\
  (outputs st i mem_rd = 0 /\ outputs st i mem_wr = 0 /\
   outputs st i reg_to_x = 0 /\ outputs st i reg_to_y = 0 /\
   outputs st i alu_op_to_z = AluOp.NONE /\
   outputs st i z_reg = 0 /\ outputs st i z_to_csr = 0 /\
   outputs st i instr_complete = 0).
Proof.
  intros st i.
  assert (Ht : st trap = 0) by reflexivity.
  assert (Hpc : bits 0 2 (st _pc) <> 0) by (vm_compute; lia).
  exact (misaligned_pc_traps st i Ht Hpc).
Defined.

(** ** Trap entry: the cause, the return address and [mstatus] *)

(** Phase 0 of trap entry, on a rising edge of [ph2]. *)
Lemma trap0_tick_ph2_cause s j :
  s trap <> 0 -> s _instr_phase = 0 ->
  tick Dph2 s j _trap_cause = entry_cause s.
Proof.
  intros Ht Hp. rewrite tick_ph2_blocks, trap_handlers, trap_fetch by assumption.
  unfold handle_trap, entry_cause. rewrite Hp. change (0 =? 0) with true.
  cbv iota zeta. rewrite !next_of_app.
  split_ifs; reflexivity.
Qed.

(** The cause is settled after the first rising edge of [ph2]. *)
Lemma entry_cause_ext s s' :
  (forall r, r <> _trap_cause -> s' r = s r) ->
  s' _trap_cause = entry_cause s ->
  entry_cause s' = entry_cause s.
Proof.
  intros F C. unfold entry_cause.
  rewrite !F, C by discriminate. unfold entry_cause.
  destruct (s _exception =? 0); [|reflexivity].
  destruct (truthy (s _reg_time_irq)); [reflexivity|].
  destruct (truthy (s _reg_ext_irq)); reflexivity.
Qed.

Lemma trap0_write_half_cause st i :
  st trap <> 0 -> st _instr_phase = 0 ->
  write_half st i _trap_cause = entry_cause st.
Proof.
  intros Ht Hp. unfold write_half.
  set (j := with_mcycle_end 0 i).
  set (s0 := instr_latch st j).
  assert (F0 : forall r, r <> _instr -> s0 r = st r)
    by (intros r Hr; now apply instr_latch_frame).
  assert (E0 : entry_cause s0 = entry_cause st).
  { unfold entry_cause. now rewrite !F0 by discriminate. }
  assert (T0 : s0 trap <> 0) by (rewrite F0 by discriminate; exact Ht).
  assert (P0 : s0 _instr_phase = 0) by (rewrite F0 by discriminate; exact Hp).
  clearbody s0.
  set (s1 := tick Dph2 s0 j).
  assert (C1 : s1 _trap_cause = entry_cause s0)
    by (now apply trap0_tick_ph2_cause).
  assert (F1 : forall r, r <> _trap_cause -> s1 r = s0 r).
  { intros r Hr. destruct (Reg_eq_dec r _exception) as [->|He].
    - now apply trap_tick_ph2_exception.
    - now apply tick_ph2_frame. }
  assert (T1 : s1 trap <> 0) by (rewrite F1 by discriminate; exact T0).
  assert (P1 : s1 _instr_phase = 0) by (rewrite F1 by discriminate; exact P0).
  pose proof (entry_cause_ext s0 s1 F1 C1) as E1.
  clearbody s1.
  rewrite trap0_tick_ph2_cause by assumption.
  now rewrite E1, E0.
Qed.

Lemma trap0_tick_mepc s j :
  s trap <> 0 -> s _instr_phase = 0 ->
  tick Dph1 s j _mepc
  = (if s _exception =? 0 then trunc 32 (s _pc) else s _mepc) /\
  tick Dph1 s j _mtval = s _mtval /\
  tick Dph1 s j _mstatus = s _mstatus /\
  tick Dph1 s j trap = s trap.
Proof.
  intros Ht Hp.
  assert (HZ : ctl s j z_to_csr = 0)
    by (rewrite trap0_ctl by (assumption || discriminate); reflexivity).
  repeat split.
  - rewrite tick_csr_b, trap_handlers, trap_fetch by (assumption || reflexivity).
    unfold csr_update. to_ctl. rewrite HZ. change (truthy 0) with false.
    cbv iota.
    unfold handle_trap. rewrite Hp. change (0 =? 0) with true.
    cbv iota zeta. rewrite !next_of_app. split_ifs; reflexivity.
  - rewrite tick_csr_b, trap_handlers, trap_fetch by (assumption || reflexivity).
    unfold csr_update. to_ctl. rewrite HZ. change (truthy 0) with false.
    cbv iota.
    unfold handle_trap. rewrite Hp. change (0 =? 0) with true.
    cbv iota zeta. rewrite !next_of_app. split_ifs; reflexivity.
  - rewrite tick_csr_b, trap_handlers, trap_fetch by (assumption || reflexivity).
    unfold csr_update. to_ctl. rewrite HZ. change (truthy 0) with false.
    cbv iota.
    unfold handle_trap. rewrite Hp. change (0 =? 0) with true.
    cbv iota zeta. rewrite !next_of_app. split_ifs; reflexivity.
  - rewrite tick_trap, trap_handlers, trap_fetch by assumption.
    unfold handle_trap. rewrite Hp. change (0 =? 0) with true.
    cbv iota zeta. rewrite !next_of_app. split_ifs; reflexivity.
Qed.

(** X14. Phase 0 of trap entry latches the cause and the return address.
    For an interrupt (the exception flag clear) [mcause] takes the timer
    cause when the timer latch is set, whether or not the external latch is
    set too, and the external cause when only the external latch is set;
    [mepc] takes the PC, which is the address of the instruction that was
    not yet run.  For an exception [mcause] takes the cause stored by
    [set_exception] and [mepc] keeps the address stored with it.  [mtval]
    and [mstatus] keep their values and the card goes on to phase 1. *)
Theorem trap_entry_cause (st : SequencerState) (i : Inputs) :
  st trap <> 0 -> st _instr_phase = 0 ->
  machine_cycle st i _mcause = trunc 32 (entry_cause st) /\
  machine_cycle st i _trap_cause = entry_cause st /\
  (st _exception = 0 ->
   (st _reg_time_irq <> 0 ->
    machine_cycle st i _mcause = TrapCause.INT_MACH_TIMER) /\
   (st _reg_time_irq = 0 -> st _reg_ext_irq <> 0 ->
    machine_cycle st i _mcause = TrapCause.INT_MACH_EXTERNAL) /\
   machine_cycle st i _mepc = trunc 32 (st _pc)) /\
  (st _exception <> 0 ->
   machine_cycle st i _mcause = trunc 32 (st _trap_cause) /\
   machine_cycle st i _mepc = st _mepc) /\
  machine_cycle st i _mtval = st _mtval /\
  machine_cycle st i _mstatus = st _mstatus /\
  machine_cycle st i trap = st trap /\
  machine_cycle st i _instr_phase = 1.
Proof.
  intros Ht Hp.
  pose proof (trap0_write_half_cause st i Ht Hp) as C.
  assert (L2 : machine_cycle st i _trap_cause = entry_cause st).
  { unfold machine_cycle. now rewrite tick_ph1_keeps_ph2 by reflexivity. }
  assert (F : forall r, r <> _trap_cause -> write_half st i r = st r)
    by (intros r Hr; now apply trap_write_half_frame).
  assert (M : machine_cycle st i _mcause = trunc 32 (entry_cause st)).
  { unfold machine_cycle. rewrite <- C.
    apply trap0_tick; rewrite F by discriminate; assumption. }
  assert (R : machine_cycle st i _mepc
              = (if st _exception =? 0 then trunc 32 (st _pc) else st _mepc)
              /\ machine_cycle st i _mtval = st _mtval
              /\ machine_cycle st i _mstatus = st _mstatus
              /\ machine_cycle st i trap = st trap
              /\ machine_cycle st i _instr_phase = 1).
  { unfold machine_cycle.
    rewrite <- (F _exception), <- (F _pc), <- (F _mepc), <- (F _mtval),
      <- (F _mstatus), <- (F trap) by discriminate.
    rewrite <- (F trap) in Ht by discriminate.
    rewrite <- (F _instr_phase) in Hp by discriminate.
    set (s := write_half st i) in *. clearbody s.
    destruct (trap0_tick_mepc s (with_mcycle_end 1 i) Ht Hp)
      as (A & B & D & E).
    destruct (trap0_tick s (with_mcycle_end 1 i) Ht Hp)
      as (_ & _ & _ & _ & _ & P & _).
    split; [exact A|]. split; [exact B|]. split; [exact D|].
    split; [exact E|exact P]. }
  destruct R as (A & B & D & E & P).
  split; [exact M|]. split; [exact L2|].
  split; [|split; [|split; [exact B|split; [exact D|split; [exact E|exact P]]]]].
  - intros He. rewrite M, A. unfold entry_cause, truthy. rewrite He.
    change (0 =? 0) with true. cbv iota.
    split; [|split; [|reflexivity]].
    + intros T. now rewrite (eqb_0_false _ T).
    + intros T X. rewrite T, (eqb_0_false _ X). reflexivity.
  - intros He. rewrite M, A. unfold entry_cause.
    rewrite (eqb_0_false _ He). split; reflexivity.
Qed.

Lemma trap_entry_cause_witness :
  machine_cycle both_pending (buses 0 0x80 0) _mcause
  = TrapCause.INT_MACH_TIMER.
Proof.
  assert (Ht : both_pending trap <> 0) by (vm_compute; lia).
  assert (Hp : both_pending _instr_phase = 0) by reflexivity.
  assert (He : both_pending _exception = 0) by reflexivity.
  assert (Hi : both_pending _reg_time_irq <> 0) by (vm_compute; lia).
  exact (proj1 (proj1 (proj2 (proj2
           (trap_entry_cause both_pending (buses 0 0x80 0) Ht Hp))) He) Hi).
Defined.

(** Phase 1 of trap entry for an interrupt, on the clock edges. *)
Lemma trap1_tick_mstatus s j :
  s trap <> 0 -> s _instr_phase <> 0 -> s _exception = 0 ->
  bit MStatus.MPIE (tick Dph1 s j _mstatus) = bit MStatus.MIE (s _mstatus) /\
  bit MStatus.MIE (tick Dph1 s j _mstatus) = 0 /\
  (forall k, 0 <= k -> k <> MStatus.MIE -> k <> MStatus.MPIE ->
             bit k (tick Dph1 s j _mstatus) = bit k (s _mstatus)) /\
  (forall r, existsb (Reg_beq r) [_mcause; _mtvec; _mepc; _mtval] = true ->
             tick Dph1 s j r = s r) /\
  tick Dph1 s j _instr_phase = 0 /\
  tick Dph2 s j _exception = 0 /\
  tick Dph2 s j _trap_cause = 0.
Proof.
  intros Ht Hp He.
  assert (HZ : ctl s j z_to_csr = 0)
    by (rewrite trap1_ctl, He by assumption; reflexivity).
  assert (HM : tick Dph1 s j _mstatus =
               set_bits MStatus.MIE (MStatus.MIE + 1)
                 (set_bits MStatus.MPIE (MStatus.MPIE + 1) (s _mstatus)
                    (bit MStatus.MIE (s _mstatus))) 0).
  { rewrite tick_csr_b, trap_handlers, trap_fetch
      by (assumption || reflexivity).
    unfold csr_update. to_ctl. rewrite HZ. change (truthy 0) with false.
    cbv iota. unfold handle_trap, truthy.
    rewrite (eqb_0_false _ Hp), He. reflexivity. }
  repeat split.
  - rewrite HM, bit_set_bits_other, bit_set_bits_same
      by (unfold MStatus.MIE, MStatus.MPIE; lia).
    apply bit_of_bit.
  - rewrite HM, bit_set_bits_same by (unfold MStatus.MIE; lia). reflexivity.
  - intros k Hk H3 H7.
    rewrite HM, !bit_set_bits_other
      by (unfold MStatus.MIE, MStatus.MPIE in *; lia).
    reflexivity.
  - intros r Hr.
    assert (Hr' : existsb (Reg_beq r) csr_regs = true)
      by (destruct r; try discriminate Hr; reflexivity).
    rewrite tick_csr_b, trap_handlers, trap_fetch
      by (assumption || reflexivity).
    unfold csr_update. to_ctl. rewrite HZ. change (truthy 0) with false.
    cbv iota. unfold handle_trap, truthy.
    rewrite (eqb_0_false _ Hp), He.
    destruct r; try discriminate Hr; reflexivity.
  - rewrite tick_instr_phase, settled_fetch by reflexivity.
    rewrite trap_fetch by assumption.
    change (comb_of (defaults s ++ [] ++ handlers s j)) with (ctl s j).
    rewrite trap1_ctl, He by assumption. reflexivity.
  - rewrite tick_ph2_blocks, trap_handlers, trap_fetch by assumption.
    unfold handle_trap, truthy. rewrite (eqb_0_false _ Hp), He. reflexivity.
  - rewrite tick_ph2_blocks, trap_handlers, trap_fetch by assumption.
    unfold handle_trap, truthy. rewrite (eqb_0_false _ Hp), He. reflexivity.
Qed.

(** Phase 1 of trap entry for an interrupt, over its machine cycle. *)
Lemma interrupt_entry_cycle st i :
  st trap <> 0 -> st _instr_phase <> 0 -> st _exception = 0 ->
  bit MStatus.MPIE (machine_cycle st i _mstatus)
  = bit MStatus.MIE (st _mstatus) /\
  bit MStatus.MIE (machine_cycle st i _mstatus) = 0 /\
  (forall k, 0 <= k -> k <> MStatus.MIE -> k <> MStatus.MPIE ->
             bit k (machine_cycle st i _mstatus) = bit k (st _mstatus)) /\
  (forall r, existsb (Reg_beq r) [_mcause; _mtvec; _mepc; _mtval] = true ->
             machine_cycle st i r = st r) /\
  machine_cycle st i trap = 0 /\
  machine_cycle st i _trap_svc = 1 /\
  machine_cycle st i _exception = 0 /\
  machine_cycle st i _trap_cause = 0 /\
  machine_cycle st i _instr_phase = 0.
Proof.
  intros Ht Hp He.
  assert (F : forall r, r <> _trap_cause -> write_half st i r = st r)
    by (intros r Hr; now apply trap_write_half_frame).
  assert (G : forall r, r <> _instr -> r <> _trap_cause ->
                        read_half st i r = st r).
  { intros r H1 H2. unfold read_half.
    destruct (Reg_eq_dec r _exception) as [->|H3].
    - rewrite trap_tick_ph2_exception
        by (rewrite instr_latch_frame by discriminate; exact Ht).
      now rewrite instr_latch_frame by discriminate.
    - rewrite tick_ph2_frame by assumption. now apply instr_latch_frame. }
  rewrite !(cycle_ph2 st i _exception), !(cycle_ph2 st i _trap_cause)
    by reflexivity.
  assert (L2 : tick Dph2 (read_half st i) (with_mcycle_end 0 i) _exception = 0
            /\ tick Dph2 (read_half st i) (with_mcycle_end 0 i) _trap_cause
               = 0).
  { pose proof (G trap) as G1. pose proof (G _instr_phase) as G2.
    pose proof (G _exception) as G3.
    set (s := read_half st i) in *. clearbody s.
    destruct (trap1_tick_mstatus s (with_mcycle_end 0 i))
      as (_ & _ & _ & _ & _ & E & C);
      rewrite ?G1, ?G2, ?G3 by discriminate; try assumption.
    split; [exact E|exact C]. }
  destruct L2 as [E C]. rewrite E, C. clear E C G.
  unfold machine_cycle.
  assert (R : forall r, existsb (Reg_beq r) [_mcause; _mtvec; _mepc; _mtval]
                        = true -> write_half st i r = st r).
  { intros r Hr. apply F. intros ->. discriminate Hr. }
  pose proof (F trap) as F1. pose proof (F _instr_phase) as F2.
  pose proof (F _exception) as F3. pose proof (F _mstatus) as F4.
  clear F.
  set (s := write_half st i) in *. clearbody s.
  rewrite <- F4 by discriminate.
  destruct (trap1_tick_mstatus s (with_mcycle_end 1 i))
    as (A & B & K & Q & P & _);
    rewrite ?F1, ?F2, ?F3 by discriminate; try assumption.
  destruct (trap1_tick_fetch s (with_mcycle_end 1 i))
    as (_ & _ & _ & _ & T & V);
    rewrite ?F1, ?F2, ?F3 by discriminate; try assumption.
  split; [exact A|]. split; [exact B|]. split; [exact K|].
  split; [intros r Hr; rewrite Q by exact Hr; exact (R r Hr)|].
  split; [exact T|]. split; [exact V|]. split; [reflexivity|].
  split; [reflexivity|exact P].
Qed.

(** X15. Phase 1 of trap entry for an interrupt (the exception flag
    clear) saves the interrupt enable: [mstatus.MPIE] takes the old
    [mstatus.MIE], [mstatus.MIE] becomes 0 and every other bit of [mstatus]
    keeps its value, as do [mcause], [mtvec], [mepc] and [mtval].  The trap
    flag falls, [_trap_svc] rises, the exception flag and the latched cause
    are cleared, and the card is in phase 0 of the handler's first
    instruction. *)
Theorem interrupt_entry_saves_mie (st : SequencerState) (i : Inputs) :
  st trap <> 0 -> st _instr_phase <> 0 -> st _exception = 0 ->
  bit MStatus.MPIE (machine_cycle st i _mstatus)
  = bit MStatus.MIE (st _mstatus) /\
  bit MStatus.MIE (machine_cycle st i _mstatus) = 0 /\
  (forall k, 0 <= k -> k <> MStatus.MIE -> k <> MStatus.MPIE ->
             bit k (machine_cycle st i _mstatus) = bit k (st _mstatus)) /\
  (forall r, existsb (Reg_beq r) [_mcause; _mtvec; _mepc; _mtval] = true ->
             machine_cycle st i r = st r) /\
  machine_cycle st i trap = 0 /\
  machine_cycle st i _trap_svc = 1 /\
  machine_cycle st i _exception = 0 /\
  machine_cycle st i _trap_cause = 0 /\
  machine_cycle st i _instr_phase = 0.
Proof. exact (interrupt_entry_cycle st i). Qed.

Lemma interrupt_entry_saves_mie_witness :
  let st := timer_entry_phase1 in
  let i := buses 0 0 0x400 in
  bit MStatus.MPIE (machine_cycle st i _mstatus)
  = bit MStatus.MIE (st _mstatus) /\
  bit MStatus.MIE (machine_cycle st i _mstatus) = 0 /\
  (forall k, 0 <= k -> k <> MStatus.MIE -> k <> MStatus.MPIE ->
             bit k (machine_cycle st i _mstatus) = bit k (st _mstatus)) /\
  (forall r, existsb (Reg_beq r) [_mcause; _mtvec; _mepc; _mtval] = true ->
             machine_cycle st i r = st r) /\
  machine_cycle st i trap = 0 /\
  machine_cycle st i _trap_svc = 1 /\
  machine_cycle st i _exception = 0 /\
  machine_cycle st i _trap_cause = 0 /\
  machine_cycle st i _instr_phase = 0.
Proof.
  intros st i.
  assert (Ht : st trap <> 0) by (vm_compute; lia).
  assert (Hp : st _instr_phase <> 0) by (vm_compute; lia).
  assert (He : st _exception = 0) by reflexivity.
  exact (interrupt_entry_saves_mie st i Ht Hp He).
Defined.

(** X16. Trap entry and MRET undo each other on the interrupt enable:
    when the entry into an interrupt reads an aligned handler address from
    the vector and the first instruction of the handler is MRET, the MRET
    puts [mepc] on X, loads the PC from X, and leaves [mstatus.MIE] as it was
    before the trap was entered, with [mstatus.MPIE] set; [_trap_svc] stays
    set. *)
Theorem trap_then_mret_restores_mie (st : SequencerState) (i j : Inputs) :
  st trap <> 0 -> st _instr_phase <> 0 -> st _exception = 0 ->
  bits 0 2 (trunc 32 (memdata_rd i)) = 0 ->
  trunc 32 (memdata_rd j) = Instr.MRET ->
  machine_cycle st i _pc = trunc 32 (memdata_rd i) /\
  outputs (machine_cycle st i) j data_x_out = trunc 32 (st _mepc) /\
  machine_cycle (machine_cycle st i) j _pc = trunc 32 (data_x_in j) /\
  bit MStatus.MIE (machine_cycle (machine_cycle st i) j _mstatus)
  = bit MStatus.MIE (st _mstatus) /\
  bit MStatus.MPIE (machine_cycle (machine_cycle st i) j _mstatus) = 1 /\
  machine_cycle (machine_cycle st i) j _trap_svc = 1.
Proof.
  intros Ht Hp He Ha Hm.
  destruct (proj2 (trap1_cycle st i Ht Hp) He) as (_ & _ & P & _).
  destruct (interrupt_entry_cycle st i Ht Hp He)
    as (A & _ & _ & Q & T & V & _ & _ & N).
  pose proof (Q _mepc eq_refl) as Qe. clear Q.
  set (st1 := machine_cycle st i) in *. clearbody st1.
  assert (Hpc : bits 0 2 (st1 _pc) = 0) by (rewrite P; exact Ha).
  destruct (mret_cycle st1 j T Hpc N Hm) as (X & K & _ & B1 & B2 & S).
  split; [exact P|]. split; [rewrite X, Qe; reflexivity|].
  split; [exact K|]. split; [rewrite B1; exact A|].
  split; [exact B2|]. rewrite S. exact V.
Qed.

Lemma trap_then_mret_restores_mie_witness :
  let st := timer_entry_phase1 in
  let i := buses 0 0 0x400 in
  let j := buses 0x104 0 Instr.MRET in
  machine_cycle st i _pc = trunc 32 (memdata_rd i) /\
  outputs (machine_cycle st i) j data_x_out = trunc 32 (st _mepc) /\
  machine_cycle (machine_cycle st i) j _pc = trunc 32 (data_x_in j) /\
  bit MStatus.MIE (machine_cycle (machine_cycle st i) j _mstatus)
  = bit MStatus.MIE (st _mstatus) /\
  bit MStatus.MPIE (machine_cycle (machine_cycle st i) j _mstatus) = 1 /\
  machine_cycle (machine_cycle st i) j _trap_svc = 1.
Proof.
  intros st i j.
  assert (Ht : st trap <> 0) by (vm_compute; lia).
  assert (Hp : st _instr_phase <> 0) by (vm_compute; lia).
  assert (He : st _exception = 0) by reflexivity.
  assert (Ha : bits 0 2 (trunc 32 (memdata_rd i)) = 0) by reflexivity.
  assert (Hm : trunc 32 (memdata_rd j) = Instr.MRET) by reflexivity.
  exact (trap_then_mret_restores_mie st i j Ht Hp He Ha Hm).
Defined.

(** ** The last cycle of an instruction *)

(** The next phase is the one the handlers ask for: the fetch block assigns
    only 0, the default. *)
Lemma settled_next_phase st i :
  settled st i _next_instr_phase = ctl st i _next_instr_phase.
Proof.
  rewrite settled_fetch by reflexivity. unfold ctl.
  assert (E : comb_of (defaults st ++ fetch st i) _next_instr_phase
              = comb_of (defaults st) _next_instr_phase).
  { unfold fetch.
    destruct (instr_misalign st); [reflexivity|].
    destruct (is_interrupted st i); [reflexivity|].
    destruct (all_true _); reflexivity. }
  rewrite app_assoc, (comb_of_app (defaults st ++ fetch st i)), E.
  now rewrite <- comb_of_app.
Qed.

(** The fetch block in the last cycle of an instruction. *)
Lemma last_cycle_fetch st i :
  st trap = 0 -> bits 0 2 (st _pc) = 0 -> mcycle_end i = 1 ->
  ctl st i _is_last_instr_cycle = 1 ->
  fetch st i =
  if interrupt_taken st i
  then [ph1 _mtval (st _pc); comb _next_instr_phase 0; ph1 trap 1]
  else if st _instr_phase =? 0 then [comb _load_instr 1; comb mem_rd 1]
  else [].
Proof.
  intros Ht Hpc He Hl. unfold fetch, all_true. cbn [forallb].
  rewrite (aligned_not_misalign st Hpc).
  rewrite (last_cycle_interrupted st i Ht Hl He), Ht.
  change (0 =? 0) with true. now rewrite !andb_true_r.
Qed.

(** An instruction that ends without loading the PC or [memaddr] from a
    bus moves both to PC + 4. *)
Lemma completes_tick st i :
  mcycle_end i = 1 ->
  ctl st i _is_last_instr_cycle = 1 ->
  ctl st i _x_to_pc = 0 -> ctl st i _z_to_pc = 0 ->
  ctl st i _memaddr_to_pc = 0 -> ctl st i _memdata_to_pc = 0 ->
  ctl st i _x_to_memaddr = 0 -> ctl st i _z_to_memaddr = 0 ->
  ctl st i _memdata_to_memaddr = 0 ->
  tick Dph1 st i _pc = _pc_plus_4 st /\
  tick Dph1 st i memaddr = _pc_plus_4 st /\
  settled st i instr_complete = 1.
Proof.
  intros He Hl X1 X2 X3 X4 Y1 Y2 Y3.
  assert (L : last_cycle st i =
              [comb instr_complete 1; comb _pc_plus_4_to_pc 1;
               comb _pc_plus_4_to_memaddr 1]).
  { unfold last_cycle. rewrite Hl, He, X1, X2, X3, X4, Y1, Y2, Y3.
    reflexivity. }
  repeat split.
  - rewrite tick_pc. unfold pc_update.
    rewrite (settled_last_cycle st i _pc_plus_4_to_pc eq_refl), L.
    change (truthy (comb_of (defaults st ++ _) _pc_plus_4_to_pc)) with true.
    cbv iota. cbn [next_of fold_left ph1 Domain_beq Reg_beq andb].
    unfold _pc_plus_4. apply trunc_idem. lia.
  - rewrite tick_memaddr. unfold memaddr_update.
    rewrite (settled_last_cycle st i _pc_plus_4_to_memaddr eq_refl), L.
    change (truthy (comb_of (defaults st ++ _) _pc_plus_4_to_memaddr))
      with true.
    cbv iota. cbn [next_of fold_left ph1 Domain_beq Reg_beq andb].
    unfold _pc_plus_4. apply trunc_idem. lia.
  - rewrite (settled_last_cycle st i instr_complete eq_refl), L.
    reflexivity.
Qed.

(** ** LUI, AUIPC, OP_IMM and OP *)

Lemma alu_op_for_range f : 0 <= alu_op_for f < 2 ^ 4.
Proof.
  unfold alu_op_for. split_ifs; vm_compute; split;
    (discriminate || reflexivity).
Qed.

Lemma alu_switch st :
  is_alu_func (alu_func_of (st _instr)) = true ->
  alu_func_switch st
  = [comb alu_op_to_z (alu_op_for (alu_func_of (st _instr)))].
Proof.
  unfold is_alu_func, alu_funcs, alu_func_switch, alu_op_for.
  cbn [existsb]. intros H.
  repeat match goal with
         | |- context [alu_func_of (st _instr) =? ?c] =>
             destruct (alu_func_of (st _instr) =? c); [reflexivity|]
         end.
  discriminate H.
Qed.

(** One cycle that names its operands in [l1] and [l2], asks the ALU for
    [op] and ends the instruction. *)
Lemma alu_tick st i l1 l2 op :
  st trap = 0 -> bits 0 2 (st _pc) = 0 -> mcycle_end i = 1 ->
  handlers st i
  = l1 ++ [comb alu_op_to_z op] ++ l2 ++ [comb _is_last_instr_cycle 1] ->
  forallb (footprint operand_sigs [] []) l1 = true ->
  forallb (footprint operand_sigs [] []) l2 = true ->
  0 <= op < 2 ^ 4 ->
  settled st i alu_op_to_z = op /\
  tick Dph1 st i _pc = _pc_plus_4 st /\
  tick Dph1 st i memaddr = _pc_plus_4 st /\
  tick Dph1 st i _instr_phase = 0 /\
  tick Dph1 st i trap = (if interrupt_taken st i then 1 else 0) /\
  settled st i instr_complete = 1 /\
  settled st i mem_wr = 0 /\ settled st i z_to_csr = 0 /\
  settled st i _x_to_tmp = 0 /\ settled st i _z_to_memdata = 0.
Proof.
  intros Ht Hpc He HL Hf1 Hf2 Hop.
  assert (HC : forall sig, existsb (Sig_beq sig) operand_sigs = false ->
             ctl st i sig
             = comb_of (defaults st ++
                        [comb alu_op_to_z op; comb _is_last_instr_cycle 1])
                 sig).
  { intros sig Hs. unfold ctl. rewrite HL.
    rewrite comb_of_skip
      by (now apply footprint_drives with (1 := Hf1)).
    rewrite (app_assoc (defaults st)), (app_assoc (defaults st ++ _)).
    rewrite <- (app_assoc _ l2).
    rewrite comb_of_skip
      by (now apply footprint_drives with (1 := Hf2)).
    now rewrite <- app_assoc. }
  assert (Hl : ctl st i _is_last_instr_cycle = 1)
    by (rewrite HC by reflexivity; reflexivity).
  destruct (completes_tick st i He Hl) as (P & M & C);
    try (rewrite HC by reflexivity; reflexivity).
  pose proof (last_cycle_fetch st i Ht Hpc He Hl) as HF.
  split.
  { to_ctl. rewrite HC by reflexivity. cbn. now apply trunc_small. }
  split; [exact P|]. split; [exact M|].
  split.
  { rewrite tick_instr_phase, settled_next_phase, HC by reflexivity.
    reflexivity. }
  split.
  { rewrite tick_trap, HL, HF, !next_of_app.
    rewrite (next_of_frame Dph1 l1)
      by (apply footprint_loads with (1 := Hf1); reflexivity).
    rewrite (next_of_frame Dph1 l2)
      by (apply footprint_loads with (1 := Hf2); reflexivity).
    rewrite Ht. destruct (interrupt_taken st i); [reflexivity|].
    destruct (st _instr_phase =? 0); reflexivity. }
  split; [exact C|].
  repeat split; to_ctl; rewrite HC by reflexivity; reflexivity.
Qed.

(** The handlers of the four instructions. *)
Lemma one_cycle_dispatch st i imm :
  st trap = 0 -> bits 0 2 (st _pc) = 0 -> one_cycle (st _instr) = true ->
  let w := st _instr in
  dispatch st i imm =
  if opcode_of w =? Opcode.LUI then
    [comb _imm_format OpcodeFormat.U; comb reg_to_x 1; comb x_reg 0;
     comb _imm_to_y 1] ++ [comb alu_op_to_z AluOp.ADD] ++
    [comb z_reg (rd_of w)] ++ [comb _is_last_instr_cycle 1]
  else if opcode_of w =? Opcode.AUIPC then
    [comb _imm_format OpcodeFormat.U; comb _pc_to_x 1; comb _imm_to_y 1] ++
    [comb alu_op_to_z AluOp.ADD] ++
    [comb z_reg (rd_of w)] ++ [comb _is_last_instr_cycle 1]
  else if opcode_of w =? Opcode.OP_IMM then
    [comb _imm_format OpcodeFormat.I; comb reg_to_x 1;
     comb x_reg (rs1_of w); comb _imm_to_y 1; comb z_reg (rd_of w)] ++
    [comb alu_op_to_z (alu_op_for (alu_func_of w))] ++
    [] ++ [comb _is_last_instr_cycle 1]
  else
    [comb _imm_format OpcodeFormat.R; comb reg_to_x 1;
     comb x_reg (rs1_of w); comb reg_to_y 1; comb y_reg (rs2_of w);
     comb z_reg (rd_of w)] ++
    [comb alu_op_to_z (alu_op_for (alu_func_of w))] ++
    [] ++ [comb _is_last_instr_cycle 1].
Proof.
  intros Ht Hpc H1. cbv zeta. unfold one_cycle in H1.
  destruct (opcode_of (st _instr) =? Opcode.LUI) eqn:E1.
  { apply Z.eqb_eq in E1.
    rewrite dispatch_opcode by (assumption || (rewrite E1; discriminate)).
    rewrite E1. reflexivity. }
  destruct (opcode_of (st _instr) =? Opcode.AUIPC) eqn:E2.
  { apply Z.eqb_eq in E2.
    rewrite dispatch_opcode by (assumption || (rewrite E2; discriminate)).
    rewrite E2. reflexivity. }
  cbn [orb] in H1. apply andb_prop in H1 as [H1 Hf].
  destruct (opcode_of (st _instr) =? Opcode.OP_IMM) eqn:E3.
  { apply Z.eqb_eq in E3.
    rewrite dispatch_opcode by (assumption || (rewrite E3; discriminate)).
    rewrite E3. cbv zeta. cbn [Z.eqb Pos.eqb Opcode.OP_IMM Opcode.LUI
                                 Opcode.AUIPC]. cbv iota.
    unfold handle_op_imm. now rewrite (alu_switch st Hf). }
  cbn [orb] in H1. apply Z.eqb_eq in H1.
  rewrite dispatch_opcode by (assumption || (rewrite H1; discriminate)).
  rewrite H1. cbv zeta. cbn [Z.eqb Pos.eqb Opcode.OP_IMM Opcode.LUI
                               Opcode.AUIPC Opcode.OP]. cbv iota.
  unfold handle_op. now rewrite (alu_switch st Hf).
Qed.

Lemma alu_func_bits w : alu_func_of w = funct3_of w + 8 * bit 30 w.
Proof.
  unfold alu_func_of, funct3_of, funct7_of.
  assert (B : bit 5 (bits 25 32 w) = bit 30 w).
  { unfold bit, bits. f_equal.
    rewrite Z.land_spec, Z.shiftr_spec by lia.
    change (5 + 25) with 30. change (32 - 25) with 7.
    rewrite Z.ones_spec_low by lia. apply andb_true_r. }
  rewrite B.
  pose proof (bits_range 12 15 w ltac:(lia)) as R.
  change (2 ^ (15 - 12)) with 8 in R.
  unfold bit. destruct (Z.testbit w 30); cbn [Z.b2z].
  - change (Z.shiftl 1 3) with 8.
    assert (C : bits 12 15 w = 0 \/ bits 12 15 w = 1 \/ bits 12 15 w = 2 \/
                bits 12 15 w = 3 \/ bits 12 15 w = 4 \/ bits 12 15 w = 5 \/
                bits 12 15 w = 6 \/ bits 12 15 w = 7) by lia.
    destruct C as [C|[C|[C|[C|[C|[C|[C|C]]]]]]]; rewrite C; reflexivity.
  - change (Z.shiftl 0 3) with 0. rewrite Z.lor_0_r. lia.
Qed.

(** The four instructions on the clock edge that ends their cycle. *)
Lemma one_cycle_tick st i :
  st trap = 0 -> bits 0 2 (st _pc) = 0 -> mcycle_end i = 1 ->
  one_cycle (st _instr) = true ->
  let w := st _instr in
  (settled st i z_reg = rd_of w /\
   tick Dph1 st i _pc = _pc_plus_4 st /\
   tick Dph1 st i memaddr = _pc_plus_4 st /\
   tick Dph1 st i _instr_phase = 0 /\
   tick Dph1 st i trap = (if interrupt_taken st i then 1 else 0) /\
   settled st i instr_complete = 1 /\
   settled st i mem_wr = 0 /\ settled st i z_to_csr = 0 /\
   settled st i _x_to_tmp = 0 /\ settled st i _z_to_memdata = 0) /\
  (opcode_of w = Opcode.LUI ->
   settled st i reg_to_x = 1 /\ settled st i x_reg = 0 /\
   settled st i data_y_out = decode_imm OpcodeFormat.U w /\
   settled st i alu_op_to_z = AluOp.ADD) /\
  (opcode_of w = Opcode.AUIPC ->
   settled st i reg_to_x = 0 /\ settled st i data_x_out = trunc 32 (st _pc) /\
   settled st i data_y_out = decode_imm OpcodeFormat.U w /\
   settled st i alu_op_to_z = AluOp.ADD) /\
  (opcode_of w = Opcode.OP_IMM ->
   settled st i reg_to_x = 1 /\ settled st i x_reg = rs1_of w /\
   settled st i data_y_out = decode_imm OpcodeFormat.I w /\
   settled st i alu_op_to_z = alu_op_for (alu_func_of w)) /\
  (opcode_of w = Opcode.OP ->
   settled st i reg_to_x = 1 /\ settled st i x_reg = rs1_of w /\
   settled st i reg_to_y = 1 /\ settled st i y_reg = rs2_of w /\
   settled st i alu_op_to_z = alu_op_for (alu_func_of w)).
Proof.
  intros Ht Hpc He H1. cbv zeta.
  pose proof (one_cycle_dispatch st i (_imm st i) Ht Hpc H1) as HL.
  pose proof (one_cycle_dispatch st i 0 Ht Hpc H1) as HL0.
  cbv zeta in HL, HL0. fold (handlers st i) in HL.
  assert (HI : _imm st i
               = decode_imm (comb_of (dispatch st i 0) _imm_format)
                   (st _instr)) by reflexivity.
  rewrite HL0 in HI. clear HL0.
  pose proof (alu_op_for_range (alu_func_of (st _instr))) as Hop.
  unfold one_cycle in H1.
  destruct (opcode_of (st _instr) =? Opcode.LUI) eqn:E1;
    [|destruct (opcode_of (st _instr) =? Opcode.AUIPC) eqn:E2;
      [|destruct (opcode_of (st _instr) =? Opcode.OP_IMM) eqn:E3;
        [|cbn [orb andb] in H1; apply andb_prop in H1 as [E4 _]]]];
    repeat match goal with
           | E : (_ =? _) = true |- _ => apply Z.eqb_eq in E
           | E : (_ =? _) = false |- _ => apply Z.eqb_neq in E
           end;
    pose proof (ctl_eq st i _ HL) as HC;
    (split; [|split; [|split; [|split]]]);
    try (intros X; exfalso;
         first [ congruence
               | match goal with
                 | E : opcode_of _ = _ |- _ => rewrite E in X; discriminate X
                 end ]);
    try (intros _).
  all: try (split;
            [ to_ctl; rewrite HC; ev; apply (trunc_reg_field 7)
            | refine (proj2 (alu_tick st i _ _ _ Ht Hpc He HL eq_refl eq_refl
                               _));
              first [exact Hop | vm_compute; split; congruence] ]).
  - repeat split.
    + to_ctl. now rewrite HC.
    + to_ctl. now rewrite HC.
    + rewrite settled_data_y_out. unfold y_mux. rewrite HC, HL, HI. ev.
      apply trunc_decode_imm.
    + to_ctl. now rewrite HC.
  - repeat split.
    + to_ctl. now rewrite HC.
    + rewrite settled_data_x_out. unfold x_mux. rewrite HC, HL. ev.
      reflexivity.
    + rewrite settled_data_y_out. unfold y_mux. rewrite HC, HL, HI. ev.
      apply trunc_decode_imm.
    + to_ctl. now rewrite HC.
  - repeat split.
    + to_ctl. now rewrite HC.
    + to_ctl. rewrite HC. ev. apply (trunc_reg_field 15).
    + rewrite settled_data_y_out. unfold y_mux. rewrite HC, HL, HI. ev.
      apply trunc_decode_imm.
    + to_ctl. rewrite HC. ev. now apply trunc_small.
  - repeat split.
    + to_ctl. now rewrite HC.
    + to_ctl. rewrite HC. ev. apply (trunc_reg_field 15).
    + to_ctl. now rewrite HC.
    + to_ctl. rewrite HC. ev. apply (trunc_reg_field 20).
    + to_ctl. rewrite HC. ev. now apply trunc_small.
Qed.

Lemma interrupt_taken_write_half st i :
  interrupt_taken (write_half st i) (with_mcycle_end 1 i)
  = interrupt_taken st i.
Proof.
  unfold interrupt_taken.
  now rewrite !write_half_frame by discriminate.
Qed.

(** X17. LUI, AUIPC, and OP_IMM and OP with an ALU function the card knows,
    take one machine cycle in whatever phase they are met: the PC and
    [memaddr] move to PC + 4, the phase is 0 for the next instruction, [rd]
    is the register written, and neither memory nor a CSR is written; the
    card enters a trap next exactly when an interrupt is taken.  LUI adds
    the U immediate to register 0 and AUIPC to the PC; OP_IMM applies to
    [rs1] and the I immediate, and OP to [rs1] and [rs2], the operation
    selected by [funct3] together with bit 30 of the word - for OP_IMM too,
    where bit 30 is bit 10 of the immediate. *)
Theorem one_cycle_instruction (st : SequencerState) (i : Inputs) :
  st trap = 0 -> bits 0 2 (st _pc) = 0 ->
  one_cycle (executing st i) = true ->
  let w := executing st i in
  (machine_cycle st i _pc = trunc 32 (st _pc + 4) /\
   machine_cycle st i memaddr = trunc 32 (st _pc + 4) /\
   machine_cycle st i _instr_phase = 0 /\
   machine_cycle st i trap = (if interrupt_taken st i then 1 else 0) /\
   outputs st i z_reg = rd_of w /\
   outputs st i instr_complete = 1 /\
   outputs st i mem_wr = 0 /\ outputs st i z_to_csr = 0) /\
  (opcode_of w = Opcode.LUI ->
   outputs st i reg_to_x = 1 /\ outputs st i x_reg = 0 /\
   outputs st i data_y_out = decode_imm OpcodeFormat.U w /\
   outputs st i alu_op_to_z = AluOp.ADD) /\
  (opcode_of w = Opcode.AUIPC ->
   outputs st i reg_to_x = 0 /\ outputs st i data_x_out = trunc 32 (st _pc) /\
   outputs st i data_y_out = decode_imm OpcodeFormat.U w /\
   outputs st i alu_op_to_z = AluOp.ADD) /\
  (opcode_of w = Opcode.OP_IMM ->
   outputs st i reg_to_x = 1 /\ outputs st i x_reg = rs1_of w /\
   outputs st i data_y_out = decode_imm OpcodeFormat.I w /\
   outputs st i alu_op_to_z = alu_op_for (funct3_of w + 8 * bit 30 w)) /\
  (opcode_of w = Opcode.OP ->
   outputs st i reg_to_x = 1 /\ outputs st i x_reg = rs1_of w /\
   outputs st i reg_to_y = 1 /\ outputs st i y_reg = rs2_of w /\
   outputs st i alu_op_to_z = alu_op_for (funct3_of w + 8 * bit 30 w)).
Proof.
  intros Ht Hpc H1. cbv zeta.
  rewrite <- (alu_func_bits (executing st i)).
  rewrite <- (interrupt_taken_write_half st i).
  lift st i s.
  destruct (one_cycle_tick s (with_mcycle_end 1 i) Ht Hpc eq_refl H1)
    as ((Z & P & M & N & T & C & W1 & W2 & _) & L & A & I & O).
  split.
  { split; [exact P|]. split; [exact M|]. split; [exact N|].
    split; [exact T|]. split; [exact Z|]. split; [exact C|].
    split; [exact W1|exact W2]. }
  split; [exact L|]. split; [exact A|]. split; [exact I|exact O].
Qed.

Lemma one_cycle_instruction_witness :
  let st := fetch_at_0x100 in
  let i := buses 0 0 addi_x1_x0_1024 in
  machine_cycle st i _pc = 0x104 /\
  machine_cycle st i _instr_phase = 0 /\
  machine_cycle st i trap = 0 /\
  outputs st i z_reg = 1 /\
  outputs st i x_reg = 0 /\
  outputs st i data_y_out = 1024 /\
  outputs st i alu_op_to_z = AluOp.SUB.
Proof.
  intros st i.
  assert (Ht : st trap = 0) by reflexivity.
  assert (Hpc : bits 0 2 (st _pc) = 0) by reflexivity.
  assert (H1 : one_cycle (executing st i) = true) by reflexivity.
  destruct (one_cycle_instruction st i Ht Hpc H1)
    as ((P & _ & N & T & Z & _) & _ & _ & I & _).
  destruct (I eq_refl) as (_ & X & Y & O).
  split; [exact P|]. split; [exact N|]. split; [exact T|].
  split; [exact Z|]. split; [exact X|]. split; [exact Y|exact O].
Defined.

(** ** OP_IMM and OP with an ALU function outside the table *)

Lemma alu_switch_unknown st :
  is_alu_func (alu_func_of (st _instr)) = false ->
  alu_func_switch st = handle_illegal_instr st.
Proof.
  unfold is_alu_func, alu_funcs, alu_func_switch. cbn [existsb]. intros H.
  repeat (apply orb_false_iff in H; destruct H as [E H]; rewrite E; clear E).
  reflexivity.
Qed.

Lemma unknown_alu_dispatch st i imm :
  st trap = 0 -> bits 0 2 (st _pc) = 0 ->
  unknown_alu_func (st _instr) = true ->
  let w := st _instr in
  dispatch st i imm =
  (if opcode_of w =? Opcode.OP_IMM then
     [comb _imm_format OpcodeFormat.I; comb reg_to_x 1;
      comb x_reg (rs1_of w); comb _imm_to_y 1; comb z_reg (rd_of w)]
   else
     [comb _imm_format OpcodeFormat.R; comb reg_to_x 1;
      comb x_reg (rs1_of w); comb reg_to_y 1; comb y_reg (rs2_of w);
      comb z_reg (rd_of w)])
  ++ handle_illegal_instr st ++ [comb _is_last_instr_cycle 1].
Proof.
  intros Ht Hpc H1. cbv zeta. unfold unknown_alu_func in H1.
  apply andb_prop in H1 as [H1 Hf]. apply negb_true_iff in Hf.
  destruct (opcode_of (st _instr) =? Opcode.OP_IMM) eqn:E3.
  { apply Z.eqb_eq in E3.
    rewrite dispatch_opcode by (assumption || (rewrite E3; discriminate)).
    rewrite E3. cbv zeta. cbn [Z.eqb Pos.eqb Opcode.OP_IMM Opcode.LUI
                                 Opcode.AUIPC]. cbv iota.
    unfold handle_op_imm. now rewrite (alu_switch_unknown st Hf). }
  cbn [orb] in H1. apply Z.eqb_eq in H1.
  rewrite dispatch_opcode by (assumption || (rewrite H1; discriminate)).
  rewrite H1. cbv zeta. cbn [Z.eqb Pos.eqb Opcode.OP_IMM Opcode.LUI
                               Opcode.AUIPC Opcode.OP]. cbv iota.
  unfold handle_op. now rewrite (alu_switch_unknown st Hf).
Qed.

Lemma unknown_alu_tick st i :
  st trap = 0 -> bits 0 2 (st _pc) = 0 ->
  unknown_alu_func (st _instr) = true ->
  (tick Dph2 st i _exception = 1 /\
   tick Dph2 st i _trap_cause = TrapCause.EXC_ILLEGAL_INSTR) /\
  (mcycle_end i = 1 ->
   tick Dph1 st i trap = 1 /\
   tick Dph1 st i _mepc = trunc 32 (st _pc) /\
   tick Dph1 st i _mtval = trunc 32 (st _instr) /\
   tick Dph1 st i _pc = _pc_plus_4 st /\
   tick Dph1 st i memaddr = _pc_plus_4 st /\
   tick Dph1 st i _instr_phase = 0 /\
   settled st i instr_complete = 1 /\
   settled st i z_reg = rd_of (st _instr) /\
   settled st i alu_op_to_z = AluOp.NONE /\
   settled st i mem_wr = 0 /\ settled st i z_to_csr = 0).
Proof.
  intros Ht Hpc H1.
  pose proof (unknown_alu_dispatch st i (_imm st i) Ht Hpc H1) as HL.
  cbv zeta in HL. fold (handlers st i) in HL.
  pose proof (aligned_not_misalign st Hpc) as Hal.
  destruct (opcode_of (st _instr) =? Opcode.OP_IMM);
    pose proof (ctl_eq st i _ HL) as HC.
  all: split;
    [ split; rewrite tick_ph2_blocks, HL, fetch_no_ph2 by assumption;
      reflexivity
    | intros He;
      assert (Hl : ctl st i _is_last_instr_cycle = 1)
        by (rewrite HC; reflexivity);
      destruct (completes_tick st i He Hl) as (P & M & C);
      try (rewrite HC; reflexivity) ].
  all: split; [rewrite tick_trap, HL; reflexivity|].
  all: split; [rewrite tick_csr_b, HL by reflexivity; reflexivity|].
  all: split; [rewrite tick_csr_b, HL by reflexivity; reflexivity|].
  all: split; [exact P|]. all: split; [exact M|].
  all: split; [rewrite tick_instr_phase, settled_next_phase, HC;
               reflexivity|].
  all: split; [exact C|].
  all: split; [to_ctl; rewrite HC; ev; apply (trunc_reg_field 7)|].
  all: repeat split; to_ctl; rewrite HC; reflexivity.
Qed.

(** X18. An OP_IMM or OP word whose ALU function is outside the table
    raises the illegal-instruction exception - [mepc] takes the PC and
    [mtval] the word - and yet ends as a completed instruction: the PC and
    [memaddr] move to PC + 4 and [rd] is named as the register to write,
    with no ALU operation selected. *)
Theorem unknown_alu_func_traps (st : SequencerState) (i : Inputs) :
  st trap = 0 -> bits 0 2 (st _pc) = 0 ->
  unknown_alu_func (executing st i) = true ->
  machine_cycle st i trap = 1 /\
  machine_cycle st i _exception = 1 /\
  machine_cycle st i _trap_cause = TrapCause.EXC_ILLEGAL_INSTR /\
  machine_cycle st i _mepc = trunc 32 (st _pc) /\
  machine_cycle st i _mtval = trunc 32 (executing st i) /\
  machine_cycle st i _pc = trunc 32 (st _pc + 4) /\
  machine_cycle st i memaddr = trunc 32 (st _pc + 4) /\
  machine_cycle st i _instr_phase = 0 /\
  outputs st i instr_complete = 1 /\
  outputs st i z_reg = rd_of (executing st i) /\
  outputs st i alu_op_to_z = AluOp.NONE /\
  outputs st i mem_wr = 0 /\ outputs st i z_to_csr = 0.
Proof.
  intros Ht Hpc Hu.
  assert (L2 : machine_cycle st i _exception = 1 /\
               machine_cycle st i _trap_cause = TrapCause.EXC_ILLEGAL_INSTR).
  { rewrite !cycle_ph2 by reflexivity. lift_read st i s.
    exact (proj1 (unknown_alu_tick s (with_mcycle_end 0 i) Ht Hpc Hu)). }
  destruct L2 as [E C]. rewrite E, C. clear E C.
  lift st i s.
  destruct (proj2 (unknown_alu_tick s (with_mcycle_end 1 i) Ht Hpc Hu)
              eq_refl)
    as (T & P & V & K & M & N & Z1 & Z2 & Z3 & Z4 & Z5).
  split; [exact T|]. split; [reflexivity|]. split; [reflexivity|].
  split; [exact P|]. split; [exact V|]. split; [exact K|].
  split; [exact M|]. split; [exact N|]. split; [exact Z1|].
  split; [exact Z2|]. split; [exact Z3|]. split; [exact Z4|exact Z5].
Qed.

Lemma unknown_alu_func_traps_witness :
  let st := fetch_at_0x100 in
  let i := buses 0 0 sltu_x3_x1_x2 in
  machine_cycle st i trap = 1 /\
  machine_cycle st i _exception = 1 /\
  machine_cycle st i _trap_cause = TrapCause.EXC_ILLEGAL_INSTR /\
  machine_cycle st i _mepc = 0x100 /\
  machine_cycle st i _mtval = sltu_x3_x1_x2 /\
  machine_cycle st i _pc = 0x104 /\
  machine_cycle st i memaddr = 0x104 /\
  machine_cycle st i _instr_phase = 0 /\
  outputs st i instr_complete = 1 /\
  outputs st i z_reg = 3 /\
  outputs st i alu_op_to_z = AluOp.NONE /\
  outputs st i mem_wr = 0 /\ outputs st i z_to_csr = 0.
Proof.
  intros st i.
  assert (Ht : st trap = 0) by reflexivity.
  assert (Hpc : bits 0 2 (st _pc) = 0) by reflexivity.
  assert (Hu : unknown_alu_func (executing st i) = true) by reflexivity.
  exact (unknown_alu_func_traps st i Ht Hpc Hu).
Defined.

(** X19. The table of ALU functions.  [funct3] and bit 30 of the word
    select the operation.  With bit 30 clear every [funct3] but 3 has one;
    [funct3] 3, the SLTU and SLTIU of RISC-V, has none and raises the
    illegal-instruction exception.  With bit 30 set [funct3] 0 is SUB, 3 is
    SLTU and 5 is SRA, and every other [funct3] raises the exception. *)
Theorem alu_func_table (st : SequencerState) :
  (bit 30 (st _instr) = 0 -> funct3_of (st _instr) <> 3 ->
   alu_func_switch st
   = [comb alu_op_to_z (alu_op_for (funct3_of (st _instr)))] /\
   alu_op_for (funct3_of (st _instr)) <> AluOp.NONE) /\
  (bit 30 (st _instr) = 0 -> funct3_of (st _instr) = 3 ->
   alu_func_switch st = handle_illegal_instr st) /\
  (bit 30 (st _instr) = 1 -> funct3_of (st _instr) = 0 ->
   alu_func_switch st = [comb alu_op_to_z AluOp.SUB]) /\
  (bit 30 (st _instr) = 1 -> funct3_of (st _instr) = 3 ->
   alu_func_switch st = [comb alu_op_to_z AluOp.SLTU]) /\
  (bit 30 (st _instr) = 1 -> funct3_of (st _instr) = 5 ->
   alu_func_switch st = [comb alu_op_to_z AluOp.SRA]) /\
  (bit 30 (st _instr) = 1 -> funct3_of (st _instr) <> 0 ->
   funct3_of (st _instr) <> 3 -> funct3_of (st _instr) <> 5 ->
   alu_func_switch st = handle_illegal_instr st).
Proof.
  unfold alu_func_switch. rewrite alu_func_bits.
  pose proof (bits_range 12 15 (st _instr) ltac:(lia)) as R.
  change (2 ^ (15 - 12)) with 8 in R. fold (funct3_of (st _instr)) in R.
  assert (C : funct3_of (st _instr) = 0 \/ funct3_of (st _instr) = 1 \/
              funct3_of (st _instr) = 2 \/ funct3_of (st _instr) = 3 \/
              funct3_of (st _instr) = 4 \/ funct3_of (st _instr) = 5 \/
              funct3_of (st _instr) = 6 \/ funct3_of (st _instr) = 7) by lia.
  clear R.
  repeat split; intros;
    destruct C as [C|[C|[C|[C|[C|[C|[C|C]]]]]]];
    try contradiction; try congruence;
    repeat match goal with
           | H : bit 30 _ = _ |- _ => rewrite H in *; clear H
           end;
    rewrite ?C in *; try reflexivity; try discriminate.
Qed.

(** ** JAL and JALR *)

(** The rising edge of [ph1] leaves the instruction latch alone. *)
Lemma tick_ph1_instr st i : tick Dph1 st i _instr = st _instr.
Proof.
  rewrite tick_ph1_blocks.
  rewrite (frame _ (handlers _ _) _ _ _ _ _ (handlers_fp _ _)) by reflexivity.
  rewrite (frame _ (registers _ _) _ _ _ _ _ (registers_fp _ _))
    by reflexivity.
  rewrite (frame _ (fetch _ _) _ _ _ _ _ (fetch_fp _ _)) by reflexivity.
  now rewrite (frame _ (irq_latch _ _) _ _ _ _ _ (irq_latch_fp _ _))
    by reflexivity.
Qed.

(** After a machine cycle the latch holds the word the cycle ran. *)
Lemma cycle_instr st i : machine_cycle st i _instr = executing st i.
Proof.
  unfold machine_cycle. rewrite tick_ph1_instr. apply write_half_executing.
Qed.

Lemma trunc_even_address a : trunc 32 (even_address a) = even_address a.
Proof.
  unfold even_address. apply trunc_small.
  pose proof (bits_range 1 32 a ltac:(lia)) as R.
  change (2 ^ (32 - 1)) with 2147483648 in R.
  rewrite Z.shiftl_mul_pow2 by lia. change (2 ^ 1) with 2.
  change (2 ^ 32) with 4294967296. lia.
Qed.

Lemma jump_dispatch st i imm :
  st trap = 0 -> bits 0 2 (st _pc) = 0 -> is_jump (st _instr) = true ->
  dispatch st i imm
  = if opcode_of (st _instr) =? Opcode.JAL then handle_jal st
    else handle_jalr st.
Proof.
  intros Ht Hpc Hj. unfold is_jump in Hj.
  destruct (opcode_of (st _instr) =? Opcode.JAL) eqn:E.
  - apply Z.eqb_eq in E.
    rewrite dispatch_opcode by (assumption || (rewrite E; discriminate)).
    now rewrite E.
  - cbn [orb] in Hj. apply Z.eqb_eq in Hj.
    rewrite dispatch_opcode by (assumption || (rewrite Hj; discriminate)).
    now rewrite Hj.
Qed.

(** Phase 0 of a jump on the rising edge of [ph1]. *)
Lemma jump0_tick st i :
  st trap = 0 -> bits 0 2 (st _pc) = 0 -> st _instr_phase = 0 ->
  is_jump (st _instr) = true ->
  (settled st i alu_op_to_z = AluOp.ADD /\
   settled st i data_y_out = decode_imm OpcodeFormat.J (st _instr) /\
   settled st i z_reg = 0 /\ settled st i instr_complete = 0 /\
   settled st i mem_wr = 0 /\ settled st i z_to_csr = 0) /\
  (opcode_of (st _instr) = Opcode.JAL ->
   settled st i reg_to_x = 0 /\
   settled st i data_x_out = trunc 32 (st _pc)) /\
  (opcode_of (st _instr) = Opcode.JALR ->
   settled st i reg_to_x = 1 /\ settled st i x_reg = rs1_of (st _instr)) /\
  tick Dph1 st i memaddr = trunc 32 (data_z_in i) /\
  tick Dph1 st i _pc = st _pc /\
  tick Dph1 st i _instr_phase = 1 /\
  tick Dph1 st i trap = 0 /\
  tick Dph1 st i _trap_svc = st _trap_svc /\
  tick Dph1 st i _mstatus = st _mstatus.
Proof.
  intros Ht Hpc Hp Hj.
  pose proof (jump_dispatch st i (_imm st i) Ht Hpc Hj) as HL.
  fold (handlers st i) in HL.
  assert (HI : _imm st i = decode_imm OpcodeFormat.J (st _instr)).
  { unfold _imm. rewrite (jump_dispatch st i 0 Ht Hpc Hj).
    unfold handle_jal, handle_jalr. rewrite Hp.
    destruct (opcode_of (st _instr) =? Opcode.JAL); reflexivity. }
  unfold handle_jal, handle_jalr in HL. rewrite Hp in HL.
  change (0 =? 0) with true in HL. cbv iota in HL.
  unfold is_jump in Hj.
  destruct (opcode_of (st _instr) =? Opcode.JAL) eqn:E;
    [apply Z.eqb_eq in E
    |cbn [orb] in Hj; apply Z.eqb_eq in Hj; apply Z.eqb_neq in E];
    pose proof (ctl_eq st i _ HL) as HC;
    (assert (HN : ctl st i _is_last_instr_cycle = 0)
      by (rewrite HC; reflexivity));
    destruct (not_last_cycle st i HN) as [HLC HNI];
    (assert (HF : fetch st i = [comb _load_instr 1; comb mem_rd 1])
      by (unfold fetch, all_true; cbn [forallb];
          rewrite (aligned_not_misalign st Hpc), HNI, Hp, Ht; reflexivity)).
  all: split; [|split; [|split; [|split; [|split; [|split; [|split; [|split]]]]]]].
  all: try (intros X; exfalso;
            first [congruence | rewrite X in *; discriminate]).
  all: try (intros _).
  all: try (rewrite tick_trap, HL, HF, Ht; reflexivity).
  all: try (rewrite tick_trap_svc, HL; reflexivity).
  all: try (rewrite tick_csr_b, HL, HF by reflexivity; unfold csr_update;
            to_ctl; rewrite HC; reflexivity).
  all: try (rewrite tick_instr_phase, settled_next_phase, HC; reflexivity).
  all: try (rewrite tick_pc; unfold pc_update;
            rewrite (settled_last_cycle st i _pc_plus_4_to_pc eq_refl), HLC;
            to_ctl; rewrite HC; reflexivity).
  all: try (rewrite tick_memaddr; unfold memaddr_update;
            rewrite (settled_last_cycle st i _pc_plus_4_to_memaddr eq_refl),
              HLC;
            to_ctl; rewrite HC; reflexivity).
  all: try (repeat split;
            [ to_ctl; rewrite HC; reflexivity
            | rewrite settled_data_y_out; unfold y_mux; rewrite HC, HL, HI;
              ev; apply trunc_decode_imm
            | to_ctl; rewrite HC; reflexivity
            | rewrite (settled_last_cycle st i instr_complete eq_refl), HLC;
              reflexivity
            | to_ctl; rewrite HC; reflexivity
            | to_ctl; rewrite HC; reflexivity ]).
  - split; [to_ctl; rewrite HC; reflexivity|].
    rewrite settled_data_x_out. unfold x_mux. rewrite HC, HL. reflexivity.
  - split; [to_ctl; rewrite HC; reflexivity|].
    to_ctl. rewrite HC. ev. apply (trunc_reg_field 15).
Qed.

(** The later phase of a jump on the clock edges. *)
Lemma jump1_tick st i :
  st trap = 0 -> bits 0 2 (st _pc) = 0 -> st _instr_phase <> 0 ->
  is_jump (st _instr) = true ->
  (settled st i z_reg = rd_of (st _instr) /\
   settled st i data_z_out = _pc_plus_4 st /\
   settled st i mem_wr = 0 /\ settled st i z_to_csr = 0) /\
  (bit 1 (st memaddr) = 0 -> mcycle_end i = 1 ->
   tick Dph1 st i _pc = even_address (st memaddr) /\
   tick Dph1 st i memaddr = _pc_plus_4 st /\
   tick Dph1 st i _instr_phase = 0 /\
   tick Dph1 st i trap = (if interrupt_taken st i then 1 else 0) /\
   settled st i instr_complete = 1) /\
  (bit 1 (st memaddr) <> 0 ->
   (tick Dph2 st i _exception = 1 /\
    tick Dph2 st i _trap_cause = TrapCause.EXC_INSTR_ADDR_MISALIGN) /\
   tick Dph1 st i trap = 1 /\
   tick Dph1 st i _mepc = trunc 32 (st _pc) /\
   tick Dph1 st i _mtval = trunc 32 (jump_mtval (st _instr) (st memaddr)) /\
   tick Dph1 st i _pc = st _pc /\
   tick Dph1 st i memaddr = st memaddr /\
   tick Dph1 st i _instr_phase = 0 /\
   settled st i instr_complete = 0).
Proof.
  intros Ht Hpc Hp Hj.
  pose proof (jump_dispatch st i (_imm st i) Ht Hpc Hj) as HL.
  fold (handlers st i) in HL.
  pose proof (aligned_not_misalign st Hpc) as Hal.
  unfold handle_jal, handle_jalr in HL. rewrite (eqb_0_false _ Hp) in HL.
  unfold jump_mtval.
  split; [|split].
  - destruct (opcode_of (st _instr) =? Opcode.JAL);
      destruct (negb (bit 1 (st memaddr) =? 0));
      pose proof (ctl_eq st i _ HL) as HC;
      (split; [to_ctl; rewrite HC; ev; apply (trunc_reg_field 7)|]);
      (split; [rewrite settled_data_z_out; unfold z_mux; rewrite HC;
               ev; unfold _pc_plus_4; apply trunc_idem; lia|]);
      split; to_ctl; rewrite HC; reflexivity.
  - intros Hb He. rewrite Hb in HL. change (negb (0 =? 0)) with false in HL.
    cbv iota in HL.
    assert (HC : forall sig, ctl st i sig
                 = comb_of (defaults st ++
                            [comb _imm_format OpcodeFormat.J;
                             comb _pc_plus_4_to_z 1;
                             comb z_reg (rd_of (st _instr));
                             comb _memaddr_to_pc 1;
                             comb _is_last_instr_cycle 1]) sig).
    { intros sig. rewrite (ctl_eq st i _ HL).
      destruct (opcode_of (st _instr) =? Opcode.JAL); reflexivity. }
    assert (Hl : ctl st i _is_last_instr_cycle = 1)
      by (rewrite HC; reflexivity).
    pose proof (last_cycle_fetch st i Ht Hpc He Hl) as HF.
    rewrite (eqb_0_false _ Hp) in HF.
    assert (L : last_cycle st i =
                [comb instr_complete 1; comb _pc_plus_4_to_memaddr 1]).
    { unfold last_cycle. rewrite Hl, He, !HC. reflexivity. }
    split; [|split; [|split; [|split]]].
    + rewrite tick_pc. unfold pc_update.
      rewrite (settled_last_cycle st i _pc_plus_4_to_pc eq_refl), L.
      to_ctl. rewrite !HC. ev.
      change (next_of Dph1 [ph1 _pc (even_address (st memaddr))] _pc (st _pc)
              = even_address (st memaddr)).
      cbn [next_of fold_left ph1 Domain_beq Reg_beq andb].
      apply trunc_even_address.
    + rewrite tick_memaddr. unfold memaddr_update.
      rewrite (settled_last_cycle st i _pc_plus_4_to_memaddr eq_refl), L.
      change (truthy (comb_of (defaults st ++ _) _pc_plus_4_to_memaddr))
        with true.
      cbv iota. cbn [next_of fold_left ph1 Domain_beq Reg_beq andb].
      unfold _pc_plus_4. apply trunc_idem. lia.
    + rewrite tick_instr_phase, settled_next_phase, HC. reflexivity.
    + rewrite tick_trap, HL, HF, Ht.
      destruct (opcode_of (st _instr) =? Opcode.JAL);
        destruct (interrupt_taken st i); reflexivity.
    + rewrite (settled_last_cycle st i instr_complete eq_refl), L.
      reflexivity.
  - intros Hb. apply Z.eqb_neq in Hb. rewrite Hb in HL.
    change (negb false) with true in HL. cbv iota in HL.
    destruct (opcode_of (st _instr) =? Opcode.JAL);
      pose proof (ctl_eq st i _ HL) as HC;
      (assert (HN : ctl st i _is_last_instr_cycle = 0)
        by (rewrite HC; reflexivity));
      destruct (not_last_cycle st i HN) as [HLC HNI];
      (split; [split; rewrite tick_ph2_blocks, HL, fetch_no_ph2
                        by assumption; reflexivity|]);
      (split; [rewrite tick_trap, HL; reflexivity|]);
      (split; [rewrite tick_csr_b, HL by reflexivity; reflexivity|]);
      (split; [rewrite tick_csr_b, HL by reflexivity; reflexivity|]);
      (split; [rewrite tick_pc; unfold pc_update;
               rewrite (settled_last_cycle st i _pc_plus_4_to_pc eq_refl),
                 HLC;
               to_ctl; rewrite HC; reflexivity|]);
      (split; [rewrite tick_memaddr; unfold memaddr_update;
               rewrite (settled_last_cycle st i _pc_plus_4_to_memaddr
                          eq_refl), HLC;
               to_ctl; rewrite HC; reflexivity|]);
      (split; [rewrite tick_instr_phase, settled_next_phase, HC;
               reflexivity|]);
      rewrite (settled_last_cycle st i instr_complete eq_refl), HLC;
      reflexivity.
Qed.

Lemma interrupt_taken_ext s st i :
  s _trap_svc = st _trap_svc -> s _mstatus = st _mstatus ->
  interrupt_taken s i = interrupt_taken st i.
Proof. intros A B. unfold interrupt_taken. now rewrite A, B. Qed.

(** Phase 0 of a jump over its machine cycle. *)
Lemma jump0_cycle st i :
  st trap = 0 -> bits 0 2 (st _pc) = 0 -> st _instr_phase = 0 ->
  is_jump (executing st i) = true ->
  (outputs st i alu_op_to_z = AluOp.ADD /\
   outputs st i data_y_out = decode_imm OpcodeFormat.J (executing st i) /\
   outputs st i z_reg = 0 /\ outputs st i instr_complete = 0 /\
   outputs st i mem_wr = 0 /\ outputs st i z_to_csr = 0) /\
  (opcode_of (executing st i) = Opcode.JAL ->
   outputs st i reg_to_x = 0 /\
   outputs st i data_x_out = trunc 32 (st _pc)) /\
  (opcode_of (executing st i) = Opcode.JALR ->
   outputs st i reg_to_x = 1 /\
   outputs st i x_reg = rs1_of (executing st i)) /\
  machine_cycle st i memaddr = trunc 32 (data_z_in i) /\
  machine_cycle st i _pc = st _pc /\
  machine_cycle st i _instr_phase = 1 /\
  machine_cycle st i trap = 0 /\
  machine_cycle st i _trap_svc = st _trap_svc /\
  machine_cycle st i _mstatus = st _mstatus.
Proof.
  intros Ht Hpc Hp Hj. lift st i s.
  exact (jump0_tick s (with_mcycle_end 1 i) Ht Hpc Hp Hj).
Qed.

(** The later phase of a jump over its machine cycle. *)
Lemma jump1_cycle st i :
  st trap = 0 -> bits 0 2 (st _pc) = 0 -> st _instr_phase <> 0 ->
  is_jump (executing st i) = true ->
  (outputs st i z_reg = rd_of (executing st i) /\
   outputs st i data_z_out = trunc 32 (st _pc + 4) /\
   outputs st i mem_wr = 0 /\ outputs st i z_to_csr = 0) /\
  (bit 1 (st memaddr) = 0 ->
   machine_cycle st i _pc = even_address (st memaddr) /\
   machine_cycle st i memaddr = trunc 32 (st _pc + 4) /\
   machine_cycle st i _instr_phase = 0 /\
   machine_cycle st i trap = (if interrupt_taken st i then 1 else 0) /\
   outputs st i instr_complete = 1) /\
  (bit 1 (st memaddr) <> 0 ->
   (machine_cycle st i _exception = 1 /\
    machine_cycle st i _trap_cause = TrapCause.EXC_INSTR_ADDR_MISALIGN) /\
   machine_cycle st i trap = 1 /\
   machine_cycle st i _mepc = trunc 32 (st _pc) /\
   machine_cycle st i _mtval
   = trunc 32 (jump_mtval (executing st i) (st memaddr)) /\
   machine_cycle st i _pc = st _pc /\
   machine_cycle st i memaddr = st memaddr /\
   machine_cycle st i _instr_phase = 0 /\
   outputs st i instr_complete = 0).
Proof.
  intros Ht Hpc Hp Hj.
  assert (L2 : bit 1 (st memaddr) <> 0 ->
               machine_cycle st i _exception = 1 /\
               machine_cycle st i _trap_cause
               = TrapCause.EXC_INSTR_ADDR_MISALIGN).
  { intros Hb. rewrite !cycle_ph2 by reflexivity. lift_read st i s.
    destruct (jump1_tick s (with_mcycle_end 0 i) Ht Hpc Hp Hj)
      as (_ & _ & M).
    exact (proj1 (M Hb)). }
  rewrite <- (interrupt_taken_write_half st i).
  revert L2. lift st i s. intros L2.
  destruct (jump1_tick s (with_mcycle_end 1 i) Ht Hpc Hp Hj)
    as (O & A & M).
  split; [exact O|]. split.
  - intros Hb. exact (A Hb eq_refl).
  - intros Hb. split; [exact (L2 Hb)|]. exact (proj2 (M Hb)).
Qed.

(** X20. JAL and JALR take two machine cycles.  The first adds the
    immediate, decoded in the J format for both, to the PC (JAL) or to
    [rs1] (JALR) and loads the sum from the Z bus into [memaddr]; nothing
    is written and the PC stays.  The second names [rd] and drives PC + 4
    onto Z.  If bit 1 of the sum is clear the PC takes the sum with bit 0
    cleared, [memaddr] does not follow it but takes the old PC + 4, and the
    instruction completes.  If bit 1 is set the cycle raises the
    instruction-address-misaligned exception instead, [mtval] taking the
    sum (JALR: with bit 0 cleared), and the PC stays - [rd] being named all
    the same. *)
Theorem jump_two_cycles (st : SequencerState) (i j : Inputs) :
  st trap = 0 -> bits 0 2 (st _pc) = 0 -> st _instr_phase = 0 ->
  is_jump (executing st i) = true ->
  let w := executing st i in
  let target := trunc 32 (data_z_in i) in
  let s1 := machine_cycle st i in
  ((outputs st i alu_op_to_z = AluOp.ADD /\
    outputs st i data_y_out = decode_imm OpcodeFormat.J w /\
    outputs st i z_reg = 0 /\ outputs st i instr_complete = 0 /\
    outputs st i mem_wr = 0 /\ outputs st i z_to_csr = 0) /\
   (opcode_of w = Opcode.JAL ->
    outputs st i reg_to_x = 0 /\
    outputs st i data_x_out = trunc 32 (st _pc)) /\
   (opcode_of w = Opcode.JALR ->
    outputs st i reg_to_x = 1 /\ outputs st i x_reg = rs1_of w) /\
   s1 memaddr = target /\ s1 _pc = st _pc /\ s1 _instr_phase = 1 /\
   s1 trap = 0) /\
  (outputs s1 j z_reg = rd_of w /\
   outputs s1 j data_z_out = trunc 32 (st _pc + 4) /\
   outputs s1 j mem_wr = 0 /\ outputs s1 j z_to_csr = 0) /\
  (bit 1 target = 0 ->
   machine_cycle s1 j _pc = even_address target /\
   machine_cycle s1 j memaddr = trunc 32 (st _pc + 4) /\
   machine_cycle s1 j _instr_phase = 0 /\
   machine_cycle s1 j trap = (if interrupt_taken st j then 1 else 0) /\
   outputs s1 j instr_complete = 1) /\
  (bit 1 target <> 0 ->
   (machine_cycle s1 j _exception = 1 /\
    machine_cycle s1 j _trap_cause = TrapCause.EXC_INSTR_ADDR_MISALIGN) /\
   machine_cycle s1 j trap = 1 /\
   machine_cycle s1 j _mepc = trunc 32 (st _pc) /\
   machine_cycle s1 j _mtval = trunc 32 (jump_mtval w target) /\
   machine_cycle s1 j _pc = st _pc /\
   machine_cycle s1 j memaddr = target /\
   machine_cycle s1 j _instr_phase = 0 /\
   outputs s1 j instr_complete = 0).
Proof.
  intros Ht Hpc Hp Hj. cbv zeta.
  destruct (jump0_cycle st i Ht Hpc Hp Hj)
    as (O & A & B & M & P & N & T & S & U).
  pose proof (cycle_instr st i) as I.
  rewrite <- (interrupt_taken_ext (machine_cycle st i) st j S U).
  set (s1 := machine_cycle st i) in *. clearbody s1.
  assert (E : executing s1 j = executing st i).
  { unfold executing at 1, fetching. rewrite N. exact I. }
  assert (Hp1 : s1 _instr_phase <> 0) by (rewrite N; discriminate).
  assert (Hpc1 : bits 0 2 (s1 _pc) = 0) by (rewrite P; exact Hpc).
  assert (Hj1 : is_jump (executing s1 j) = true) by (rewrite E; exact Hj).
  destruct (jump1_cycle s1 j T Hpc1 Hp1 Hj1) as (O1 & A1 & M1).
  rewrite E, P, M in *.
  split.
  { split; [exact O|]. split; [exact A|]. split; [exact B|].
    split; [reflexivity|]. split; [reflexivity|]. split; [exact N|exact T]. }
  split; [exact O1|]. split; [exact A1|exact M1].
Qed.

Lemma jump_two_cycles_witness :
  let st := fetch_at_0x100 in
  let i := buses 0 0x120 jal_x1_0x20 in
  let j := buses 0 0 0 in
  let s1 := machine_cycle st i in
  outputs st i data_x_out = 0x100 /\
  outputs st i data_y_out = 0x20 /\
  s1 memaddr = 0x120 /\ s1 _pc = 0x100 /\
  outputs s1 j z_reg = 1 /\
  outputs s1 j data_z_out = 0x104 /\
  machine_cycle s1 j _pc = 0x120 /\
  machine_cycle s1 j memaddr = 0x104 /\
  machine_cycle s1 j _instr_phase = 0 /\
  machine_cycle s1 j trap = 0.
Proof.
  intros st i j s1.
  assert (Ht : st trap = 0) by reflexivity.
  assert (Hpc : bits 0 2 (st _pc) = 0) by reflexivity.
  assert (Hp : st _instr_phase = 0) by reflexivity.
  assert (Hj : is_jump (executing st i) = true) by reflexivity.
  destruct (jump_two_cycles st i j Ht Hpc Hp Hj)
    as ((O & A & _ & M & P & _) & O1 & A1 & _).
  destruct O as (_ & Y & _). destruct (A eq_refl) as (_ & X).
  destruct O1 as (Z & D & _).
  destruct (A1 eq_refl) as (P1 & M1 & N1 & T1 & _).
  split; [exact X|]. split; [exact Y|]. split; [exact M|]. split; [exact P|].
  split; [exact Z|]. split; [exact D|]. split; [exact P1|].
  split; [exact M1|]. split; [exact N1|exact T1].
Defined.

(** ** BRANCH *)

(** Phase 0 of a branch on the rising edge of [ph1]: the ALU subtracts
    [rs2] from [rs1] and its flags are stored. *)
Lemma branch0_tick st i :
  st trap = 0 -> bits 0 2 (st _pc) = 0 -> st _instr_phase = 0 ->
  opcode_of (st _instr) = Opcode.BRANCH ->
  (settled st i reg_to_x = 1 /\ settled st i x_reg = rs1_of (st _instr) /\
   settled st i reg_to_y = 1 /\ settled st i y_reg = rs2_of (st _instr) /\
   settled st i alu_op_to_z = AluOp.SUB /\
   settled st i z_reg = 0 /\ settled st i instr_complete = 0 /\
   settled st i mem_wr = 0 /\ settled st i z_to_csr = 0) /\
  (tick Dph1 st i _stored_alu_eq = trunc 1 (alu_eq i) /\
   tick Dph1 st i _stored_alu_lt = trunc 1 (alu_lt i) /\
   tick Dph1 st i _stored_alu_ltu = trunc 1 (alu_ltu i)) /\
  tick Dph1 st i _pc = st _pc /\
  tick Dph1 st i memaddr = st memaddr /\
  tick Dph1 st i _instr_phase = 1 /\
  tick Dph1 st i trap = 0 /\
  tick Dph1 st i _trap_svc = st _trap_svc /\
  tick Dph1 st i _mstatus = st _mstatus.
Proof.
  intros Ht Hpc Hp Ho.
  assert (HL : handlers st i = handle_branch st i)
    by (unfold handlers; now apply branch_dispatch).
  unfold handle_branch in HL. rewrite Hp in HL.
  change (0 =? 0) with true in HL. cbv iota in HL.
  pose proof (ctl_eq st i _ HL) as HC.
  assert (HN : ctl st i _is_last_instr_cycle = 0) by (rewrite HC; reflexivity).
  destruct (not_last_cycle st i HN) as [HLC HNI].
  assert (HF : fetch st i = [comb _load_instr 1; comb mem_rd 1]).
  { unfold fetch, all_true. cbn [forallb].
    rewrite (aligned_not_misalign st Hpc), HNI, Hp, Ht. reflexivity. }
  split; [|split; [|split; [|split; [|split; [|split; [|split]]]]]].
  - repeat split.
    + to_ctl. rewrite HC. reflexivity.
    + to_ctl. rewrite HC. ev. apply (trunc_reg_field 15).
    + to_ctl. rewrite HC. reflexivity.
    + to_ctl. rewrite HC. ev. apply (trunc_reg_field 20).
    + to_ctl. rewrite HC. reflexivity.
    + to_ctl. rewrite HC. reflexivity.
    + rewrite (settled_last_cycle st i instr_complete eq_refl), HLC.
      reflexivity.
    + to_ctl. rewrite HC. reflexivity.
    + to_ctl. rewrite HC. reflexivity.
  - repeat split; rewrite tick_ph1_blocks; unfold registers;
      rewrite !next_of_app; peel st i; reflexivity.
  - rewrite tick_pc. unfold pc_update.
    rewrite (settled_last_cycle st i _pc_plus_4_to_pc eq_refl), HLC.
    to_ctl. rewrite HC. reflexivity.
  - rewrite tick_memaddr. unfold memaddr_update.
    rewrite (settled_last_cycle st i _pc_plus_4_to_memaddr eq_refl), HLC.
    to_ctl. rewrite HC. reflexivity.
  - rewrite tick_instr_phase, settled_next_phase, HC. reflexivity.
  - rewrite tick_trap, HL, HF, Ht. reflexivity.
  - rewrite tick_trap_svc, HL. reflexivity.
  - rewrite tick_csr_b, HL, HF by reflexivity. unfold csr_update.
    to_ctl. rewrite HC. reflexivity.
Qed.

Lemma unknown_branch_not_taken st :
  is_branch_cond (funct3_of (st _instr)) = false -> branch_cond st = false.
Proof.
  unfold is_branch_cond, branch_cond. intros H.
  repeat (apply orb_false_iff in H; destruct H as [H E]; rewrite E;
          clear E).
  now rewrite H.
Qed.

(** Phase 1 of a branch whose sum is a multiple of 4. *)
Lemma branch1_handlers st i :
  st trap = 0 -> bits 0 2 (st _pc) = 0 -> st _instr_phase <> 0 ->
  opcode_of (st _instr) = Opcode.BRANCH ->
  bits 0 2 (data_z_in i) = 0 ->
  dispatch st i (_imm st i) =
  [ comb _imm_format OpcodeFormat.B ] ++
  (if is_branch_cond (funct3_of (st _instr)) then []
   else handle_illegal_instr st) ++
  (if branch_cond st then [ comb _imm_to_y 1 ]
   else [ comb _shamt 4; comb _shamt_to_y 1 ]) ++
  [ comb _pc_to_x 1; comb alu_op_to_z AluOp.ADD; comb _z_to_pc 1;
    comb _z_to_memaddr 1; comb _is_last_instr_cycle 1 ] /\
  _imm st i = decode_imm OpcodeFormat.B (st _instr).
Proof.
  intros Ht Hpc Hp Ho Hz. split.
  - rewrite branch_dispatch by assumption. unfold handle_branch.
    rewrite (eqb_0_false _ Hp), Hz. reflexivity.
  - unfold _imm. rewrite branch_dispatch by assumption.
    unfold handle_branch. rewrite (eqb_0_false _ Hp), Hz.
    destruct (is_branch_cond _); destruct (branch_cond st); reflexivity.
Qed.

Lemma branch1_tick st i :
  st trap = 0 -> bits 0 2 (st _pc) = 0 -> st _instr_phase <> 0 ->
  opcode_of (st _instr) = Opcode.BRANCH ->
  bits 0 2 (data_z_in i) = 0 ->
  (tick Dph2 st i _exception
   = (if is_branch_cond (funct3_of (st _instr)) then st _exception else 1) /\
   tick Dph2 st i _trap_cause
   = (if is_branch_cond (funct3_of (st _instr)) then st _trap_cause
      else TrapCause.EXC_ILLEGAL_INSTR)) /\
  (mcycle_end i = 1 ->
   (settled st i data_x_out = trunc 32 (st _pc) /\
    settled st i data_y_out
    = (if branch_cond st then decode_imm OpcodeFormat.B (st _instr) else 4) /\
    settled st i alu_op_to_z = AluOp.ADD /\
    settled st i z_reg = 0 /\ settled st i mem_wr = 0 /\
    settled st i z_to_csr = 0 /\ settled st i instr_complete = 1) /\
   tick Dph1 st i _pc = trunc 32 (data_z_in i) /\
   tick Dph1 st i memaddr = trunc 32 (data_z_in i) /\
   tick Dph1 st i _instr_phase = 0 /\
   (is_branch_cond (funct3_of (st _instr)) = true ->
    tick Dph1 st i trap = (if interrupt_taken st i then 1 else 0)) /\
   (is_branch_cond (funct3_of (st _instr)) = false ->
    tick Dph1 st i trap = 1 /\
    tick Dph1 st i _mepc = trunc 32 (st _pc) /\
    tick Dph1 st i _mtval = trunc 32 (st _instr))).
Proof.
  intros Ht Hpc Hp Ho Hz.
  destruct (branch1_handlers st i Ht Hpc Hp Ho Hz) as [HL HI].
  fold (handlers st i) in HL.
  pose proof (aligned_not_misalign st Hpc) as Hal.
  destruct (is_branch_cond (funct3_of (st _instr))) eqn:Hf;
    destruct (branch_cond st) eqn:Hb;
    pose proof (ctl_eq st i _ HL) as HC;
    (assert (Hl : ctl st i _is_last_instr_cycle = 1)
      by (rewrite HC; reflexivity)).
  all: split;
    [ split; rewrite tick_ph2_blocks, HL, fetch_no_ph2 by assumption;
      reflexivity
    | intros He;
      pose proof (last_cycle_fetch st i Ht Hpc He Hl) as HF;
      rewrite (eqb_0_false _ Hp) in HF;
      (assert (L : last_cycle st i = [comb instr_complete 1])
        by (unfold last_cycle; rewrite Hl, He, !HC; reflexivity)) ].
  all: split; [|split; [|split; [|split; [|split]]]].
  all: try (intros X; discriminate X).
  all: try (intros _).
  all: try (rewrite tick_pc; unfold pc_update;
            rewrite (settled_last_cycle st i _pc_plus_4_to_pc eq_refl), L;
            to_ctl; rewrite !HC; reflexivity).
  all: try (rewrite tick_memaddr; unfold memaddr_update;
            rewrite (settled_last_cycle st i _pc_plus_4_to_memaddr eq_refl),
              L;
            to_ctl; rewrite !HC; reflexivity).
  all: try (rewrite tick_instr_phase, settled_next_phase, HC; reflexivity).
  all: try (rewrite tick_trap, HL, HF, Ht;
            destruct (interrupt_taken st i); reflexivity).
  all: try (split; [rewrite tick_trap, HL; reflexivity|];
            split; rewrite tick_csr_b, HL by reflexivity; reflexivity).
  all: split; [rewrite settled_data_x_out; unfold x_mux; rewrite HC, HL;
               reflexivity|].
  all: split; [rewrite settled_data_y_out; unfold y_mux; rewrite !HC, HL,
                 ?HI; ev; try apply trunc_decode_imm; reflexivity|].
  all: split; [to_ctl; rewrite HC; reflexivity|].
  all: split; [to_ctl; rewrite HC; reflexivity|].
  all: split; [to_ctl; rewrite HC; reflexivity|].
  all: split; [to_ctl; rewrite HC; reflexivity|].
  all: rewrite (settled_last_cycle st i instr_complete eq_refl), L;
    reflexivity.
Qed.

Lemma branch_cond_taken st :
  branch_cond st
  = branch_taken (funct3_of (st _instr)) (st _stored_alu_eq)
      (st _stored_alu_lt) (st _stored_alu_ltu).
Proof. reflexivity. Qed.

(** Phase 0 of a branch over its machine cycle. *)
Lemma branch0_cycle st i :
  st trap = 0 -> bits 0 2 (st _pc) = 0 -> st _instr_phase = 0 ->
  opcode_of (executing st i) = Opcode.BRANCH ->
  (outputs st i reg_to_x = 1 /\
   outputs st i x_reg = rs1_of (executing st i) /\
   outputs st i reg_to_y = 1 /\
   outputs st i y_reg = rs2_of (executing st i) /\
   outputs st i alu_op_to_z = AluOp.SUB /\
   outputs st i z_reg = 0 /\ outputs st i instr_complete = 0 /\
   outputs st i mem_wr = 0 /\ outputs st i z_to_csr = 0) /\
  (machine_cycle st i _stored_alu_eq = trunc 1 (alu_eq i) /\
   machine_cycle st i _stored_alu_lt = trunc 1 (alu_lt i) /\
   machine_cycle st i _stored_alu_ltu = trunc 1 (alu_ltu i)) /\
  machine_cycle st i _pc = st _pc /\
  machine_cycle st i memaddr = st memaddr /\
  machine_cycle st i _instr_phase = 1 /\
  machine_cycle st i trap = 0 /\
  machine_cycle st i _trap_svc = st _trap_svc /\
  machine_cycle st i _mstatus = st _mstatus.
Proof.
  intros Ht Hpc Hp Ho. lift st i s.
  exact (branch0_tick s (with_mcycle_end 1 i) Ht Hpc Hp Ho).
Qed.

(** Phase 1 of a branch over its machine cycle, the sum on Z being a
    multiple of 4. *)
Lemma branch1_cycle st i :
  st trap = 0 -> bits 0 2 (st _pc) = 0 -> st _instr_phase <> 0 ->
  opcode_of (executing st i) = Opcode.BRANCH ->
  bits 0 2 (data_z_in i) = 0 ->
  let w := executing st i in
  let cond := branch_taken (funct3_of w) (st _stored_alu_eq)
                (st _stored_alu_lt) (st _stored_alu_ltu) in
  (outputs st i data_x_out = trunc 32 (st _pc) /\
   outputs st i data_y_out
   = (if cond then decode_imm OpcodeFormat.B w else 4) /\
   outputs st i alu_op_to_z = AluOp.ADD /\
   outputs st i z_reg = 0 /\ outputs st i mem_wr = 0 /\
   outputs st i z_to_csr = 0 /\ outputs st i instr_complete = 1) /\
  machine_cycle st i _pc = trunc 32 (data_z_in i) /\
  machine_cycle st i memaddr = trunc 32 (data_z_in i) /\
  machine_cycle st i _instr_phase = 0 /\
  (is_branch_cond (funct3_of w) = true ->
   machine_cycle st i trap = (if interrupt_taken st i then 1 else 0)) /\
  (is_branch_cond (funct3_of w) = false ->
   cond = false /\
   machine_cycle st i trap = 1 /\
   machine_cycle st i _exception = 1 /\
   machine_cycle st i _trap_cause = TrapCause.EXC_ILLEGAL_INSTR /\
   machine_cycle st i _mepc = trunc 32 (st _pc) /\
   machine_cycle st i _mtval = trunc 32 w).
Proof.
  intros Ht Hpc Hp Ho Hz. cbv zeta.
  assert (L2 : is_branch_cond (funct3_of (executing st i)) = false ->
               machine_cycle st i _exception = 1 /\
               machine_cycle st i _trap_cause = TrapCause.EXC_ILLEGAL_INSTR).
  { intros Hf. rewrite !cycle_ph2 by reflexivity. lift_read st i s.
    destruct (branch1_tick s (with_mcycle_end 0 i) Ht Hpc Hp Ho Hz)
      as ((E & C) & _).
    rewrite Hf in E, C. split; [exact E|exact C]. }
  rewrite <- (interrupt_taken_write_half st i).
  revert L2. lift st i s. intros L2.
  destruct (branch1_tick s (with_mcycle_end 1 i) Ht Hpc Hp Ho Hz)
    as (_ & A).
  destruct (A eq_refl) as (O & P & M & N & T & I).
  rewrite branch_cond_taken in O.
  split; [exact O|]. split; [exact P|]. split; [exact M|].
  split; [exact N|]. split; [exact T|].
  intros Hf. split.
  { rewrite <- branch_cond_taken. now apply unknown_branch_not_taken. }
  destruct (I Hf) as (T1 & E1 & V1). destruct (L2 Hf) as (X1 & C1).
  split; [exact T1|]. split; [exact X1|]. split; [exact C1|].
  split; [exact E1|exact V1].
Qed.

(** X21. A branch takes two machine cycles.  The first subtracts [rs2]
    from [rs1] and stores the ALU flags; the PC and [memaddr] stay.  The
    second adds to the PC the B immediate if the condition [funct3] names
    holds on the stored flags, and 4 if not, and - the sum on Z being a
    multiple of 4 - loads the sum into both the PC and [memaddr] and
    completes; no register is written.  A [funct3] that names no condition
    (2 or 3) counts as not taken and moves the PC in the same way, while
    raising the illegal-instruction exception. *)
Theorem branch_two_cycles (st : SequencerState) (i j : Inputs) :
  st trap = 0 -> bits 0 2 (st _pc) = 0 -> st _instr_phase = 0 ->
  opcode_of (executing st i) = Opcode.BRANCH ->
  bits 0 2 (data_z_in j) = 0 ->
  let w := executing st i in
  let s1 := machine_cycle st i in
  let cond := branch_taken (funct3_of w) (trunc 1 (alu_eq i))
                (trunc 1 (alu_lt i)) (trunc 1 (alu_ltu i)) in
  (outputs st i reg_to_x = 1 /\ outputs st i x_reg = rs1_of w /\
   outputs st i reg_to_y = 1 /\ outputs st i y_reg = rs2_of w /\
   outputs st i alu_op_to_z = AluOp.SUB /\
   outputs st i z_reg = 0 /\ outputs st i instr_complete = 0 /\
   s1 _pc = st _pc /\ s1 memaddr = st memaddr /\ s1 _instr_phase = 1 /\
   s1 trap = 0) /\
  (outputs s1 j data_x_out = trunc 32 (st _pc) /\
   outputs s1 j data_y_out
   = (if cond then decode_imm OpcodeFormat.B w else 4) /\
   outputs s1 j alu_op_to_z = AluOp.ADD /\
   outputs s1 j z_reg = 0 /\ outputs s1 j mem_wr = 0 /\
   outputs s1 j z_to_csr = 0 /\ outputs s1 j instr_complete = 1) /\
  (machine_cycle s1 j _pc = trunc 32 (data_z_in j) /\
   machine_cycle s1 j memaddr = trunc 32 (data_z_in j) /\
   machine_cycle s1 j _instr_phase = 0) /\
  (is_branch_cond (funct3_of w) = true ->
   machine_cycle s1 j trap = (if interrupt_taken st j then 1 else 0)) /\
  (is_branch_cond (funct3_of w) = false ->
   cond = false /\
   machine_cycle s1 j trap = 1 /\
   machine_cycle s1 j _exception = 1 /\
   machine_cycle s1 j _trap_cause = TrapCause.EXC_ILLEGAL_INSTR /\
   machine_cycle s1 j _mepc = trunc 32 (st _pc) /\
   machine_cycle s1 j _mtval = trunc 32 w).
Proof.
  intros Ht Hpc Hp Ho Hz. cbv zeta.
  destruct (branch0_cycle st i Ht Hpc Hp Ho)
    as ((X1 & X2 & Y1 & Y2 & A & Z0 & C0 & _) & (Fe & Fl & Fu) & P & M & N
        & T & S & U).
  pose proof (cycle_instr st i) as I.
  rewrite <- (interrupt_taken_ext (machine_cycle st i) st j S U).
  set (s1 := machine_cycle st i) in *. clearbody s1.
  assert (E : executing s1 j = executing st i).
  { unfold executing at 1, fetching. rewrite N. exact I. }
  assert (Hp1 : s1 _instr_phase <> 0) by (rewrite N; discriminate).
  assert (Hpc1 : bits 0 2 (s1 _pc) = 0) by (rewrite P; exact Hpc).
  assert (Ho1 : opcode_of (executing s1 j) = Opcode.BRANCH)
    by (rewrite E; exact Ho).
  pose proof (branch1_cycle s1 j T Hpc1 Hp1 Ho1 Hz) as B. cbv zeta in B.
  rewrite E, P, Fe, Fl, Fu in B.
  destruct B as (O1 & P1 & M1 & N1 & T1 & I1).
  split.
  { split; [exact X1|]. split; [exact X2|]. split; [exact Y1|].
    split; [exact Y2|]. split; [exact A|]. split; [exact Z0|].
    split; [exact C0|]. split; [exact P|]. split; [exact M|].
    split; [exact N|exact T]. }
  split; [exact O1|].
  split; [split; [exact P1|split; [exact M1|exact N1]]|].
  split; [exact T1|exact I1].
Qed.

Lemma branch_two_cycles_witness :
  let st := fetch_at_0x100 in
  let i := buses 0 0 bne_x1_x2_16 in
  let j := buses 0 0x110 0 in
  let s1 := machine_cycle st i in
  outputs st i x_reg = 1 /\ outputs st i y_reg = 2 /\
  outputs s1 j data_x_out = 0x100 /\
  outputs s1 j data_y_out = 16 /\
  machine_cycle s1 j _pc = 0x110 /\
  machine_cycle s1 j memaddr = 0x110 /\
  machine_cycle s1 j _instr_phase = 0 /\
  machine_cycle s1 j trap = 0.
Proof.
  intros st i j s1.
  assert (Ht : st trap = 0) by reflexivity.
  assert (Hpc : bits 0 2 (st _pc) = 0) by reflexivity.
  assert (Hp : st _instr_phase = 0) by reflexivity.
  assert (Ho : opcode_of (executing st i) = Opcode.BRANCH) by reflexivity.
  assert (Hz : bits 0 2 (data_z_in j) = 0) by reflexivity.
  destruct (branch_two_cycles st i j Ht Hpc Hp Ho Hz)
    as ((_ & X & _ & Y & _) & (DX & DY & _) & (P & M & N) & T & _).
  split; [exact X|]. split; [exact Y|]. split; [exact DX|].
  split; [exact DY|]. split; [exact P|]. split; [exact M|].
  split; [exact N|exact (T eq_refl)].
Defined.

(** ** LOAD and STORE *)

Lemma even_low_bits addr :
  Z.testbit addr 0 = false -> bits 0 2 addr = 0 \/ bits 0 2 addr = 2.
Proof.
  intros H.
  assert (E : addr mod 2 = 0) by (rewrite <- Z.bit0_mod, H; reflexivity).
  rewrite <- (low_bits_of_low_bits 1 2) in E by lia.
  rewrite <- (bits_low 2 addr) in E by lia.
  pose proof (bits_range 0 2 addr ltac:(lia)) as R.
  change (2 ^ (2 - 0)) with 4 in R. change (2 ^ 1) with 2 in E.
  assert (C : bits 0 2 addr = 0 \/ bits 0 2 addr = 1 \/
              bits 0 2 addr = 2 \/ bits 0 2 addr = 3) by lia.
  destruct C as [C|[C|[C|C]]]; rewrite C in E; try discriminate E; auto.
Qed.

(** The first cycle of LOAD, STORE and JALR alike: [rs1] plus the
    immediate goes to [memaddr]. *)
Lemma address_tick st i fmt :
  st trap = 0 -> bits 0 2 (st _pc) = 0 -> st _instr_phase = 0 ->
  handlers st i
  = [ comb _imm_format fmt; comb reg_to_x 1; comb x_reg (rs1_of (st _instr));
      comb _imm_to_y 1; comb alu_op_to_z AluOp.ADD; comb _z_to_memaddr 1;
      comb _next_instr_phase 1 ] ->
  _imm st i = decode_imm fmt (st _instr) ->
  (settled st i reg_to_x = 1 /\ settled st i x_reg = rs1_of (st _instr) /\
   settled st i data_y_out = decode_imm fmt (st _instr) /\
   settled st i alu_op_to_z = AluOp.ADD /\
   settled st i z_reg = 0 /\ settled st i instr_complete = 0 /\
   settled st i mem_wr = 0 /\ settled st i z_to_csr = 0) /\
  tick Dph1 st i memaddr = trunc 32 (data_z_in i) /\
  tick Dph1 st i _pc = st _pc /\
  tick Dph1 st i _instr_phase = 1 /\
  tick Dph1 st i trap = 0 /\
  tick Dph1 st i _trap_svc = st _trap_svc /\
  tick Dph1 st i _mstatus = st _mstatus.
Proof.
  intros Ht Hpc Hp HL HI.
  pose proof (ctl_eq st i _ HL) as HC.
  assert (HN : ctl st i _is_last_instr_cycle = 0) by (rewrite HC; reflexivity).
  destruct (not_last_cycle st i HN) as [HLC HNI].
  assert (HF : fetch st i = [comb _load_instr 1; comb mem_rd 1]).
  { unfold fetch, all_true. cbn [forallb].
    rewrite (aligned_not_misalign st Hpc), HNI, Hp, Ht. reflexivity. }
  split; [|split; [|split; [|split; [|split; [|split]]]]].
  - repeat split.
    + to_ctl. rewrite HC. reflexivity.
    + to_ctl. rewrite HC. ev. apply (trunc_reg_field 15).
    + rewrite settled_data_y_out. unfold y_mux. rewrite HC, HL, HI. ev.
      apply trunc_decode_imm.
    + to_ctl. rewrite HC. reflexivity.
    + to_ctl. rewrite HC. reflexivity.
    + rewrite (settled_last_cycle st i instr_complete eq_refl), HLC.
      reflexivity.
    + to_ctl. rewrite HC. reflexivity.
    + to_ctl. rewrite HC. reflexivity.
  - rewrite tick_memaddr. unfold memaddr_update.
    rewrite (settled_last_cycle st i _pc_plus_4_to_memaddr eq_refl), HLC.
    to_ctl. rewrite HC. reflexivity.
  - rewrite tick_pc. unfold pc_update.
    rewrite (settled_last_cycle st i _pc_plus_4_to_pc eq_refl), HLC.
    to_ctl. rewrite HC. reflexivity.
  - rewrite tick_instr_phase, settled_next_phase, HC. reflexivity.
  - rewrite tick_trap, HL, HF, Ht. reflexivity.
  - rewrite tick_trap_svc, HL. reflexivity.
  - rewrite tick_csr_b, HL, HF by reflexivity. unfold csr_update.
    to_ctl. rewrite HC. reflexivity.
Qed.

Lemma load0_tick st i :
  st trap = 0 -> bits 0 2 (st _pc) = 0 -> st _instr_phase = 0 ->
  opcode_of (st _instr) = Opcode.LOAD ->
  (settled st i reg_to_x = 1 /\ settled st i x_reg = rs1_of (st _instr) /\
   settled st i data_y_out = decode_imm OpcodeFormat.I (st _instr) /\
   settled st i alu_op_to_z = AluOp.ADD /\
   settled st i z_reg = 0 /\ settled st i instr_complete = 0 /\
   settled st i mem_wr = 0 /\ settled st i z_to_csr = 0) /\
  tick Dph1 st i memaddr = trunc 32 (data_z_in i) /\
  tick Dph1 st i _pc = st _pc /\
  tick Dph1 st i _instr_phase = 1 /\
  tick Dph1 st i trap = 0 /\
  tick Dph1 st i _trap_svc = st _trap_svc /\
  tick Dph1 st i _mstatus = st _mstatus.
Proof.
  intros Ht Hpc Hp Ho. apply address_tick; try assumption.
  - unfold handlers. rewrite load_dispatch by assumption.
    unfold handle_load. rewrite Hp. reflexivity.
  - unfold _imm. rewrite load_dispatch by assumption.
    unfold handle_load. rewrite Hp. reflexivity.
Qed.

(** The assignments of an aligned LOAD in phase 1. *)
Lemma load1_handlers st i :
  st trap = 0 -> bits 0 2 (st _pc) = 0 -> st _instr_phase = 1 ->
  opcode_of (st _instr) = Opcode.LOAD ->
  is_load_width (funct3_of (st _instr)) = true ->
  misaligned_load (funct3_of (st _instr)) (st memaddr) = false ->
  let sh := 32 - 8 * (bits 0 2 (st memaddr)
                      + access_bytes (funct3_of (st _instr))) in
  handlers st i =
  [ comb _imm_format OpcodeFormat.I; comb mem_rd 1; comb _memdata_to_x 1;
    comb _shamt_to_y 1; comb alu_op_to_z AluOp.SLL;
    comb z_reg (rd_of (st _instr)); comb _next_instr_phase 2;
    comb _shamt sh ] /\
  0 <= sh < 2 ^ 5.
Proof.
  intros Ht Hpc Hp Ho Hw Hm. cbv zeta. unfold handlers.
  rewrite load_dispatch by assumption.
  unfold handle_load. rewrite Hp. change (1 =? 0) with false.
  change (1 =? 1) with true. cbv iota zeta.
  pose proof (bits_range 0 2 (st memaddr) ltac:(lia)) as R.
  change (2 ^ (2 - 0)) with 4 in R.
  assert (C : bits 0 2 (st memaddr) = 0 \/ bits 0 2 (st memaddr) = 1 \/
              bits 0 2 (st memaddr) = 2 \/ bits 0 2 (st memaddr) = 3) by lia.
  clear R.
  unfold misaligned_load in Hm. unfold is_load_width in Hw.
  cbn [existsb] in Hw.
  repeat (apply orb_prop in Hw as [Hw|Hw]); try discriminate Hw;
    apply Z.eqb_eq in Hw; rewrite Hw in *;
    cbn [Z.eqb Pos.eqb orb andb MemAccessWidth.B MemAccessWidth.BU
         MemAccessWidth.H MemAccessWidth.HU MemAccessWidth.W] in Hm;
    rewrite ?orb_false_r in Hm;
    try (apply even_low_bits in Hm; clear C; rename Hm into C);
    try (apply negb_false_iff, Z.eqb_eq in Hm; clear C; rename Hm into C);
    repeat (destruct C as [C|C]); rewrite C;
    (split; [reflexivity|vm_compute; split; (discriminate || reflexivity)]).
Qed.

(** A cycle that is not the last of its instruction and loads neither the
    PC nor [memaddr] nor a CSR. *)
Lemma middle_tick st i :
  st trap = 0 -> bits 0 2 (st _pc) = 0 -> st _instr_phase <> 0 ->
  ctl st i _is_last_instr_cycle = 0 ->
  ctl st i _x_to_pc = 0 -> ctl st i _z_to_pc = 0 ->
  ctl st i _memaddr_to_pc = 0 -> ctl st i _memdata_to_pc = 0 ->
  ctl st i _x_to_memaddr = 0 -> ctl st i _z_to_memaddr = 0 ->
  ctl st i _memdata_to_memaddr = 0 -> ctl st i z_to_csr = 0 ->
  fetch st i = [] /\
  tick Dph1 st i _pc = st _pc /\
  tick Dph1 st i memaddr = st memaddr /\
  settled st i instr_complete = 0 /\
  (next_of Dph1 (handlers st i) _mstatus (st _mstatus) = st _mstatus ->
   tick Dph1 st i _mstatus = st _mstatus).
Proof.
  intros Ht Hpc Hp HN X1 X2 X3 X4 Y1 Y2 Y3 Zc.
  destruct (not_last_cycle st i HN) as [HLC HNI].
  assert (HF : fetch st i = []).
  { unfold fetch, all_true. cbn [forallb].
    rewrite (aligned_not_misalign st Hpc), HNI, (eqb_0_false _ Hp).
    reflexivity. }
  split; [exact HF|]. split; [|split; [|split]].
  - rewrite tick_pc. unfold pc_update.
    rewrite (settled_last_cycle st i _pc_plus_4_to_pc eq_refl), HLC.
    to_ctl. rewrite X1, X2, X3, X4. reflexivity.
  - rewrite tick_memaddr. unfold memaddr_update.
    rewrite (settled_last_cycle st i _pc_plus_4_to_memaddr eq_refl), HLC.
    to_ctl. rewrite Y1, Y2, Y3. reflexivity.
  - rewrite (settled_last_cycle st i instr_complete eq_refl), HLC.
    reflexivity.
  - intros K. rewrite tick_csr_b, HF by reflexivity. unfold csr_update.
    to_ctl. rewrite Zc. exact K.
Qed.

Lemma load1_tick st i :
  st trap = 0 -> bits 0 2 (st _pc) = 0 -> st _instr_phase = 1 ->
  opcode_of (st _instr) = Opcode.LOAD ->
  is_load_width (funct3_of (st _instr)) = true ->
  misaligned_load (funct3_of (st _instr)) (st memaddr) = false ->
  (settled st i mem_rd = 1 /\
   settled st i data_x_out = trunc 32 (memdata_rd i) /\
   settled st i data_y_out
   = 32 - 8 * (bits 0 2 (st memaddr) + access_bytes (funct3_of (st _instr)))
   /\
   settled st i alu_op_to_z = AluOp.SLL /\
   settled st i z_reg = rd_of (st _instr) /\
   settled st i instr_complete = 0 /\
   settled st i mem_wr = 0 /\ settled st i z_to_csr = 0) /\
  tick Dph1 st i memaddr = st memaddr /\
  tick Dph1 st i _pc = st _pc /\
  tick Dph1 st i _instr_phase = 2 /\
  tick Dph1 st i trap = 0 /\
  tick Dph1 st i _trap_svc = st _trap_svc /\
  tick Dph1 st i _mstatus = st _mstatus.
Proof.
  intros Ht Hpc Hp Ho Hw Hm.
  destruct (load1_handlers st i Ht Hpc Hp Ho Hw Hm) as [HL Hs].
  cbv zeta in HL, Hs.
  set (sh := 32 - 8 * _) in *. clearbody sh.
  pose proof (ctl_eq st i _ HL) as HC.
  assert (Hp' : st _instr_phase <> 0) by (rewrite Hp; discriminate).
  destruct (middle_tick st i Ht Hpc Hp') as (HF & P & M & C & S);
    try (rewrite HC; reflexivity).
  assert (Hsh : trunc 32 (trunc 5 sh) = sh).
  { rewrite (trunc_small 5) by exact Hs. apply trunc_small.
    change (2 ^ 5) with 32 in Hs. change (2 ^ 32) with 4294967296. lia. }
  split; [|split; [|split; [|split; [|split; [|split]]]]].
  - split; [rewrite settled_fetch by reflexivity; rewrite HF, HL;
            reflexivity|].
    split; [rewrite settled_data_x_out; unfold x_mux; rewrite HC, HL;
            reflexivity|].
    split; [rewrite settled_data_y_out; unfold y_mux; rewrite !HC, HL; ev;
            exact Hsh|].
    split; [to_ctl; rewrite HC; reflexivity|].
    split; [to_ctl; rewrite HC; ev; apply (trunc_reg_field 7)|].
    split; [exact C|].
    split; to_ctl; rewrite HC; reflexivity.
  - exact M.
  - exact P.
  - rewrite tick_instr_phase, settled_next_phase, HC. reflexivity.
  - rewrite tick_trap, HL, HF, Ht. reflexivity.
  - rewrite tick_trap_svc, HL. reflexivity.
  - apply S. rewrite HL. reflexivity.
Qed.

(** The last cycle of a LOAD. *)
Lemma load2_handlers st i :
  st trap = 0 -> bits 0 2 (st _pc) = 0 ->
  st _instr_phase <> 0 -> st _instr_phase <> 1 ->
  opcode_of (st _instr) = Opcode.LOAD ->
  is_load_width (funct3_of (st _instr)) = true ->
  handlers st i =
  [ comb _imm_format OpcodeFormat.I; comb reg_to_x 1;
    comb x_reg (rd_of (st _instr)); comb _shamt_to_y 1;
    comb z_reg (rd_of (st _instr));
    comb _shamt (32 - 8 * access_bytes (funct3_of (st _instr)));
    comb alu_op_to_z (load_shift_op (funct3_of (st _instr)));
    comb _is_last_instr_cycle 1 ].
Proof.
  intros Ht Hpc Hp0 Hp1 Ho Hw. unfold handlers.
  rewrite load_dispatch by assumption.
  unfold handle_load. rewrite (eqb_0_false _ Hp0).
  apply Z.eqb_neq in Hp1. rewrite Hp1. cbv iota.
  unfold is_load_width in Hw. cbn [existsb] in Hw.
  repeat (apply orb_prop in Hw as [Hw|Hw]); try discriminate Hw;
    apply Z.eqb_eq in Hw; rewrite Hw; reflexivity.
Qed.

Lemma load2_tick st i :
  st trap = 0 -> bits 0 2 (st _pc) = 0 ->
  st _instr_phase <> 0 -> st _instr_phase <> 1 ->
  opcode_of (st _instr) = Opcode.LOAD ->
  is_load_width (funct3_of (st _instr)) = true ->
  mcycle_end i = 1 ->
  (settled st i reg_to_x = 1 /\ settled st i x_reg = rd_of (st _instr) /\
   settled st i data_y_out = 32 - 8 * access_bytes (funct3_of (st _instr)) /\
   settled st i alu_op_to_z = load_shift_op (funct3_of (st _instr)) /\
   settled st i z_reg = rd_of (st _instr) /\
   settled st i instr_complete = 1 /\
   settled st i mem_rd = 0 /\
   settled st i mem_wr = 0 /\ settled st i z_to_csr = 0) /\
  tick Dph1 st i _pc = _pc_plus_4 st /\
  tick Dph1 st i memaddr = _pc_plus_4 st /\
  tick Dph1 st i _instr_phase = 0 /\
  tick Dph1 st i trap = (if interrupt_taken st i then 1 else 0).
Proof.
  intros Ht Hpc Hp0 Hp1 Ho Hw He.
  pose proof (load2_handlers st i Ht Hpc Hp0 Hp1 Ho Hw) as HL.
  assert (W : exists sh op,
             0 <= sh < 2 ^ 5 /\ 0 <= op < 2 ^ 4 /\
             32 - 8 * access_bytes (funct3_of (st _instr)) = sh /\
             load_shift_op (funct3_of (st _instr)) = op).
  { unfold is_load_width in Hw. cbn [existsb] in Hw.
    repeat (apply orb_prop in Hw as [Hw|Hw]); try discriminate Hw;
      apply Z.eqb_eq in Hw; rewrite Hw;
      eexists; eexists;
      (split; [|split; [|split; reflexivity]]);
      vm_compute; split; (discriminate || reflexivity). }
  destruct W as (sh & op & Hs & Hop & Es & Eo). rewrite Es, Eo in *.
  clear Es Eo.
  pose proof (ctl_eq st i _ HL) as HC.
  assert (Hl : ctl st i _is_last_instr_cycle = 1) by (rewrite HC; reflexivity).
  destruct (completes_tick st i He Hl) as (P & M & C);
    try (rewrite HC; reflexivity).
  pose proof (last_cycle_fetch st i Ht Hpc He Hl) as HF.
  rewrite (eqb_0_false _ Hp0) in HF.
  assert (Hsh : trunc 32 (trunc 5 sh) = sh).
  { rewrite (trunc_small 5) by exact Hs. apply trunc_small.
    change (2 ^ 5) with 32 in Hs. change (2 ^ 32) with 4294967296. lia. }
  split; [|split; [|split; [|split]]].
  - split; [to_ctl; rewrite HC; reflexivity|].
    split; [to_ctl; rewrite HC; ev; apply (trunc_reg_field 7)|].
    split; [rewrite settled_data_y_out; unfold y_mux; rewrite !HC, HL; ev;
            exact Hsh|].
    split; [to_ctl; rewrite HC; ev; now apply trunc_small|].
    split; [to_ctl; rewrite HC; ev; apply (trunc_reg_field 7)|].
    split; [exact C|].
    split; [rewrite settled_fetch by reflexivity; rewrite HF, HL;
            destruct (interrupt_taken st i); reflexivity|].
    split; to_ctl; rewrite HC; reflexivity.
  - exact P.
  - exact M.
  - rewrite tick_instr_phase, settled_next_phase, HC. reflexivity.
  - rewrite tick_trap, HL, HF, Ht.
    destruct (interrupt_taken st i); reflexivity.
Qed.

Lemma store0_tick st i :
  st trap = 0 -> bits 0 2 (st _pc) = 0 -> st _instr_phase = 0 ->
  opcode_of (st _instr) = Opcode.STORE ->
  (settled st i reg_to_x = 1 /\ settled st i x_reg = rs1_of (st _instr) /\
   settled st i data_y_out = decode_imm OpcodeFormat.S (st _instr) /\
   settled st i alu_op_to_z = AluOp.ADD /\
   settled st i z_reg = 0 /\ settled st i instr_complete = 0 /\
   settled st i mem_wr = 0 /\ settled st i z_to_csr = 0) /\
  tick Dph1 st i memaddr = trunc 32 (data_z_in i) /\
  tick Dph1 st i _pc = st _pc /\
  tick Dph1 st i _instr_phase = 1 /\
  tick Dph1 st i trap = 0 /\
  tick Dph1 st i _trap_svc = st _trap_svc /\
  tick Dph1 st i _mstatus = st _mstatus.
Proof.
  intros Ht Hpc Hp Ho. apply address_tick; try assumption.
  - unfold handlers. rewrite store_dispatch by assumption.
    unfold handle_store. rewrite Hp. reflexivity.
  - unfold _imm. rewrite store_dispatch by assumption.
    unfold handle_store. rewrite Hp. reflexivity.
Qed.

(** The lanes of an aligned STORE. *)
Lemma store_lane_cases f3 addr :
  is_store_width f3 = true -> misaligned_store f3 addr = false ->
  (f3 = MemAccessWidth.B /\
   (bits 0 2 addr = 0 \/ bits 0 2 addr = 1 \/ bits 0 2 addr = 2 \/
    bits 0 2 addr = 3)) \/
  (f3 = MemAccessWidth.H /\ (bits 0 2 addr = 0 \/ bits 0 2 addr = 2)) \/
  (f3 = MemAccessWidth.W /\ bits 0 2 addr = 0).
Proof.
  intros Hw Hm.
  pose proof (bits_range 0 2 addr ltac:(lia)) as R.
  change (2 ^ (2 - 0)) with 4 in R.
  unfold misaligned_store in Hm. unfold is_store_width in Hw.
  cbn [existsb] in Hw.
  repeat (apply orb_prop in Hw as [Hw|Hw]); try discriminate Hw;
    apply Z.eqb_eq in Hw; rewrite Hw in *;
    cbn [Z.eqb Pos.eqb orb andb MemAccessWidth.B
         MemAccessWidth.H MemAccessWidth.W] in Hm;
    rewrite ?orb_false_r in Hm.
  - left. split; [reflexivity|lia].
  - right. left. split; [reflexivity|]. now apply even_low_bits.
  - right. right. split; [reflexivity|].
    now apply negb_false_iff, Z.eqb_eq in Hm.
Qed.

Lemma store1_handlers st i :
  st trap = 0 -> bits 0 2 (st _pc) = 0 -> st _instr_phase = 1 ->
  opcode_of (st _instr) = Opcode.STORE ->
  is_store_width (funct3_of (st _instr)) = true ->
  misaligned_store (funct3_of (st _instr)) (st memaddr) = false ->
  handlers st i =
  [ comb _imm_format OpcodeFormat.S; comb reg_to_x 1;
    comb x_reg (rs2_of (st _instr)); comb _shamt_to_y 1;
    comb alu_op_to_z AluOp.SLL; comb _z_to_memdata 1;
    comb _next_instr_phase 2;
    comb _shamt (8 * bits 0 2 (st memaddr)) ].
Proof.
  intros Ht Hpc Hp Ho Hw Hm. unfold handlers.
  rewrite store_dispatch by assumption.
  unfold handle_store. rewrite Hp. change (1 =? 0) with false.
  change (1 =? 1) with true. cbv iota zeta.
  destruct (store_lane_cases _ _ Hw Hm) as [[F C]|[[F C]|[F C]]];
    rewrite F; repeat (destruct C as [C|C]); rewrite C; reflexivity.
Qed.

Lemma store1_tick st i :
  st trap = 0 -> bits 0 2 (st _pc) = 0 -> st _instr_phase = 1 ->
  opcode_of (st _instr) = Opcode.STORE ->
  is_store_width (funct3_of (st _instr)) = true ->
  misaligned_store (funct3_of (st _instr)) (st memaddr) = false ->
  (settled st i reg_to_x = 1 /\ settled st i x_reg = rs2_of (st _instr) /\
   settled st i data_y_out = 8 * bits 0 2 (st memaddr) /\
   settled st i alu_op_to_z = AluOp.SLL /\
   settled st i z_reg = 0 /\ settled st i instr_complete = 0 /\
   settled st i mem_rd = 0 /\
   settled st i mem_wr = 0 /\ settled st i z_to_csr = 0) /\
  tick Dph1 st i memdata_wr = trunc 32 (data_z_in i) /\
  tick Dph1 st i memaddr = st memaddr /\
  tick Dph1 st i _pc = st _pc /\
  tick Dph1 st i _instr_phase = 2 /\
  tick Dph1 st i trap = 0 /\
  tick Dph1 st i _trap_svc = st _trap_svc /\
  tick Dph1 st i _mstatus = st _mstatus.
Proof.
  intros Ht Hpc Hp Ho Hw Hm.
  pose proof (store1_handlers st i Ht Hpc Hp Ho Hw Hm) as HL.
  pose proof (bits_range 0 2 (st memaddr) ltac:(lia)) as R.
  change (2 ^ (2 - 0)) with 4 in R.
  set (lsb := bits 0 2 (st memaddr)) in *. clearbody lsb.
  pose proof (ctl_eq st i _ HL) as HC.
  assert (Hp' : st _instr_phase <> 0) by (rewrite Hp; discriminate).
  destruct (middle_tick st i Ht Hpc Hp') as (HF & P & M & C & S);
    try (rewrite HC; reflexivity).
  assert (Hsh : trunc 32 (trunc 5 (8 * lsb)) = 8 * lsb).
  { rewrite (trunc_small 5) by (change (2 ^ 5) with 32; lia).
    apply trunc_small. change (2 ^ 32) with 4294967296. lia. }
  split; [|split; [|split; [|split; [|split; [|split; [|split]]]]]].
  - split; [to_ctl; rewrite HC; reflexivity|].
    split; [to_ctl; rewrite HC; ev; apply (trunc_reg_field 20)|].
    split; [rewrite settled_data_y_out; unfold y_mux; rewrite !HC, HL; ev;
            exact Hsh|].
    split; [to_ctl; rewrite HC; reflexivity|].
    split; [to_ctl; rewrite HC; reflexivity|].
    split; [exact C|].
    split; [rewrite settled_fetch by reflexivity; rewrite HF, HL;
            reflexivity|].
    split; to_ctl; rewrite HC; reflexivity.
  - rewrite tick_memdata_wr. unfold memdata_wr_update. to_ctl.
    rewrite HC. reflexivity.
  - exact M.
  - exact P.
  - rewrite tick_instr_phase, settled_next_phase, HC. reflexivity.
  - rewrite tick_trap, HL, HF, Ht. reflexivity.
  - rewrite tick_trap_svc, HL. reflexivity.
  - apply S. rewrite HL. reflexivity.
Qed.

Lemma store2_handlers st i :
  st trap = 0 -> bits 0 2 (st _pc) = 0 ->
  st _instr_phase <> 0 -> st _instr_phase <> 1 ->
  opcode_of (st _instr) = Opcode.STORE ->
  is_store_width (funct3_of (st _instr)) = true ->
  misaligned_store (funct3_of (st _instr)) (st memaddr) = false ->
  let mask := (2 ^ access_bytes (funct3_of (st _instr)) - 1)
              * 2 ^ bits 0 2 (st memaddr) in
  handlers st i =
  [ comb _imm_format OpcodeFormat.S; comb mem_wr_mask mask; comb mem_wr 1;
    comb _is_last_instr_cycle 1 ] /\
  0 <= mask < 2 ^ 4.
Proof.
  intros Ht Hpc Hp0 Hp1 Ho Hw Hm. cbv zeta. unfold handlers.
  rewrite store_dispatch by assumption.
  unfold handle_store. rewrite (eqb_0_false _ Hp0).
  apply Z.eqb_neq in Hp1. rewrite Hp1. cbv iota zeta.
  destruct (store_lane_cases _ _ Hw Hm) as [[F C]|[[F C]|[F C]]];
    rewrite F; repeat (destruct C as [C|C]); rewrite C;
    (split; [reflexivity|vm_compute; split; (discriminate || reflexivity)]).
Qed.

Lemma store2_tick st i :
  st trap = 0 -> bits 0 2 (st _pc) = 0 ->
  st _instr_phase <> 0 -> st _instr_phase <> 1 ->
  opcode_of (st _instr) = Opcode.STORE ->
  is_store_width (funct3_of (st _instr)) = true ->
  misaligned_store (funct3_of (st _instr)) (st memaddr) = false ->
  mcycle_end i = 1 ->
  (settled st i mem_wr = 1 /\
   settled st i mem_wr_mask
   = (2 ^ access_bytes (funct3_of (st _instr)) - 1)
     * 2 ^ bits 0 2 (st memaddr) /\
   settled st i z_reg = 0 /\ settled st i instr_complete = 1 /\
   settled st i mem_rd = 0 /\ settled st i z_to_csr = 0) /\
  tick Dph1 st i memdata_wr = st memdata_wr /\
  tick Dph1 st i _pc = _pc_plus_4 st /\
  tick Dph1 st i memaddr = _pc_plus_4 st /\
  tick Dph1 st i _instr_phase = 0 /\
  tick Dph1 st i trap = (if interrupt_taken st i then 1 else 0).
Proof.
  intros Ht Hpc Hp0 Hp1 Ho Hw Hm He.
  destruct (store2_handlers st i Ht Hpc Hp0 Hp1 Ho Hw Hm) as [HL Hk].
  cbv zeta in HL, Hk.
  set (mask := (2 ^ _ - 1) * 2 ^ _) in *. clearbody mask.
  pose proof (ctl_eq st i _ HL) as HC.
  assert (Hl : ctl st i _is_last_instr_cycle = 1) by (rewrite HC; reflexivity).
  destruct (completes_tick st i He Hl) as (P & M & C);
    try (rewrite HC; reflexivity).
  pose proof (last_cycle_fetch st i Ht Hpc He Hl) as HF.
  rewrite (eqb_0_false _ Hp0) in HF.
  split; [|split; [|split; [|split; [|split]]]].
  - split; [to_ctl; rewrite HC; reflexivity|].
    split; [to_ctl; rewrite HC; ev; now apply trunc_small|].
    split; [to_ctl; rewrite HC; reflexivity|].
    split; [exact C|].
    split; [rewrite settled_fetch by reflexivity; rewrite HF, HL;
            destruct (interrupt_taken st i); reflexivity|].
    to_ctl; rewrite HC; reflexivity.
  - rewrite tick_memdata_wr. unfold memdata_wr_update. to_ctl.
    rewrite HC. reflexivity.
  - exact P.
  - exact M.
  - rewrite tick_instr_phase, settled_next_phase, HC. reflexivity.
  - rewrite tick_trap, HL, HF, Ht.
    destruct (interrupt_taken st i); reflexivity.
Qed.

(** A cycle that leaves the card in a later phase leaves it the same word
    to go on with. *)
Lemma executing_next st i j :
  machine_cycle st i _instr_phase <> 0 ->
  executing (machine_cycle st i) j = executing st i.
Proof.
  intros H. unfold executing at 1, fetching.
  rewrite (eqb_0_false _ H). apply cycle_instr.
Qed.

Lemma load0_cycle st i :
  st trap = 0 -> bits 0 2 (st _pc) = 0 -> st _instr_phase = 0 ->
  opcode_of (executing st i) = Opcode.LOAD ->
  (outputs st i reg_to_x = 1 /\ outputs st i x_reg = rs1_of (executing st i) /\
   outputs st i data_y_out = decode_imm OpcodeFormat.I (executing st i) /\
   outputs st i alu_op_to_z = AluOp.ADD /\
   outputs st i z_reg = 0 /\ outputs st i instr_complete = 0 /\
   outputs st i mem_wr = 0 /\ outputs st i z_to_csr = 0) /\
  machine_cycle st i memaddr = trunc 32 (data_z_in i) /\
  machine_cycle st i _pc = st _pc /\
  machine_cycle st i _instr_phase = 1 /\
  machine_cycle st i trap = 0 /\
  machine_cycle st i _trap_svc = st _trap_svc /\
  machine_cycle st i _mstatus = st _mstatus.
Proof.
  intros Ht Hpc Hp Ho. lift st i s.
  exact (load0_tick s (with_mcycle_end 1 i) Ht Hpc Hp Ho).
Qed.

Lemma load1_cycle st i :
  st trap = 0 -> bits 0 2 (st _pc) = 0 -> st _instr_phase = 1 ->
  opcode_of (executing st i) = Opcode.LOAD ->
  is_load_width (funct3_of (executing st i)) = true ->
  misaligned_load (funct3_of (executing st i)) (st memaddr) = false ->
  (outputs st i mem_rd = 1 /\
   outputs st i data_x_out = trunc 32 (memdata_rd i) /\
   outputs st i data_y_out
   = 32 - 8 * (bits 0 2 (st memaddr)
               + access_bytes (funct3_of (executing st i))) /\
   outputs st i alu_op_to_z = AluOp.SLL /\
   outputs st i z_reg = rd_of (executing st i) /\
   outputs st i instr_complete = 0 /\
   outputs st i mem_wr = 0 /\ outputs st i z_to_csr = 0) /\
  machine_cycle st i memaddr = st memaddr /\
  machine_cycle st i _pc = st _pc /\
  machine_cycle st i _instr_phase = 2 /\
  machine_cycle st i trap = 0 /\
  machine_cycle st i _trap_svc = st _trap_svc /\
  machine_cycle st i _mstatus = st _mstatus.
Proof.
  intros Ht Hpc Hp Ho Hw Hm. lift st i s.
  exact (load1_tick s (with_mcycle_end 1 i) Ht Hpc Hp Ho Hw Hm).
Qed.

Lemma load2_cycle st i :
  st trap = 0 -> bits 0 2 (st _pc) = 0 ->
  st _instr_phase <> 0 -> st _instr_phase <> 1 ->
  opcode_of (executing st i) = Opcode.LOAD ->
  is_load_width (funct3_of (executing st i)) = true ->
  (outputs st i reg_to_x = 1 /\
   outputs st i x_reg = rd_of (executing st i) /\
   outputs st i data_y_out
   = 32 - 8 * access_bytes (funct3_of (executing st i)) /\
   outputs st i alu_op_to_z = load_shift_op (funct3_of (executing st i)) /\
   outputs st i z_reg = rd_of (executing st i) /\
   outputs st i instr_complete = 1 /\
   outputs st i mem_rd = 0 /\
   outputs st i mem_wr = 0 /\ outputs st i z_to_csr = 0) /\
  machine_cycle st i _pc = trunc 32 (st _pc + 4) /\
  machine_cycle st i memaddr = trunc 32 (st _pc + 4) /\
  machine_cycle st i _instr_phase = 0 /\
  machine_cycle st i trap = (if interrupt_taken st i then 1 else 0).
Proof.
  intros Ht Hpc Hp0 Hp1 Ho Hw.
  rewrite <- (interrupt_taken_write_half st i). lift st i s.
  exact (load2_tick s (with_mcycle_end 1 i) Ht Hpc Hp0 Hp1 Ho Hw eq_refl).
Qed.

(** X22. An aligned LOAD of [n] bytes takes three machine cycles.  The
    first adds the I immediate to [rs1] and loads the sum, the address,
    into [memaddr].  The second reads memory, puts the word read on X and
    shifts it left by 32 - 8 * (lane + n), where the lane is the low two
    bits of the address, naming [rd].  The third shifts [rd] right by
    32 - 8 * n - arithmetically for LB and LH, logically for LBU, LHU and
    LW - into [rd] again, reads no memory, and completes: the PC and
    [memaddr] take PC + 4.  No cycle writes memory or a CSR. *)
Theorem load_three_cycles (st : SequencerState) (i j k : Inputs) :
  st trap = 0 -> bits 0 2 (st _pc) = 0 -> st _instr_phase = 0 ->
  opcode_of (executing st i) = Opcode.LOAD ->
  is_load_width (funct3_of (executing st i)) = true ->
  misaligned_load (funct3_of (executing st i)) (trunc 32 (data_z_in i))
  = false ->
  let w := executing st i in
  let addr := trunc 32 (data_z_in i) in
  let n := access_bytes (funct3_of w) in
  let s1 := machine_cycle st i in
  let s2 := machine_cycle s1 j in
  let s3 := machine_cycle s2 k in
  (outputs st i reg_to_x = 1 /\ outputs st i x_reg = rs1_of w /\
   outputs st i data_y_out = decode_imm OpcodeFormat.I w /\
   outputs st i alu_op_to_z = AluOp.ADD /\
   outputs st i z_reg = 0 /\ outputs st i instr_complete = 0 /\
   outputs st i mem_wr = 0 /\ outputs st i z_to_csr = 0 /\
   s1 memaddr = addr /\ s1 _pc = st _pc) /\
  (outputs s1 j mem_rd = 1 /\
   outputs s1 j data_x_out = trunc 32 (memdata_rd j) /\
   outputs s1 j data_y_out = 32 - 8 * (bits 0 2 addr + n) /\
   outputs s1 j alu_op_to_z = AluOp.SLL /\
   outputs s1 j z_reg = rd_of w /\ outputs s1 j instr_complete = 0 /\
   outputs s1 j mem_wr = 0 /\ outputs s1 j z_to_csr = 0 /\
   s2 memaddr = addr /\ s2 _pc = st _pc) /\
  (outputs s2 k reg_to_x = 1 /\ outputs s2 k x_reg = rd_of w /\
   outputs s2 k data_y_out = 32 - 8 * n /\
   outputs s2 k alu_op_to_z = load_shift_op (funct3_of w) /\
   outputs s2 k z_reg = rd_of w /\ outputs s2 k instr_complete = 1 /\
   outputs s2 k mem_rd = 0 /\
   outputs s2 k mem_wr = 0 /\ outputs s2 k z_to_csr = 0 /\
   s3 _pc = trunc 32 (st _pc + 4) /\ s3 memaddr = trunc 32 (st _pc + 4) /\
   s3 _instr_phase = 0 /\
   s3 trap = (if interrupt_taken st k then 1 else 0)).
Proof.
  intros Ht Hpc Hp Ho Hw Hm. cbv zeta.
  destruct (load0_cycle st i Ht Hpc Hp Ho)
    as ((A1 & A2 & A3 & A4 & A5 & A6 & A7 & A8) & M & P & N & T & S & U).
  assert (E : executing (machine_cycle st i) j = executing st i)
    by (apply executing_next; rewrite N; discriminate).
  set (s1 := machine_cycle st i) in *. clearbody s1.
  rewrite <- P in Hpc. rewrite <- E in Ho, Hw, Hm. rewrite <- M in Hm.
  destruct (load1_cycle s1 j T Hpc N Ho Hw Hm)
    as ((B1 & B2 & B3 & B4 & B5 & B6 & B7 & B8) & M1 & P1 & N1 & T1 & S1
        & U1).
  assert (E1 : executing (machine_cycle s1 j) k = executing s1 j)
    by (apply executing_next; rewrite N1; discriminate).
  rewrite <- (interrupt_taken_ext (machine_cycle s1 j) st k)
    by (rewrite ?S1, ?U1; assumption).
  set (s2 := machine_cycle s1 j) in *. clearbody s2.
  rewrite <- P1 in Hpc. rewrite <- E1 in Ho, Hw.
  assert (Hp0 : s2 _instr_phase <> 0) by (rewrite N1; discriminate).
  assert (Hp1 : s2 _instr_phase <> 1) by (rewrite N1; discriminate).
  destruct (load2_cycle s2 k T1 Hpc Hp0 Hp1 Ho Hw)
    as ((C1 & C2 & C3 & C4 & C5 & C6 & C7 & C8 & C9) & P2 & M2 & N2 & T2).
  rewrite E1 in *. rewrite E in *. rewrite P1, P in *. rewrite M in *.
  split.
  { split; [exact A1|]. split; [exact A2|]. split; [exact A3|].
    split; [exact A4|]. split; [exact A5|]. split; [exact A6|].
    split; [exact A7|]. split; [exact A8|]. split; reflexivity. }
  split.
  { split; [exact B1|]. split; [exact B2|]. split; [exact B3|].
    split; [exact B4|]. split; [exact B5|]. split; [exact B6|].
    split; [exact B7|]. split; [exact B8|]. split; [exact M1|reflexivity]. }
  split; [exact C1|]. split; [exact C2|]. split; [exact C3|].
  split; [exact C4|]. split; [exact C5|]. split; [exact C6|].
  split; [exact C7|]. split; [exact C8|]. split; [exact C9|].
  split; [exact P2|]. split; [exact M2|]. split; [exact N2|exact T2].
Qed.

Lemma load_three_cycles_witness :
  let st := fetch_at_0x100 in
  let i := buses 0 0x1002 lh_x5_x1 in
  let j := buses 0 0 0xAABBCCDD in
  let k := buses 0 0 0 in
  let s1 := machine_cycle st i in
  let s2 := machine_cycle s1 j in
  let s3 := machine_cycle s2 k in
  outputs st i x_reg = 1 /\ s1 memaddr = 0x1002 /\
  outputs s1 j mem_rd = 1 /\ outputs s1 j data_x_out = 0xAABBCCDD /\
  outputs s1 j data_y_out = 0 /\ outputs s1 j z_reg = 5 /\
  outputs s2 k x_reg = 5 /\ outputs s2 k data_y_out = 16 /\
  outputs s2 k alu_op_to_z = AluOp.SRA /\ outputs s2 k z_reg = 5 /\
  s3 _pc = 0x104 /\ s3 memaddr = 0x104 /\ s3 _instr_phase = 0.
Proof.
  intros st i j k s1 s2 s3.
  assert (Ht : st trap = 0) by reflexivity.
  assert (Hpc : bits 0 2 (st _pc) = 0) by reflexivity.
  assert (Hp : st _instr_phase = 0) by reflexivity.
  assert (Ho : opcode_of (executing st i) = Opcode.LOAD) by reflexivity.
  assert (Hw : is_load_width (funct3_of (executing st i)) = true)
    by reflexivity.
  assert (Hm : misaligned_load (funct3_of (executing st i))
                 (trunc 32 (data_z_in i)) = false) by reflexivity.
  destruct (load_three_cycles st i j k Ht Hpc Hp Ho Hw Hm)
    as ((_ & A2 & _ & _ & _ & _ & _ & _ & M & _)
        & (B1 & B2 & B3 & _ & B5 & _)
        & (_ & C2 & C3 & C4 & C5 & _ & _ & _ & _ & P & M2 & N & _)).
  split; [exact A2|]. split; [exact M|]. split; [exact B1|].
  split; [exact B2|]. split; [exact B3|]. split; [exact B5|].
  split; [exact C2|]. split; [exact C3|]. split; [exact C4|].
  split; [exact C5|]. split; [exact P|]. split; [exact M2|exact N].
Defined.

Lemma store0_cycle st i :
  st trap = 0 -> bits 0 2 (st _pc) = 0 -> st _instr_phase = 0 ->
  opcode_of (executing st i) = Opcode.STORE ->
  (outputs st i reg_to_x = 1 /\ outputs st i x_reg = rs1_of (executing st i) /\
   outputs st i data_y_out = decode_imm OpcodeFormat.S (executing st i) /\
   outputs st i alu_op_to_z = AluOp.ADD /\
   outputs st i z_reg = 0 /\ outputs st i instr_complete = 0 /\
   outputs st i mem_wr = 0 /\ outputs st i z_to_csr = 0) /\
  machine_cycle st i memaddr = trunc 32 (data_z_in i) /\
  machine_cycle st i _pc = st _pc /\
  machine_cycle st i _instr_phase = 1 /\
  machine_cycle st i trap = 0 /\
  machine_cycle st i _trap_svc = st _trap_svc /\
  machine_cycle st i _mstatus = st _mstatus.
Proof.
  intros Ht Hpc Hp Ho. lift st i s.
  exact (store0_tick s (with_mcycle_end 1 i) Ht Hpc Hp Ho).
Qed.

Lemma store1_cycle st i :
  st trap = 0 -> bits 0 2 (st _pc) = 0 -> st _instr_phase = 1 ->
  opcode_of (executing st i) = Opcode.STORE ->
  is_store_width (funct3_of (executing st i)) = true ->
  misaligned_store (funct3_of (executing st i)) (st memaddr) = false ->
  (outputs st i reg_to_x = 1 /\
   outputs st i x_reg = rs2_of (executing st i) /\
   outputs st i data_y_out = 8 * bits 0 2 (st memaddr) /\
   outputs st i alu_op_to_z = AluOp.SLL /\
   outputs st i z_reg = 0 /\ outputs st i instr_complete = 0 /\
   outputs st i mem_rd = 0 /\
   outputs st i mem_wr = 0 /\ outputs st i z_to_csr = 0) /\
  machine_cycle st i memdata_wr = trunc 32 (data_z_in i) /\
  machine_cycle st i memaddr = st memaddr /\
  machine_cycle st i _pc = st _pc /\
  machine_cycle st i _instr_phase = 2 /\
  machine_cycle st i trap = 0 /\
  machine_cycle st i _trap_svc = st _trap_svc /\
  machine_cycle st i _mstatus = st _mstatus.
Proof.
  intros Ht Hpc Hp Ho Hw Hm. lift st i s.
  exact (store1_tick s (with_mcycle_end 1 i) Ht Hpc Hp Ho Hw Hm).
Qed.

Lemma store2_cycle st i :
  st trap = 0 -> bits 0 2 (st _pc) = 0 ->
  st _instr_phase <> 0 -> st _instr_phase <> 1 ->
  opcode_of (executing st i) = Opcode.STORE ->
  is_store_width (funct3_of (executing st i)) = true ->
  misaligned_store (funct3_of (executing st i)) (st memaddr) = false ->
  (outputs st i mem_wr = 1 /\
   outputs st i mem_wr_mask
   = (2 ^ access_bytes (funct3_of (executing st i)) - 1)
     * 2 ^ bits 0 2 (st memaddr) /\
   outputs st i z_reg = 0 /\ outputs st i instr_complete = 1 /\
   outputs st i mem_rd = 0 /\ outputs st i z_to_csr = 0) /\
  machine_cycle st i memdata_wr = st memdata_wr /\
  machine_cycle st i _pc = trunc 32 (st _pc + 4) /\
  machine_cycle st i memaddr = trunc 32 (st _pc + 4) /\
  machine_cycle st i _instr_phase = 0 /\
  machine_cycle st i trap = (if interrupt_taken st i then 1 else 0).
Proof.
  intros Ht Hpc Hp0 Hp1 Ho Hw Hm.
  rewrite <- (interrupt_taken_write_half st i). lift st i s.
  exact (store2_tick s (with_mcycle_end 1 i) Ht Hpc Hp0 Hp1 Ho Hw Hm
           eq_refl).
Qed.

(** X23. An aligned STORE of [n] bytes takes three machine cycles.  The
    first adds the S immediate to [rs1] and loads the sum, the address,
    into [memaddr].  The second shifts [rs2] left by 8 times the lane, the
    low two bits of the address, and loads the result from Z into
    [memdata_wr].  Only the third writes memory: [mem_wr] is raised with a
    byte mask of [n] ones starting at the lane, [memaddr] and [memdata_wr]
    still holding the address and the shifted data; then the PC and
    [memaddr] take PC + 4.  No cycle names a register to write. *)
Theorem store_three_cycles (st : SequencerState) (i j k : Inputs) :
  st trap = 0 -> bits 0 2 (st _pc) = 0 -> st _instr_phase = 0 ->
  opcode_of (executing st i) = Opcode.STORE ->
  is_store_width (funct3_of (executing st i)) = true ->
  misaligned_store (funct3_of (executing st i)) (trunc 32 (data_z_in i))
  = false ->
  let w := executing st i in
  let addr := trunc 32 (data_z_in i) in
  let n := access_bytes (funct3_of w) in
  let s1 := machine_cycle st i in
  let s2 := machine_cycle s1 j in
  let s3 := machine_cycle s2 k in
  (outputs st i reg_to_x = 1 /\ outputs st i x_reg = rs1_of w /\
   outputs st i data_y_out = decode_imm OpcodeFormat.S w /\
   outputs st i alu_op_to_z = AluOp.ADD /\
   outputs st i z_reg = 0 /\ outputs st i instr_complete = 0 /\
   outputs st i mem_wr = 0 /\
   s1 memaddr = addr /\ s1 _pc = st _pc) /\
  (outputs s1 j reg_to_x = 1 /\ outputs s1 j x_reg = rs2_of w /\
   outputs s1 j data_y_out = 8 * bits 0 2 addr /\
   outputs s1 j alu_op_to_z = AluOp.SLL /\
   outputs s1 j z_reg = 0 /\ outputs s1 j instr_complete = 0 /\
   outputs s1 j mem_rd = 0 /\ outputs s1 j mem_wr = 0 /\
   s2 memdata_wr = trunc 32 (data_z_in j) /\
   s2 memaddr = addr /\ s2 _pc = st _pc) /\
  (outputs s2 k mem_wr = 1 /\
   outputs s2 k mem_wr_mask = (2 ^ n - 1) * 2 ^ bits 0 2 addr /\
   outputs s2 k z_reg = 0 /\ outputs s2 k instr_complete = 1 /\
   outputs s2 k mem_rd = 0 /\ outputs s2 k z_to_csr = 0 /\
   s3 memdata_wr = trunc 32 (data_z_in j) /\
   s3 _pc = trunc 32 (st _pc + 4) /\ s3 memaddr = trunc 32 (st _pc + 4) /\
   s3 _instr_phase = 0 /\
   s3 trap = (if interrupt_taken st k then 1 else 0)).
Proof.
  intros Ht Hpc Hp Ho Hw Hm. cbv zeta.
  destruct (store0_cycle st i Ht Hpc Hp Ho)
    as ((A1 & A2 & A3 & A4 & A5 & A6 & A7 & _) & M & P & N & T & S & U).
  assert (E : executing (machine_cycle st i) j = executing st i)
    by (apply executing_next; rewrite N; discriminate).
  set (s1 := machine_cycle st i) in *. clearbody s1.
  rewrite <- P in Hpc. rewrite <- E in Ho, Hw, Hm. rewrite <- M in Hm.
  destruct (store1_cycle s1 j T Hpc N Ho Hw Hm)
    as ((B1 & B2 & B3 & B4 & B5 & B6 & B7 & B8 & _) & D1 & M1 & P1 & N1 & T1
        & S1 & U1).
  assert (E1 : executing (machine_cycle s1 j) k = executing s1 j)
    by (apply executing_next; rewrite N1; discriminate).
  rewrite <- (interrupt_taken_ext (machine_cycle s1 j) st k)
    by (rewrite ?S1, ?U1; assumption).
  set (s2 := machine_cycle s1 j) in *. clearbody s2.
  rewrite <- P1 in Hpc. rewrite <- E1 in Ho, Hw, Hm. rewrite <- M1 in Hm.
  assert (Hp0 : s2 _instr_phase <> 0) by (rewrite N1; discriminate).
  assert (Hp1 : s2 _instr_phase <> 1) by (rewrite N1; discriminate).
  destruct (store2_cycle s2 k T1 Hpc Hp0 Hp1 Ho Hw Hm)
    as ((C1 & C2 & C3 & C4 & C5 & C6) & D2 & P2 & M2 & N2 & T2).
  rewrite E1 in *. rewrite E in *. rewrite M1 in *. rewrite P1, P in *.
  rewrite M in *. rewrite D1 in D2.
  split.
  { split; [exact A1|]. split; [exact A2|]. split; [exact A3|].
    split; [exact A4|]. split; [exact A5|]. split; [exact A6|].
    split; [exact A7|]. split; reflexivity. }
  split.
  { split; [exact B1|]. split; [exact B2|]. split; [exact B3|].
    split; [exact B4|]. split; [exact B5|]. split; [exact B6|].
    split; [exact B7|]. split; [exact B8|]. split; [exact D1|].
    split; reflexivity. }
  split; [exact C1|]. split; [exact C2|]. split; [exact C3|].
  split; [exact C4|]. split; [exact C5|]. split; [exact C6|].
  split; [exact D2|].
  split; [exact P2|]. split; [exact M2|]. split; [exact N2|exact T2].
Qed.

Lemma store_three_cycles_witness :
  let st := fetch_at_0x100 in
  let i := buses 0 0x1002 sh_x2_2_x1 in
  let j := buses 0 0x12340000 0 in
  let k := buses 0 0 0 in
  let s1 := machine_cycle st i in
  let s2 := machine_cycle s1 j in
  let s3 := machine_cycle s2 k in
  outputs st i x_reg = 1 /\ outputs st i data_y_out = 2 /\
  s1 memaddr = 0x1002 /\
  outputs s1 j x_reg = 2 /\ outputs s1 j data_y_out = 16 /\
  outputs s1 j mem_wr = 0 /\
  s2 memdata_wr = 0x12340000 /\ s2 memaddr = 0x1002 /\
  outputs s2 k mem_wr = 1 /\ outputs s2 k mem_wr_mask = 12 /\
  s3 _pc = 0x104 /\ s3 memaddr = 0x104 /\ s3 _instr_phase = 0.
Proof.
  intros st i j k s1 s2 s3.
  assert (Ht : st trap = 0) by reflexivity.
  assert (Hpc : bits 0 2 (st _pc) = 0) by reflexivity.
  assert (Hp : st _instr_phase = 0) by reflexivity.
  assert (Ho : opcode_of (executing st i) = Opcode.STORE) by reflexivity.
  assert (Hw : is_store_width (funct3_of (executing st i)) = true)
    by reflexivity.
  assert (Hm : misaligned_store (funct3_of (executing st i))
                 (trunc 32 (data_z_in i)) = false) by reflexivity.
  destruct (store_three_cycles st i j k Ht Hpc Hp Ho Hw Hm)
    as ((_ & A2 & A3 & _ & _ & _ & _ & M & _)
        & (_ & B2 & B3 & _ & _ & _ & _ & B8 & D & M1 & _)
        & (C1 & C2 & _ & _ & _ & _ & _ & P & M2 & N & _)).
  split; [exact A2|]. split; [exact A3|]. split; [exact M|].
  split; [exact B2|]. split; [exact B3|]. split; [exact B8|].
  split; [exact D|]. split; [exact M1|]. split; [exact C1|].
  split; [exact C2|]. split; [exact P|]. split; [exact M2|exact N].
Defined.

(** ** The CSR instructions *)

Lemma csr_instr_cases f3 :
  is_csr_instr f3 = true ->
  f3 = SystemFunc.CSRRW \/ f3 = SystemFunc.CSRRWI \/ f3 = SystemFunc.CSRRS \/
  f3 = SystemFunc.CSRRSI \/ f3 = SystemFunc.CSRRC \/ f3 = SystemFunc.CSRRCI.
Proof.
  unfold is_csr_instr. cbn [existsb]. intros H.
  repeat (apply orb_prop in H as [H|H]); try discriminate H;
    apply Z.eqb_eq in H; auto 6.
Qed.

Lemma csr_imm st i :
  st trap = 0 -> bits 0 2 (st _pc) = 0 ->
  opcode_of (st _instr) = Opcode.SYSTEM ->
  is_csr_instr (funct3_of (st _instr)) = true ->
  _imm st i = decode_imm OpcodeFormat.SYS (st _instr).
Proof.
  intros Ht Hpc Ho Hc. unfold _imm.
  rewrite system_dispatch by assumption. unfold handle_system.
  apply csr_instr_cases in Hc.
  destruct Hc as [F|[F|[F|[F|[F|F]]]]]; rewrite F;
    unfold handle_CSRRW, handle_CSRRWI, handle_CSRRS, handle_CSRRC,
      handle_CSRRSI, handle_CSRRCI, csr_phase1;
    destruct (st _instr_phase =? 0); try reflexivity;
    destruct (rd_of (st _instr) =? 0); reflexivity.
Qed.

(** The assignments of phase 0. *)
Lemma csr0_any_handlers st i :
  st trap = 0 -> bits 0 2 (st _pc) = 0 -> st _instr_phase = 0 ->
  opcode_of (st _instr) = Opcode.SYSTEM ->
  is_csr_instr (funct3_of (st _instr)) = true ->
  handlers st i =
  [ comb _imm_format OpcodeFormat.SYS; comb _funct12_to_csr_num 1 ] ++
  (if csr_skips_read (st _instr) then [ comb x_reg 0; comb reg_to_x 1 ]
   else [ comb csr_to_x 1 ]) ++
  (if csr_uses_imm (funct3_of (st _instr)) then [ comb _imm_to_y 1 ]
   else [ comb y_reg (rs1_of (st _instr)); comb reg_to_y 1 ]) ++
  [ comb alu_op_to_z (csr_alu_op (funct3_of (st _instr)));
    comb z_to_csr (Z.b2z (negb (zero_source (st _instr))));
    comb _x_to_tmp 1; comb _next_instr_phase 1 ].
Proof.
  intros Ht Hpc Hp Ho Hc. unfold handlers.
  rewrite csr_imm, system_dispatch by assumption.
  unfold handle_system, csr_skips_read, zero_source. cbv zeta.
  apply csr_instr_cases in Hc.
  destruct Hc as [F|[F|[F|[F|[F|F]]]]]; rewrite F;
    unfold handle_CSRRW, handle_CSRRWI, handle_CSRRS, handle_CSRRC,
      handle_CSRRSI, handle_CSRRCI;
    rewrite Hp;
    cbn [Z.eqb Pos.eqb orb andb is_csr_replace SystemFunc.CSRRW
         SystemFunc.CSRRWI SystemFunc.CSRRS SystemFunc.CSRRSI
         SystemFunc.CSRRC SystemFunc.CSRRCI];
    rewrite ?orb_false_r;
    try destruct (rd_of (st _instr) =? 0); reflexivity.
Qed.

Lemma csr1_any_handlers st i :
  st trap = 0 -> bits 0 2 (st _pc) = 0 -> st _instr_phase <> 0 ->
  opcode_of (st _instr) = Opcode.SYSTEM ->
  is_csr_instr (funct3_of (st _instr)) = true ->
  handlers st i =
  [ comb _imm_format OpcodeFormat.SYS; comb _funct12_to_csr_num 1;
    comb _tmp_to_z 1; comb z_reg (rd_of (st _instr));
    comb _is_last_instr_cycle 1 ].
Proof.
  intros Ht Hpc Hp Ho Hc. unfold handlers.
  rewrite system_dispatch by assumption. unfold handle_system.
  apply csr_instr_cases in Hc.
  destruct Hc as [F|[F|[F|[F|[F|F]]]]]; rewrite F;
    unfold handle_CSRRW, handle_CSRRWI, handle_CSRRS, handle_CSRRC,
      handle_CSRRSI, handle_CSRRCI;
    rewrite (eqb_0_false _ Hp); reflexivity.
Qed.

Lemma csr_alu_op_range f3 : 0 <= csr_alu_op f3 < 2 ^ 4.
Proof.
  unfold csr_alu_op.
  destruct (is_csr_replace f3); [|destruct (is_csr_set f3)];
    vm_compute; split; (discriminate || reflexivity).
Qed.

(** Phase 0 of a CSR instruction on the rising edge of [ph1]. *)
Lemma csr0_any_tick st i :
  st trap = 0 -> bits 0 2 (st _pc) = 0 -> st _instr_phase = 0 ->
  opcode_of (st _instr) = Opcode.SYSTEM ->
  is_csr_instr (funct3_of (st _instr)) = true ->
  (settled st i z_to_csr = Z.b2z (negb (zero_source (st _instr))) /\
   settled st i csr_num = funct12_of (st _instr) /\
   settled st i alu_op_to_z = csr_alu_op (funct3_of (st _instr)) /\
   settled st i z_reg = 0 /\ settled st i instr_complete = 0 /\
   settled st i mem_wr = 0) /\
  (csr_skips_read (st _instr) = true ->
   settled st i csr_to_x = 0 /\ settled st i reg_to_x = 1 /\
   settled st i x_reg = 0) /\
  (csr_skips_read (st _instr) = false ->
   settled st i csr_to_x = 1 /\ settled st i reg_to_x = 0 /\
   settled st i data_x_out = csr_file st (funct12_of (st _instr))) /\
  (csr_uses_imm (funct3_of (st _instr)) = true ->
   settled st i reg_to_y = 0 /\
   settled st i data_y_out = decode_imm OpcodeFormat.SYS (st _instr)) /\
  (csr_uses_imm (funct3_of (st _instr)) = false ->
   settled st i reg_to_y = 1 /\ settled st i y_reg = rs1_of (st _instr)) /\
  tick Dph1 st i _tmp = trunc 32 (data_x_in i) /\
  tick Dph1 st i _instr_phase = 1 /\
  tick Dph1 st i _pc = st _pc /\
  tick Dph1 st i trap = 0 /\
  tick Dph1 st i _trap_svc = st _trap_svc /\
  (forall r, existsb (Reg_beq r) csr_regs = true ->
             tick Dph1 st i r
             = next_of Dph1
                 (if zero_source (st _instr) then []
                  else csr_write i (funct12_of (st _instr))) r (st r)).
Proof.
  intros Ht Hpc Hp Ho Hc.
  pose proof (csr0_any_handlers st i Ht Hpc Hp Ho Hc) as HL.
  pose proof (csr_imm st i Ht Hpc Ho Hc) as HI.
  pose proof (csr_alu_op_range (funct3_of (st _instr))) as Hop.
  set (op := csr_alu_op _) in *. clearbody op.
  set (skip := csr_skips_read _) in *.
  set (ui := csr_uses_imm _) in *.
  set (zs := zero_source _) in *.
  pose proof (ctl_eq st i _ HL) as HC.
  assert (HN : ctl st i _is_last_instr_cycle = 0)
    by (rewrite HC; destruct skip, ui; reflexivity).
  destruct (not_last_cycle st i HN) as [HLC HNI].
  assert (HF : fetch st i = [comb _load_instr 1; comb mem_rd 1]).
  { unfold fetch, all_true. cbn [forallb].
    rewrite (aligned_not_misalign st Hpc), HNI, Hp, Ht. reflexivity. }
  assert (HZ : ctl st i z_to_csr = Z.b2z (negb zs))
    by (rewrite HC; destruct skip, ui, zs; reflexivity).
  assert (HN12 : comb_of (defaults st ++ csr_num_mux st i) csr_num
                 = funct12_of (st _instr)).
  { unfold csr_num_mux. rewrite HC.
    destruct skip, ui; ev; apply trunc_funct12. }
  split; [|split; [|split; [|split; [|split; [|split; [|split; [|split;
    [|split; [|split]]]]]]]]].
  - split; [to_ctl; exact HZ|].
    split; [rewrite settled_csr_num; exact HN12|].
    split; [to_ctl; rewrite HC; destruct skip, ui; ev;
            now apply trunc_small|].
    split; [to_ctl; rewrite HC; destruct skip, ui; reflexivity|].
    split; [rewrite (settled_last_cycle st i instr_complete eq_refl), HLC;
            reflexivity|].
    to_ctl; rewrite HC; destruct skip, ui; reflexivity.
  - intros K. rewrite K in HC, HL.
    repeat split; to_ctl; rewrite HC; destruct ui; reflexivity.
  - intros K. rewrite K in HC, HL.
    split; [to_ctl; rewrite HC; destruct ui; reflexivity|].
    split; [to_ctl; rewrite HC; destruct ui; reflexivity|].
    rewrite settled_data_x_out, app_assoc, comb_of_frame
      by (rewrite HL; destruct ui; reflexivity).
    unfold x_mux. rewrite HN12, HC. unfold csr_file.
    destruct ui; reflexivity.
  - intros K. rewrite K in HC, HL.
    split; [to_ctl; rewrite HC; destruct skip; reflexivity|].
    rewrite settled_data_y_out. unfold y_mux. rewrite HC, HL, HI.
    destruct skip; ev; apply trunc_decode_imm.
  - intros K. rewrite K in HC, HL.
    split; [to_ctl; rewrite HC; destruct skip; reflexivity|].
    to_ctl. rewrite HC. destruct skip; ev; apply (trunc_reg_field 15).
  - rewrite tick_tmp. unfold tmp_update. to_ctl. rewrite HC.
    destruct skip, ui; reflexivity.
  - rewrite tick_instr_phase, settled_next_phase, HC.
    destruct skip, ui; reflexivity.
  - rewrite tick_pc. unfold pc_update.
    rewrite (settled_last_cycle st i _pc_plus_4_to_pc eq_refl), HLC.
    to_ctl. rewrite HC. destruct skip, ui; reflexivity.
  - rewrite tick_trap, HL, HF, Ht. destruct skip, ui; reflexivity.
  - rewrite tick_trap_svc, HL. destruct skip, ui; reflexivity.
  - intros r Hr. rewrite tick_csr_b by exact Hr.
    rewrite HF. unfold csr_update. to_ctl. rewrite HZ.
    rewrite settled_csr_num, HN12, HL.
    destruct skip, ui, zs; reflexivity.
Qed.

(** Phase 1 of a CSR instruction on the rising edge of [ph1]. *)
Lemma csr1_any_tick st i :
  st trap = 0 -> bits 0 2 (st _pc) = 0 -> st _instr_phase <> 0 ->
  opcode_of (st _instr) = Opcode.SYSTEM ->
  is_csr_instr (funct3_of (st _instr)) = true ->
  mcycle_end i = 1 ->
  (settled st i data_z_out = trunc 32 (st _tmp) /\
   settled st i z_reg = rd_of (st _instr) /\
   settled st i z_to_csr = 0 /\ settled st i instr_complete = 1 /\
   settled st i mem_wr = 0) /\
  tick Dph1 st i _pc = _pc_plus_4 st /\
  tick Dph1 st i memaddr = _pc_plus_4 st /\
  tick Dph1 st i _instr_phase = 0 /\
  tick Dph1 st i trap = (if interrupt_taken st i then 1 else 0) /\
  (forall r, existsb (Reg_beq r) [_mcause; _mtvec; _mepc; _mstatus] = true ->
             tick Dph1 st i r = st r) /\
  tick Dph1 st i _mtval =
    (if interrupt_taken st i then trunc 32 (st _pc) else st _mtval).
Proof.
  intros Ht Hpc Hp Ho Hc He.
  pose proof (csr1_any_handlers st i Ht Hpc Hp Ho Hc) as HL.
  pose proof (ctl_eq st i _ HL) as HC.
  assert (Hl : ctl st i _is_last_instr_cycle = 1) by (rewrite HC; reflexivity).
  destruct (completes_tick st i He Hl) as (P & M & C);
    try (rewrite HC; reflexivity).
  pose proof (last_cycle_fetch st i Ht Hpc He Hl) as HF.
  rewrite (eqb_0_false _ Hp) in HF.
  assert (HZ : ctl st i z_to_csr = 0) by (rewrite HC; reflexivity).
  split; [|split; [|split; [|split; [|split; [|split]]]]].
  - split; [rewrite settled_data_z_out; unfold z_mux; rewrite HC;
            reflexivity|].
    split; [to_ctl; rewrite HC; ev; apply (trunc_reg_field 7)|].
    split; [to_ctl; exact HZ|].
    split; [exact C|]. to_ctl. rewrite HC. reflexivity.
  - exact P.
  - exact M.
  - rewrite tick_instr_phase, settled_next_phase, HC. reflexivity.
  - rewrite tick_trap, HL, HF, Ht.
    destruct (interrupt_taken st i); reflexivity.
  - intros r Hr.
    assert (Hr' : existsb (Reg_beq r) csr_regs = true)
      by (destruct r; try discriminate Hr; reflexivity).
    rewrite tick_csr_b by exact Hr'.
    rewrite HF. unfold csr_update. to_ctl. rewrite HZ, HL.
    destruct (interrupt_taken st i); destruct r; try discriminate Hr;
      reflexivity.
  - rewrite tick_csr_b by reflexivity.
    rewrite HF. unfold csr_update. to_ctl. rewrite HZ, HL.
    destruct (interrupt_taken st i); reflexivity.
Qed.

(** The write routing, register by register. *)
Lemma csr_write_reg i num r old :
  existsb (Reg_beq r) csr_regs = true ->
  next_of Dph1 (csr_write i num) r old
  = if num =? csr_addr r then trunc 32 (data_z_in i) else old.
Proof.
  intros Hr. unfold csr_write.
  destruct (num =? CSRAddr.MCAUSE) eqn:E1;
    [apply Z.eqb_eq in E1; rewrite E1;
     destruct r; try discriminate Hr; reflexivity|].
  destruct (num =? CSRAddr.MTVEC) eqn:E2;
    [apply Z.eqb_eq in E2; rewrite E2;
     destruct r; try discriminate Hr; reflexivity|].
  destruct (num =? CSRAddr.MEPC) eqn:E3;
    [apply Z.eqb_eq in E3; rewrite E3;
     destruct r; try discriminate Hr; reflexivity|].
  destruct (num =? CSRAddr.MTVAL) eqn:E4;
    [apply Z.eqb_eq in E4; rewrite E4;
     destruct r; try discriminate Hr; reflexivity|].
  destruct (num =? CSRAddr.MSTATUS) eqn:E5;
    [apply Z.eqb_eq in E5; rewrite E5;
     destruct r; try discriminate Hr; reflexivity|].
  destruct r; try discriminate Hr; cbn [csr_addr];
    rewrite ?E1, ?E2, ?E3, ?E4, ?E5; reflexivity.
Qed.

Lemma csr0_any_cycle st i :
  st trap = 0 -> bits 0 2 (st _pc) = 0 -> st _instr_phase = 0 ->
  opcode_of (executing st i) = Opcode.SYSTEM ->
  is_csr_instr (funct3_of (executing st i)) = true ->
  (outputs st i z_to_csr = Z.b2z (negb (zero_source (executing st i))) /\
   outputs st i csr_num = funct12_of (executing st i) /\
   outputs st i alu_op_to_z = csr_alu_op (funct3_of (executing st i)) /\
   outputs st i z_reg = 0 /\ outputs st i instr_complete = 0 /\
   outputs st i mem_wr = 0) /\
  (csr_skips_read (executing st i) = true ->
   outputs st i csr_to_x = 0 /\ outputs st i reg_to_x = 1 /\
   outputs st i x_reg = 0) /\
  (csr_skips_read (executing st i) = false ->
   outputs st i csr_to_x = 1 /\ outputs st i reg_to_x = 0 /\
   outputs st i data_x_out = csr_file st (funct12_of (executing st i))) /\
  (csr_uses_imm (funct3_of (executing st i)) = true ->
   outputs st i reg_to_y = 0 /\
   outputs st i data_y_out = decode_imm OpcodeFormat.SYS (executing st i)) /\
  (csr_uses_imm (funct3_of (executing st i)) = false ->
   outputs st i reg_to_y = 1 /\
   outputs st i y_reg = rs1_of (executing st i)) /\
  machine_cycle st i _tmp = trunc 32 (data_x_in i) /\
  machine_cycle st i _instr_phase = 1 /\
  machine_cycle st i _pc = st _pc /\
  machine_cycle st i trap = 0 /\
  machine_cycle st i _trap_svc = st _trap_svc /\
  (forall r, existsb (Reg_beq r) csr_regs = true ->
             machine_cycle st i r
             = if negb (zero_source (executing st i))
                  && (funct12_of (executing st i) =? csr_addr r)
               then trunc 32 (data_z_in i) else st r).
Proof.
  intros Ht Hpc Hp Ho Hc.
  pose proof (write_half_frame st i) as FW.
  lift st i s.
  assert (FC : forall r, existsb (Reg_beq r) csr_regs = true -> s r = st r).
  { intros r Hr. apply FW; intros ->; discriminate Hr. }
  destruct (csr0_any_tick s (with_mcycle_end 1 i) Ht Hpc Hp Ho Hc)
    as (O & K1 & K2 & Y1 & Y2 & T & N & P & TR & SV & R).
  split; [exact O|]. split; [exact K1|].
  split.
  { intros K. destruct (K2 K) as (A & B & C).
    rewrite (csr_file_ext s st) in C by exact FC.
    split; [exact A|]. split; [exact B|exact C]. }
  split; [exact Y1|]. split; [exact Y2|]. split; [exact T|].
  split; [exact N|]. split; [exact P|]. split; [exact TR|].
  split; [exact SV|].
  intros r Hr. rewrite R by exact Hr.
  destruct (zero_source (s _instr)); cbn [negb andb].
  - cbn [next_of fold_left]. now apply FC.
  - rewrite csr_write_reg by exact Hr. now rewrite (FC r) by exact Hr.
Qed.

Lemma csr1_any_cycle st i :
  st trap = 0 -> bits 0 2 (st _pc) = 0 -> st _instr_phase <> 0 ->
  opcode_of (executing st i) = Opcode.SYSTEM ->
  is_csr_instr (funct3_of (executing st i)) = true ->
  (outputs st i data_z_out = trunc 32 (st _tmp) /\
   outputs st i z_reg = rd_of (executing st i) /\
   outputs st i z_to_csr = 0 /\ outputs st i instr_complete = 1 /\
   outputs st i mem_wr = 0) /\
  machine_cycle st i _pc = trunc 32 (st _pc + 4) /\
  machine_cycle st i memaddr = trunc 32 (st _pc + 4) /\
  machine_cycle st i _instr_phase = 0 /\
  machine_cycle st i trap = (if interrupt_taken st i then 1 else 0) /\
  (forall r, existsb (Reg_beq r) [_mcause; _mtvec; _mepc; _mstatus] = true ->
             machine_cycle st i r = st r) /\
  machine_cycle st i _mtval =
    (if interrupt_taken st i then trunc 32 (st _pc) else st _mtval).
Proof.
  intros Ht Hpc Hp Ho Hc.
  pose proof (write_half_frame st i) as FW.
  rewrite <- (interrupt_taken_write_half st i).
  lift st i s.
  destruct (csr1_any_tick s (with_mcycle_end 1 i) Ht Hpc Hp Ho Hc eq_refl)
    as (O & P & M & N & T & R & V).
  split; [exact O|]. split; [exact P|]. split; [exact M|].
  split; [exact N|]. split; [exact T|]. split; [|exact V].
  intros r Hr. rewrite R by exact Hr.
  apply FW; intros ->; discriminate Hr.
Qed.

(** X24. A CSR instruction takes two machine cycles and never raises an
    exception, whatever the CSR number.  The first cycle puts the number on
    [csr_num], reads the CSR onto X - except for CSRRW and CSRRWI with [rd]
    = x0, which read register 0 instead - takes [rs1] or the 5-bit
    immediate for Y, asks the ALU for Y, OR or AND-NOT, keeps X in [tmp],
    and writes Z to the CSR unless the instruction is a set or clear with a
    zero source: of the five CSR registers the one whose address is the
    number takes Z, the others keep their values.  The second cycle hands
    [tmp], the value read, to [rd] and completes. *)
Theorem csr_two_cycles (st : SequencerState) (i j : Inputs) :
  st trap = 0 -> bits 0 2 (st _pc) = 0 -> st _instr_phase = 0 ->
  opcode_of (executing st i) = Opcode.SYSTEM ->
  is_csr_instr (funct3_of (executing st i)) = true ->
  let w := executing st i in
  let s1 := machine_cycle st i in
  (outputs st i csr_num = funct12_of w /\
   outputs st i alu_op_to_z = csr_alu_op (funct3_of w) /\
   outputs st i z_to_csr = Z.b2z (negb (zero_source w)) /\
   outputs st i z_reg = 0 /\ outputs st i instr_complete = 0 /\
   outputs st i mem_wr = 0) /\
  (csr_skips_read w = true ->
   outputs st i csr_to_x = 0 /\ outputs st i reg_to_x = 1 /\
   outputs st i x_reg = 0) /\
  (csr_skips_read w = false ->
   outputs st i csr_to_x = 1 /\
   outputs st i data_x_out = csr_file st (funct12_of w)) /\
  (csr_uses_imm (funct3_of w) = true ->
   outputs st i reg_to_y = 0 /\
   outputs st i data_y_out = decode_imm OpcodeFormat.SYS w) /\
  (csr_uses_imm (funct3_of w) = false ->
   outputs st i reg_to_y = 1 /\ outputs st i y_reg = rs1_of w) /\
  (s1 _tmp = trunc 32 (data_x_in i) /\ s1 _pc = st _pc /\
   s1 _instr_phase = 1 /\ s1 trap = 0 /\
   forall r, existsb (Reg_beq r) csr_regs = true ->
             s1 r = if negb (zero_source w) && (funct12_of w =? csr_addr r)
                    then trunc 32 (data_z_in i) else st r) /\
  (outputs s1 j data_z_out = trunc 32 (data_x_in i) /\
   outputs s1 j z_reg = rd_of w /\
   outputs s1 j z_to_csr = 0 /\ outputs s1 j instr_complete = 1 /\
   outputs s1 j mem_wr = 0 /\
   machine_cycle s1 j _pc = trunc 32 (st _pc + 4) /\
   machine_cycle s1 j memaddr = trunc 32 (st _pc + 4) /\
   machine_cycle s1 j _instr_phase = 0 /\
   machine_cycle s1 j trap = (if interrupt_taken s1 j then 1 else 0) /\
   forall r, existsb (Reg_beq r) [_mcause; _mtvec; _mepc; _mstatus] = true ->
             machine_cycle s1 j r = s1 r).
Proof.
  intros Ht Hpc Hp Ho Hc. cbv zeta.
  destruct (csr0_any_cycle st i Ht Hpc Hp Ho Hc)
    as ((Z1 & Z2 & Z3 & Z4 & Z5 & Z6) & K1 & K2 & Y1 & Y2 & T & N & P & TR
        & SV & R).
  assert (E : executing (machine_cycle st i) j = executing st i)
    by (apply executing_next; rewrite N; discriminate).
  set (s1 := machine_cycle st i) in *. clearbody s1.
  assert (Hp1 : s1 _instr_phase <> 0) by (rewrite N; discriminate).
  assert (Hpc1 : bits 0 2 (s1 _pc) = 0) by (rewrite P; exact Hpc).
  assert (Ho1 : opcode_of (executing s1 j) = Opcode.SYSTEM)
    by (rewrite E; exact Ho).
  assert (Hc1 : is_csr_instr (funct3_of (executing s1 j)) = true)
    by (rewrite E; exact Hc).
  destruct (csr1_any_cycle s1 j TR Hpc1 Hp1 Ho1 Hc1)
    as ((O1 & O2 & O3 & O4 & O5) & P1 & M1 & N1 & T1 & R1 & _).
  rewrite E, P in *. rewrite T in O1.
  rewrite trunc_idem in O1 by lia.
  split.
  { split; [exact Z2|]. split; [exact Z3|]. split; [exact Z1|].
    split; [exact Z4|]. split; [exact Z5|exact Z6]. }
  split; [exact K1|].
  split.
  { intros K. destruct (K2 K) as (A & _ & C). split; [exact A|exact C]. }
  split; [exact Y1|]. split; [exact Y2|].
  split.
  { split; [exact T|]. split; [reflexivity|]. split; [exact N|].
    split; [exact TR|exact R]. }
  split; [exact O1|]. split; [exact O2|]. split; [exact O3|].
  split; [exact O4|]. split; [exact O5|]. split; [exact P1|].
  split; [exact M1|]. split; [exact N1|]. split; [exact T1|exact R1].
Qed.

Lemma csr_two_cycles_witness :
  let st := fetch_at_0x100 in
  let i := buses 0x80 0x200 csrrw_x5_mtvec_x1 in
  let j := buses 0 0 0 in
  let s1 := machine_cycle st i in
  outputs st i csr_num = CSRAddr.MTVEC /\
  outputs st i alu_op_to_z = AluOp.Y /\
  outputs st i z_to_csr = 1 /\
  outputs st i data_x_out = 0x80 /\
  outputs st i y_reg = 1 /\
  s1 _tmp = 0x80 /\ s1 _mtvec = 0x200 /\ s1 _mstatus = 8 /\
  outputs s1 j data_z_out = 0x80 /\ outputs s1 j z_reg = 5 /\
  machine_cycle s1 j _pc = 0x104 /\
  machine_cycle s1 j _mtvec = 0x200.
Proof.
  intros st i j s1.
  assert (Ht : st trap = 0) by reflexivity.
  assert (Hpc : bits 0 2 (st _pc) = 0) by reflexivity.
  assert (Hp : st _instr_phase = 0) by reflexivity.
  assert (Ho : opcode_of (executing st i) = Opcode.SYSTEM) by reflexivity.
  assert (Hc : is_csr_instr (funct3_of (executing st i)) = true)
    by reflexivity.
  destruct (csr_two_cycles st i j Ht Hpc Hp Ho Hc)
    as ((A1 & A2 & A3 & _) & _ & K & _ & Y & (T & _ & _ & _ & R)
        & (O1 & O2 & _ & _ & _ & P & _ & _ & _ & R1)).
  destruct (K eq_refl) as (_ & X). destruct (Y eq_refl) as (_ & Y1).
  pose proof (R _mtvec eq_refl) as R2. pose proof (R _mstatus eq_refl) as R3.
  pose proof (R1 _mtvec eq_refl) as R4.
  split; [exact A1|]. split; [exact A2|]. split; [exact A3|].
  split; [exact X|]. split; [exact Y1|]. split; [exact T|].
  split; [exact R2|]. split; [exact R3|]. split; [exact O1|].
  split; [exact O2|]. split; [exact P|].
  exact (eq_trans R4 R2).
Defined.

(** ** The interrupt latches *)

(** Outside trap entry no handler loads an interrupt latch. *)
Lemma instr_keeps_latches st i imm r old :
  st trap = 0 -> existsb (Reg_beq r) irq_regs = true ->
  next_of Dph1 (dispatch st i imm) r old = old.
Proof.
  intros Ht Hr. apply next_of_frame.
  unfold dispatch. rewrite Ht. change (truthy 0) with false. cbv iota.
  assert (E : forall l, forallb (fun x => negb (loads Dph1 r x)) l = true ->
                        existsb (loads Dph1 r) l = false).
  { induction l as [|x l IH]; [reflexivity|]. cbn [forallb existsb].
    intros H. apply andb_prop in H as [Hx Hl].
    apply negb_true_iff in Hx. now rewrite Hx, IH. }
  apply E. clear E.
  unfold handle_lui, handle_auipc, handle_op_imm, handle_op, alu_func_switch,
    handle_jal, handle_jalr, handle_branch, handle_load, handle_store,
    handle_system, handle_CSRRW, handle_CSRRWI, handle_CSRRS,
    handle_CSRRSI, handle_CSRRC, handle_CSRRCI, handle_PRIV, handle_MRET,
    handle_illegal_instr, csr_phase1, set_exception.
  destruct r; try discriminate Hr; walk.
Qed.

Lemma tick_latch st i r :
  st trap = 0 -> existsb (Reg_beq r) irq_regs = true ->
  tick Dph1 st i r = next_of Dph1 (irq_latch st i) r (st r).
Proof.
  intros Ht Hr. rewrite tick_ph1_blocks.
  unfold handlers. rewrite instr_keeps_latches by assumption.
  rewrite (frame _ (registers _ _) _ _ _ _ _ (registers_fp _ _))
    by (destruct r; try discriminate Hr; reflexivity).
  rewrite (frame _ (fetch _ _) _ _ _ _ _ (fetch_fp _ _))
    by (destruct r; try discriminate Hr; reflexivity).
  reflexivity.
Qed.

(** X25. The interrupt latches outside trap entry.  With [mstatus.MIE]
    clear both latches are cleared at the end of every machine cycle, so a
    request raised while interrupts are disabled is not kept.  With
    [mstatus.MIE] set a latch that is set stays set and a latch that is
    clear takes its request line; no instruction touches either.  When an
    interrupt is taken, the request lines being single bits, at least one
    latch is set as the card enters the trap. *)
Theorem irq_latches (st : SequencerState) (i : Inputs) :
  st trap = 0 ->
  (bit MStatus.MIE (st _mstatus) = 0 ->
   machine_cycle st i _reg_time_irq = 0 /\
   machine_cycle st i _reg_ext_irq = 0) /\
  (bit MStatus.MIE (st _mstatus) <> 0 ->
   machine_cycle st i _reg_time_irq
   = (if st _reg_time_irq =? 0 then trunc 1 (time_irq i)
      else st _reg_time_irq) /\
   machine_cycle st i _reg_ext_irq
   = (if st _reg_ext_irq =? 0 then trunc 1 (ext_irq i)
      else st _reg_ext_irq)) /\
  (interrupt_taken st i = true ->
   0 <= time_irq i < 2 -> 0 <= ext_irq i < 2 ->
   machine_cycle st i _reg_time_irq <> 0 \/
   machine_cycle st i _reg_ext_irq <> 0).
Proof.
  intros Ht.
  assert (L : forall r, existsb (Reg_beq r) irq_regs = true ->
              machine_cycle st i r
              = next_of Dph1 (irq_latch st (with_mcycle_end 1 i)) r (st r)).
  { intros r Hr. unfold machine_cycle.
    rewrite tick_latch
      by (try exact Hr; rewrite write_half_frame by discriminate; exact Ht).
    unfold irq_latch.
    rewrite !write_half_frame
      by (try discriminate; destruct r; discriminate). reflexivity. }
  rewrite (L _reg_time_irq), (L _reg_ext_irq) by reflexivity. clear L.
  unfold irq_latch. rewrite Ht. change (0 =? 0) with true. cbv iota.
  unfold truthy.
  change (time_irq (with_mcycle_end 1 i)) with (time_irq i).
  change (ext_irq (with_mcycle_end 1 i)) with (ext_irq i).
  split; [|split].
  - intros H. rewrite H. split; reflexivity.
  - intros H. apply Z.eqb_neq in H. rewrite H. cbn [negb].
    destruct (st _reg_time_irq =? 0) eqn:A;
      destruct (st _reg_ext_irq =? 0) eqn:B; split; reflexivity.
  - intros H Rt Re. unfold interrupt_taken, truthy in H.
    apply andb_prop in H as [H M]. apply andb_prop in H as [_ H].
    rewrite M.
    assert (C : time_irq i = 1 \/ (time_irq i = 0 /\ ext_irq i = 1)).
    { apply negb_true_iff, Z.eqb_neq in H.
      assert (T : time_irq i = 0 \/ time_irq i = 1) by lia.
      assert (E : ext_irq i = 0 \/ ext_irq i = 1) by lia.
      destruct T as [T|T]; destruct E as [E|E]; rewrite T, E in H;
        try (exfalso; apply H; reflexivity); auto. }
    destruct (st _reg_time_irq =? 0) eqn:A;
      destruct (st _reg_ext_irq =? 0) eqn:B;
      apply Z.eqb_eq in A || apply Z.eqb_neq in A;
      apply Z.eqb_eq in B || apply Z.eqb_neq in B;
      destruct C as [C|[C D]]; rewrite ?C, ?D;
      cbn [app next_of fold_left];
      first [ left; vm_compute; discriminate
            | right; vm_compute; discriminate
            | left; exact A | right; exact B
            | idtac ].
Qed.

Lemma irq_latches_witness :
  let st := fetch_at_0x100 in
  let i := irqs 0 1 (buses 0 0 nop) in
  interrupt_taken st i = true /\
  machine_cycle st i _reg_time_irq = 0 /\
  machine_cycle st i _reg_ext_irq = 1 /\
  (machine_cycle st i _reg_time_irq <> 0 \/
   machine_cycle st i _reg_ext_irq <> 0).
Proof.
  intros st i.
  assert (Ht : st trap = 0) by reflexivity.
  assert (Hm : bit MStatus.MIE (st _mstatus) <> 0)
    by (vm_compute; discriminate).
  assert (Hi : interrupt_taken st i = true) by reflexivity.
  assert (Rt : 0 <= time_irq i < 2) by (cbn; lia).
  assert (Re : 0 <= ext_irq i < 2) by (cbn; lia).
  destruct (irq_latches st i Ht) as (_ & S & T).
  destruct (S Hm) as (A & B).
  split; [exact Hi|]. split; [exact A|]. split; [exact B|].
  exact (T Hi Rt Re).
Defined.

End CardBehaviour.

(** * The CSR routing and the CSR reads that write nothing *)

Module CsrAccess.
Module Rom := SequencerROM.
Import SequencerCard CardFacts RomFacts CardBehaviour.

(** The read routing at the address of each of its five registers, and at
    any other address. *)
Lemma csr_file_addr st r :
  existsb (Reg_beq r) csr_regs = true ->
  csr_file st (csr_addr r) = trunc 32 (st r).
Proof.
  intros Hr. rewrite csr_file_eq.
  destruct r; try discriminate Hr; reflexivity.
Qed.

Lemma csr_file_unknown st num :
  (forall r, existsb (Reg_beq r) csr_regs = true -> num <> csr_addr r) ->
  csr_file st num = 0.
Proof.
  intros H. rewrite csr_file_eq.
  pose proof (proj2 (Z.eqb_neq _ _) (H _mcause eq_refl)) as E1.
  pose proof (proj2 (Z.eqb_neq _ _) (H _mtvec eq_refl)) as E2.
  pose proof (proj2 (Z.eqb_neq _ _) (H _mepc eq_refl)) as E3.
  pose proof (proj2 (Z.eqb_neq _ _) (H _mtval eq_refl)) as E4.
  pose proof (proj2 (Z.eqb_neq _ _) (H _mstatus eq_refl)) as E5.
  cbn [csr_addr] in E1, E2, E3, E4, E5.
  now rewrite E1, E2, E3, E4, E5.
Qed.

Lemma unrouted_addr num r :
  num = CSRAddr.MIE \/ num = CSRAddr.MIP ->
  existsb (Reg_beq r) csr_regs = true -> num <> csr_addr r.
Proof.
  intros [->| ->] Hr; destruct r; try discriminate Hr; discriminate.
Qed.

(** C4 (amended). The card routes five CSR addresses.  In the cycle in
    which a CSR instruction reads its CSR, the card drives onto X the 32
    bits stored in [mstatus], [mtvec], [mepc], [mcause] or [mtval] when the
    instruction names MSTATUS, MTVEC, MEPC, MCAUSE or MTVAL; in the cycle
    in which it writes, the register named takes the 32 bits of Z at the
    end of the cycle and the other four keep their values.  MIE and MIP,
    like any address but the five, are not routed: the read leaves 0 on X
    and the write changes none of the five registers. *)
Theorem C4_csr_routing (st : SequencerState) (i : Inputs) :
  st trap = 0 -> bits 0 2 (st _pc) = 0 -> st _instr_phase = 0 ->
  opcode_of (executing st i) = Opcode.SYSTEM ->
  is_csr_instr (funct3_of (executing st i)) = true ->
  let num := funct12_of (executing st i) in
  outputs st i csr_num = num /\
  (csr_skips_read (executing st i) = false ->
   outputs st i csr_to_x = 1 /\
   (num = CSRAddr.MSTATUS ->
    outputs st i data_x_out = trunc 32 (st _mstatus)) /\
   (num = CSRAddr.MTVEC ->
    outputs st i data_x_out = trunc 32 (st _mtvec)) /\
   (num = CSRAddr.MEPC ->
    outputs st i data_x_out = trunc 32 (st _mepc)) /\
   (num = CSRAddr.MCAUSE ->
    outputs st i data_x_out = trunc 32 (st _mcause)) /\
   (num = CSRAddr.MTVAL ->
    outputs st i data_x_out = trunc 32 (st _mtval)) /\
   (num = CSRAddr.MIE \/ num = CSRAddr.MIP ->
    outputs st i data_x_out = 0) /\
   ((forall r, existsb (Reg_beq r) csr_regs = true -> num <> csr_addr r) ->
    outputs st i data_x_out = 0)) /\
  (zero_source (executing st i) = false ->
   outputs st i z_to_csr = 1 /\
   (num = CSRAddr.MSTATUS ->
    machine_cycle st i _mstatus = trunc 32 (data_z_in i)) /\
   (num = CSRAddr.MTVEC ->
    machine_cycle st i _mtvec = trunc 32 (data_z_in i)) /\
   (num = CSRAddr.MEPC ->
    machine_cycle st i _mepc = trunc 32 (data_z_in i)) /\
   (num = CSRAddr.MCAUSE ->
    machine_cycle st i _mcause = trunc 32 (data_z_in i)) /\
   (num = CSRAddr.MTVAL ->
    machine_cycle st i _mtval = trunc 32 (data_z_in i)) /\
   (forall r, existsb (Reg_beq r) csr_regs = true -> num <> csr_addr r ->
              machine_cycle st i r = st r) /\
   (num = CSRAddr.MIE \/ num = CSRAddr.MIP ->
    forall r, existsb (Reg_beq r) csr_regs = true ->
              machine_cycle st i r = st r)).
Proof.
  intros Ht Hpc Hp Ho Hc. cbv zeta.
  destruct (csr0_any_cycle st i Ht Hpc Hp Ho Hc)
    as ((Z1 & Z2 & _) & _ & K2 & _ & _ & _ & _ & _ & _ & _ & R).
  split; [exact Z2|]. split.
  - intros K. destruct (K2 K) as (A & _ & X). rewrite X.
    split; [exact A|].
    split; [intros ->; exact (csr_file_addr st _mstatus eq_refl)|].
    split; [intros ->; exact (csr_file_addr st _mtvec eq_refl)|].
    split; [intros ->; exact (csr_file_addr st _mepc eq_refl)|].
    split; [intros ->; exact (csr_file_addr st _mcause eq_refl)|].
    split; [intros ->; exact (csr_file_addr st _mtval eq_refl)|].
    split.
    + intros U. apply csr_file_unknown. intros r Hr.
      now apply unrouted_addr.
    + apply csr_file_unknown.
  - intros W. rewrite W in Z1, R. cbn [negb andb Z.b2z] in Z1, R.
    split; [exact Z1|].
    assert (S : forall r, existsb (Reg_beq r) csr_regs = true ->
                funct12_of (executing st i) = csr_addr r ->
                machine_cycle st i r = trunc 32 (data_z_in i)).
    { intros r Hr E. rewrite (R r Hr), E, Z.eqb_refl. reflexivity. }
    assert (N : forall r, existsb (Reg_beq r) csr_regs = true ->
                funct12_of (executing st i) <> csr_addr r ->
                machine_cycle st i r = st r).
    { intros r Hr E. rewrite (R r Hr).
      now rewrite (proj2 (Z.eqb_neq _ _) E). }
    split; [exact (S _mstatus eq_refl)|].
    split; [exact (S _mtvec eq_refl)|].
    split; [exact (S _mepc eq_refl)|].
    split; [exact (S _mcause eq_refl)|].
    split; [exact (S _mtval eq_refl)|].
    split; [exact N|].
    intros U r Hr. apply N; [exact Hr|]. now apply unrouted_addr.
Qed.

Lemma C4_csr_routing_witness :
  let st := fetch_at_0x100 in
  let i := buses 0x80 0x200 csrrw_x5_mtvec_x1 in
  outputs st i csr_num = CSRAddr.MTVEC /\
  outputs st i csr_to_x = 1 /\
  outputs st i data_x_out = 0x80 /\
  outputs st i z_to_csr = 1 /\
  machine_cycle st i _mtvec = 0x200 /\
  machine_cycle st i _mstatus = 8.
Proof.
  intros st i.
  assert (Ht : st trap = 0) by reflexivity.
  assert (Hpc : bits 0 2 (st _pc) = 0) by reflexivity.
  assert (Hp : st _instr_phase = 0) by reflexivity.
  assert (Ho : opcode_of (executing st i) = Opcode.SYSTEM) by reflexivity.
  assert (Hc : is_csr_instr (funct3_of (executing st i)) = true)
    by reflexivity.
  destruct (C4_csr_routing st i Ht Hpc Hp Ho Hc) as (N & Rd & Wr).
  destruct (Rd eq_refl) as (A & _ & X & _).
  destruct (Wr eq_refl) as (B & _ & W & _ & _ & _ & K & _).
  split; [exact N|]. split; [exact A|]. split; [exact (X eq_refl)|].
  split; [exact B|]. split; [exact (W eq_refl)|].
  exact (K _mstatus eq_refl ltac:(discriminate)).
Defined.


(** A set or clear is one of the six CSR instructions, and reads its
    CSR. *)
Lemma zero_source_reads w :
  zero_source w = true ->
  is_csr_instr (funct3_of w) = true /\ csr_skips_read w = false.
Proof.
  intros H. apply zero_source_cases in H. unfold csr_skips_read.
  destruct H as [[F _]|[[F _]|[[F _]|[F _]]]]; rewrite F;
    split; reflexivity.
Qed.

(** The card over the two cycles of a set or clear with a zero source. *)
Lemma zero_source_two_cycles st i j :
  st trap = 0 -> bits 0 2 (st _pc) = 0 -> st _instr_phase = 0 ->
  opcode_of (executing st i) = Opcode.SYSTEM ->
  zero_source (executing st i) = true ->
  let w := executing st i in
  let s1 := machine_cycle st i in
  let s2 := machine_cycle s1 j in
  (outputs st i z_to_csr = 0 /\ outputs s1 j z_to_csr = 0) /\
  (outputs st i csr_to_x = 1 /\ outputs st i csr_num = funct12_of w /\
   s1 _tmp = trunc 32 (data_x_in i) /\
   outputs s1 j data_z_out = trunc 32 (data_x_in i) /\
   outputs s1 j z_reg = rd_of w /\ outputs s1 j instr_complete = 1) /\
  (forall r, existsb (Reg_beq r) csr_regs = true ->
             funct12_of w = csr_addr r ->
             outputs st i data_x_out = trunc 32 (st r) /\
             (data_x_in i = outputs st i data_x_out ->
              outputs s1 j data_z_out = trunc 32 (st r))) /\
  ((forall r, existsb (Reg_beq r) csr_regs = true ->
              funct12_of w <> csr_addr r) ->
   outputs st i data_x_out = 0) /\
  (forall r, existsb (Reg_beq r) csr_regs = true -> s1 r = st r) /\
  (forall r, existsb (Reg_beq r) [_mcause; _mtvec; _mepc; _mstatus] = true ->
             s2 r = st r) /\
  s2 _mtval = (if interrupt_taken st j then trunc 32 (st _pc) else st _mtval).
Proof.
  intros Ht Hpc Hp Ho Hz. cbv zeta.
  destruct (zero_source_reads _ Hz) as [Hc Hk].
  destruct (csr0_any_cycle st i Ht Hpc Hp Ho Hc)
    as ((Z1 & Z2 & _) & _ & K2 & _ & _ & T & N & P & TR & SV & R).
  destruct (K2 Hk) as (A & _ & X). clear K2.
  rewrite Hz in Z1, R. cbn [negb andb Z.b2z] in Z1, R.
  assert (E : executing (machine_cycle st i) j = executing st i)
    by (apply executing_next; rewrite N; discriminate).
  rewrite <- (interrupt_taken_ext (machine_cycle st i) st j SV
                (R _mstatus eq_refl)).
  set (s1 := machine_cycle st i) in *. clearbody s1.
  assert (Hp1 : s1 _instr_phase <> 0) by (rewrite N; discriminate).
  assert (Hpc1 : bits 0 2 (s1 _pc) = 0) by (rewrite P; exact Hpc).
  assert (Ho1 : opcode_of (executing s1 j) = Opcode.SYSTEM)
    by (rewrite E; exact Ho).
  assert (Hc1 : is_csr_instr (funct3_of (executing s1 j)) = true)
    by (rewrite E; exact Hc).
  destruct (csr1_any_cycle s1 j TR Hpc1 Hp1 Ho1 Hc1)
    as ((O1 & O2 & O3 & O4 & _) & _ & _ & _ & _ & R1 & V).
  rewrite E in O2. rewrite T in O1. rewrite trunc_idem in O1 by lia.
  rewrite P, (R _mtval eq_refl) in V.
  split; [split; [exact Z1|exact O3]|].
  split.
  { split; [exact A|]. split; [exact Z2|]. split; [exact T|].
    split; [exact O1|]. split; [exact O2|exact O4]. }
  split.
  { intros r Hr Er. rewrite X, Er, (csr_file_addr st r Hr).
    split; [reflexivity|].
    intros B. rewrite O1, B. apply trunc_idem. lia. }
  split; [intros U; rewrite X; now apply csr_file_unknown|].
  split; [exact R|]. split; [|exact V].
  intros r Hr. rewrite (R1 r Hr). apply R.
  destruct r; try discriminate Hr; reflexivity.
Qed.

(** C9 (amended). A CSRRS or CSRRC whose [rs1] is x0, and a CSRRSI or
    CSRRCI whose immediate is 0, writes no CSR and hands the old value of
    the CSR to [rd].  In the card, over the two cycles of the instruction,
    [z_to_csr] stays low.  The first cycle drives the stored value of the
    addressed register onto X (0 for an address that is not routed) and
    keeps the X bus in [tmp], all five CSR registers holding; the second
    puts [tmp] on Z for [rd], so that with the X bus carrying what the card
    drives [rd] is handed the value the CSR had before the instruction.
    After the second cycle [mcause], [mtvec], [mepc] and [mstatus] still
    have their values; [mtval] has its value too unless an interrupt is
    taken at the end of the instruction, when the trap logic stores the PC
    there.  In the ROM [z_to_csr] is low, phase 0 selects X for [tmp] with
    [csr_to_x] high and phase 1 selects [tmp] for Z and [rd] for the
    register written. *)
Theorem C9_zero_source_reads_only :
  (forall st i j,
     st trap = 0 -> bits 0 2 (st _pc) = 0 -> st _instr_phase = 0 ->
     opcode_of (executing st i) = Opcode.SYSTEM ->
     zero_source (executing st i) = true ->
     let w := executing st i in
     let s1 := machine_cycle st i in
     let s2 := machine_cycle s1 j in
     (outputs st i z_to_csr = 0 /\ outputs s1 j z_to_csr = 0) /\
     (outputs st i csr_to_x = 1 /\ outputs st i csr_num = funct12_of w /\
      s1 _tmp = trunc 32 (data_x_in i) /\
      outputs s1 j data_z_out = trunc 32 (data_x_in i) /\
      outputs s1 j z_reg = rd_of w /\ outputs s1 j instr_complete = 1) /\
     (forall r, existsb (Reg_beq r) csr_regs = true ->
                funct12_of w = csr_addr r ->
                outputs st i data_x_out = trunc 32 (st r) /\
                (data_x_in i = outputs st i data_x_out ->
                 outputs s1 j data_z_out = trunc 32 (st r))) /\
     ((forall r, existsb (Reg_beq r) csr_regs = true ->
                 funct12_of w <> csr_addr r) ->
      outputs st i data_x_out = 0) /\
     (forall r, existsb (Reg_beq r) csr_regs = true -> s1 r = st r) /\
     (forall r,
        existsb (Reg_beq r) [_mcause; _mtvec; _mepc; _mstatus] = true ->
        s2 r = st r) /\
     s2 _mtval
     = (if interrupt_taken st j then trunc 32 (st _pc) else st _mtval)) /\
  (forall i,
     truthy (Rom.enable_sequencer_rom i) = true ->
     Rom.opcode_select i = OpcodeSelect.CSRS ->
     ((Rom._funct3 i = SystemFunc.CSRRS \/ Rom._funct3 i = SystemFunc.CSRRC)
      /\ Rom.rs1_0 i = 1) \/
     ((Rom._funct3 i = SystemFunc.CSRRSI \/ Rom._funct3 i = SystemFunc.CSRRCI)
      /\ Rom.imm0 i = 1) ->
     Rom.outputs i Rom.z_to_csr = 0 /\
     (Rom._instr_phase i = 0 ->
      Rom.outputs i Rom.csr_to_x = 1 /\
      Rom.outputs i Rom.tmp_mux_select = SeqMuxSelect.X) /\
     (Rom._instr_phase i <> 0 ->
      Rom.outputs i Rom.z_mux_select = SeqMuxSelect.TMP /\
      Rom.outputs i Rom._z_reg_select = InstrReg.RD)).
Proof.
  split.
  - intros st i j Ht Hpc Hp Ho Hz.
    exact (zero_source_two_cycles st i j Ht Hpc Hp Ho Hz).
  - intros i He Ho Hs.
    destruct (rom_csr_zero_source i He Ho Hs) as (A & _ & P0 & P1).
    split; [exact A|]. split.
    + intros Hp. destruct (P0 Hp) as (B & C & _). split; assumption.
    + intros Hp. destruct (P1 Hp) as (B & C & _). split; assumption.
Qed.

Lemma C9_zero_source_reads_only_witness :
  let st := fetch_at_0x100 in
  let i := buses 8 0 csrrs_x5_mstatus_x0 in
  let j := buses 0 0 0 in
  let s1 := machine_cycle st i in
  let s2 := machine_cycle s1 j in
  outputs st i z_to_csr = 0 /\ outputs s1 j z_to_csr = 0 /\
  outputs st i data_x_out = 8 /\
  outputs s1 j data_z_out = 8 /\ outputs s1 j z_reg = 5 /\
  s2 _mstatus = 8 /\ s2 _mtval = 0.
Proof.
  intros st i j s1 s2.
  assert (Ht : st trap = 0) by reflexivity.
  assert (Hpc : bits 0 2 (st _pc) = 0) by reflexivity.
  assert (Hp : st _instr_phase = 0) by reflexivity.
  assert (Ho : opcode_of (executing st i) = Opcode.SYSTEM) by reflexivity.
  assert (Hz : zero_source (executing st i) = true) by reflexivity.
  destruct (proj1 C9_zero_source_reads_only st i j Ht Hpc Hp Ho Hz)
    as ((Z1 & Z2) & (_ & _ & _ & _ & O & _) & Rd & _ & _ & K & V).
  destruct (Rd _mstatus eq_refl eq_refl) as (X & Zo).
  split; [exact Z1|]. split; [exact Z2|]. split; [exact X|].
  split; [exact (Zo eq_refl)|]. split; [exact O|].
  split; [exact (K _mstatus eq_refl)|exact V].
Defined.

(** The claim as stated fails for [mtval]: CSRRS x5, mtval, x0 is run with
    0x1234 in [mtval] and the timer line rises in its second cycle.  The
    instruction writes no CSR and hands 0x1234 to x5, yet [mtval] holds the
    PC afterwards. *)
Lemma C9_counterexample :
  let st := mtval_0x1234 in
  let i := buses 0x1234 0 csrrs_x5_mtval_x0 in
  let j := irqs 1 0 (buses 0 0 0) in
  let s1 := machine_cycle st i in
  let s2 := machine_cycle s1 j in
  (zero_source (executing st i) = true /\
   funct12_of (executing st i) = CSRAddr.MTVAL /\ st _mtval = 0x1234) /\
  (outputs st i z_to_csr = 0 /\ outputs s1 j z_to_csr = 0 /\
   outputs st i data_x_out = 0x1234 /\
   outputs s1 j z_reg = 5 /\ outputs s1 j data_z_out = 0x1234) /\
  (s2 _mtval = 0x100 /\ s2 _mtval <> st _mtval).
Proof. vm_compute. repeat split; (reflexivity || discriminate). Qed.

End CsrAccess.
